(* ===== verification/_CoqProject ===== *)
-Q . S2P
Prelude.v
Common.v
Sys.v
Crc.v
Key.v
Offset.v
Wal.v
SegmentBase.v
SegmentOps.v
SegmentFile.v
SegmentBlockDev.v
SegmentManager.v
ManagerState.v
ManagerTheorems.v
ManagerProgress.v
Index.v
IndexData.v
IndexCompaction.v
IndexRecovery.v
IndexTheorems.v
IndexExamples.v
Lfuda.v
AgeCount.v
LfudaTheorems.v
Lock.v
Backend.v
IndexBackend.v
IndexBackendTheorems.v
BackendFiles.v
IndexLogging.v
IndexThreads.v
ThreadTheorems.v
ThreadRefinement.v
ThreadRaces.v
BackendDisk.v
BackendRestart.v
BackendFrame.v
MemoryBackend.v
Namespaces.v
Service.v
ServiceTheorems.v
Background.v
StatsThread.v
EtcdClient.v
Config.v
ConfigTheorems.v
Server.v
ServerExamples.v
SharedDisk.v
Prebuild.v
