(* ===== verification/Prelude.v ===== *)
(** * ParaKV: a verification library

    ParaKV is a key-value cache server in C++.  A client sends batches of reads,
    writes and deletes over RPC; each batch names a namespace, each namespace
    has a storage backend, and the persistent backend keeps values in slots of
    segment files, with an index from keys to slots, a write-ahead log and
    snapshots of the index, an LFU cache that picks the keys to evict, and a
    thread that compacts segments.  This library translates the program into
    executable Rocq definitions, part by part, and proves what the parts promise
    to each other and what the server promises to its clients.  Source paths
    below are relative to [src/parakv/].

    ** The parts and their files, from the bottom up

    - [Prelude] (this file): machine integers, byte lists, the monad [Outcome]
      for code whose behaviour may be undefined, generic lemmas, tactics.
    - [Common]: [common/status.h].
    - [Sys]: the system calls the storage layers use.  A file has the contents
      that reads see and the contents that were synced; a script decides which
      calls fail, are interrupted or transfer less than asked, so that a theorem
      about all scripts is about all failures.  [no_eio] says that none fails;
      [crash_image] what a power loss can leave.
    - [Crc], [Key], [Offset], [Wal]: [core/index/wal.h], [wal.cc] (the record
      format with its CRC, [WalWriter], [WalReader]), [core/index/key.h] and
      [core/index/offset.h].
    - [SegmentBase], [SegmentOps], [SegmentFile], [SegmentBlockDev]:
      [core/segment/segment_base.*], [segment_file.*], [segment_block_dev.*].
      [SegmentBase] is the layout, bitmap and counters; [SegmentOps] has the slot
      operations once, over the class [SlotStore], which files and block devices
      implement and whose promises are [SlotStoreLaws].
    - [SegmentManager], [ManagerState], [ManagerTheorems], [ManagerProgress]:
      [core/segment/segment_manager.*].
    - [Index], [IndexData], [IndexCompaction], [IndexRecovery], [IndexTheorems],
      [IndexExamples], [IndexLogging]: [core/index/index.h], [index.cc], generic
      in the key type, the segments and the map library.
    - [IndexThreads], [ThreadTheorems], [ThreadRefinement], [ThreadRaces]: the
      same calls as several threads run them, step by step.
    - [Lfuda], [AgeCount], [LfudaTheorems], [Lock]: [core/cache/lfuda_cache.h],
      [allow.h] and [lock.h]; the halving of counts in binary32; the methods of
      the cache as several threads run them behind its lock.
    - [Backend]: [core/kvcache_storage/kvcache_storage_backend.h] as the class
      [KVCacheStorageBackend], and what a backend promises as [BackendLaws].
    - [IndexBackend], [IndexBackendTheorems], [BackendFiles], [BackendDisk],
      [BackendRestart], [BackendFrame]: [index_kvcache_storage_backend.*].
    - [MemoryBackend]: [mocked_inmemory_kvcache_storage.*].
    - [Namespaces]: [backend_namespace_manager.*], for any backend.
    - [Service], [ServiceTheorems]: [proto/kvcache_storage_service.proto] and
      [service/kvcache_storage_service_impl.*].
    - [Background]: calls of concurrent batches and rounds of background work.
    - [StatsThread]: starting and stopping the statistics thread of the index
      backend, as a state machine of two threads.
    - [EtcdClient]: [common/etcd_client.*].
    - [Config], [ConfigTheorems]: [backend_registry.*], [global_gflags.*] and
      [main] of [parakv.cc].
    - [Server], [ServerExamples]: the whole program.
    - [SharedDisk]: the index backends of several namespaces on one disk.
    - [Prebuild]: [utils.py] and a part of [setup.py] above [src/parakv/].

    State is a record with the fields of the class, an operation is a function
    with the name of the method that returns its result and the new state, and
    errors are values ([Status], [BackendCode]).  Undefined behaviour is the
    outcome [UB]; a theorem that an operation has a result shows that it is not
    [UB].  Unsigned integers are [Z] with the wrap-around written out; [float]
    and [double] are [SpecFloat].  Hash maps are [gmap]; where the code iterates
    over an unordered container the order is a parameter [iter] (or [key_order])
    and the theorems hold for every order.  Readings of clocks are arguments.

    ** What the theorems show

    - Log: [WalRecord_roundtrip], [WalRecord_detects_corruption],
      [Crc32_equals_reference]; appends under any failures
      ([WalWriter_Append_contract], [AppendBatch_contract]); replay of a log with
      a torn tail terminates and applies the complete records
      ([Replay_applies_the_log]).
    - Segments: a segment on a file or a device is an append-only table of slots
      ([SegmentFile_refines_slot_table], [SegmentBlockDev_refines_slot_table]),
      keeps its slots when it is closed and reopened ([SegmentFile_reopen]) and
      when the process stops during a write ([SegmentFile_Insert_crash_atomic],
      [SegmentFile_Delete_crash_atomic]); a loss of power during an insertion
      leaves the older slots alone.
    - Segment manager: each segment is idle, appending or full
      ([manager_partition_invariant]); the state file is atomic and reads back;
      compaction loses nothing whatever fails ([RunCompaction_keeps_payloads])
      and makes room when nothing fails ([RunCompaction_reclaims]).
    - Index: a map from keys to values ([Index_refines_map]), durable across
      restarts and failures ([run_survives_restart], [Put_survives_restart],
      [Delete_survives_restart], [Checkpoint_survives_restart],
      [Index_Open_recovers]); compaction keeps it ([compaction_keeps_index]).
    - Threads on an index: concurrent [Put]s and [Delete]s act as atomic calls on a
      map, and a [Get] that hits returns what the map had during its run, as long
      as the log neither fails nor is checkpointed and no compaction runs
      ([concurrent_index_refines]); with checkpoints and compaction, calls do not
      block each other: each can do a step, or waits for one that can, or is at one
      of two places where its step is undefined ([calls_do_not_block]).
      [calls_alone] ties the steps to the calls of [Index].
    - LFU cache: a bounded list of elements ([lfuda_refines_list]), its
      structures stay tied together ([lfuda_well_formed]), aging terminates
      ([dynamic_age_terminates]); behind the lock its methods are atomic
      ([lfuda_concurrent]).
    - Backends: the index backend is a cache of values and metadata
      ([IndexBackend_refines_cache]) that survives [Close] and a new start
      ([IndexBackend_restart]) and, when no compaction ran, the kill of the
      process between two calls ([IndexBackend_crash_restart]); the in-memory one
      expires entries on time, [Delete] of an expired one aside
      ([MemoryBackend_expiry]); stopping the statistics thread ends
      ([StopStatsThread_returns]).
    - Service and server: index backends of namespaces on one disk do not see each
      other, if the names of their directories differ ([namespaces_isolated]); a
      batch is the sequence of its items
      ([batches_are_sequences]); a read never returns anything but the last
      acknowledged write, in the service with any backends
      ([service_never_stale]), in [main] with in-memory backends, from the flags
      to [Close] and its exit code ([memory_server_never_stale]), with index
      backends over two sessions, with rounds of compaction between the batches
      and the first session closed, or without them and the first session killed
      ([index_server_never_stale]), and when calls of concurrent batches and
      rounds of compaction alternate in any order ([index_server_concurrent]).
    - Etcd client: it stays in its namespace and leaves no watcher or lease
      behind ([EtcdClient_run]).
    - Build: [pre_build] returns exactly if the submodules and the library are in
      order ([pre_build_checks]).

    The examples in [IndexExamples], [LfudaTheorems], [SharedDisk] and others
    are runs in which the code does not do what it means to: among them two in
    which compaction loses an acknowledged write after a crash although no call
    failed ([compaction_checkpoint_loses_key],
    [retried_compaction_brings_back_old_value]), and the undefined iteration of
    [GetActiveSegment] when an appending segment has no free slot
    ([GetActiveSegment_exhausted]).  Those in [ThreadRaces] are interleavings of
    calls: two [Put]s of one key that are logged in the wrong order, a [Put] that
    a checkpoint forgets or that uses the log while it is replaced, a [Get] or
    the end of a [Put] that meets a slot compaction has reused.  The refinement theorems of the index backend
    and of the server name that last situation as the only one in which a call
    has no result.

    ** Fuel

    Loops that are not structural take fuel and have no result when it is used
    up; each theorem that uses them shows that the fuel given is enough.
    [replay_loop] gets one round more than the log has bytes, and every round
    that goes on consumes a record; [dynamic_age_loop] one more than the cache
    has nodes, and every round puts a node behind those that are left; [evict]
    one more than there are hot segments, and every round removes one.  Loops
    that retry interrupted system calls recurse on the script.

    ** Assumptions

    Code outside the sources is a parameter, a class with the laws the program
    relies on: the snapshot functions of phmap ([Phmap]), the position of equal
    counts in the btree ([Btree]), the block device ([BlockDeviceIO]), the etcd
    library ([Etcd]), the server of brpc ([BrpcServer]), subprocesses ([run] in
    [Prebuild]); each has an instance in the examples.  The theorems on the
    backends and the server take a call on a backend as one step, and let calls
    of different batches and rounds of compaction alternate; what threads inside
    the calls of one index can do to each other is in [IndexThreads], where a
    step is a section of code under a mutex or an access to an unguarded
    variable, a round of compaction is one step (which waits while another call
    holds [checkpoint_mutex_], if it may take a checkpoint), and a snapshot of the
    map is taken at once.  The index files and the segment files of a backend are
    two file systems with scripts of their own.  In [Namespaces], [Service] and
    [Server] a backend has the files of its directory to itself; [SharedDisk]
    shows for index backends that this is so on one disk when the sanitized names
    differ, and what happens when they do not ([colliding_namespaces]).  Restarts
    of a backend and of the server are shown for scripts without failures, on the
    files as the operating system has them; failures are covered for the index
    alone, and a loss of power for single segments.  The laws of the etcd library
    are about leases that do not run out and a server with no other client.

    ** Not modelled

    Logging; gflags, glog, brpc and the wire format of protocol buffers;
    [client/] and [server/], classes without operations; [to_string] of [allow.h]
    and [lock.h], declared without a definition; [get_python_version] and
    [get_cmake_dir] of [utils.py]; of [setup.py] all but the commands of
    [build_cmake_targets], because its classes are commands of setuptools; the
    tests.  Memory exhaustion, exceptions of the standard library and the weak
    memory model are not part of the model. *)

From stdpp Require Export base numbers list gmap strings fin_maps.
From Stdlib Require Export ZArith Lia.
From Stdlib Require Import Btauto.

#[export] Set Default Goal Selector "!".

Declare Scope pk_scope.
Delimit Scope pk_scope with pk.
#[global] Open Scope Z_scope.

(** ** Machine integers

    A [w]-bit unsigned integer is a [Z]; every operation that can leave the
    range wraps with one of the functions below. *)

Definition u8 (z : Z) : Z := z mod 2 ^ 8.
Definition u32 (z : Z) : Z := z mod 2 ^ 32.
Definition u64 (z : Z) : Z := z mod 2 ^ 64.

(** Two's complement reinterpretation of the low 32 bits. *)
Definition i32 (z : Z) : Z :=
  if u32 z <? 2 ^ 31 then u32 z else u32 z - 2 ^ 32.

Definition UINT64_MAX : Z := 2 ^ 64 - 1.

Definition byte_ok (b : Z) : Prop := 0 <= b < 256.
Definition bytes_ok (l : list Z) : Prop := Forall byte_ok l.

(** [x in_u w] : the value fits in [w] unsigned bits. *)
Definition in_u (w x : Z) : Prop := 0 <= x < 2 ^ w.

Notation "x '∈ᵤ' w" := (in_u w x) (at level 70) : pk_scope.
#[global] Open Scope pk_scope.

#[export] Instance byte_ok_dec b : Decision (byte_ok b).
Proof. unfold byte_ok. apply _. Defined.

#[export] Instance bytes_ok_dec l : Decision (bytes_ok l).
Proof. unfold bytes_ok. apply _. Defined.

#[export] Instance in_u_dec w x : Decision (in_u w x).
Proof. unfold in_u. apply _. Defined.

(** [s.empty()]. *)
Definition is_empty (s : string) : bool := bool_decide (s = EmptyString).

Lemma str_app_cons c s t : String c s +:+ t = String c (s +:+ t).
Proof. done. Qed.

Lemma str_app_nil_r s : s +:+ EmptyString = s.
Proof. induction s as [|c s IH]; [done|]. by rewrite str_app_cons, IH. Qed.

Lemma str_app_assoc s t u : (s +:+ t) +:+ u = s +:+ (t +:+ u).
Proof. induction s as [|c s IH]; [done|]. by rewrite !str_app_cons, IH. Qed.

Lemma str_app_length s t : String.length (s +:+ t) = (String.length s + String.length t)%nat.
Proof. induction s as [|c s IH]; [done|]. rewrite str_app_cons. cbn. by rewrite IH. Qed.

Lemma str_app_inj_l s t t' : s +:+ t = s +:+ t' -> t = t'.
Proof. induction s as [|a s IH]; [done|]. cbn. intros [= E]. by apply IH. Qed.

Lemma str_app_inj_r s s' t : s +:+ t = s' +:+ t -> s = s'.
Proof.
  revert s'. induction s as [|c s IH]; intros [|c' s'] E; [done| | |].
  - apply (f_equal String.length) in E. rewrite !str_app_length in E. cbn in E. lia.
  - apply (f_equal String.length) in E. rewrite !str_app_length in E. cbn in E. lia.
  - rewrite !str_app_cons in E. injection E as -> E. f_equal. by apply IH.
Qed.

Create HintDb parakv.

(** [len] computes lengths of the list expressions of the development and
    finishes with [lia]; [len_simpl] only rewrites. *)
Create Rewrite HintDb len_db.
#[export] Hint Rewrite @length_app @length_drop @length_take @length_fmap
  @length_replicate @length_insert @length_seq @length_nil @length_cons : len_db.
Ltac len_simpl := autorewrite with len_db in *.
Ltac len := autorewrite with len_db in *; cbn [length] in *; try lia.

(** Pair-valued definitions are consumed by splitting the [let]s. *)
Ltac pairs :=
  repeat match goal with
  | H : (_, _) = (_, _) |- _ => injection H; clear H; intros; subst
  | H : context [let '(_, _) := ?e in _] |- _ => destruct e eqn:?
  | |- context [let '(_, _) := ?e in _] => destruct e eqn:?
  end.

(** Case analysis on the boolean tests of the code. *)
Ltac bool_cases :=
  repeat match goal with
  | H : (_ =? _) = true |- _ => apply Z.eqb_eq in H
  | H : (_ =? _) = false |- _ => apply Z.eqb_neq in H
  | H : (_ <? _) = true |- _ => apply Z.ltb_lt in H
  | H : (_ <? _) = false |- _ => apply Z.ltb_ge in H
  | H : (_ <=? _) = true |- _ => apply Z.leb_le in H
  | H : (_ <=? _) = false |- _ => apply Z.leb_gt in H
  | H : (_ >=? _) = true |- _ => rewrite Z.geb_leb in H
  | H : (_ >=? _) = false |- _ => rewrite Z.geb_leb in H
  | H : (_ >? _) = true |- _ => rewrite Z.gtb_ltb in H
  | H : (_ >? _) = false |- _ => rewrite Z.gtb_ltb in H
  | H : negb _ = true |- _ => apply negb_true_iff in H
  | H : negb _ = false |- _ => apply negb_false_iff in H
  | H : andb _ _ = true |- _ => apply andb_true_iff in H as [? ?]
  | H : orb _ _ = false |- _ => apply orb_false_iff in H as [? ?]
  end.

(** ** Bits

    Equality of two [Z] expressions built from bit operations, bit by bit. *)

Lemma mod_pow2_testbit z n i :
  0 <= n -> 0 <= i -> Z.testbit (z mod 2 ^ n) i = (i <? n) && Z.testbit z i.
Proof.
  intros Hn Hi. destruct (Z.ltb_spec i n).
  - by rewrite Z.mod_pow2_bits_low by lia.
  - by rewrite Z.mod_pow2_bits_high by lia.
Qed.

Lemma ones_testbit n i :
  0 <= n -> 0 <= i -> Z.testbit (Z.ones n) i = (i <? n).
Proof.
  intros Hn Hi. destruct (Z.ltb_spec i n).
  - by rewrite Z.ones_spec_low by lia.
  - by rewrite Z.ones_spec_high by lia.
Qed.

Lemma testbit_small z n i :
  0 <= z < 2 ^ n -> 0 <= n <= i -> Z.testbit z i = false.
Proof.
  intros Hz Hi. rewrite <- (Z.mod_small z (2 ^ n)) by lia.
  rewrite mod_pow2_testbit by lia. by rewrite (proj2 (Z.ltb_ge i n)) by lia.
Qed.

Lemma lt_pow2_bits z n :
  0 <= n -> 0 <= z -> (forall i, n <= i -> Z.testbit z i = false) -> z < 2 ^ n.
Proof.
  intros Hn Hz Hb. assert (z = z mod 2 ^ n) as ->; [|apply Z.mod_pos_bound; lia].
  apply Z.bits_inj'. intros i Hi. rewrite mod_pow2_testbit by lia.
  destruct (Z.ltb_spec i n); [done|]. by rewrite Hb by lia.
Qed.

Create Rewrite HintDb bits_db.
#[export] Hint Rewrite Z.land_spec Z.lor_spec Z.lxor_spec Z.sub_add Z.add_simpl_r : bits_db.
#[export] Hint Rewrite Z.shiftr_spec Z.shiftl_spec Z.lnot_spec Z.bits_0 Z.bits_m1
  mod_pow2_testbit ones_testbit using lia : bits_db.

(** [zbits] reduces an equation on [Z] to boolean equations on its bits,
    splitting on the comparisons of the bit index. *)
Ltac zbits_cases :=
  repeat match goal with
  | |- context [?a <? ?b] => destruct (Z.ltb_spec a b)
  | |- context [Z.testbit ?x ?i] =>
      match goal with
      | H : 0 <= x < 2 ^ ?n |- _ =>
          rewrite (testbit_small x n i) by lia
      | _ => rewrite (Z.testbit_neg_r x i) by lia
      end
  end.
Ltac zbits_finish :=
  repeat (progress (autorewrite with bits_db; zbits_cases));
  try solve [btauto | f_equal; lia | (repeat f_equal); lia].
Ltac zbits := apply Z.bits_inj'; intros ?i ?Hi; zbits_finish.
(** The same with a first split of the bit index at [n]. *)
Ltac zbits_at n :=
  apply Z.bits_inj'; intros ?i ?Hi; destruct (Z.lt_ge_cases i n); zbits_finish.

Lemma lxor_range a b n :
  0 <= n -> 0 <= a < 2 ^ n -> 0 <= b < 2 ^ n -> 0 <= Z.lxor a b < 2 ^ n.
Proof.
  intros Hn Ha Hb. assert (0 <= Z.lxor a b) by (apply Z.lxor_nonneg; lia).
  split; [done|]. apply lt_pow2_bits; [done|done|]. intros i Hi.
  rewrite Z.lxor_spec, (testbit_small a n), (testbit_small b n) by lia. done.
Qed.

Lemma lor_range a b n :
  0 <= n -> 0 <= a < 2 ^ n -> 0 <= b < 2 ^ n -> 0 <= Z.lor a b < 2 ^ n.
Proof.
  intros Hn Ha Hb. assert (0 <= Z.lor a b) by (apply Z.lor_nonneg; lia).
  split; [done|]. apply lt_pow2_bits; [done|done|]. intros i Hi.
  rewrite Z.lor_spec, (testbit_small a n), (testbit_small b n) by lia. done.
Qed.

Lemma land_range a b n :
  0 <= n -> 0 <= a < 2 ^ n -> 0 <= b -> 0 <= Z.land a b < 2 ^ n.
Proof.
  intros Hn Ha Hb. assert (0 <= Z.land a b) by (apply Z.land_nonneg; lia).
  split; [done|]. apply lt_pow2_bits; [done|done|]. intros i Hi.
  rewrite Z.land_spec, (testbit_small a n) by lia. done.
Qed.

Lemma u8_range z : byte_ok (u8 z).
Proof. apply (Z.mod_pos_bound z 256). lia. Qed.
Lemma u32_range z : 0 <= u32 z < 2 ^ 32.
Proof. apply Z.mod_pos_bound. lia. Qed.
Lemma u64_range z : 0 <= u64 z < 2 ^ 64.
Proof. apply Z.mod_pos_bound. lia. Qed.
Lemma u8_small z : byte_ok z -> u8 z = z.
Proof. intros H. apply Z.mod_small. exact H. Qed.
Lemma u32_small z : 0 <= z < 2 ^ 32 -> u32 z = z.
Proof. apply Z.mod_small. Qed.
Lemma u64_small z : 0 <= z < 2 ^ 64 -> u64 z = z.
Proof. apply Z.mod_small. Qed.
#[export] Hint Resolve u8_range u32_range u64_range : parakv.

(** ** Undefined behaviour

    [Ret a] is a defined result; [UB] stands for an execution the C++ standard
    gives no meaning (a null dereference, an invalidated iterator, relocking a
    mutex the thread holds). *)

Inductive Outcome (A : Type) := Ret (a : A) | UB.
Arguments Ret {A} _.
Arguments UB {A}.

#[export] Instance Outcome_ret : MRet Outcome := fun A => Ret.
#[export] Instance Outcome_bind : MBind Outcome := fun A B f o =>
  match o with Ret a => f a | UB => UB end.

Definition defined {A} (o : Outcome A) : bool := match o with Ret _ => true | UB => false end.

(** ** Little-endian encodings

    [le_bytes n v] lists the [n] low bytes of [v], least significant first;
    [le_val] reads a byte list back. *)

Fixpoint le_bytes (n : nat) (v : Z) : list Z :=
  match n with
  | O => []
  | S n => u8 v :: le_bytes n (Z.shiftr v 8)
  end.

Fixpoint le_val (l : list Z) : Z :=
  match l with
  | [] => 0
  | b :: l => Z.lor b (Z.shiftl (le_val l) 8)
  end.

Lemma length_le_bytes n v : length (le_bytes n v) = n.
Proof. revert v. induction n as [|n IH]; intros v; simpl; [done|]. by rewrite IH. Qed.
#[export] Hint Rewrite length_le_bytes : len_db.

Lemma le_bytes_ok n v : bytes_ok (le_bytes n v).
Proof.
  unfold bytes_ok. revert v. induction n; intros v; simpl; constructor; auto with parakv.
Qed.

Lemma le_val_bytes n v : le_val (le_bytes n v) = v mod 2 ^ (8 * Z.of_nat n).
Proof.
  revert v. induction n as [|n IH]; intros v.
  - simpl. by rewrite Z.mod_1_r.
  - cbn [le_bytes le_val]. rewrite IH. unfold u8.
    rewrite Nat2Z.inj_succ. zbits.
Qed.

Lemma le_val_range l : bytes_ok l -> 0 <= le_val l < 2 ^ (8 * Z.of_nat (length l)).
Proof.
  induction 1 as [|b l Hb Hl IH]; cbn [le_val length]; [lia|].
  unfold byte_ok in Hb. rewrite Nat2Z.inj_succ.
  rewrite Z.shiftl_mul_pow2 by lia.
  replace (8 * Z.succ (Z.of_nat (length l))) with (8 * Z.of_nat (length l) + 8) by lia.
  apply lor_range; [lia| |].
  - rewrite Z.pow_add_r by lia.
    assert (0 < 2 ^ (8 * Z.of_nat (length l))) by (apply Z.pow_pos_nonneg; lia). nia.
  - rewrite Z.pow_add_r by lia. nia.
Qed.

Lemma le_bytes_val l : bytes_ok l -> le_bytes (length l) (le_val l) = l.
Proof.
  induction 1 as [|b l Hb Hl IH]; [done|].
  pose proof (le_val_range l Hl). unfold byte_ok in Hb.
  assert (0 <= b < 2 ^ 8) by lia.
  cbn [le_val length le_bytes]. f_equal.
  - unfold u8. zbits.
  - etransitivity; [|exact IH]. f_equal. zbits.
Qed.

Lemma le_bytes_inj n v w :
  0 <= v < 2 ^ (8 * Z.of_nat n) -> 0 <= w < 2 ^ (8 * Z.of_nat n) ->
  le_bytes n v = le_bytes n w -> v = w.
Proof.
  intros Hv Hw E. apply (f_equal le_val) in E. rewrite !le_val_bytes in E.
  by rewrite !Z.mod_small in E by lia.
Qed.

(** ** Buffers and file contents

    [splice off buf d] is the contents [d] after writing [buf] at byte
    offset [off]; a gap past the end is filled with zeros, as [pwrite] does.
    [slice off n d] is what a read of [n] bytes at [off] sees. *)

Definition splice (off : nat) (buf d : list Z) : list Z :=
  take off (d ++ replicate (off - length d) 0) ++ buf ++ drop (off + length buf) d.

Definition slice (off n : nat) (d : list Z) : list Z := take n (drop off d).

Lemma length_splice off buf d :
  length (splice off buf d) = Nat.max (length d) (off + length buf).
Proof. unfold splice. len. Qed.

Lemma length_slice off n d : length (slice off n d) = Nat.min n (length d - off).
Proof. unfold slice. len. Qed.
#[export] Hint Rewrite length_splice length_slice : len_db.

Lemma lookup_splice_in off buf d i :
  (off <= i < off + length buf)%nat -> splice off buf d !! i = buf !! (i - off)%nat.
Proof.
  intros Hi. unfold splice.
  rewrite lookup_app_r by len. rewrite lookup_app_l by len.
  f_equal. len.
Qed.

Lemma lookup_splice_out off buf d i :
  (i < length d)%nat -> (i < off \/ off + length buf <= i)%nat ->
  splice off buf d !! i = d !! i.
Proof.
  intros Hl Hi. unfold splice. destruct (decide (i < off)%nat).
  - rewrite lookup_app_l by len. rewrite lookup_take_lt by done.
    by rewrite lookup_app_l by done.
  - rewrite lookup_app_r by len. rewrite lookup_app_r by len.
    rewrite lookup_drop. f_equal. len.
Qed.

Lemma lookup_slice off n d i :
  (i < n)%nat -> slice off n d !! i = d !! (off + i)%nat.
Proof. intros. unfold slice. by rewrite lookup_take_lt, lookup_drop. Qed.

Lemma slice_splice_same off buf d : slice off (length buf) (splice off buf d) = buf.
Proof.
  apply list_eq. intros i. destruct (decide (i < length buf)%nat).
  - rewrite lookup_slice, lookup_splice_in by lia. f_equal. lia.
  - rewrite !lookup_ge_None_2; [done| |]; len.
Qed.

Lemma slice_splice_disjoint off buf d o n :
  (o + n <= length d)%nat -> (o + n <= off \/ off + length buf <= o)%nat ->
  slice o n (splice off buf d) = slice o n d.
Proof.
  intros Hl Hd. apply list_eq. intros i. destruct (decide (i < n)%nat).
  - rewrite !lookup_slice by done. apply lookup_splice_out; lia.
  - rewrite !lookup_ge_None_2; [done| |]; len.
Qed.

Lemma splice_nil off d : (off <= length d)%nat -> splice off [] d = d.
Proof.
  intros. unfold splice. rewrite take_app_le by done. simpl.
  by rewrite Nat.add_0_r, take_drop.
Qed.

Lemma splice_app off b1 b2 d :
  splice (off + length b1) b2 (splice off b1 d) = splice off (b1 ++ b2) d.
Proof.
  apply list_eq. intros i.
  destruct (decide (i < Nat.max (length d) (off + length b1 + length b2))%nat) as [Hi|Hi].
  2: { rewrite !lookup_ge_None_2; [done| |]; len. }
  destruct (decide (off + length b1 <= i < off + length b1 + length b2)%nat).
  { rewrite lookup_splice_in by lia. rewrite lookup_splice_in by len.
    rewrite lookup_app_r by lia. f_equal. lia. }
  rewrite lookup_splice_out by len.
  destruct (decide (off <= i < off + length b1)%nat).
  { rewrite lookup_splice_in by lia. rewrite lookup_splice_in by len.
    by rewrite lookup_app_l by lia. }
  destruct (decide (i < length d)%nat).
  { by rewrite !lookup_splice_out by len. }
  unfold splice. rewrite !lookup_app_l by len. done.
Qed.

Lemma splice_overwrite off b1 b2 d :
  length b1 = length b2 -> splice off b2 (splice off b1 d) = splice off b2 d.
Proof.
  intros E. apply list_eq. intros i.
  destruct (decide (i < Nat.max (length d) (off + length b2))%nat) as [Hi|Hi].
  2: { rewrite !lookup_ge_None_2; [done| |]; len. }
  destruct (decide (off <= i < off + length b2)%nat).
  { by rewrite !lookup_splice_in by lia. }
  rewrite lookup_splice_out by len. destruct (decide (i < length d)%nat).
  { by rewrite !lookup_splice_out by len. }
  unfold splice. rewrite !lookup_app_l by len. done.
Qed.

Lemma splice_at_end d buf : splice (length d) buf d = d ++ buf.
Proof.
  unfold splice. rewrite Nat.sub_diag. simpl. rewrite app_nil_r, take_ge by lia.
  rewrite drop_ge by lia. by rewrite app_nil_r.
Qed.

Lemma take_splice off buf d n :
  (n <= off)%nat -> (n <= length d)%nat -> take n (splice off buf d) = take n d.
Proof.
  intros. change (slice 0 n (splice off buf d) = slice 0 n d).
  apply slice_splice_disjoint; lia.
Qed.

Lemma bytes_ok_app l1 l2 : bytes_ok (l1 ++ l2) <-> bytes_ok l1 /\ bytes_ok l2.
Proof. apply Forall_app. Qed.

Lemma bytes_ok_slice off n d : bytes_ok d -> bytes_ok (slice off n d).
Proof. intros. apply Forall_take, Forall_drop. done. Qed.

Lemma bytes_ok_zeros n : bytes_ok (replicate n 0).
Proof. apply Forall_replicate. unfold byte_ok. lia. Qed.

Lemma bytes_ok_splice off buf d : bytes_ok buf -> bytes_ok d -> bytes_ok (splice off buf d).
Proof.
  intros. unfold splice. apply bytes_ok_app. split.
  - apply Forall_take, bytes_ok_app. auto using bytes_ok_zeros.
  - apply bytes_ok_app. split; [done|]. by apply Forall_drop.
Qed.
#[export] Hint Resolve bytes_ok_slice bytes_ok_zeros bytes_ok_splice le_bytes_ok : parakv.
