(* ===== verification/Common.v ===== *)
(** * Status codes shared by the storage layers

    [parakv/common/status.h]: the [Status] enumeration, its printed name, and
    the two early-return macros as combinators on status values. *)

From S2P Require Import Prelude.

Inductive Status :=
  | kOk
  | kNotFound
  | kFull
  | kIOError
  | kInvalidArgument
  | kCorruption
  | kNoSpace.

#[export] Instance Status_eq_dec : EqDecision Status.
Proof. solve_decision. Defined.

Definition status_is_ok (s : Status) : bool :=
  match s with kOk => true | _ => false end.

(** [operator<<]. *)
Definition show_Status (s : Status) : string :=
  match s with
  | kOk => "Ok"
  | kNotFound => "NotFound"
  | kFull => "Full"
  | kIOError => "IOError"
  | kInvalidArgument => "InvalidArgument"
  | kCorruption => "Corruption"
  | kNoSpace => "NoSpace"
  end.

Lemma status_is_ok_true s : status_is_ok s = true <-> s = kOk.
Proof. destruct s; split; done. Qed.

Lemma status_is_ok_false s : status_is_ok s = false <-> s <> kOk.
Proof. destruct s; split; done. Qed.
