(* ===== verification/Sys.v ===== *)
(** * The operating-system interface the storage layers use

    Files and the system calls of [wal.cc], [segment_file.cc],
    [segment_manager.cc] and [index.cc]: [open], [stat], [fsync], [pread],
    [pwrite], [read], [ftruncate], [rename], [unlink].

    A file keeps two contents: [f_data] is what reads see (the page cache) and
    [f_sync] what the last successful [fsync] put on stable storage.  Which
    calls fail, are interrupted or transfer fewer bytes than asked is decided
    by a script of outcomes, one element per call; when the script is used up
    every further call succeeds in full.  A script is any finite list, so a
    theorem for all scripts covers every finite pattern of interruptions,
    short transfers and errors.  A transfer of a positive count that is not an
    error moves at least one byte unless the file is at its end. *)

From S2P Require Import Prelude Common.

Inductive sysret :=
  | Eintr              (** the call returns -1 with [errno == EINTR] *)
  | Eio                (** the call returns -1 with another [errno] *)
  | Short (n : nat).   (** the call transfers at most [n + 1] bytes *)

#[export] Instance sysret_eq_dec : EqDecision sysret.
Proof. solve_decision. Defined.

Abbreviation script := (list sysret).

(** Scripts in which no call fails (interruptions and short transfers only). *)
Definition no_eio (sc : script) : Prop := Forall (fun r => r <> Eio) sc.

Record File := mkFile { f_data : list Z; f_sync : list Z }.

Record FS := mkFS { fs_files : gmap string File; fs_script : script }.

Definition set_files (m : gmap string File) (fs : FS) : FS := mkFS m (fs_script fs).
Definition set_script (sc : script) (fs : FS) : FS := mkFS (fs_files fs) sc.

(** ** Transfer loops on file contents *)

(** Writing no byte leaves the contents alone, whatever the offset. *)
Definition pwritten (off : nat) (buf d : list Z) : list Z :=
  match buf with [] => d | _ => splice off buf d end.

(** The loop of [PWriteAll] / [SegmentFile::PWrite]: write the whole buffer,
    retrying on [EINTR], stopping at the first other error. *)
Fixpoint pwrite_loop (sc : script) (buf : list Z) (off : nat) (d : list Z)
    : Status * list Z * script :=
  match buf with
  | [] => (kOk, d, sc)
  | _ =>
    match sc with
    | [] => (kOk, pwritten off buf d, [])
    | Eintr :: sc => pwrite_loop sc buf off d
    | Eio :: sc => (kIOError, d, sc)
    | Short n :: sc =>
        let k := Nat.min (S n) (length buf) in
        pwrite_loop sc (drop k buf) (off + k) (pwritten off (take k buf) d)
    end
  end.

(** The loop of [SegmentFile::PRead]: read exactly [count] bytes; end of file
    before that is corruption. *)
Fixpoint pread_loop (sc : script) (count off : nat) (d : list Z)
    : Status * list Z * script :=
  match count with
  | O => (kOk, [], sc)
  | _ =>
    match sc with
    | [] =>
        let got := slice off count d in
        (if (length got <? count)%nat then kCorruption else kOk, got, [])
    | Eintr :: sc => pread_loop sc count off d
    | Eio :: sc => (kIOError, [], sc)
    | Short n :: sc =>
        let got := slice off (Nat.min (S n) count) d in
        if (length got =? 0)%nat then (kCorruption, [], sc)
        else
          let '(s, rest, sc') :=
            pread_loop sc (count - length got) (off + length got) d in
          (s, got ++ rest, sc')
    end
  end.

(** ** System calls on the file system *)

(** A call that transfers no data: it fails when the script says so. *)
Definition sys_call (fs : FS) : bool * FS :=
  match fs_script fs with
  | [] => (true, fs)
  | Eio :: sc => (false, set_script sc fs)
  | _ :: sc => (true, set_script sc fs)
  end.

Definition sys_stat (path : string) (fs : FS) : bool * FS :=
  let '(ok, fs) := sys_call fs in
  (ok && bool_decide (is_Some (fs_files fs !! path)), fs).

(** [open] with [O_CREAT] and [O_TRUNC] as flags. *)
Definition sys_open (path : string) (creat trunc : bool) (fs : FS) : bool * FS :=
  let '(ok, fs) := sys_call fs in
  if negb ok then (false, fs) else
  match fs_files fs !! path with
  | None =>
      if creat then (true, set_files (<[path := mkFile [] []]> (fs_files fs)) fs)
      else (false, fs)
  | Some f =>
      if trunc
      then (true, set_files (<[path := mkFile [] (f_sync f)]> (fs_files fs)) fs)
      else (true, fs)
  end.

Definition sys_fsync (path : string) (fs : FS) : bool * FS :=
  let '(ok, fs) := sys_call fs in
  match fs_files fs !! path with
  | Some f =>
      if ok then (true, set_files (<[path := mkFile (f_data f) (f_data f)]> (fs_files fs)) fs)
      else (false, fs)
  | None => (false, fs)
  end.

(** [truncate] / [ftruncate]: cut or zero-extend to [n] bytes. *)
Definition sys_truncate (path : string) (n : nat) (fs : FS) : bool * FS :=
  let '(ok, fs) := sys_call fs in
  match fs_files fs !! path with
  | Some f =>
      if ok then
        (true, set_files (<[path := mkFile (resize n 0 (f_data f)) (f_sync f)]>
                            (fs_files fs)) fs)
      else (false, fs)
  | None => (false, fs)
  end.

Definition sys_rename (from to : string) (fs : FS) : bool * FS :=
  let '(ok, fs) := sys_call fs in
  match fs_files fs !! from with
  | Some f =>
      if ok then (true, set_files (<[to := f]> (delete from (fs_files fs))) fs)
      else (false, fs)
  | None => (false, fs)
  end.

Definition sys_unlink (path : string) (fs : FS) : FS :=
  let '(ok, fs) := sys_call fs in
  if ok then set_files (delete path (fs_files fs)) fs else fs.

(** [pwrite] / [pread] loops applied to an open file. *)
Definition fs_pwrite (path : string) (buf : list Z) (off : nat) (fs : FS) : Status * FS :=
  match fs_files fs !! path with
  | None => (kIOError, fs)
  | Some f =>
      let '(s, d, sc) := pwrite_loop (fs_script fs) buf off (f_data f) in
      (s, mkFS (<[path := mkFile d (f_sync f)]> (fs_files fs)) sc)
  end.

Definition fs_pread (path : string) (count off : nat) (fs : FS) : Status * list Z * FS :=
  match fs_files fs !! path with
  | None => (kIOError, [], fs)
  | Some f =>
      let '(s, got, sc) := pread_loop (fs_script fs) count off (f_data f) in
      (s, got, set_script sc fs)
  end.

(** ** The transfer loops *)

Lemma pwritten_nonempty off buf d : buf <> [] -> pwritten off buf d = splice off buf d.
Proof. by destruct buf. Qed.

Lemma pwritten_app off b1 b2 d :
  pwritten (off + length b1) b2 (pwritten off b1 d) = pwritten off (b1 ++ b2) d.
Proof.
  destruct b1 as [|x b1]; [simpl; by rewrite Nat.add_0_r|].
  destruct b2 as [|y b2].
  - by rewrite app_nil_r.
  - rewrite !pwritten_nonempty by done. apply splice_app.
Qed.

(** Whatever the script does, the loop writes a prefix of the buffer: all of
    it exactly when it reports success. *)
Lemma pwrite_loop_spec sc buf off d s d' sc' :
  pwrite_loop sc buf off d = (s, d', sc') ->
  exists k, (k <= length buf)%nat /\ d' = pwritten off (take k buf) d /\
    ((s = kOk /\ k = length buf) \/ (s = kIOError /\ k < length buf)%nat) /\
    sc' `suffix_of` sc.
Proof.
  revert buf off d. induction sc as [|r sc IH]; intros buf off d H.
  - destruct buf as [|b buf]; cbn [pwrite_loop] in H.
    + exists 0%nat. simplify_eq/=. eauto 8.
    + exists (length (b :: buf)). simplify_eq.
      rewrite (take_ge (b :: buf)) by done. eauto 8.
  - destruct buf as [|b buf]; cbn [pwrite_loop] in H.
    { exists 0%nat. simplify_eq/=. eauto 8. }
    destruct r.
    + apply IH in H as (k & ? & ? & ? & ?). exists k. split_and!; try done.
      by apply suffix_cons_r.
    + simplify_eq. exists 0%nat. simpl. split_and!; [lia|done|right; split; [done|lia]|].
      by apply suffix_cons_r.
    + set (j := Nat.min (S n) (length (b :: buf))) in H.
      assert (0 < j <= length (b :: buf))%nat as Hj by (subst j; simpl; lia).
      clearbody j. apply IH in H as (k & Hk & -> & Hs & Hsuf). len_simpl.
      exists (j + k)%nat. split_and!.
      * lia.
      * rewrite <- (take_drop j (b :: buf)) at 3.
        rewrite take_app_ge by len.
        replace (j + k - length (take j (b :: buf)))%nat with k by len.
        rewrite <- pwritten_app. f_equal. len.
      * destruct Hs as [[-> Hk2]|[-> Hk2]]; [left|right]; (split; [done|lia]).
      * by apply suffix_cons_r.
Qed.

Lemma no_eio_suffix sc sc' : sc' `suffix_of` sc -> no_eio sc -> no_eio sc'.
Proof. intros [k ->]. unfold no_eio. rewrite Forall_app. by intros [_ ?]. Qed.

Lemma pwrite_loop_no_eio sc buf off d :
  no_eio sc ->
  exists sc', pwrite_loop sc buf off d = (kOk, pwritten off buf d, sc') /\ no_eio sc'.
Proof.
  intros Hn. destruct (pwrite_loop sc buf off d) as [[s d'] sc'] eqn:E.
  assert (s = kOk) as ->.
  { clear -E Hn. revert buf off d E. induction sc as [|r sc IH]; intros buf off d E.
    - destruct buf; cbn in E; by simplify_eq.
    - apply Forall_cons in Hn as [Hr Hn].
      destruct buf; cbn [pwrite_loop] in E; [by simplify_eq|].
      destruct r; [by eapply IH|done|by eapply IH]. }
  apply pwrite_loop_spec in E as (k & Hk & -> & [[_ ->]|[? _]] & Hsuf); [|done].
  rewrite take_ge by done. eauto using no_eio_suffix.
Qed.

(** A read that reports success returned exactly the bytes of the file. *)
Lemma pread_loop_spec sc count off d s got sc' :
  pread_loop sc count off d = (s, got, sc') ->
  sc' `suffix_of` sc /\ (s = kOk \/ s = kIOError \/ s = kCorruption) /\
  (s = kOk -> got = slice off count d /\ length got = count).
Proof.
  revert count off s got. induction sc as [|r sc IH]; intros count off s got H.
  - destruct count; cbn [pread_loop] in H; simplify_eq.
    + by split_and!; [|left|].
    + split; [done|]. destruct (Nat.ltb_spec (length (slice off (S count) d)) (S count)).
      * split; [tauto|]. done.
      * split; [tauto|]. intros _. split; [done|]. len.
  - destruct count; cbn [pread_loop] in H; [simplify_eq; by split_and!; [|left|]|].
    destruct r.
    + apply IH in H as (? & ? & ?). split; [by apply suffix_cons_r|done].
    + simplify_eq. split; [by apply suffix_cons_r|]. split; [tauto|done].
    + set (g := slice off (Nat.min (S n) (S count)) d) in *.
      destruct (Nat.eqb_spec (length g) 0).
      { simplify_eq. split; [by apply suffix_cons_r|]. split; [tauto|done]. }
      destruct (pread_loop sc (S count - length g) (off + length g) d) as [[s1 rest] sc1] eqn:E.
      simplify_eq. apply IH in E as (Hsuf & Hs & Hok).
      split; [by apply suffix_cons_r|]. split; [done|]. intros Hk.
      destruct (Hok Hk) as [-> Hl].
      assert (length g <= S count)%nat by (subst g; len).
      split; [|len].
      apply list_eq. intros i. destruct (decide (i < S count)%nat).
      * rewrite (lookup_slice off) by done. destruct (decide (i < length g)%nat).
        -- rewrite lookup_app_l by done. subst g. len. apply lookup_slice. lia.
        -- rewrite lookup_app_r by lia. rewrite lookup_slice by lia. f_equal. lia.
      * rewrite !lookup_ge_None_2; [done| |]; len.
Qed.

Lemma pread_loop_no_eio sc count off d :
  no_eio sc -> (off + count <= length d)%nat ->
  exists sc', pread_loop sc count off d = (kOk, slice off count d, sc') /\ no_eio sc'.
Proof.
  intros Hn Hl. destruct (pread_loop sc count off d) as [[s got] sc'] eqn:E.
  assert (s = kOk) as ->.
  { clear -E Hn Hl. revert count off got s sc' Hl E.
    induction sc as [|r sc IH]; intros count off got s sc' Hl E.
    - destruct count; cbn [pread_loop] in E; [by simplify_eq|].
      destruct (Nat.ltb_spec (length (slice off (S count) d)) (S count)); [len|by simplify_eq].
    - apply Forall_cons in Hn as [Hr Hn].
      destruct count; cbn [pread_loop] in E; [by simplify_eq|].
      destruct r; [by eapply IH|done|].
      destruct (Nat.eqb_spec (length (slice off (Nat.min (S n) (S count)) d)) 0); [len|].
      destruct (pread_loop sc _ _ d) as [[s1 rest] sc1] eqn:E1. simplify_eq.
      eapply IH in E1; [done|done|]. len. }
  apply pread_loop_spec in E as (Hsuf & _ & Hok). destruct (Hok eq_refl) as [-> _].
  eauto using no_eio_suffix.
Qed.

(** ** Power loss

    [crash_image f d]: [d] is a possible contents of [f] after the machine
    stops: every byte is one that was synced or written, or zero where nothing
    had been synced, and at least the common length survives. *)
Definition crash_image (f : File) (d : list Z) : Prop :=
  (Nat.min (length (f_sync f)) (length (f_data f)) <= length d)%nat /\
  forall i x, d !! i = Some x ->
    f_sync f !! i = Some x \/ f_data f !! i = Some x \/ (x = 0 /\ f_sync f !! i = None).

(** What was synced and not changed since survives. *)
Lemma crash_image_prefix f d pre :
  crash_image f d -> pre `prefix_of` f_sync f -> pre `prefix_of` f_data f -> pre `prefix_of` d.
Proof.
  intros [Hlen Hb] [t1 E1] [t2 E2].
  assert (length pre <= length d)%nat.
  { rewrite E1, E2 in Hlen. len. }
  exists (drop (length pre) d). apply list_eq. intros i.
  destruct (decide (i < length pre)%nat) as [Hi|Hi].
  - rewrite lookup_app_l by done.
    destruct (lookup_lt_is_Some_2 d i) as [x Hx]; [lia|].
    destruct (lookup_lt_is_Some_2 pre i Hi) as [y Hy].
    pose proof (Hb i x Hx) as Hc. rewrite E1, E2, !lookup_app_l, Hy in Hc by done.
    rewrite Hx, Hy. destruct Hc as [|[|[_ ?]]]; congruence.
  - rewrite lookup_app_r by lia. rewrite lookup_drop. f_equal. lia.
Qed.

(** ** Files not named by a call are not touched *)

Lemma sys_call_files fs b fs' : sys_call fs = (b, fs') -> fs_files fs' = fs_files fs.
Proof. unfold sys_call. intros. repeat case_match; by simplify_eq. Qed.

Lemma sys_call_no_eio fs b fs' :
  no_eio (fs_script fs) -> sys_call fs = (b, fs') -> b = true /\ no_eio (fs_script fs').
Proof.
  unfold sys_call, no_eio. intros Hn H. destruct (fs_script fs) as [|r sc] eqn:E; simplify_eq.
  - rewrite E. done.
  - apply Forall_cons in Hn as [Hr Hn]. destruct r; simplify_eq; done.
Qed.

Lemma fs_pwrite_spec p buf off fs s fs' f :
  fs_files fs !! p = Some f -> fs_pwrite p buf off fs = (s, fs') ->
  exists k, (k <= length buf)%nat /\
    fs_files fs' = <[p := mkFile (pwritten off (take k buf) (f_data f)) (f_sync f)]> (fs_files fs) /\
    ((s = kOk /\ k = length buf) \/ (s = kIOError /\ k < length buf)%nat) /\
    (no_eio (fs_script fs) -> s = kOk /\ no_eio (fs_script fs')).
Proof.
  unfold fs_pwrite. intros -> H.
  destruct (pwrite_loop _ _ _ _) as [[s1 d] sc] eqn:E. simplify_eq.
  pose proof (pwrite_loop_spec _ _ _ _ _ _ _ E) as (k & Hk & -> & Hs & Hsuf).
  exists k. split_and!; try done. intros Hn.
  destruct (pwrite_loop_no_eio (fs_script fs) buf off (f_data f) Hn) as (sc' & E' & Hn').
  rewrite E in E'. by simplify_eq.
Qed.

Lemma fs_pread_spec p count off fs s got fs' f :
  fs_files fs !! p = Some f -> fs_pread p count off fs = (s, got, fs') ->
  fs_files fs' = fs_files fs /\
  (s = kOk \/ s = kIOError \/ s = kCorruption) /\
  (s = kOk -> got = slice off count (f_data f) /\ length got = count) /\
  (no_eio (fs_script fs) -> no_eio (fs_script fs') /\
     ((off + count <= length (f_data f))%nat -> s = kOk)).
Proof.
  unfold fs_pread. intros -> H.
  destruct (pread_loop _ _ _ _) as [[s1 g] sc] eqn:E. simplify_eq.
  pose proof (pread_loop_spec _ _ _ _ _ _ _ E) as (Hsuf & Hs & Hok).
  split; [done|]. split; [done|]. split; [done|]. intros Hn.
  split; [by eapply no_eio_suffix|].
  intros Hl. edestruct pread_loop_no_eio as (sc' & E' & _); [done|done|].
  rewrite E in E'. by simplify_eq.
Qed.

Lemma sys_fsync_spec p fs ok fs' f :
  fs_files fs !! p = Some f -> sys_fsync p fs = (ok, fs') ->
  (ok = true /\ fs_files fs' = <[p := mkFile (f_data f) (f_data f)]> (fs_files fs)) \/
  (ok = false /\ fs_files fs' = fs_files fs /\ ~ no_eio (fs_script fs)).
Proof.
  unfold sys_fsync. intros Hf H. destruct (sys_call fs) as [b fs1] eqn:E.
  rewrite (sys_call_files _ _ _ E), Hf in H. destruct b; simplify_eq.
  - by left.
  - right. split; [done|]. split; [by eapply sys_call_files|].
    intros Hn. by destruct (sys_call_no_eio _ _ _ Hn E).
Qed.

Lemma sys_fsync_no_eio p fs ok fs' :
  no_eio (fs_script fs) -> sys_fsync p fs = (ok, fs') -> no_eio (fs_script fs').
Proof.
  unfold sys_fsync. intros Hn H. destruct (sys_call fs) as [b fs1] eqn:E.
  apply sys_call_no_eio in E as [-> ?]; [|done]. by case_match; simplify_eq.
Qed.

Lemma tmp_path_ne path : (path +:+ ".tmp")%string <> path.
Proof. induction path as [|a path IH]; cbn; [done|]. intros [= E]. by apply IH. Qed.

Lemma sys_unlink_other p q fs : p <> q -> fs_files (sys_unlink p fs) !! q = fs_files fs !! q.
Proof.
  intros Hne. unfold sys_unlink. destruct (sys_call fs) as [b fs1] eqn:E.
  apply sys_call_files in E. destruct b; cbn; rewrite ?lookup_delete_ne, E by done; done.
Qed.

Lemma sys_open_other p q creat trunc fs ok fs' :
  p <> q -> sys_open p creat trunc fs = (ok, fs') -> fs_files fs' !! q = fs_files fs !! q.
Proof.
  intros Hne E. unfold sys_open in E. destruct (sys_call fs) as [b fs1] eqn:E1. apply sys_call_files in E1.
  rewrite <- E1. destruct b; cbn [negb] in E; [|by simplify_eq].
  destruct (fs_files fs1 !! p); [destruct trunc|destruct creat]; simplify_eq; cbn;
    rewrite ?lookup_insert_ne by done; done.
Qed.

Lemma sys_open_trunc p fs fs' :
  sys_open p true true fs = (true, fs') -> exists y, fs_files fs' !! p = Some (mkFile [] y).
Proof.
  intros E. unfold sys_open in E. destruct (sys_call fs) as [b fs1]. destruct b; cbn [negb] in E; [|done].
  destruct (fs_files fs1 !! p); simplify_eq; cbn; rewrite lookup_insert_eq; eauto.
Qed.

Lemma sys_open_no_eio p creat trunc fs ok fs' :
  no_eio (fs_script fs) -> sys_open p creat trunc fs = (ok, fs') ->
  no_eio (fs_script fs') /\ (creat = true \/ is_Some (fs_files fs !! p) -> ok = true).
Proof.
  unfold sys_open. intros Hn E. destruct (sys_call fs) as [b fs1] eqn:Ec.
  pose proof (sys_call_files _ _ _ Ec) as Ef. apply sys_call_no_eio in Ec as [-> Hn1]; [|done].
  cbn [negb] in E. rewrite Ef in E. destruct (fs_files fs !! p) eqn:Ep.
  - destruct trunc; by simplify_eq.
  - destruct creat; simplify_eq; [done|]. split; [done|]. intros [?|[? ?]]; done.
Qed.

(** [open] without [O_TRUNC] on a file that is there changes nothing. *)
Lemma sys_open_existing p creat fs ok fs' :
  is_Some (fs_files fs !! p) -> sys_open p creat false fs = (ok, fs') -> fs_files fs' = fs_files fs.
Proof.
  unfold sys_open. intros [f Hf] E. destruct (sys_call fs) as [b fs1] eqn:Ec. apply sys_call_files in Ec.
  destruct b; cbn [negb] in E; [|by simplify_eq]. rewrite Ec, Hf in E. by simplify_eq.
Qed.

Lemma sys_stat_spec p fs ok fs' :
  sys_stat p fs = (ok, fs') ->
  fs_files fs' = fs_files fs /\ (ok = true -> is_Some (fs_files fs !! p)) /\
  (no_eio (fs_script fs) -> no_eio (fs_script fs') /\ (ok = false -> fs_files fs !! p = None)).
Proof.
  unfold sys_stat. destruct (sys_call fs) as [b fs1] eqn:Ec. intros [= <- <-].
  pose proof (sys_call_files _ _ _ Ec) as Ef. rewrite Ef. split; [done|]. split.
  - intros [_ Hb]%andb_prop. by apply bool_decide_eq_true in Hb.
  - intros Hn. destruct (sys_call_no_eio _ _ _ Hn Ec) as [-> ?]. split; [done|]. cbn.
    intros Hb. apply bool_decide_eq_false in Hb. by apply eq_None_not_Some.
Qed.

Lemma sys_rename_spec p q fs ok fs' f :
  fs_files fs !! p = Some f -> sys_rename p q fs = (ok, fs') ->
  (ok = true /\ fs_files fs' = <[q := f]> (delete p (fs_files fs)) \/
   ok = false /\ fs_files fs' = fs_files fs) /\
  (no_eio (fs_script fs) -> ok = true /\ no_eio (fs_script fs')).
Proof.
  unfold sys_rename. intros Hf E. destruct (sys_call fs) as [b fs1] eqn:Ec.
  pose proof (sys_call_files _ _ _ Ec) as Ef. rewrite Ef, Hf in E. split.
  - destruct b; simplify_eq; [by left|by right].
  - intros Hn. destruct (sys_call_no_eio _ _ _ Hn Ec) as [-> ?]. by simplify_eq.
Qed.

Lemma sys_truncate_spec p n fs ok fs' f :
  fs_files fs !! p = Some f -> sys_truncate p n fs = (ok, fs') ->
  (ok = true /\ fs_files fs' = <[p := mkFile (resize n 0 (f_data f)) (f_sync f)]> (fs_files fs) \/
   ok = false /\ fs_files fs' = fs_files fs) /\
  (no_eio (fs_script fs) -> ok = true /\ no_eio (fs_script fs')).
Proof.
  unfold sys_truncate. intros Hf E. destruct (sys_call fs) as [b fs1] eqn:Ec.
  pose proof (sys_call_files _ _ _ Ec) as Ef. rewrite Ef, Hf in E. split.
  - destruct b; simplify_eq; [by left|by right].
  - intros Hn. destruct (sys_call_no_eio _ _ _ Hn Ec) as [-> ?]. by simplify_eq.
Qed.
