(* ===== verification/Crc.v ===== *)
(** * CRC32 ([parakv/core/index/wal.cc], anonymous namespace and [Crc32])

    The table-driven CRC of the write-ahead log, proved equal to the bit-serial
    definition of the reflected IEEE 802.3 CRC, and the error detection the log
    relies on: a change confined to four consecutive bytes is always seen. *)

From S2P Require Import Prelude.

Definition kCrcPoly : Z := 0xEDB88320.

(** One iteration of the inner loop of the table initialisation. *)
Definition crc_bit (c : Z) : Z :=
  if negb (Z.land c 1 =? 0) then Z.lxor kCrcPoly (Z.shiftr c 1) else Z.shiftr c 1.

Definition Crc32Table : list Z :=
  (fun i => Nat.iter 8 crc_bit (Z.of_nat i)) <$> seq 0 256.

Definition Crc32Step (crc b : Z) : Z :=
  Z.lxor (default 0 (Crc32Table !! Z.to_nat (Z.land (Z.lxor crc b) 0xFF)))
         (Z.shiftr crc 8).

Definition Crc32 (data : list Z) : Z :=
  Z.lxor (foldl Crc32Step 0xFFFFFFFF data) 0xFFFFFFFF.

#[global] Arguments Crc32 : simpl never.
#[global] Arguments Crc32Step : simpl never.

(** ** Reference definition: one bit at a time, no table *)

Definition crc32_ref_step (crc b : Z) : Z := Nat.iter 8 crc_bit (Z.lxor crc b).

Definition crc32_ref (data : list Z) : Z :=
  Z.lxor (foldl crc32_ref_step 0xFFFFFFFF data) 0xFFFFFFFF.

(** ** The bit step is linear and, on 32-bit values, injective *)

Lemma crc_bit_alt c :
  crc_bit c = Z.lxor (if Z.testbit c 0 then kCrcPoly else 0) (Z.shiftr c 1).
Proof.
  unfold crc_bit. change 1 with (Z.ones 1) at 1.
  rewrite (Z.land_ones c 1) by lia. change (2 ^ 1) with 2.
  rewrite Z.bit0_odd, Zmod_odd. by destruct (Z.odd c).
Qed.

Lemma lxor_swap a b c d :
  Z.lxor (Z.lxor a b) (Z.lxor c d) = Z.lxor (Z.lxor a c) (Z.lxor b d).
Proof. zbits. Qed.

Lemma crc_bit_lxor a b : crc_bit (Z.lxor a b) = Z.lxor (crc_bit a) (crc_bit b).
Proof.
  rewrite !crc_bit_alt, Z.lxor_spec, Z.shiftr_lxor, lxor_swap. f_equal.
  by destruct (Z.testbit a 0), (Z.testbit b 0).
Qed.

Lemma crc_iter_lxor n a b :
  Nat.iter n crc_bit (Z.lxor a b) = Z.lxor (Nat.iter n crc_bit a) (Nat.iter n crc_bit b).
Proof. induction n as [|n IH]; simpl; [done|]. by rewrite IH, crc_bit_lxor. Qed.

Lemma iter_add {A} (f : A -> A) n m x : Nat.iter (n + m) f x = Nat.iter n f (Nat.iter m f x).
Proof. induction n as [|n IH]; simpl; [done|]. by rewrite IH. Qed.

(** Bits that are still to be consumed only move down. *)
Lemma crc_iter_shiftl n h : Nat.iter n crc_bit (Z.shiftl h (Z.of_nat n)) = h.
Proof.
  induction n as [|n IH]; [apply Z.shiftl_0_r|].
  replace (S n) with (n + 1)%nat by lia. rewrite iter_add. simpl.
  assert (crc_bit (Z.shiftl h (Z.of_nat (n + 1))) = Z.shiftl h (Z.of_nat n)) as ->; [|done].
  rewrite crc_bit_alt, Z.shiftl_spec, (Z.testbit_neg_r h) by lia.
  rewrite Z.lxor_0_l, Z.shiftr_shiftl_l by lia. f_equal. lia.
Qed.

Lemma crc_bit_range c : 0 <= c < 2 ^ 32 -> 0 <= crc_bit c < 2 ^ 32.
Proof.
  intros Hc. rewrite crc_bit_alt. apply lxor_range; [lia| |].
  - unfold kCrcPoly. destruct (Z.testbit c 0); lia.
  - rewrite Z.shiftr_div_pow2 by lia. change (2 ^ 1) with 2.
    split; [apply Z.div_pos; lia|apply Z.div_lt_upper_bound; lia].
Qed.

Lemma crc_bit_inj a b :
  0 <= a < 2 ^ 32 -> 0 <= b < 2 ^ 32 -> crc_bit a = crc_bit b -> a = b.
Proof.
  intros Ha Hb E. rewrite !crc_bit_alt in E.
  assert (Z.testbit a 0 = Z.testbit b 0) as E0.
  { apply (f_equal (fun z => Z.testbit z 31)) in E.
    rewrite !Z.lxor_spec, !Z.shiftr_spec in E by lia.
    rewrite (testbit_small a 32 (31 + 1)), (testbit_small b 32 (31 + 1)) in E by lia.
    by destruct (Z.testbit a 0), (Z.testbit b 0). }
  rewrite E0 in E.
  assert (Z.shiftr a 1 = Z.shiftr b 1) as E1.
  { apply (f_equal (Z.lxor (if Z.testbit b 0 then kCrcPoly else 0))) in E.
    by rewrite <- !Z.lxor_assoc, Z.lxor_nilpotent, !Z.lxor_0_l in E. }
  apply Z.bits_inj'. intros i Hi. destruct (decide (i = 0)) as [->|]; [done|].
  apply (f_equal (fun z => Z.testbit z (i - 1))) in E1.
  rewrite !Z.shiftr_spec in E1 by lia. by rewrite Z.sub_add in E1.
Qed.

Lemma crc_iter_range n c : 0 <= c < 2 ^ 32 -> 0 <= Nat.iter n crc_bit c < 2 ^ 32.
Proof. intros. induction n; simpl; auto using crc_bit_range. Qed.

Lemma crc_iter_inj n a b :
  0 <= a < 2 ^ 32 -> 0 <= b < 2 ^ 32 ->
  Nat.iter n crc_bit a = Nat.iter n crc_bit b -> a = b.
Proof.
  intros Ha Hb. induction n as [|n IH]; simpl; [done|]. intros E.
  apply IH, crc_bit_inj; auto using crc_iter_range.
Qed.

(** ** The table *)

Lemma Crc32Table_lookup i :
  0 <= i < 256 -> default 0 (Crc32Table !! Z.to_nat i) = Nat.iter 8 crc_bit i.
Proof.
  intros Hi. unfold Crc32Table. rewrite list_lookup_fmap, lookup_seq_lt by lia.
  change (Nat.iter 8 crc_bit (Z.of_nat (0 + Z.to_nat i)) = Nat.iter 8 crc_bit i).
  by rewrite Nat.add_0_l, Z2Nat.id by lia.
Qed.

Lemma Crc32Step_ref crc b :
  0 <= crc < 2 ^ 32 -> byte_ok b -> Crc32Step crc b = crc32_ref_step crc b.
Proof.
  intros Hc Hb. unfold byte_ok in Hb. unfold Crc32Step, crc32_ref_step.
  assert (0 <= b < 2 ^ 8) by lia.
  rewrite Crc32Table_lookup.
  2: { change 255 with (Z.ones 8). rewrite Z.land_ones by lia. apply Z.mod_pos_bound. lia. }
  rewrite <- (crc_iter_shiftl 8 (Z.shiftr crc 8)), <- crc_iter_lxor.
  f_equal. change 255 with (Z.ones 8). zbits.
Qed.

Lemma crc_fold_range data c :
  bytes_ok data -> 0 <= c < 2 ^ 32 -> 0 <= foldl Crc32Step c data < 2 ^ 32.
Proof.
  intros Hd. revert c. induction Hd as [|b l Hb Hl IH]; intros c Hc; simpl; [done|].
  apply IH. rewrite Crc32Step_ref by done. apply crc_iter_range.
  unfold byte_ok in Hb. apply lxor_range; lia.
Qed.

Lemma Crc32_range data : bytes_ok data -> 0 <= Crc32 data < 2 ^ 32.
Proof.
  intros. unfold Crc32. apply lxor_range; [lia| |lia].
  apply crc_fold_range; [done|lia].
Qed.

(** Processing a block is the bit step iterated on the block read as a
    little-endian integer. *)
Lemma crc_fold_block data c :
  bytes_ok data -> 0 <= c < 2 ^ 32 ->
  foldl Crc32Step c data = Nat.iter (8 * length data) crc_bit (Z.lxor c (le_val data)).
Proof.
  intros Hd. revert c. induction Hd as [|b l Hb Hl IH]; intros c Hc.
  - simpl. by rewrite Z.lxor_0_r.
  - assert (0 <= b < 2 ^ 32) by (unfold byte_ok in Hb; lia).
    cbn [foldl length]. rewrite IH.
    2: { rewrite Crc32Step_ref by done. apply crc_iter_range, lxor_range; lia. }
    rewrite Crc32Step_ref by done. unfold crc32_ref_step.
    replace (8 * S (length l))%nat with (8 * length l + 8)%nat by lia.
    rewrite iter_add. f_equal. cbn [le_val].
    rewrite <- (crc_iter_shiftl 8 (le_val l)) at 1. rewrite <- crc_iter_lxor.
    f_equal. rewrite Z.lxor_assoc. f_equal. change (Z.of_nat 8) with 8.
    assert (0 <= b < 2 ^ 8) by (unfold byte_ok in Hb; lia). zbits_at 8.
Qed.

(** Two 32-bit states that differ keep differing through equal input. *)
Lemma crc_fold_inj data c1 c2 :
  bytes_ok data -> 0 <= c1 < 2 ^ 32 -> 0 <= c2 < 2 ^ 32 ->
  foldl Crc32Step c1 data = foldl Crc32Step c2 data -> c1 = c2.
Proof.
  intros Hd. revert c1 c2. induction Hd as [|b l Hb Hl IH]; intros c1 c2 H1 H2 E; [done|].
  assert (0 <= b < 2 ^ 32) by (unfold byte_ok in Hb; lia).
  cbn [foldl] in E. rewrite !Crc32Step_ref in E by done.
  apply IH, crc_iter_inj in E; try (apply crc_iter_range); try (apply lxor_range; lia).
  apply (f_equal (fun z => Z.lxor z b)) in E.
  by rewrite !Z.lxor_assoc, Z.lxor_nilpotent, !Z.lxor_0_r in E.
Qed.

(** Equal states after two blocks of the same length, at most four bytes long,
    come from equal blocks. *)
Lemma crc_block_inj c m1 m2 :
  bytes_ok m1 -> bytes_ok m2 -> length m1 = length m2 -> (length m1 <= 4)%nat ->
  0 <= c < 2 ^ 32 -> foldl Crc32Step c m1 = foldl Crc32Step c m2 -> m1 = m2.
Proof.
  intros H1 H2 Hl Hn Hc E. rewrite !crc_fold_block, Hl in E by done.
  pose proof (le_val_range m1 H1) as R1. pose proof (le_val_range m2 H2) as R2.
  assert (2 ^ (8 * Z.of_nat (length m1)) <= 2 ^ 32) by (apply Z.pow_le_mono_r; lia).
  apply crc_iter_inj in E; [|apply lxor_range; rewrite <- ?Hl in *; lia..].
  apply (f_equal (Z.lxor c)) in E.
  rewrite <- !Z.lxor_assoc, Z.lxor_nilpotent, !Z.lxor_0_l in E.
  rewrite <- (le_bytes_val m1 H1), <- (le_bytes_val m2 H2). by rewrite Hl, E.
Qed.

Lemma Crc32_burst_neq l m1 m2 r :
  bytes_ok l -> bytes_ok m1 -> bytes_ok m2 -> bytes_ok r ->
  length m1 = length m2 -> (length m1 <= 4)%nat -> m1 <> m2 ->
  Crc32 (l ++ m1 ++ r) <> Crc32 (l ++ m2 ++ r).
Proof.
  intros Hl H1 H2 Hr Hlen Hn Hne E. unfold Crc32 in E.
  apply (f_equal (fun z => Z.lxor z 0xFFFFFFFF)) in E.
  rewrite !Z.lxor_assoc, Z.lxor_nilpotent, !Z.lxor_0_r, !foldl_app in E.
  assert (0 <= foldl Crc32Step 4294967295 l < 2 ^ 32) by (apply crc_fold_range; [done|lia]).
  apply crc_fold_inj in E; [|done|by apply crc_fold_range..].
  by apply crc_block_inj in E.
Qed.

(** C33: the table-driven [Crc32] computes the same checksum as the bit-serial
    reflected CRC-32 with polynomial 0xEDB88320, on every byte string. *)
Theorem Crc32_equals_reference (data : list Z) (Hdata : bytes_ok data) :
  Crc32 data = crc32_ref data.
Proof.
  unfold Crc32, crc32_ref. f_equal.
  assert (0 <= 0xFFFFFFFF < 2 ^ 32) as Hc by lia.
  revert Hc. generalize 0xFFFFFFFF as c.
  induction Hdata as [|b l Hb Hl IH]; intros c Hc; [done|]. simpl.
  rewrite <- Crc32Step_ref by done. apply IH.
  apply (crc_fold_range [b]); [by constructor|done].
Qed.

Lemma Crc32_equals_reference_witness :
  Crc32 [49; 50; 51; 52; 53; 54; 55; 56; 57] = 0xCBF43926 /\
  Crc32 [49; 50; 51; 52; 53; 54; 55; 56; 57]
    = crc32_ref [49; 50; 51; 52; 53; 54; 55; 56; 57].
Proof.
  split; [vm_compute; reflexivity|]. apply Crc32_equals_reference.
  apply (bool_decide_unpack _). vm_compute. exact I.
Defined.

(** error detection: two messages that differ only inside one window of at
    most four consecutive bytes (a burst of up to 32 bits) have different
    checksums. *)
Theorem Crc32_detects_bursts (l m1 m2 r : list Z)
    (Hl : bytes_ok l) (H1 : bytes_ok m1) (H2 : bytes_ok m2) (Hr : bytes_ok r)
    (Hlen : length m1 = length m2) (Hwin : (length m1 <= 4)%nat) (Hne : m1 <> m2) :
  Crc32 (l ++ m1 ++ r) <> Crc32 (l ++ m2 ++ r).
Proof. by apply Crc32_burst_neq. Qed.

Lemma Crc32_detects_bursts_witness :
  Crc32 ([1; 2] ++ [3; 4; 5; 6] ++ [7]) <> Crc32 ([1; 2] ++ [3; 0; 0; 255] ++ [7]).
Proof.
  apply (Crc32_detects_bursts [1; 2] [3; 4; 5; 6] [3; 0; 0; 255] [7]);
    try (apply (bool_decide_unpack _); vm_compute; exact I).
Defined.
