(* ===== verification/Key.v ===== *)
(** * Index keys ([parakv/core/index/key.h])

    [Key64] and [Key128] with the operations of the header, and the class
    [KeyT] of key types the WAL, the index and the segments are generic over:
    trivially copyable types, copied to and from raw bytes with [memcpy] on a
    little-endian host. *)

From S2P Require Import Prelude.
From Stdlib Require Import Ascii.

(** What [memcpy] of a trivially copyable key gives the components that store
    keys as raw bytes. *)
Class KeyT (K : Type) := {
  key_eq_dec :: EqDecision K;
  key_countable :: Countable K;
  key_sizeof : nat;
  key_raw : K -> list Z;
  key_of_raw : list Z -> K;
  key_valid : K -> Prop;
}.

Class KeyTLaws (K : Type) `{!KeyT K} := {
  key_raw_length : forall k, length (key_raw k) = key_sizeof;
  key_raw_bytes : forall k, bytes_ok (key_raw k);
  key_of_raw_raw : forall k, key_valid k -> key_of_raw (key_raw k) = k;
  key_of_raw_valid : forall l, bytes_ok l -> length l = key_sizeof -> key_valid (key_of_raw l);
  key_raw_of_raw : forall l, bytes_ok l -> length l = key_sizeof -> key_raw (key_of_raw l) = l;
}.
#[global] Hint Mode KeyT ! : typeclass_instances.

(** ** Key64 *)

Definition Key64 : Type := Z.
Definition Key64_raw (k : Key64) : list Z := le_bytes 8 k.
Definition Key64_of_raw (l : list Z) : Key64 := le_val (take 8 l).

#[export] Instance Key64_KeyT : KeyT Key64 := {|
  key_eq_dec := Z.eq_dec;
  key_countable := Z_countable;
  key_sizeof := 8;
  key_raw := Key64_raw;
  key_of_raw := Key64_of_raw;
  key_valid := fun k => in_u 64 k;
|}.

#[export] Instance Key64_laws : KeyTLaws Key64.
Proof.
  constructor; cbn [key_raw key_of_raw key_valid key_sizeof Key64_KeyT].
  - intros k. apply length_le_bytes.
  - intros k. apply le_bytes_ok.
  - intros k Hk. unfold Key64_of_raw, Key64_raw. rewrite take_ge by len.
    rewrite le_val_bytes. by apply Z.mod_small.
  - intros l Hl Hn. unfold Key64_of_raw. rewrite take_ge by lia.
    pose proof (le_val_range l Hl) as R. by rewrite Hn in R.
  - intros l Hl Hn. unfold Key64_of_raw, Key64_raw. rewrite take_ge by lia.
    rewrite <- Hn. by apply le_bytes_val.
Qed.

(** ** Key128 *)

Record Key128 := mkKey128 { hi : Z; lo : Z }.

#[export] Instance Key128_eq_dec : EqDecision Key128.
Proof. solve_decision. Defined.

#[export] Instance Key128_countable : Countable Key128.
Proof.
  apply (inj_countable' (fun k => (hi k, lo k)) (fun p => mkKey128 (fst p) (snd p))).
  by intros [].
Defined.

Definition Key128_valid (k : Key128) : Prop := in_u 64 (hi k) /\ in_u 64 (lo k).

#[export] Instance Key128_valid_dec k : Decision (Key128_valid k).
Proof. unfold Key128_valid. apply _. Defined.

(** [operator==], [operator!=], [operator<]. *)
Definition Key128_eqb (a b : Key128) : bool := (hi a =? hi b) && (lo a =? lo b).
Definition Key128_neqb (a b : Key128) : bool := negb (Key128_eqb a b).
Definition Key128_ltb (a b : Key128) : bool :=
  (hi a <? hi b) || ((hi a =? hi b) && (lo a <? lo b)).

(** The object representation: [hi] then [lo], little-endian. *)
Definition Key128_raw (k : Key128) : list Z := le_bytes 8 (hi k) ++ le_bytes 8 (lo k).
Definition Key128_of_raw (l : list Z) : Key128 :=
  mkKey128 (le_val (take 8 l)) (le_val (take 8 (drop 8 l))).

(** [FromRaw]: [None] stands for a null [data] pointer, the result for the
    key written to [*out] when the function returns true. *)
Definition Key128_FromRaw (data : option (list Z)) (len : nat) : option Key128 :=
  match data with
  | None => None
  | Some d => if (len =? 16)%nat then Some (Key128_of_raw d) else None
  end.

Definition Key128_FromString (s : list Z) : option Key128 :=
  Key128_FromRaw (Some s) (length s).

Definition kHex : list ascii :=
  ["0"; "1"; "2"; "3"; "4"; "5"; "6"; "7"; "8"; "9"; "A"; "B"; "C"; "D"; "E"; "F"]%char.

(** One nibble: [uint8_t byte = (uint8_t)(v >> (60 - i * 4)) & 0xF]. *)
Definition hex_digit (v : Z) (i : nat) : ascii :=
  let byte := Z.land (u8 (Z.shiftr v (60 - Z.of_nat i * 4))) 0xF in
  default "0"%char (kHex !! Z.to_nat byte).

Definition Key128_ToString (k : Key128) : list ascii :=
  (hex_digit (hi k) <$> seq 0 16) ++ (hex_digit (lo k) <$> seq 0 16).

(** [Key128Hash]: 64-bit mixing with wrap-around. *)
Definition Key128Hash (k : Key128) : Z :=
  let kMix := 0x9E3779B97F4A7C15 in
  let h := hi k in
  let h := Z.lxor h (u64 (lo k + kMix + u64 (Z.shiftl h 6) + Z.shiftr h 2)) in
  let h := Z.lxor h (Z.shiftr h 30) in
  let h := u64 (h * 0xBF58476D1CE4E5B9) in
  let h := Z.lxor h (Z.shiftr h 27) in
  let h := u64 (h * 0x94D049BB133111EB) in
  Z.lxor h (Z.shiftr h 31).

#[export] Instance Key128_KeyT : KeyT Key128 := {|
  key_eq_dec := Key128_eq_dec;
  key_countable := Key128_countable;
  key_sizeof := 16;
  key_raw := Key128_raw;
  key_of_raw := Key128_of_raw;
  key_valid := Key128_valid;
|}.

#[export] Instance Key128_laws : KeyTLaws Key128.
Proof.
  constructor; cbn [key_raw key_of_raw key_valid key_sizeof Key128_KeyT].
  - intros k. unfold Key128_raw. len.
  - intros k. apply bytes_ok_app. auto with parakv.
  - intros [h l] [Hh Hl]. unfold Key128_of_raw, Key128_raw. cbn [hi lo] in *.
    rewrite drop_app_length' by len.
    rewrite take_app_length', take_ge by len.
    rewrite !le_val_bytes. f_equal; by apply Z.mod_small.
  - intros l Hl Hn. split; cbn [hi lo Key128_of_raw].
    + pose proof (le_val_range (take 8 l) (Forall_take _ _ _ Hl)) as R.
      rewrite length_take_le in R by lia. exact R.
    + pose proof (le_val_range (take 8 (drop 8 l)) (Forall_take _ _ _ (Forall_drop _ _ _ Hl))) as R.
      rewrite length_take_le in R by len. exact R.
  - intros l Hl Hn. unfold Key128_of_raw, Key128_raw. cbn [hi lo].
    assert (forall d, bytes_ok d -> length d = 8%nat -> le_bytes 8 (le_val d) = d) as E.
    { intros d Hd Hd8. rewrite <- Hd8. by apply le_bytes_val. }
    rewrite !E; [|apply Forall_take, Forall_drop, Hl|len|by apply Forall_take|len].
    rewrite (take_ge (drop 8 l)) by len. apply take_drop.
Qed.

(** ** Ordering and printing *)

Lemma nth_kHex_inj a b :
  0 <= a < 16 -> 0 <= b < 16 ->
  default "0"%char (kHex !! Z.to_nat a) = default "0"%char (kHex !! Z.to_nat b) -> a = b.
Proof.
  intros Ha Hb E. apply Z2Nat.inj; [lia..|].
  assert (forall n, (n < 16)%nat -> kHex !! n = Some (default "0"%char (kHex !! n))) as L.
  { intros n Hn. destruct (lookup_lt_is_Some_2 kHex n) as [c Hc]; [done|]. by rewrite Hc. }
  eapply (NoDup_lookup kHex); [apply (bool_decide_unpack _); vm_compute; exact I| |].
  - apply L. lia.
  - rewrite L by lia. by rewrite E.
Qed.

(** The printed nibble [i] is the value of bits [60-4i .. 63-4i]. *)
Lemma hex_digit_nibble v w i :
  (i < 16)%nat -> hex_digit v i = hex_digit w i ->
  Z.shiftr v (60 - Z.of_nat i * 4) mod 16 = Z.shiftr w (60 - Z.of_nat i * 4) mod 16.
Proof.
  intros Hi E. unfold hex_digit in E.
  assert (forall z, Z.land (u8 z) 15 = z mod 16) as L.
  { intros z. unfold u8. change 15 with (Z.ones 4). rewrite Z.land_ones by lia.
    apply Z.mod_mod_divide. by exists 16. }
  rewrite !L in E. apply nth_kHex_inj in E; [done|apply Z.mod_pos_bound; lia..].
Qed.

Lemma hex_digits_inj v w :
  in_u 64 v -> in_u 64 w -> (hex_digit v <$> seq 0 16) = (hex_digit w <$> seq 0 16) -> v = w.
Proof.
  unfold in_u. intros Hv Hw E. apply Z.bits_inj'. intros j Hj.
  destruct (Z.lt_ge_cases j 64).
  2: { by rewrite (testbit_small v 64), (testbit_small w 64) by lia. }
  set (i := Z.to_nat (15 - j / 4)).
  assert (0 <= j / 4 < 16) by (split; [apply Z.div_pos|apply Z.div_lt_upper_bound]; lia).
  assert (hex_digit v i = hex_digit w i) as Ei.
  { apply (f_equal (fun l => l !! i)) in E.
    rewrite !list_lookup_fmap, !lookup_seq_lt in E by lia. by injection E. }
  apply hex_digit_nibble in Ei; [|lia].
  apply (f_equal (fun z => Z.testbit z (j mod 4))) in Ei.
  change 16 with (2 ^ 4) in Ei. pose proof (Z.mod_pos_bound j 4).
  rewrite !mod_pow2_testbit, !Z.shiftr_spec in Ei by lia.
  rewrite (proj2 (Z.ltb_lt (j mod 4) 4)) in Ei by lia.
  replace (j mod 4 + (60 - Z.of_nat i * 4)) with j in Ei; [done|].
  subst i. rewrite Z2Nat.id by lia. pose proof (Z.div_mod j 4). lia.
Qed.

(** [operator<] is the order of the keys as 128-bit numbers and
    [operator==] is equality, so comparison is a strict total order. *)
Theorem Key128_order_is_numeric (a b : Key128) (Ha : Key128_valid a) (Hb : Key128_valid b) :
  Key128_ltb a b = (hi a * 2 ^ 64 + lo a <? hi b * 2 ^ 64 + lo b) /\
  (Key128_eqb a b = true <-> a = b) /\
  (Key128_ltb a b = true \/ a = b \/ Key128_ltb b a = true).
Proof.
  destruct a as [ha la], b as [hb lb]. destruct Ha as [Ha1 Ha2], Hb as [Hb1 Hb2].
  unfold in_u, Key128_ltb, Key128_eqb in *. cbn [hi lo] in *. split_and!.
  - destruct (Z.ltb_spec (ha * 2 ^ 64 + la) (hb * 2 ^ 64 + lb)),
      (Z.ltb_spec ha hb), (Z.eqb_spec ha hb), (Z.ltb_spec la lb); cbn; nia.
  - rewrite andb_true_iff, !Z.eqb_eq. split; [by intros [-> ->]|by intros [= -> ->]].
  - destruct (Z.ltb_spec ha hb), (Z.eqb_spec ha hb), (Z.ltb_spec la lb),
      (Z.ltb_spec hb ha), (Z.eqb_spec hb ha), (Z.ltb_spec lb la); cbn; try tauto; try lia.
    right. left. f_equal; lia.
Qed.

Lemma Key128_order_is_numeric_witness :
  Key128_ltb (mkKey128 1 (2 ^ 64 - 1)) (mkKey128 2 0) = true.
Proof.
  etransitivity; [apply Key128_order_is_numeric|vm_compute; reflexivity];
    apply (bool_decide_unpack _); vm_compute; exact I.
Defined.

(** a 16-byte string and only a 16-byte string is a key; the key's bytes
    are that string, and the hexadecimal form printed by [ToString] identifies
    the key. *)
Theorem Key128_strings (s : list Z) (k1 k2 : Key128)
    (Hs : bytes_ok s) (H1 : Key128_valid k1) (H2 : Key128_valid k2) :
  (length s <> 16%nat -> Key128_FromString s = None) /\
  (length s = 16%nat -> exists k, Key128_FromString s = Some k /\ Key128_valid k /\ Key128_raw k = s) /\
  length (Key128_ToString k1) = 32%nat /\
  (Key128_ToString k1 = Key128_ToString k2 -> k1 = k2).
Proof.
  unfold Key128_FromString, Key128_FromRaw. split_and!.
  - intros Hn. by destruct (Nat.eqb_spec (length s) 16).
  - intros Hn. rewrite (proj2 (Nat.eqb_eq _ _) Hn). eexists. split; [done|]. split.
    + exact (key_of_raw_valid (K := Key128) s Hs Hn).
    + exact (key_raw_of_raw (K := Key128) s Hs Hn).
  - unfold Key128_ToString. len.
  - intros E. destruct k1 as [h1 l1], k2 as [h2 l2]. destruct H1 as [? ?], H2 as [? ?].
    unfold Key128_ToString in E. apply app_inj_1 in E as [E1 E2]; [|len].
    f_equal; by apply hex_digits_inj.
Qed.

Lemma Key128_strings_witness :
  Key128_FromString (seq 1 16 ≫= (fun n => [Z.of_nat n])) =
    Some (mkKey128 0x0807060504030201 0x100f0e0d0c0b0a09) /\
  Key128_FromString [] = None.
Proof.
  split; [vm_compute; reflexivity|].
  apply (Key128_strings [] (mkKey128 0 0) (mkKey128 0 0)); try done;
    apply (bool_decide_unpack _); vm_compute; exact I.
Defined.
