(* ===== verification/Offset.v ===== *)
(** * Encoded offsets ([parakv/core/index/offset.h])

    The 64-bit locations of the index: a 3-bit flag and a flag-specific
    payload.  The [assert]s of the encoders are the hypotheses under which the
    round trips hold; with assertions compiled out the encoders run on any
    argument, as here. *)

From S2P Require Import Prelude.

Inductive OffsetFlag := kFileOffset | kSegmentSlot | kMemory | kFlagOther (z : Z).

#[export] Instance OffsetFlag_eq_dec : EqDecision OffsetFlag.
Proof. solve_decision. Defined.

(** The numeric value of a flag; [kFlagOther] are the values of the [uint8_t]
    enumeration without an enumerator. *)
Definition flag_code (f : OffsetFlag) : Z :=
  match f with kFileOffset => 0 | kSegmentSlot => 1 | kMemory => 2 | kFlagOther z => z end.

Definition flag_of_code (z : Z) : OffsetFlag :=
  if z =? 0 then kFileOffset else if z =? 1 then kSegmentSlot
  else if z =? 2 then kMemory else kFlagOther z.

Definition kFlagBits : Z := 3.
Definition kFlagShift : Z := 61.
Definition kFlagMask : Z := Z.shiftl 1 kFlagBits - 1.
Definition kSlotIdBits : Z := 28.
Definition kSegmentIdBits : Z := 20.
Definition kSlotIdMask : Z := Z.shiftl 1 kSlotIdBits - 1.
Definition kSegmentIdMask : Z := Z.shiftl 1 kSegmentIdBits - 1.
Definition kFileOffsetMask : Z := Z.shiftl 1 48 - 1.
Definition kMemoryAddrMask : Z := Z.shiftl 1 48 - 1.
Definition kInvalid : Z := UINT64_MAX.

Definition EncodeFileOffset (file_offset : Z) : Z :=
  Z.lor (Z.shiftl (flag_code kFileOffset) kFlagShift) (Z.land file_offset kFileOffsetMask).

(** [segment_id] and [slot_id] are [uint32_t]; the shift is done in 64 bits. *)
Definition EncodeSegmentSlot (segment_id slot_id : Z) : Z :=
  let payload := Z.lor (u64 (Z.shiftl segment_id kSlotIdBits)) slot_id in
  Z.lor (Z.shiftl (flag_code kSegmentSlot) kFlagShift) payload.

Definition EncodeMemoryAddress (addr : Z) : Z :=
  Z.lor (Z.shiftl (flag_code kMemory) kFlagShift) (Z.land addr kMemoryAddrMask).

Definition GetFlag (encoded : Z) : OffsetFlag :=
  flag_of_code (Z.land (Z.shiftr encoded kFlagShift) kFlagMask).
Definition GetFileOffset (encoded : Z) : Z := Z.land encoded kFileOffsetMask.
Definition GetSegmentId (encoded : Z) : Z :=
  u32 (Z.land (Z.shiftr encoded kSlotIdBits) kSegmentIdMask).
Definition GetSlotId (encoded : Z) : Z := u32 (Z.land encoded kSlotIdMask).
Definition GetMemoryAddress (encoded : Z) : Z := Z.land encoded kMemoryAddrMask.

(** The arguments the [assert]s of [EncodeSegmentSlot] accept. *)
Definition seg_slot_ok (segment_id slot_id : Z) : Prop :=
  0 <= segment_id < 2 ^ 20 /\ 0 <= slot_id < 2 ^ 28.

#[export] Instance seg_slot_ok_dec a b : Decision (seg_slot_ok a b).
Proof. unfold seg_slot_ok. apply _. Defined.

Lemma mask_ones n : 0 <= n -> Z.shiftl 1 n - 1 = Z.ones n.
Proof. intros. rewrite Z.ones_equiv, Z.shiftl_mul_pow2 by lia. lia. Qed.

Lemma land_mask z n : 0 <= n -> Z.land z (Z.shiftl 1 n - 1) = z mod 2 ^ n.
Proof. intros. by rewrite mask_ones, Z.land_ones by done. Qed.

Ltac offset_unfold :=
  unfold EncodeFileOffset, EncodeSegmentSlot, EncodeMemoryAddress, GetFlag, GetFileOffset,
    GetSegmentId, GetSlotId, GetMemoryAddress, kSlotIdMask, kSegmentIdMask,
    kFileOffsetMask, kMemoryAddrMask, kFlagMask, kFlagShift, kFlagBits, kSlotIdBits,
    kSegmentIdBits, u32, u64, flag_code in *;
  rewrite ?land_mask in * by lia.

(** The encoder in arithmetic form: the three fields do not overlap. *)
Lemma EncodeSegmentSlot_sum seg slot :
  0 <= seg < 2 ^ 32 -> 0 <= slot < 2 ^ 28 ->
  EncodeSegmentSlot seg slot = 2 ^ 61 + seg * 2 ^ 28 + slot.
Proof.
  intros Hs Ht. offset_unfold.
  rewrite Z.mod_small by (rewrite Z.shiftl_mul_pow2 by lia; lia).
  assert (forall a b n, 0 <= n -> 0 <= b < 2 ^ n -> Z.lor (Z.shiftl a n) b = a * 2 ^ n + b) as L.
  { intros a b n Hn Hb. rewrite <- Z.shiftl_mul_pow2 by done.
    rewrite Z.add_nocarry_lxor; [|zbits_at n]. zbits_at n. }
  rewrite (L seg slot 28) by lia. rewrite L; lia.
Qed.

Lemma EncodeSegmentSlot_range seg slot :
  seg_slot_ok seg slot -> 2 ^ 61 <= EncodeSegmentSlot seg slot < 2 ^ 62.
Proof. intros [Hs Ht]. rewrite EncodeSegmentSlot_sum by lia. lia. Qed.

Lemma GetFlag_EncodeSegmentSlot seg slot :
  seg_slot_ok seg slot -> GetFlag (EncodeSegmentSlot seg slot) = kSegmentSlot.
Proof.
  intros H. pose proof (EncodeSegmentSlot_range seg slot H) as R.
  unfold GetFlag, kFlagShift, kFlagMask, kFlagBits. rewrite land_mask, Z.shiftr_div_pow2 by lia.
  replace (EncodeSegmentSlot seg slot / 2 ^ 61) with 1; [done|].
  apply Z.div_unique with (EncodeSegmentSlot seg slot - 2 ^ 61); lia.
Qed.

Lemma GetSegmentId_EncodeSegmentSlot seg slot :
  seg_slot_ok seg slot -> GetSegmentId (EncodeSegmentSlot seg slot) = seg.
Proof.
  intros [Hs Ht]. rewrite EncodeSegmentSlot_sum by lia. offset_unfold.
  rewrite Z.shiftr_div_pow2 by lia.
  replace ((2 ^ 61 + seg * 2 ^ 28 + slot) / 2 ^ 28) with (2 ^ 33 + seg).
  - replace (2 ^ 33 + seg) with (seg + 2 ^ 13 * 2 ^ 20) by lia.
    rewrite Z.mod_add, (Z.mod_small seg) by lia. apply Z.mod_small. lia.
  - apply Z.div_unique with slot; lia.
Qed.

Lemma GetSlotId_EncodeSegmentSlot seg slot :
  seg_slot_ok seg slot -> GetSlotId (EncodeSegmentSlot seg slot) = slot.
Proof.
  intros [Hs Ht]. rewrite EncodeSegmentSlot_sum by lia. offset_unfold.
  replace (2 ^ 61 + seg * 2 ^ 28 + slot) with (slot + (2 ^ 33 + seg) * 2 ^ 28) by lia.
  rewrite Z.mod_add, (Z.mod_small slot) by lia. apply Z.mod_small. lia.
Qed.

Lemma EncodeSegmentSlot_inj s1 t1 s2 t2 :
  seg_slot_ok s1 t1 -> seg_slot_ok s2 t2 ->
  EncodeSegmentSlot s1 t1 = EncodeSegmentSlot s2 t2 -> s1 = s2 /\ t1 = t2.
Proof.
  intros H1 H2 E. split.
  - rewrite <- (GetSegmentId_EncodeSegmentSlot s1 t1 H1), E.
    by apply GetSegmentId_EncodeSegmentSlot.
  - rewrite <- (GetSlotId_EncodeSegmentSlot s1 t1 H1), E.
    by apply GetSlotId_EncodeSegmentSlot.
Qed.
#[export] Hint Rewrite GetFlag_EncodeSegmentSlot GetSegmentId_EncodeSegmentSlot
  GetSlotId_EncodeSegmentSlot using done : len_db.

(** Flags 0 and 2 carry a 48-bit payload below the flag. *)
Lemma lor_flag_payload f z :
  0 <= z < 2 ^ 48 ->
  Z.lor (Z.shiftl f 61) z = f * 2 ^ 61 + z.
Proof.
  intros Hz. rewrite <- Z.shiftl_mul_pow2 by lia.
  rewrite Z.add_nocarry_lxor; [|zbits_at 61]. zbits_at 61.
Qed.

(** every encoder round-trips on the arguments its assertion admits: the
    flag, the segment id, the slot id, the file offset and the address come
    back, segment/slot encodings are 64-bit values different from [kInvalid],
    and distinct locations have distinct encodings. *)
Theorem OffsetCodec_roundtrip (seg slot off addr : Z)
    (Hss : seg_slot_ok seg slot) (Ho : in_u 48 off) (Ha : in_u 48 addr) :
  (GetFlag (EncodeSegmentSlot seg slot) = kSegmentSlot /\
   GetSegmentId (EncodeSegmentSlot seg slot) = seg /\
   GetSlotId (EncodeSegmentSlot seg slot) = slot /\
   in_u 64 (EncodeSegmentSlot seg slot) /\
   EncodeSegmentSlot seg slot <> kInvalid /\
   (forall seg' slot', seg_slot_ok seg' slot' ->
      EncodeSegmentSlot seg' slot' = EncodeSegmentSlot seg slot -> seg' = seg /\ slot' = slot)) /\
  (GetFlag (EncodeFileOffset off) = kFileOffset /\ GetFileOffset (EncodeFileOffset off) = off) /\
  (GetFlag (EncodeMemoryAddress addr) = kMemory /\
   GetMemoryAddress (EncodeMemoryAddress addr) = addr).
Proof.
  unfold in_u in Ho, Ha. pose proof (EncodeSegmentSlot_range seg slot Hss) as R.
  split_and!.
  - by apply GetFlag_EncodeSegmentSlot.
  - by apply GetSegmentId_EncodeSegmentSlot.
  - by apply GetSlotId_EncodeSegmentSlot.
  - unfold in_u. lia.
  - unfold kInvalid, UINT64_MAX. lia.
  - intros seg' slot' H E. by apply EncodeSegmentSlot_inj.
  - offset_unfold. rewrite (Z.mod_small off), lor_flag_payload by lia.
    rewrite Z.shiftr_div_pow2, Z.div_small by lia. done.
  - offset_unfold. rewrite (Z.mod_small off), lor_flag_payload by lia.
    apply Z.mod_small. lia.
  - offset_unfold. rewrite (Z.mod_small addr), lor_flag_payload by lia.
    rewrite Z.shiftr_div_pow2 by lia.
    replace ((2 * 2 ^ 61 + addr) / 2 ^ 61) with 2; [done|].
    apply Z.div_unique with addr; lia.
  - offset_unfold. rewrite (Z.mod_small addr), lor_flag_payload by lia.
    replace (2 * 2 ^ 61 + addr) with (addr + 2 ^ 14 * 2 ^ 48) by lia.
    rewrite Z.mod_add by lia. apply Z.mod_small. lia.
Qed.

Lemma OffsetCodec_roundtrip_witness :
  GetSegmentId (EncodeSegmentSlot 1048575 268435455) = 1048575 /\
  GetMemoryAddress (EncodeMemoryAddress 0x7FFFDEADBEEF) = 0x7FFFDEADBEEF.
Proof.
  pose proof (OffsetCodec_roundtrip 1048575 268435455 0 0x7FFFDEADBEEF) as H.
  split; apply H; unfold seg_slot_ok, in_u; lia.
Defined.

(** With assertions compiled out, ids past the field widths silently
    alias: segment 2^20 is read back as segment 0. *)
Example EncodeSegmentSlot_aliases :
  GetSegmentId (EncodeSegmentSlot (2 ^ 20) 7) = 0 /\
  GetSlotId (EncodeSegmentSlot 0 (2 ^ 28)) = 0.
Proof. split; vm_compute; reflexivity. Qed.
