(* ===== verification/Wal.v ===== *)
(** * The write-ahead log ([parakv/core/index/wal.h], [wal.cc])

    [WalRecord<KeyT>] with its on-disk encoding, [WalWriter] (append and
    fsync), [WalReader] (sequential replay).  Everything is generic in the key
    type, as the templates are. *)

From S2P Require Import Prelude Common Sys Crc Key.

(** ** Little-endian fields in a byte buffer *)

(** [WriteLE64] / [WriteLE32]: the loop [p[i] = (uint8_t)(v >> (i * 8))]. *)
Definition write_le (n p : nat) (v : Z) (out : list Z) : list Z :=
  foldl (fun b i => <[(p + i)%nat := u8 (Z.shiftr v (Z.of_nat i * 8))]> b) out (seq 0 n).
Definition WriteLE64 (p : nat) (v : Z) (out : list Z) : list Z := write_le 8 p v out.
Definition WriteLE32 (p : nat) (v : Z) (out : list Z) : list Z := write_le 4 p v out.

(** [ReadLE64] / [ReadLE32]: the loop [v |= (uintN_t)p[i] << (i * 8)]. *)
Definition read_le (n p : nat) (d : list Z) : Z :=
  foldl (fun v i => Z.lor v (Z.shiftl (default 0 (d !! (p + i)%nat)) (Z.of_nat i * 8)))
        0 (seq 0 n).
Definition ReadLE64 (p : nat) (d : list Z) : Z := read_le 8 p d.
Definition ReadLE32 (p : nat) (d : list Z) : Z := read_le 4 p d.

(** ** Records *)

(** [WalRecordType] is a [uint8_t] enumeration: a decoded record may carry any
    byte, so the type is kept as a number with the three enumerators named. *)
Definition kInsert : Z := 0x01.
Definition kUpdate : Z := 0x02.
Definition kDelete : Z := 0x03.

Record WalRecord (K : Type) := mkRec {
  rec_type : Z;
  rec_key : K;
  disk_addr : Z;
  old_disk_addr : Z;
}.
Arguments mkRec {K}.
Arguments rec_type {K}.
Arguments rec_key {K}.
Arguments disk_addr {K}.
Arguments old_disk_addr {K}.

Definition kMagic : Z := 0xA5.

Section record.
Context {K : Type} `{!KeyT K}.

Definition kKeySize : nat := key_sizeof (K := K).
Definition kCrcOffset : nat := 2 + kKeySize + 16.
Definition kCrcPayloadLen : nat := kCrcOffset.
Definition kRawSize : nat := kCrcOffset + 4.
(** [(kRawSize + 7) & ~size_t{7}]. *)
Definition kEncodedSize : nat :=
  Z.to_nat (Z.land (Z.of_nat kRawSize + 7) (Z.lnot 7)).

Definition Encode (r : WalRecord K) : list Z :=
  let out := replicate kEncodedSize 0 in
  let out := <[0%nat := kMagic]> out in
  let out := <[1%nat := u8 (rec_type r)]> out in
  let out := splice 2 (key_raw (rec_key r)) out in
  let out := WriteLE64 (2 + kKeySize) (disk_addr r) out in
  let out := WriteLE64 (10 + kKeySize) (old_disk_addr r) out in
  let crc := Crc32 (take kCrcPayloadLen out) in
  WriteLE32 kCrcOffset crc out.

Definition Decode (inb : list Z) : option (WalRecord K) :=
  if negb (default 0 (inb !! 0%nat) =? kMagic) then None else
  let crc_expected := ReadLE32 kCrcOffset inb in
  let crc_actual := Crc32 (take kCrcPayloadLen inb) in
  if negb (crc_expected =? crc_actual) then None else
  Some (mkRec (default 0 (inb !! 1%nat)) (key_of_raw (slice 2 kKeySize inb))
              (ReadLE64 (2 + kKeySize) inb) (ReadLE64 (10 + kKeySize) inb)).

(** The values a record of the program carries: a byte type, a key that
    exists, 64-bit addresses. *)
Definition rec_ok (r : WalRecord K) : Prop :=
  byte_ok (rec_type r) /\ key_valid (rec_key r) /\
  in_u 64 (disk_addr r) /\ in_u 64 (old_disk_addr r).
End record.
Arguments kKeySize K {_}.
Arguments kCrcOffset K {_}.
Arguments kCrcPayloadLen K {_}.
Arguments kRawSize K {_}.
Arguments kEncodedSize K {_}.
#[global] Arguments Encode : simpl never.
#[global] Arguments Decode : simpl never.

(** ** Writer *)

Record WalWriter := mkWriter {
  ww_fd : option string;     (** [fd_]: the file the descriptor names, or -1 *)
  ww_path : string;
  bytes_written_ : Z;
}.

Definition WalWriter_new : WalWriter := mkWriter None EmptyString 0.

Definition file_size (path : string) (fs : FS) : Z :=
  match fs_files fs !! path with Some f => Z.of_nat (length (f_data f)) | None => 0 end.

Definition WalWriter_Open (path : string) (truncate : bool) (w : WalWriter) (fs : FS)
    : Status * WalWriter * FS :=
  match ww_fd w with
  | Some _ => (kOk, w, fs)
  | None =>
      let '(opened, fs) := sys_open path true truncate fs in
      if negb opened then (kIOError, w, fs) else
      let '(stated, fs) := sys_call fs in
      if negb stated then (kIOError, w, fs)
      else (kOk, mkWriter (Some path) path (file_size path fs), fs)
  end.

Definition WalWriter_Close (w : WalWriter) (fs : FS) : Status * WalWriter * FS :=
  match ww_fd w with
  | None => (kOk, w, fs)
  | Some p =>
      let '(_, fs) := sys_fsync p fs in
      (kOk, mkWriter None (ww_path w) (bytes_written_ w), fs)
  end.

Definition WriteLocked (buf : list Z) (w : WalWriter) (fs : FS) : Status * WalWriter * FS :=
  match ww_fd w with
  | None => (kIOError, w, fs)
  | Some p =>
      let '(s, fs) := fs_pwrite p buf (Z.to_nat (bytes_written_ w)) fs in
      if negb (status_is_ok s) then (s, w, fs)
      else (kOk, mkWriter (ww_fd w) (ww_path w)
                   (u64 (bytes_written_ w + Z.of_nat (length buf))), fs)
  end.

(** The fsync both appends end with. *)
Definition sync_writer (w : WalWriter) (fs : FS) : Status * WalWriter * FS :=
  match ww_fd w with
  | None => (kIOError, w, fs)
  | Some p =>
      let '(ok, fs) := sys_fsync p fs in
      (if ok then kOk else kIOError, w, fs)
  end.

(** [Append(buf, n)]: [None] is a null buffer. *)
Definition WalWriter_Append (buf : option (list Z)) (n : nat) (w : WalWriter) (fs : FS)
    : Status * WalWriter * FS :=
  match buf with
  | None => (kInvalidArgument, w, fs)
  | Some b =>
      if (n =? 0)%nat then (kInvalidArgument, w, fs) else
      let '(s, w, fs) := WriteLocked (take n b) w fs in
      if negb (status_is_ok s) then (s, w, fs) else sync_writer w fs
  end.

(** The write loop of [AppendBatch] over the records [i], [i+1], ... *)
Fixpoint write_records (b : list Z) (record_size : nat) (idx : list nat)
    (w : WalWriter) (fs : FS) : Status * WalWriter * FS :=
  match idx with
  | [] => (kOk, w, fs)
  | i :: idx =>
      let '(s, w, fs) := WriteLocked (slice (i * record_size) record_size b) w fs in
      if negb (status_is_ok s) then (s, w, fs) else write_records b record_size idx w fs
  end.

Definition AppendBatch (buf : option (list Z)) (record_size count : nat)
    (w : WalWriter) (fs : FS) : Status * WalWriter * FS :=
  match buf with
  | None => (kInvalidArgument, w, fs)
  | Some b =>
      if (record_size =? 0)%nat || (count =? 0)%nat then (kInvalidArgument, w, fs) else
      let '(s, w, fs) := write_records b record_size (seq 0 count) w fs in
      if negb (status_is_ok s) then (s, w, fs) else sync_writer w fs
  end.

(** [Append<KeyT>(rec)]. *)
Definition AppendRecord {K} `{!KeyT K} (r : WalRecord K) (w : WalWriter) (fs : FS)
    : Status * WalWriter * FS :=
  WalWriter_Append (Some (Encode r)) (kEncodedSize K) w fs.

(** ** Reader *)

Record WalReader := mkReader {
  wr_fd : option string;
  wr_path : string;
  wr_pos : nat;              (** the file cursor *)
  last_good_offset_ : Z;
}.

Definition WalReader_new : WalReader := mkReader None EmptyString 0 0.

Definition WalReader_Open (path : string) (r : WalReader) (fs : FS) : Status * WalReader * FS :=
  match wr_fd r with
  | Some _ => (kOk, r, fs)
  | None =>
      let '(opened, fs) := sys_open path false false fs in
      if negb opened then (kIOError, r, fs) else
      let '(sought, fs) := sys_call fs in
      if negb sought then (kIOError, mkReader None path (wr_pos r) 0, fs)
      else (kOk, mkReader (Some path) path 0 0, fs)
  end.

Definition WalReader_Close (r : WalReader) : Status * WalReader :=
  (kOk, mkReader None (wr_path r) (wr_pos r) (last_good_offset_ r)).

(** [ReadAll]: read [count] bytes at the cursor; [total] bytes were read by
    this call so far.  Returns the status, the bytes, the [eof] flag. *)
Fixpoint ReadAll (sc : script) (count pos total : nat) (d : list Z)
    : Status * list Z * bool * script :=
  match count with
  | O => (kOk, [], false, sc)
  | _ =>
    match sc with
    | [] =>
        let got := slice pos count d in
        if (length got =? count)%nat then (kOk, got, false, [])
        else if (total + length got =? 0)%nat then (kOk, got, true, [])
        else (kCorruption, got, false, [])
    | Eintr :: sc => ReadAll sc count pos total d
    | Eio :: sc => (kIOError, [], false, sc)
    | Short n :: sc =>
        let got := slice pos (Nat.min (S n) count) d in
        if (length got =? 0)%nat then
          if (total =? 0)%nat then (kOk, [], true, sc) else (kCorruption, [], false, sc)
        else
          let '(s, rest, eof, sc') :=
            ReadAll sc (count - length got) (pos + length got) (total + length got) d in
          (s, got ++ rest, eof, sc')
    end
  end.

(** The [while (true)] loop of [Replay]: [fn] is the callback with the state
    it updates.  [fuel] bounds the iterations; [None] means it ran out. *)
Fixpoint replay_loop {A} (fuel : nat) (record_size : nat) (fn : list Z -> A -> bool * A)
    (d : list Z) (sc : script) (pos : nat) (good : Z) (acc : A)
    : option (Status * A * nat * Z * script) :=
  match fuel with
  | O => None
  | S fuel =>
      let '(s, buf, eof, sc) := ReadAll sc record_size pos 0 d in
      let pos := (pos + length buf)%nat in
      match s with
      | kCorruption => Some (kOk, acc, pos, good, sc)
      | kOk =>
          if eof then Some (kOk, acc, pos, good, sc) else
          let '(cont, acc) := fn buf acc in
          if negb cont then Some (kOk, acc, pos, good, sc)
          else replay_loop fuel record_size fn d sc pos
                 (u64 (good + Z.of_nat record_size)) acc
      | _ => Some (s, acc, pos, good, sc)
      end
  end.

Definition Replay {A} (record_size : nat) (fn : list Z -> A -> bool * A)
    (r : WalReader) (fs : FS) (acc : A) : option (Status * A * WalReader * FS) :=
  match wr_fd r with
  | None => Some (kIOError, acc, r, fs)
  | Some p =>
      if (record_size =? 0)%nat then Some (kInvalidArgument, acc, r, fs) else
      match fs_files fs !! p with
      | None => Some (kIOError, acc, r, fs)
      | Some f =>
          match replay_loop (S (length (f_data f))) record_size fn (f_data f)
                  (fs_script fs) (wr_pos r) (last_good_offset_ r) acc with
          | None => None
          | Some (s, acc, pos, good, sc) =>
              Some (s, acc, mkReader (wr_fd r) (wr_path r) pos good, set_script sc fs)
          end
      end
  end.

(** The lambda of the typed [Replay<KeyT>]. *)
Definition decode_cb {K A} `{!KeyT K} (apply : WalRecord K -> A -> A)
    (buf : list Z) (acc : A) : bool * A :=
  match Decode buf with
  | None => (false, acc)
  | Some r => (true, apply r acc)
  end.

Definition ReplayRecords {K A} `{!KeyT K} (apply : WalRecord K -> A -> A)
    (r : WalReader) (fs : FS) (acc : A) : option (Status * A * WalReader * FS) :=
  Replay (kEncodedSize K) (decode_cb apply) r fs acc.

(** ** Field access lemmas *)

Lemma insert_splice (p : nat) (x : Z) (d : list Z) :
  (p < length d)%nat -> <[p := x]> d = splice p [x] d.
Proof.
  intros Hp. rewrite insert_take_drop by done. unfold splice.
  rewrite take_app_le by lia. simpl. by rewrite Nat.add_1_r.
Qed.

Lemma write_le_splice n p v out :
  (p + n <= length out)%nat -> write_le n p v out = splice p (le_bytes n v) out.
Proof.
  intros Hl. unfold write_le.
  cut (forall s, (p + s + n <= length out)%nat ->
    foldl (fun b i => <[(p + i)%nat := u8 (Z.shiftr v (Z.of_nat i * 8))]> b) out (seq s n)
    = splice (p + s) (le_bytes n (Z.shiftr v (Z.of_nat s * 8))) out).
  { intros H. rewrite H by lia. by rewrite Z.shiftr_0_r, Nat.add_0_r. }
  clear Hl. revert out. induction n as [|n IH]; intros out s Hs; cbn [seq foldl le_bytes].
  - symmetry. apply splice_nil. lia.
  - rewrite IH by len. rewrite insert_splice by lia.
    rewrite Z.shiftr_shiftr by lia.
    replace (Z.of_nat s * 8 + 8) with (Z.of_nat (S s) * 8) by lia.
    replace (p + S s)%nat with (p + s + length [u8 (Z.shiftr v (Z.of_nat s * 8))])%nat
      by (simpl; lia).
    by rewrite splice_app.
Qed.

Lemma read_le_slice n p d :
  (p + n <= length d)%nat -> read_le n p d = le_val (slice p n d).
Proof.
  intros Hl. unfold read_le.
  cut (forall s acc, (p + s + n <= length d)%nat ->
    foldl (fun v i => Z.lor v (Z.shiftl (default 0 (d !! (p + i)%nat)) (Z.of_nat i * 8))) acc (seq s n)
    = Z.lor acc (Z.shiftl (le_val (slice (p + s) n d)) (Z.of_nat s * 8))).
  { intros H. rewrite H by lia. by rewrite Z.shiftl_0_r, Nat.add_0_r. }
  clear Hl. induction n as [|n IH]; intros s acc Hs; cbn [seq foldl].
  - unfold slice. simpl. by rewrite Z.shiftl_0_l, Z.lor_0_r.
  - rewrite IH by lia.
    destruct (lookup_lt_is_Some_2 d (p + s)) as [x Hx]; [lia|].
    assert (slice (p + s) (S n) d = x :: slice (p + S s) n d) as ->.
    { unfold slice. rewrite (drop_S d x) by done. by rewrite Nat.add_succ_r. }
    rewrite Hx. cbn [default le_val]. rewrite Z.shiftl_lor, Z.shiftl_shiftl by lia.
    rewrite <- Z.lor_assoc. do 3 f_equal. lia.
Qed.

(** Filling a zeroed buffer from the front. *)
Lemma splice_fill a buf m p :
  p = length a -> (length buf <= m)%nat ->
  splice p buf (a ++ replicate m 0) = a ++ buf ++ replicate (m - length buf) 0.
Proof.
  intros -> Hm. unfold splice. rewrite <- app_assoc, take_app_length.
  f_equal. f_equal. rewrite drop_app_ge by lia.
  replace (length a + length buf - length a)%nat with (length buf) by lia.
  by rewrite drop_replicate.
Qed.

Lemma slice_app_mid a b c o n :
  o = length a -> n = length b -> slice o n (a ++ b ++ c) = b.
Proof.
  intros -> ->. unfold slice. by rewrite drop_app_length, take_app_length.
Qed.

Section record_facts.
Context {K : Type} `{!KeyT K} `{!KeyTLaws K}.
Implicit Types r : WalRecord K.

Lemma kEncodedSize_bounds :
  (kRawSize K <= kEncodedSize K < kRawSize K + 8)%nat.
Proof.
  unfold kEncodedSize. set (x := Z.of_nat (kRawSize K)).
  assert (Z.land (x + 7) (Z.lnot 7) = (x + 7) / 8 * 8) as ->.
  { change (Z.lnot 7) with (Z.lnot (Z.ones 3)).
    rewrite <- Z.ldiff_land, Z.ldiff_ones_r by lia.
    rewrite Z.shiftl_mul_pow2, Z.shiftr_div_pow2 by lia. done. }
  pose proof (Z.div_mod (x + 7) 8) as D. pose proof (Z.mod_pos_bound (x + 7) 8).
  subst x. lia.
Qed.

Definition rec_payload r : list Z :=
  [kMagic; u8 (rec_type r)] ++ key_raw (rec_key r) ++
  le_bytes 8 (disk_addr r) ++ le_bytes 8 (old_disk_addr r).

Lemma length_rec_payload r : length (rec_payload r) = kCrcOffset K.
Proof. unfold rec_payload, kCrcOffset, kKeySize. len. rewrite key_raw_length. lia. Qed.

Lemma rec_payload_ok r : bytes_ok (rec_payload r).
Proof.
  unfold rec_payload. rewrite !bytes_ok_app. split_and!; auto using key_raw_bytes with parakv.
  constructor; [unfold byte_ok, kMagic; lia|]. constructor; [|constructor]. apply u8_range.
Qed.

(** The encoder, field by field: payload, checksum, zero padding. *)
Lemma Encode_layout r :
  Encode r = rec_payload r ++ le_bytes 4 (Crc32 (rec_payload r)) ++
             replicate (kEncodedSize K - kRawSize K) 0.
Proof.
  pose proof kEncodedSize_bounds as B. pose proof (length_rec_payload r) as LP.
  pose proof (key_raw_length (rec_key r)) as LK.
  unfold kRawSize, kCrcOffset, kKeySize in *.
  unfold Encode, kCrcPayloadLen, kCrcOffset, kKeySize, WriteLE64, WriteLE32.
  set (N := kEncodedSize K) in *. set (k := key_sizeof) in *.
  assert (<[1%nat := u8 (rec_type r)]> (<[0%nat := kMagic]> (replicate N 0))
          = [kMagic; u8 (rec_type r)] ++ replicate (N - 2) 0) as ->.
  { destruct N as [|[|N']]; [lia|lia|]. simpl. by rewrite Nat.sub_0_r. }
  rewrite splice_fill by (simpl; lia). rewrite app_assoc.
  rewrite (write_le_splice 8 (2 + k)) by len. rewrite splice_fill by len. rewrite app_assoc.
  rewrite (write_le_splice 8 (10 + k)) by len. rewrite splice_fill by len. rewrite app_assoc.
  replace ((([kMagic; u8 (rec_type r)] ++ key_raw (rec_key r)) ++ le_bytes 8 (disk_addr r))
           ++ le_bytes 8 (old_disk_addr r)) with (rec_payload r)
    by (unfold rec_payload; by rewrite <- !app_assoc).
  rewrite take_app_length' by lia.
  rewrite write_le_splice by len. rewrite splice_fill by len.
  do 3 f_equal. len.
Qed.

Lemma length_Encode r : length (Encode r) = kEncodedSize K.
Proof.
  rewrite Encode_layout. pose proof kEncodedSize_bounds. pose proof (length_rec_payload r).
  unfold kRawSize in *. len.
Qed.

Lemma Encode_bytes_ok r : bytes_ok (Encode r).
Proof.
  rewrite Encode_layout, !bytes_ok_app. split_and!; auto using rec_payload_ok with parakv.
Qed.

(** The decoder on a buffer split into payload, checksum field and the rest. *)
Lemma Decode_split p c tl :
  length p = kCrcOffset K -> length c = 4%nat ->
  Decode (K := K) (p ++ c ++ tl) =
    if (default 0 (p !! 0%nat) =? kMagic) && (le_val c =? Crc32 p) then
      Some (mkRec (default 0 (p !! 1%nat)) (key_of_raw (slice 2 (kKeySize K) p))
                  (le_val (slice (2 + kKeySize K) 8 p)) (le_val (slice (10 + kKeySize K) 8 p)))
    else None.
Proof.
  intros Lp Lc. unfold kCrcOffset in Lp. unfold Decode, ReadLE32, ReadLE64, kCrcPayloadLen, kCrcOffset.
  assert (forall o n, (o + n <= length p)%nat -> slice o n (p ++ c ++ tl) = slice o n p) as S.
  { intros o n H. unfold slice. rewrite drop_app_le by lia. by rewrite take_app_le by len. }
  rewrite !read_le_slice by len.
  rewrite (S 2%nat (kKeySize K)), (S (2 + kKeySize K)%nat), (S (10 + kKeySize K)%nat) by lia.
  rewrite (slice_app_mid p c) by lia. rewrite take_app_length' by lia.
  rewrite !lookup_app_l by lia.
  destruct (default 0 (p !! 0%nat) =? kMagic); [|done]. cbn [negb andb].
  by destruct (le_val c =? Crc32 p).
Qed.

Lemma Decode_Encode r tl : rec_ok r -> Decode (Encode r ++ tl) = Some r.
Proof.
  intros (Ht & Hk & Hd & Ho). rewrite Encode_layout, <- !app_assoc.
  rewrite Decode_split by (rewrite ?length_rec_payload; len).
  rewrite le_val_bytes. change (8 * Z.of_nat 4) with 32.
  rewrite Z.mod_small by apply Crc32_range, rec_payload_ok. rewrite Z.eqb_refl.
  pose proof (key_raw_length (rec_key r)) as LK. fold (kKeySize K) in LK.
  change (default 0 (rec_payload r !! 0%nat)) with kMagic.
  change (default 0 (rec_payload r !! 1%nat)) with (u8 (rec_type r)).
  rewrite Z.eqb_refl. cbn [andb]. unfold rec_payload.
  rewrite (slice_app_mid [_; _] (key_raw (rec_key r))) by done.
  rewrite (app_assoc [_; _]).
  rewrite (slice_app_mid _ (le_bytes 8 (disk_addr r))) by len. rewrite (app_assoc (_ ++ _)).
  rewrite <- (app_nil_r (le_bytes 8 (old_disk_addr r))).
  rewrite (slice_app_mid _ (le_bytes 8 (old_disk_addr r)) []) by len.
  rewrite !le_val_bytes, key_of_raw_raw by done.
  unfold in_u in *. rewrite !Z.mod_small by done.
  destruct r as [t k d o]. cbn in *. by rewrite u8_small.
Qed.
End record_facts.

(** ** What a log file means

    [wal_records d] is the list of records a scan of the contents [d] accepts:
    decode fixed-size records from the front, stop at the first one that is
    incomplete or rejected. *)

Section log.
Context {K : Type} `{!KeyT K} `{!KeyTLaws K}.
Implicit Types r : WalRecord K.
Implicit Types rs : list (WalRecord K).

Fixpoint decode_all (fuel : nat) (d : list Z) : list (WalRecord K) :=
  match fuel with
  | O => []
  | S fuel =>
      if (length d <? kEncodedSize K)%nat then [] else
      match Decode (take (kEncodedSize K) d) with
      | None => []
      | Some r => r :: decode_all fuel (drop (kEncodedSize K) d)
      end
  end.

Definition wal_records (d : list Z) : list (WalRecord K) := decode_all (S (length d)) d.

(** The contents of a log holding exactly [rs]. *)
Definition encode_all (rs : list (WalRecord K)) : list Z := rs ≫= Encode.

Lemma kEncodedSize_pos : (0 < kEncodedSize K)%nat.
Proof.
  pose proof (kEncodedSize_bounds (K := K)). unfold kRawSize, kCrcOffset in *. lia.
Qed.

Lemma decode_all_fuel f1 f2 d :
  (length d < f1)%nat -> (length d < f2)%nat -> decode_all f1 d = decode_all f2 d.
Proof.
  pose proof kEncodedSize_pos as Hp. revert f2 d.
  induction f1 as [|f1 IH]; intros [|f2] d H1 H2; try lia. cbn [decode_all].
  destruct (Nat.ltb_spec (length d) (kEncodedSize K)); [done|].
  destruct (Decode _); [|done]. f_equal. apply IH; len.
Qed.

Lemma wal_records_unfold d :
  wal_records d =
    if (length d <? kEncodedSize K)%nat then [] else
    match Decode (take (kEncodedSize K) d) with
    | None => []
    | Some r => r :: wal_records (drop (kEncodedSize K) d)
    end.
Proof.
  pose proof kEncodedSize_pos. unfold wal_records at 1. cbn [decode_all].
  destruct (Nat.ltb_spec (length d) (kEncodedSize K)); [done|].
  destruct (Decode _); [|done]. f_equal. apply decode_all_fuel; len.
Qed.

Lemma wal_records_encode rs d :
  Forall rec_ok rs -> wal_records (encode_all rs ++ d) = rs ++ wal_records d.
Proof.
  induction 1 as [|r rs Hr Hrs IH]; [done|].
  unfold encode_all in *. cbn [mbind list_bind app]. rewrite <- app_assoc.
  rewrite wal_records_unfold.
  destruct (Nat.ltb_spec (length (Encode r ++ (rs ≫= Encode) ++ d)) (kEncodedSize K)) as [H|H].
  { rewrite length_app, length_Encode in H. lia. }
  rewrite take_app_length' by (by rewrite length_Encode).
  rewrite drop_app_length' by (by rewrite length_Encode).
  rewrite <- (app_nil_r (Encode r)), Decode_Encode by done. by rewrite IH.
Qed.

Lemma wal_records_short d : (length d < kEncodedSize K)%nat -> wal_records d = [].
Proof. intros. rewrite wal_records_unfold. by rewrite (proj2 (Nat.ltb_lt _ _)). Qed.

Lemma length_encode_all rs : length (encode_all rs) = (length rs * kEncodedSize K)%nat.
Proof.
  unfold encode_all. induction rs as [|r rs IH]; [done|].
  cbn [mbind list_bind]. rewrite length_app, length_Encode, IH. simpl. lia.
Qed.

Lemma encode_all_app rs1 rs2 : encode_all (rs1 ++ rs2) = encode_all rs1 ++ encode_all rs2.
Proof. apply bind_app. Qed.

(** The scan accepts at most what the file holds. *)
Lemma wal_records_length d : (length (wal_records d) * kEncodedSize K <= length d)%nat.
Proof.
  pose proof kEncodedSize_pos.
  remember (length d) as n eqn:E. revert d E.
  induction n as [n IH] using lt_wf_ind. intros d ->. rewrite wal_records_unfold.
  destruct (Nat.ltb_spec (length d) (kEncodedSize K)); [simpl; lia|].
  destruct (Decode _); [|simpl; lia]. simpl.
  specialize (IH (length (drop (kEncodedSize K) d))). len.
  assert (length (wal_records (drop (kEncodedSize K) d)) * kEncodedSize K <= length d - kEncodedSize K)%nat
    by (eapply IH; [lia|len]). lia.
Qed.
End log.

(** ** Reading a record through interruptions and short reads *)

(** What one [ReadAll] returns when no call fails: the record, end of file, or
    a torn record. *)
Definition read_result (count pos total : nat) (d : list Z) : Status * list Z * bool :=
  if (count <=? length d - pos)%nat then (kOk, slice pos count d, false)
  else if (total + (length d - pos) =? 0)%nat then (kOk, slice pos count d, true)
  else (kCorruption, slice pos count d, false).

Lemma slice_slice_app pos n m d :
  slice pos n d ++ slice (pos + n) m d = slice pos (n + m) d.
Proof. unfold slice. by rewrite <- drop_drop, take_take_drop. Qed.

Lemma ReadAll_spec sc count pos total d s got eof sc' :
  (0 < count)%nat -> ReadAll sc count pos total d = (s, got, eof, sc') ->
  sc' `suffix_of` sc /\ ((s = kIOError /\ ~ no_eio sc) \/ (s, got, eof) = read_result count pos total d).
Proof.
  revert count pos total s got eof. induction sc as [|r sc IH]; intros count pos total s got eof Hc H.
  - destruct count; [lia|]. cbn [ReadAll] in H. unfold read_result.
    assert (length (slice pos (S count) d) = Nat.min (S count) (length d - pos)) as L by len.
    destruct (Nat.eqb_spec (length (slice pos (S count) d)) (S count)),
      (Nat.leb_spec (S count) (length d - pos)); try lia.
    + by simplify_eq; split; [|right].
    + replace (length d - pos)%nat with (length (slice pos (S count) d)) by lia.
      destruct (Nat.eqb_spec (total + length (slice pos (S count) d)) 0);
        by simplify_eq; split; [|right].
  - destruct count; [lia|]. cbn [ReadAll] in H. destruct r.
    + apply IH in H as [? Hor]; [|lia]. split; [by apply suffix_cons_r|].
      destruct Hor as [[-> Hn]|Hor]; [left; split; [done|]|by right].
      intros Hno. apply Hn. by apply Forall_cons in Hno as [_ ?].
    + simplify_eq. split; [by apply suffix_cons_r|left; split; [done|]].
      intros Hno. by apply Forall_cons in Hno as [? _].
    + set (g := slice pos (Nat.min (S n) (S count)) d) in *.
      assert (length g = Nat.min (Nat.min (S n) (S count)) (length d - pos)) as Lg by (subst g; len).
      destruct (Nat.eqb_spec (length g) 0) as [E0|E0].
      { assert (length d - pos = 0)%nat as E by lia.
        assert (slice pos (S count) d = []) as Es by (apply nil_length_inv; len).
        unfold read_result. rewrite E, Es, Nat.add_0_r. cbn [Nat.leb].
        destruct (Nat.eqb_spec total 0); simplify_eq;
          (split; [by apply suffix_cons_r|by right]). }
      destruct (ReadAll sc (S count - length g) (pos + length g) (total + length g) d)
        as [[[s1 rest] eof1] sc1] eqn:E1.
      simplify_eq.
      destruct (decide (length g = S count)) as [Efull|].
      { rewrite Efull, Nat.sub_diag in E1. destruct sc; cbn [ReadAll] in E1; simplify_eq;
          rewrite app_nil_r; (split; [by apply suffix_cons_r|right]);
          unfold read_result; rewrite (proj2 (Nat.leb_le _ _)) by lia;
          subst g; len; do 2 f_equal; f_equal; lia. }
      apply IH in E1 as [? Hor]; [|lia]. split; [by apply suffix_cons_r|].
      destruct Hor as [[-> Hn]|Hor].
      { left; split; [done|]. intros Hno. apply Hn. by apply Forall_cons in Hno as [_ ?]. }
      right. unfold read_result in *.
      assert (g ++ slice (pos + length g) (S count - length g) d = slice pos (S count) d) as Eg.
      { assert (g = slice pos (length g) d) as Eg by (subst g; unfold slice; rewrite length_take;
          destruct (Nat.min_spec (Nat.min (S n) (S count)) (length (drop pos d))) as [[? E2]|[? E2]];
          rewrite E2; [done|]; rewrite (take_ge (drop pos d)) by lia; by rewrite take_ge).
        rewrite Eg at 1. rewrite slice_slice_app. f_equal. lia. }
      destruct (Nat.leb_spec (S count - length g) (length d - (pos + length g))),
        (Nat.leb_spec (S count) (length d - pos)); try lia.
      { simplify_eq. by rewrite Eg. }
      rewrite (proj2 (Nat.eqb_neq _ _)) in Hor by lia.
      rewrite (proj2 (Nat.eqb_neq _ _)) by lia. simplify_eq. by rewrite Eg.
Qed.

Lemma u64_add_l a b : u64 (u64 a + b) = u64 (a + b).
Proof. unfold u64. by rewrite Zplus_mod_idemp_l. Qed.

Section replay.
Context {K : Type} `{!KeyT K} `{!KeyTLaws K} {A : Type} (apply : WalRecord K -> A -> A).

Definition apply_all (acc : A) (rs : list (WalRecord K)) : A :=
  foldl (fun a r => apply r a) acc rs.

(** The scan terminates within its fuel on every script.  Without an I/O error
    it applies exactly the records the contents hold and [last_good_offset_]
    ends just past them; after one it has applied a prefix of them. *)
Lemma replay_loop_spec fuel d sc pos good acc :
  (length d - pos < fuel)%nat -> in_u 64 good ->
  exists s acc' pos' good' sc',
    replay_loop fuel (kEncodedSize K) (decode_cb apply) d sc pos good acc
      = Some (s, acc', pos', good', sc') /\ sc' `suffix_of` sc /\
    ((s = kOk /\ acc' = apply_all acc (wal_records (drop pos d)) /\
      good' = u64 (good + Z.of_nat (length (wal_records (K := K) (drop pos d)) * kEncodedSize K)))
     \/ (s = kIOError /\ ~ no_eio sc /\ exists rs, rs `prefix_of` wal_records (drop pos d) /\
           acc' = apply_all acc rs)).
Proof.
  pose proof (kEncodedSize_pos (K := K)) as Hp. revert sc pos good acc.
  induction fuel as [|fuel IH]; intros sc pos good acc Hf Hg; [lia|].
  assert (good = u64 (good + Z.of_nat (0 * kEncodedSize K))) as Eg
    by (rewrite Z.add_0_r, u64_small; done).
  cbn [replay_loop]. destruct (ReadAll sc _ _ _ _) as [[[s buf] eof] sc1] eqn:E.
  apply ReadAll_spec in E as [Hsuf [[-> Hn]|Hr]]; [|  |done].
  { do 5 eexists. split; [done|]. split; [done|]. right. split; [done|]. split; [done|].
    exists []. split; [apply prefix_nil|done]. }
  rewrite (wal_records_unfold (drop pos d)). unfold read_result in Hr.
  assert (length (drop pos d) = length d - pos)%nat as Ld by len.
  destruct (Nat.leb_spec (kEncodedSize K) (length d - pos)).
  2: { rewrite (proj2 (Nat.ltb_lt _ _)) by lia.
       destruct (_ =? 0)%nat; simplify_eq; do 5 eexists; (split; [done|]); (split; [done|]);
         left; done. }
  rewrite (proj2 (Nat.ltb_ge _ _)) by lia. simplify_eq.
  unfold decode_cb at 1.
  change (take (kEncodedSize K) (drop pos d)) with (slice pos (kEncodedSize K) d).
  destruct (Decode _) as [r|] eqn:Ed; cbn [negb].
  2: { do 5 eexists. split; [done|]. split; [done|]. left. done. }
  assert (length (slice pos (kEncodedSize K) d) = kEncodedSize K) as -> by len.
  rewrite drop_drop.
  destruct (IH sc1 (pos + kEncodedSize K)%nat (u64 (good + Z.of_nat (kEncodedSize K))) (apply r acc))
    as (s & acc' & pos' & good' & sc' & Eq & Hsuf' & Hcase); [lia|apply u64_range|].
  rewrite Eq. do 5 eexists. split; [done|]. split; [by etransitivity|].
  destruct Hcase as [(-> & -> & ->)|(-> & Hn & rs & Hrs & ->)].
  - left. split; [done|]. split; [done|]. rewrite u64_add_l. cbn [length]. f_equal. lia.
  - right. split; [done|]. split; [intros Hno; by apply Hn, (no_eio_suffix sc)|].
    exists (r :: rs). split; [by apply prefix_cons|done].
Qed.
End replay.

(** ** The writer's log *)

Section writer.
Context {K : Type} `{!KeyT K} `{!KeyTLaws K}.
Implicit Types r : WalRecord K.
Implicit Types rs : list (WalRecord K).

(** [log_inv p rs dur w fs]: the open writer [w] appends to the file [p], whose
    contents are the encodings of [rs] up to [bytes_written_], followed by less
    than one record of leftovers of failed writes; the first [dur] records are
    on stable storage. *)
Record log_inv (p : string) (rs : list (WalRecord K)) (dur : nat) (w : WalWriter) (fs : FS)
    : Prop := {
  log_fd : ww_fd w = Some p;
  log_ok : Forall rec_ok rs;
  log_dur : (dur <= length rs)%nat;
  log_bytes : bytes_written_ w = Z.of_nat (length (encode_all rs));
  log_file : exists sync tail,
    fs_files fs !! p = Some (mkFile (encode_all rs ++ tail) sync) /\
    (length tail < kEncodedSize K)%nat /\ encode_all (take dur rs) `prefix_of` sync;
}.

Lemma log_inv_records p rs dur w fs :
  log_inv p rs dur w fs ->
  exists f, fs_files fs !! p = Some f /\ wal_records (f_data f) = rs.
Proof.
  intros [_ Hok _ _ (sync & tail & Hf & Hl & _)]. eexists. split; [done|]. cbn [f_data].
  rewrite wal_records_encode, wal_records_short by done. by rewrite app_nil_r.
Qed.

(** Any power loss keeps the durable records. *)
Lemma log_inv_crash p rs dur w fs f d :
  log_inv p rs dur w fs -> fs_files fs !! p = Some f -> crash_image f d ->
  take dur rs `prefix_of` wal_records d.
Proof.
  intros [_ Hok _ _ (sync & tail & Hf & Hl & Hs)] Hf' Hc. rewrite Hf in Hf'. simplify_eq.
  assert (encode_all (take dur rs) `prefix_of` d) as [t ->].
  { eapply crash_image_prefix; [done|done|]. cbn [f_data].
    exists (encode_all (drop dur rs) ++ tail).
    by rewrite app_assoc, <- encode_all_app, take_drop. }
  rewrite wal_records_encode by (by apply Forall_take). by eexists.
Qed.

Lemma encode_all_single r : encode_all [r] = Encode r.
Proof. apply app_nil_r. Qed.

(** Overwriting leftovers shorter than a record with [k] bytes of a record. *)
Lemma pwritten_tail d tail b k :
  (length tail < length b)%nat ->
  exists tail', pwritten (length d) (take k b) (d ++ tail) = d ++ tail' /\
    ((length b <= k)%nat -> tail' = b) /\ ((k < length b)%nat -> (length tail' < length b)%nat).
Proof.
  intros Ht. destruct (decide (take k b = [])) as [E|E].
  - rewrite E. exists tail. split; [done|]. split; [|done].
    intros Hk. apply (f_equal length) in E. len.
  - rewrite pwritten_nonempty by done. unfold splice. len_simpl.
    rewrite <- app_assoc, take_app_length.
    rewrite drop_app_ge by lia.
    replace (length d + Nat.min k (length b) - length d)%nat with (Nat.min k (length b)) by lia.
    eexists. split; [done|]. split.
    + intros Hk. rewrite take_ge by lia. rewrite drop_ge by lia. by rewrite app_nil_r.
    + intros Hk. len.
Qed.

Lemma WriteLocked_spec p rs dur w fs r s w' fs' :
  log_inv p rs dur w fs -> rec_ok r ->
  Z.of_nat (length (encode_all (rs ++ [r]))) < 2 ^ 64 ->
  WriteLocked (Encode r) w fs = (s, w', fs') ->
  (forall q, q <> p -> fs_files fs' !! q = fs_files fs !! q) /\
  (no_eio (fs_script fs) -> s = kOk /\ no_eio (fs_script fs')) /\
  ((s = kOk /\ log_inv p (rs ++ [r]) dur w' fs') \/
   (s = kIOError /\ w' = w /\ log_inv p rs dur w' fs')).
Proof.
  intros [Hfd Hok Hd Hb (sync & tail & Hf & Hl & Hs)] Hr Hbound H.
  pose proof (length_Encode r) as LE.
  rewrite encode_all_app, encode_all_single in Hbound.
  unfold WriteLocked in H. rewrite Hfd, Hb, Nat2Z.id in H.
  destruct (fs_pwrite p (Encode r) _ fs) as [s1 fs1] eqn:E.
  eapply fs_pwrite_spec in E as (k & Hk & Hf1 & Hs1 & Hn1); [|done]. cbn [f_data f_sync] in Hf1.
  destruct (pwritten_tail (encode_all rs) tail (Encode r) k) as (tail' & Et & Eok & Elt); [lia|].
  rewrite Et in Hf1.
  assert (forall q, q <> p -> fs_files fs1 !! q = fs_files fs !! q) as Hframe.
  { intros q Hq. by rewrite Hf1, lookup_insert_ne. }
  destruct Hs1 as [[-> ->]|[-> Hlt]]; cbn [status_is_ok negb] in H; simplify_eq.
  - split; [done|]. split; [intros Hn; by destruct (Hn1 Hn)|]. left. split; [done|].
    rewrite (Eok (Nat.le_refl _)) in Hf1.
    split; [done|by apply Forall_app_2; [|constructor]|len| |].
    + cbn [bytes_written_]. rewrite u64_small by len.
      rewrite encode_all_app, encode_all_single. len.
    + exists sync, []. rewrite Hf1, lookup_insert_eq, app_nil_r, take_app_le by done.
      rewrite encode_all_app, encode_all_single. split; [done|]. split; [simpl; lia|done].
  - split; [done|]. split; [intros Hn; by destruct (Hn1 Hn)|]. right. split; [done|]. split; [done|].
    split; try done. exists sync, tail'. rewrite Hf1, lookup_insert_eq. split; [done|].
    split; [|done]. rewrite <- LE. by apply Elt.
Qed.

Lemma sync_writer_spec p rs dur w fs s w' fs' :
  log_inv p rs dur w fs -> sync_writer w fs = (s, w', fs') ->
  w' = w /\
  (forall q, q <> p -> fs_files fs' !! q = fs_files fs !! q) /\
  (no_eio (fs_script fs) -> s = kOk /\ no_eio (fs_script fs')) /\
  ((s = kOk /\ log_inv p rs (length rs) w fs') \/ (s = kIOError /\ log_inv p rs dur w fs')).
Proof.
  intros [Hfd Hok Hd Hb (sync & tail & Hf & Hl & Hs)] H.
  unfold sync_writer in H. rewrite Hfd in H. destruct (sys_fsync p fs) as [ok fs2] eqn:E2.
  pose proof (sys_fsync_spec p fs ok fs2 _ Hf E2) as Hsync. cbn [f_data] in Hsync.
  simplify_eq. split; [done|]. destruct Hsync as [[-> Hf2]|(-> & Hf2 & Hnn)].
  - split; [intros q Hq; by rewrite Hf2, lookup_insert_ne|].
    split; [eauto using sys_fsync_no_eio|]. left. split; [done|]. split; try done.
    exists (encode_all rs ++ tail), tail. rewrite Hf2, lookup_insert_eq, take_ge by done.
    split; [done|]. split; [done|]. by exists tail.
  - split; [by intros; rewrite Hf2|]. split; [done|]. right. split; [done|].
    split; try done. exists sync, tail. by rewrite Hf2.
Qed.

(** One append: success makes the record part of the log and everything
    durable; a failed write leaves the log as it was; a failed fsync leaves the
    record in the log although the caller sees an error. *)
Lemma AppendRecord_spec p rs dur w fs r s w' fs' :
  log_inv p rs dur w fs -> rec_ok r ->
  Z.of_nat (length (encode_all (rs ++ [r]))) < 2 ^ 64 ->
  AppendRecord r w fs = (s, w', fs') ->
  (forall q, q <> p -> fs_files fs' !! q = fs_files fs !! q) /\
  (no_eio (fs_script fs) -> s = kOk /\ no_eio (fs_script fs')) /\
  ((s = kOk /\ log_inv p (rs ++ [r]) (length (rs ++ [r])) w' fs') \/
   (s = kIOError /\ w' = w /\ log_inv p rs dur w' fs') \/
   (s = kIOError /\ log_inv p (rs ++ [r]) dur w' fs')).
Proof.
  intros Hinv Hr Hbound H. pose proof (kEncodedSize_pos (K := K)).
  unfold AppendRecord, WalWriter_Append in H.
  rewrite (proj2 (Nat.eqb_neq _ _)), take_ge in H by (rewrite ?length_Encode; lia).
  destruct (WriteLocked (Encode r) w fs) as [[s1 w1] fs1] eqn:E1.
  apply (WriteLocked_spec p rs dur) in E1 as (Hfr & Hn & [[-> Hinv1]|(-> & -> & Hinv1)]); try done.
  - cbn [status_is_ok negb] in H.
    destruct (sync_writer_spec p (rs ++ [r]) dur w1 fs1 s w' fs' Hinv1 H) as (-> & Hfr2 & Hn2 & Hc).
    split; [intros q Hq; by rewrite Hfr2, Hfr|].
    split; [intros Hnn; apply Hn2; by apply Hn|]. tauto.
  - cbn [status_is_ok negb] in H. simplify_eq. split; [done|]. split; [done|]. tauto.
Qed.

(** The write loop of a batch keeps a prefix of the batch when it fails. *)
Lemma write_records_spec p b bs i rs dur w fs s w' fs' :
  log_inv p rs dur w fs -> Forall rec_ok bs ->
  Z.of_nat (length (encode_all (rs ++ bs))) < 2 ^ 64 ->
  drop (i * kEncodedSize K) b = encode_all bs ->
  write_records b (kEncodedSize K) (seq i (length bs)) w fs = (s, w', fs') ->
  exists n, (n <= length bs)%nat /\
    (forall q, q <> p -> fs_files fs' !! q = fs_files fs !! q) /\
    (no_eio (fs_script fs) -> s = kOk /\ no_eio (fs_script fs')) /\
    log_inv p (rs ++ take n bs) dur w' fs' /\
    ((s = kOk /\ n = length bs) \/ (s = kIOError /\ (n < length bs)%nat)).
Proof.
  intros Hinv Hbs. revert i rs w fs Hinv.
  induction Hbs as [|r bs Hr Hbs IH]; intros i rs w fs Hinv Hbound Hdrop H;
    cbn [length seq write_records] in H.
  - simplify_eq. exists 0%nat. rewrite take_0, app_nil_r. split_and!; try done. by left.
  - assert (slice (i * kEncodedSize K) (kEncodedSize K) b = Encode r) as Es.
    { unfold slice. rewrite Hdrop. change (encode_all (r :: bs)) with (Encode r ++ encode_all bs).
      apply take_app_length'. by rewrite length_Encode. }
    rewrite Es in H. destruct (WriteLocked (Encode r) w fs) as [[s1 w1] fs1] eqn:E1.
    rewrite (cons_middle r), app_assoc in Hbound.
    apply (WriteLocked_spec p rs dur) in E1 as (Hfr & Hn & [[-> Hinv1]|(-> & -> & Hinv1)]); try done.
    2: { cbn [status_is_ok negb] in H. simplify_eq. exists 0%nat. rewrite take_0, app_nil_r.
         cbn [length]. split_and!; try done; [lia|]. right. split; [done|lia]. }
    2: { rewrite encode_all_app in Hbound. len. }
    cbn [status_is_ok negb] in H. eapply IH in H as (n & Hle & Hfr2 & Hn2 & Hinv2 & Hs); try done.
    2: { replace (S i * kEncodedSize K)%nat with (i * kEncodedSize K + kEncodedSize K)%nat by lia.
         rewrite <- drop_drop, Hdrop. change (encode_all (r :: bs)) with (Encode r ++ encode_all bs).
         apply drop_app_length'. by rewrite length_Encode. }
    exists (S n). rewrite <- app_assoc in Hinv2. split_and!; try done; cbn [length].
    + lia.
    + intros q Hq. by rewrite Hfr2, Hfr.
    + intros Hnn. by apply Hn2, Hn.
    + destruct Hs as [[-> ->]|[-> ?]]; [by left|right; split; [done|lia]].
Qed.
End writer.

(** ** Properties *)

(** C31: record round trip: decoding an encoded record gives the record back,
    whatever bytes follow it, and the encoding has the fixed size of the
    format (32 bytes for [Key64], 40 for [Key128]). *)
Theorem WalRecord_roundtrip {K} `{!KeyT K} `{!KeyTLaws K} (r : WalRecord K) (tl : list Z)
    (Hr : rec_ok r) :
  Decode (Encode r ++ tl) = Some r /\ length (Encode r) = kEncodedSize K /\
  bytes_ok (Encode r) /\ kEncodedSize Key64 = 32%nat /\ kEncodedSize Key128 = 40%nat.
Proof.
  split; [by apply Decode_Encode|]. split; [apply length_Encode|].
  split; [apply Encode_bytes_ok|]. by vm_compute.
Qed.

Lemma WalRecord_roundtrip_witness :
  Decode (Encode (mkRec kUpdate (mkKey128 1 2) 0x2000000010000003 5) ++ [9; 9])
    = Some (mkRec kUpdate (mkKey128 1 2) 0x2000000010000003 5).
Proof.
  apply (WalRecord_roundtrip (mkRec kUpdate (mkKey128 1 2) 0x2000000010000003 5) [9; 9]).
  unfold rec_ok, byte_ok, in_u. cbn. unfold Key128_valid, in_u, kUpdate. cbn. lia.
Defined.

(** C32: corruption detection: a stored record whose payload was altered inside
    a window of at most four consecutive bytes, or whose checksum field was
    altered, is rejected by [Decode]. *)
Theorem WalRecord_detects_corruption {K} `{!KeyT K} `{!KeyTLaws K} (r : WalRecord K)
    (l m1 m2 rt c' tl : list Z)
    (Hsplit : rec_payload r = l ++ m1 ++ rt)
    (Hm2 : bytes_ok m2) (Hlen : length m2 = length m1) (Hwin : (length m1 <= 4)%nat)
    (Hne : m2 <> m1)
    (Hc : bytes_ok c') (Hclen : length c' = 4%nat)
    (Hcne : c' <> le_bytes 4 (Crc32 (rec_payload r))) :
  Decode (K := K) (l ++ m2 ++ rt ++ le_bytes 4 (Crc32 (rec_payload r)) ++ tl) = None /\
  Decode (K := K) (rec_payload r ++ c' ++ tl) = None.
Proof.
  pose proof (rec_payload_ok r) as Hok. rewrite Hsplit, !bytes_ok_app in Hok.
  destruct Hok as (Hl & Hm1 & Hrt).
  pose proof (length_rec_payload r) as LP.
  pose proof (Crc32_range (rec_payload r) (rec_payload_ok r)) as HR. split.
  - replace (l ++ m2 ++ rt ++ le_bytes 4 (Crc32 (rec_payload r)) ++ tl)
      with ((l ++ m2 ++ rt) ++ le_bytes 4 (Crc32 (rec_payload r)) ++ tl)
      by (by rewrite <- !app_assoc).
    rewrite Decode_split; [|rewrite Hsplit in LP; len|len].
    rewrite le_val_bytes. change (8 * Z.of_nat 4) with 32. rewrite Z.mod_small by done.
    rewrite Hsplit, (proj2 (Z.eqb_neq (Crc32 _) _)); [by rewrite andb_false_r|].
    apply not_eq_sym, Crc32_burst_neq; auto. lia.
  - rewrite Decode_split by done.
    rewrite (proj2 (Z.eqb_neq (le_val c') _)); [by rewrite andb_false_r|].
    intros E. apply Hcne. rewrite <- E, <- Hclen. symmetry. by apply le_bytes_val.
Qed.

Lemma WalRecord_detects_corruption_witness :
  Decode (K := Key64)
    ([165; 1; 8] ++ [1; 2; 3; 4] ++ [0; 0; 0; 7; 0; 0; 0; 0; 0; 0; 0; 0; 0; 0; 0; 0; 0; 0; 0]
     ++ le_bytes 4 (Crc32 (rec_payload (K := Key64) (mkRec kInsert 8 7 0))) ++ []) = None.
Proof.
  refine (proj1 (WalRecord_detects_corruption (K := Key64) (mkRec kInsert 8 7 0)
    [165; 1; 8] [0; 0; 0; 0] [1; 2; 3; 4]
    [0; 0; 0; 7; 0; 0; 0; 0; 0; 0; 0; 0; 0; 0; 0; 0; 0; 0; 0] [0; 0; 0; 0] [] _ _ _ _ _ _ _ _));
    apply (bool_decide_unpack _); vm_compute; exact I.
Defined.

(** C24: replay correctness: scanning a log that holds the records [rs]
    followed by a torn tail (fewer bytes than a record), under any pattern of
    interrupted and short reads, terminates with [kOk], has applied exactly
    [rs] in order, and reports the end of [rs] as the last good offset. *)
Theorem Replay_applies_the_log {K A} `{!KeyT K} `{!KeyTLaws K}
    (apply : WalRecord K -> A -> A) (acc : A) (rs : list (WalRecord K)) (tail sync : list Z)
    (p : string) (fs : FS)
    (Hrs : Forall rec_ok rs) (Htail : (length tail < kEncodedSize K)%nat)
    (Hbound : Z.of_nat (length (encode_all rs)) < 2 ^ 64)
    (Hfile : fs_files fs !! p = Some (mkFile (encode_all rs ++ tail) sync))
    (Hio : no_eio (fs_script fs)) :
  exists r' fs',
    ReplayRecords apply (mkReader (Some p) p 0 0) fs acc
      = Some (kOk, foldl (fun a r => apply r a) acc rs, r', fs') /\
    last_good_offset_ r' = Z.of_nat (length (encode_all rs)) /\
    fs_files fs' = fs_files fs.
Proof.
  pose proof (kEncodedSize_pos (K := K)). unfold ReplayRecords, Replay. cbn [wr_fd wr_pos last_good_offset_].
  rewrite (proj2 (Nat.eqb_neq _ _)), Hfile by lia. cbn [f_data].
  set (d := encode_all rs ++ tail).
  assert (wal_records d = rs) as Erec.
  { subst d. rewrite wal_records_encode, wal_records_short by done. apply app_nil_r. }
  destruct (replay_loop_spec apply (S (length d)) d (fs_script fs) 0 0 acc)
    as (s & acc' & pos' & good' & sc' & -> & Hsuf & [(-> & -> & ->)|(_ & Hn & _)]);
    [lia|unfold in_u; lia| |done].
  rewrite drop_0, Erec. do 2 eexists. split; [done|]. split; [|done].
  cbn [last_good_offset_]. rewrite <- length_encode_all, Z.add_0_l. apply u64_small. lia.
Qed.

Definition wal_example_fs : FS :=
  mkFS {[ "w" := mkFile (encode_all [mkRec kInsert (5 : Key64) 10 0; mkRec kDelete 5 0 10]
                          ++ [165; 1; 2]) [] ]}
       [Short 3; Eintr; Short 0; Short 50; Eintr].

Lemma Replay_applies_the_log_witness :
  exists r' fs',
    ReplayRecords (K := Key64) cons (mkReader (Some "w") "w" 0 0) wal_example_fs []
      = Some (kOk, [mkRec kDelete 5 0 10; mkRec kInsert 5 10 0], r', fs') /\
    last_good_offset_ r' = 64.
Proof.
  destruct (Replay_applies_the_log (K := Key64) cons []
    [mkRec kInsert (5 : Key64) 10 0; mkRec kDelete 5 0 10] [165; 1; 2] [] "w" wal_example_fs)
    as (r' & fs' & E & Hg & _).
  - repeat constructor; cbn; unfold in_u, byte_ok, kInsert, kDelete; lia.
  - vm_compute. lia.
  - vm_compute. done.
  - vm_compute. done.
  - repeat constructor; done.
  - exists r', fs'. split; [exact E|]. rewrite Hg. vm_compute. done.
Defined.

(** C28: the append contract.  On a log holding [rs], [Append] of [r] either
    succeeds, and then the log holds [rs ++ [r]] and every power loss leaves a
    file whose replay starts with [rs ++ [r]]; or it reports [kIOError], and
    the log holds [rs], or, when only the fsync failed, [rs ++ [r]].  It
    succeeds whenever no system call fails, and touches no other file. *)
Theorem WalWriter_Append_contract {K} `{!KeyT K} `{!KeyTLaws K}
    (p : string) (rs : list (WalRecord K)) (dur : nat) (w : WalWriter) (fs : FS)
    (r : WalRecord K) (s : Status) (w' : WalWriter) (fs' : FS)
    (Hinv : log_inv p rs dur w fs) (Hr : rec_ok r)
    (Hbound : Z.of_nat (length (encode_all (rs ++ [r]))) < 2 ^ 64)
    (Happ : AppendRecord r w fs = (s, w', fs')) :
  ((s = kOk /\ log_inv p (rs ++ [r]) (length (rs ++ [r])) w' fs' /\
    forall f d, fs_files fs' !! p = Some f -> crash_image f d ->
      rs ++ [r] `prefix_of` wal_records d) \/
   (s = kIOError /\ (log_inv p rs dur w' fs' \/ log_inv p (rs ++ [r]) dur w' fs'))) /\
  (no_eio (fs_script fs) -> s = kOk) /\
  (forall q, q <> p -> fs_files fs' !! q = fs_files fs !! q).
Proof.
  destruct (AppendRecord_spec p rs dur w fs r s w' fs' Hinv Hr Hbound Happ)
    as (Hfr & Hn & Hc).
  split; [|by split; [intros; by apply Hn|]].
  destruct Hc as [[-> Hi]|[(-> & -> & Hi)|[-> Hi]]]; [left|by right; auto..].
  split; [done|]. split; [done|]. intros f d Hf Hcr.
  pose proof (log_inv_crash p _ _ w' fs' f d Hi Hf Hcr) as Hpre. by rewrite take_ge in Hpre.
Qed.

(** An empty log, freshly created. *)
Definition empty_log_fs (sc : script) : FS := mkFS {[ "w" := mkFile [] [] ]} sc.

Lemma empty_log_inv sc : log_inv (K := Key64) "w" [] 0 (mkWriter (Some "w") "w" 0) (empty_log_fs sc).
Proof.
  split; try done. exists [], []. split; [reflexivity|]. split; [vm_compute; lia|done].
Qed.

Lemma WalWriter_Append_contract_witness :
  exists w' fs', AppendRecord (K := Key64) (mkRec kInsert 7 9 0)
      (mkWriter (Some "w") "w" 0) (empty_log_fs [Eintr; Short 4]) = (kOk, w', fs') /\
    log_inv (K := Key64) "w" [mkRec kInsert 7 9 0] 1 w' fs'.
Proof.
  destruct (AppendRecord (K := Key64) (mkRec kInsert 7 9 0) (mkWriter (Some "w") "w" 0)
    (empty_log_fs [Eintr; Short 4])) as [[s w'] fs'] eqn:E.
  destruct (WalWriter_Append_contract "w" [] 0 (mkWriter (Some "w") "w" 0)
    (empty_log_fs [Eintr; Short 4]) (mkRec kInsert (7 : Key64) 9 0) s w' fs') as (Hc & Hn & _).
  - apply empty_log_inv.
  - repeat split; cbn; unfold kInsert; lia.
  - vm_compute. done.
  - exact E.
  - assert (s = kOk) as -> by (apply Hn; repeat constructor; done).
    exists w', fs'. split; [done|]. by destruct Hc as [(_ & Hi & _)|[? _]].
Defined.

(** a batch append adds all its records or, on an I/O error, a prefix of
    them: the records before the failing write stay in the log although the
    call fails; a successful batch is durable as a whole. *)
Theorem AppendBatch_contract {K} `{!KeyT K} `{!KeyTLaws K}
    (p : string) (rs bs : list (WalRecord K)) (dur : nat) (w : WalWriter) (fs : FS)
    (s : Status) (w' : WalWriter) (fs' : FS)
    (Hinv : log_inv p rs dur w fs) (Hbs : Forall rec_ok bs) (Hne : bs <> [])
    (Hbound : Z.of_nat (length (encode_all (rs ++ bs))) < 2 ^ 64)
    (Happ : AppendBatch (Some (encode_all bs)) (kEncodedSize K) (length bs) w fs = (s, w', fs')) :
  (s = kOk /\ log_inv p (rs ++ bs) (length (rs ++ bs)) w' fs') \/
  (s = kIOError /\ exists n, (n <= length bs)%nat /\ log_inv p (rs ++ take n bs) dur w' fs').
Proof.
  pose proof (kEncodedSize_pos (K := K)) as Hp. unfold AppendBatch in Happ.
  rewrite !(proj2 (Nat.eqb_neq _ _)) in Happ by (first [lia|by destruct bs]). cbn [orb] in Happ.
  destruct (write_records _ _ _ w fs) as [[s1 w1] fs1] eqn:E.
  apply (write_records_spec p (encode_all bs) bs 0 rs dur) in E
    as (n & Hle & _ & _ & Hi & [[-> ->]|[-> Hlt]]); try done.
  - cbn [status_is_ok negb] in Happ. rewrite take_ge in Hi by done.
    destruct (sync_writer_spec p _ dur w1 fs1 s w' fs' Hi Happ) as (-> & _ & _ & [[-> Hi2]|[-> Hi2]]).
    + by left.
    + right. split; [done|]. exists (length bs). by rewrite take_ge.
  - cbn [status_is_ok negb] in Happ. simplify_eq. right. split; [done|]. eauto.
Qed.

Lemma AppendBatch_contract_witness :
  exists w' fs', AppendBatch (Some (encode_all [mkRec kInsert (7 : Key64) 9 0; mkRec kDelete 7 0 9]))
      (kEncodedSize Key64) 2 (mkWriter (Some "w") "w" 0) (empty_log_fs []) = (kOk, w', fs') /\
    log_inv (K := Key64) "w" [mkRec kInsert 7 9 0; mkRec kDelete 7 0 9] 2 w' fs'.
Proof.
  destruct (AppendBatch (Some (encode_all [mkRec kInsert (7 : Key64) 9 0; mkRec kDelete 7 0 9]))
      (kEncodedSize Key64) 2 (mkWriter (Some "w") "w" 0) (empty_log_fs [])) as [[s w'] fs'] eqn:E.
  assert (s = kOk) as -> by (vm_compute in E; congruence).
  destruct (AppendBatch_contract "w" [] [mkRec kInsert (7 : Key64) 9 0; mkRec kDelete 7 0 9] 0
    (mkWriter (Some "w") "w" 0) (empty_log_fs []) kOk w' fs') as [[_ Hi]|[? _]]; try done.
  - apply empty_log_inv.
  - repeat constructor; cbn; unfold kInsert, kDelete; lia.
  - exists w', fs'. by split.
Defined.
