(* ===== verification/SegmentBase.v ===== *)
(** * Segment bookkeeping ([parakv/core/segment/segment_base.h], [segment_base.cc])

    The state every segment keeps in memory: layout, slot bitmap, counters and
    the IDLE / APPENDING / FULL state, with the operations of [SegmentBase].
    [float] values are IEEE 754 binary32 numbers of [SpecFloat]. *)

From S2P Require Import Prelude Common.
From Stdlib Require Import SpecFloat.

(** ** binary32 *)

Definition f32_of_Z (z : Z) : spec_float := binary_normalize 24 128 z 0 false.
Definition f32_div (x y : spec_float) : spec_float := SFdiv 24 128 x y.
Definition f32_geb (x y : spec_float) : bool := SFleb y x.
Definition f32_zero : spec_float := S754_zero false.
(** [0.75f]. *)
(** [0.5f]. *)
Definition f32_half : spec_float := S754_finite false 8388608 (-24).
Definition f32_three_quarters : spec_float := S754_finite false 12582912 (-24).

(** ** Data *)

Inductive SegmentState := IDLE | APPENDING | FULL.

#[export] Instance SegmentState_eq_dec : EqDecision SegmentState.
Proof. solve_decision. Defined.

Record SegmentConfig := mkConfig {
  is_need_compaction : bool;
  key_size : Z;
  value_size : Z;
  segment_size : Z;
  compaction_threshold : spec_float;
  bitmap_alignment : Z;
}.

(** The default member initialisers. *)
Definition default_config : SegmentConfig :=
  mkConfig true 8 512 (256 * 1024 * 1024) f32_three_quarters 4096.

Record SegmentBase := mkSeg {
  segment_id_ : Z;
  config_ : SegmentConfig;
  state_ : SegmentState;
  total_slots_ : Z;
  used_slots_ : Z;
  deleted_slots_ : Z;
  append_cursor_ : Z;
  slot_size_ : Z;
  bitmap_size_ : Z;
  slot_data_offset_ : Z;
  bitmap_ : list Z;
}.

(** Field updates. *)
Definition set_bitmap (bm : list Z) (s : SegmentBase) : SegmentBase :=
  mkSeg (segment_id_ s) (config_ s) (state_ s) (total_slots_ s) (used_slots_ s)
    (deleted_slots_ s) (append_cursor_ s) (slot_size_ s) (bitmap_size_ s)
    (slot_data_offset_ s) bm.
Definition set_counters (used deleted cursor : Z) (s : SegmentBase) : SegmentBase :=
  mkSeg (segment_id_ s) (config_ s) (state_ s) (total_slots_ s) used deleted cursor
    (slot_size_ s) (bitmap_size_ s) (slot_data_offset_ s) (bitmap_ s).
Definition set_state (st : SegmentState) (s : SegmentBase) : SegmentBase :=
  mkSeg (segment_id_ s) (config_ s) st (total_slots_ s) (used_slots_ s)
    (deleted_slots_ s) (append_cursor_ s) (slot_size_ s) (bitmap_size_ s)
    (slot_data_offset_ s) (bitmap_ s).

(** ** Layout *)

Record Layout := mkLayout {
  lay_slot_size : Z; lay_total_slots : Z; lay_bitmap_size : Z; lay_data_offset : Z;
}.

(** [CalculateLayout], each intermediate at the width C++ computes it in. *)
Definition CalculateLayout (c : SegmentConfig) : Layout :=
  let slot_size := u32 (key_size c + value_size c) in
  let total := u32 (u64 (segment_size c * 8) / (8 * slot_size + 1)) in
  let bitmap := u32 (total + 7) / 8 in
  let align := bitmap_alignment c in
  let bitmap :=
    if align >? 0 then u64 (u64 (bitmap + align - 1) / align * align) else bitmap in
  let data_area := u64 (segment_size c - bitmap) in
  let max_slots := u32 (data_area / slot_size) in
  mkLayout slot_size (Z.min total max_slots) bitmap bitmap.

#[global] Arguments CalculateLayout : simpl never.

(** The constructor. *)
Definition SegmentBase_new (segment_id : Z) (c : SegmentConfig) : SegmentBase :=
  let l := CalculateLayout c in
  mkSeg segment_id c IDLE (lay_total_slots l) 0 0 0 (lay_slot_size l)
    (lay_bitmap_size l) (lay_data_offset l) (replicate (Z.to_nat (lay_bitmap_size l)) 0).

(** ** Queries *)

Definition GetState (s : SegmentBase) : SegmentState := state_ s.
Definition GetUsedSlots (s : SegmentBase) : Z := used_slots_ s.
Definition GetFreeSlots (s : SegmentBase) : Z :=
  u32 (total_slots_ s - append_cursor_ s + deleted_slots_ s).
Definition GetDeletedSlots (s : SegmentBase) : Z := deleted_slots_ s.

Definition GetDeletedRatio (s : SegmentBase) : spec_float :=
  if append_cursor_ s =? 0 then f32_zero
  else f32_div (f32_of_Z (deleted_slots_ s)) (f32_of_Z (append_cursor_ s)).

Definition NeedsCompaction (s : SegmentBase) : bool :=
  let deleted_ratio :=
    if append_cursor_ s >? 0
    then f32_div (f32_of_Z (deleted_slots_ s)) (f32_of_Z (append_cursor_ s))
    else f32_zero in
  bool_decide (state_ s = FULL) && (append_cursor_ s >? 0) &&
  f32_geb deleted_ratio (compaction_threshold (config_ s)).

Definition GetBitmapOffset (s : SegmentBase) : Z := 0.
Definition GetSlotOffset (slot_id : Z) (s : SegmentBase) : Z :=
  u64 (slot_data_offset_ s + slot_id * slot_size_ s).

(** ** Bitmap *)

Definition bm_get (bm : list Z) (i : Z) : Z := default 0 (bm !! Z.to_nat i).
Definition bm_set (bm : list Z) (i v : Z) : list Z := <[Z.to_nat i := u8 v]> bm.

Definition SetSlotBit (slot_id : Z) (s : SegmentBase) : SegmentBase :=
  let bm := bitmap_ s in
  set_bitmap (bm_set bm (slot_id / 8)
    (Z.lor (bm_get bm (slot_id / 8)) (Z.shiftl 1 (slot_id mod 8)))) s.

Definition ClearSlotBit (slot_id : Z) (s : SegmentBase) : SegmentBase :=
  let bm := bitmap_ s in
  set_bitmap (bm_set bm (slot_id / 8)
    (Z.land (bm_get bm (slot_id / 8)) (Z.lnot (Z.shiftl 1 (slot_id mod 8))))) s.

Definition IsSlotOccupied (slot_id : Z) (s : SegmentBase) : bool :=
  negb (Z.land (bm_get (bitmap_ s) (slot_id / 8)) (Z.shiftl 1 (slot_id mod 8)) =? 0).

(** ** Allocation and state *)

Definition FindFreeSlot (s : SegmentBase) : Z :=
  if append_cursor_ s <? total_slots_ s then i32 (append_cursor_ s) else -1.

Definition UpdateState (s : SegmentBase) : SegmentBase :=
  if (used_slots_ s =? 0) && (append_cursor_ s =? 0) then set_state IDLE s
  else if append_cursor_ s >=? total_slots_ s then set_state FULL s
  else set_state APPENDING s.

Definition ResetBitmap (s : SegmentBase) : SegmentBase :=
  set_state IDLE (set_counters 0 0 0
    (set_bitmap (replicate (length (bitmap_ s)) 0) s)).

(** The counter rebuild shared by [SegmentFile::Open] and
    [SegmentBlockDev::Open]: scan all slots of the loaded bitmap. *)
Definition rebuild_step (s : SegmentBase) (acc : Z * Z) (i : Z) : Z * Z :=
  let '(used, cursor) := acc in
  if IsSlotOccupied i s then (u32 (used + 1), u32 (i + 1)) else (used, cursor).

Definition RebuildCounters (s : SegmentBase) : SegmentBase :=
  let '(used, cursor) := foldl (rebuild_step s) (0, 0) (seqZ 0 (total_slots_ s)) in
  UpdateState (set_counters used (u32 (cursor - used)) cursor s).

(** ** Bits of the bitmap *)

Definition slot_bit (bm : list Z) (i : Z) : bool := Z.testbit (bm_get bm (i / 8)) (i mod 8).

(** Number of occupied slots below [n]. *)
Definition occ_count (bm : list Z) (n : Z) : Z :=
  Z.of_nat (length (filter (fun i => slot_bit bm i = true) (seqZ 0 n))).

Lemma land_bit x n : 0 <= n -> negb (Z.land x (Z.shiftl 1 n) =? 0) = Z.testbit x n.
Proof.
  intros Hn. rewrite Z.shiftl_1_l. destruct (Z.testbit x n) eqn:E.
  - destruct (Z.eqb_spec (Z.land x (2 ^ n)) 0) as [E0|]; [|done].
    apply (f_equal (fun z => Z.testbit z n)) in E0.
    rewrite Z.land_spec, Z.pow2_bits_true, E, Z.bits_0 in E0 by done. done.
  - destruct (Z.eqb_spec (Z.land x (2 ^ n)) 0) as [|Hne]; [done|]. destruct Hne.
    apply Z.bits_inj'. intros i Hi. rewrite Z.land_spec, Z.bits_0, Z.pow2_bits_eqb by done.
    destruct (Z.eqb_spec n i) as [<-|]; [by rewrite E|apply andb_false_r].
Qed.

Lemma IsSlotOccupied_bit i s : IsSlotOccupied i s = slot_bit (bitmap_ s) i.
Proof. apply land_bit. apply Z.mod_pos_bound. lia. Qed.

Lemma bm_get_set bm i j v :
  0 <= i < Z.of_nat (length bm) -> 0 <= j ->
  bm_get (bm_set bm i v) j = if decide (i = j) then u8 v else bm_get bm j.
Proof.
  intros Hi Hj. unfold bm_get, bm_set. case_decide as E.
  - subst. rewrite list_lookup_insert_eq by lia. done.
  - rewrite list_lookup_insert_ne by lia. done.
Qed.

Lemma length_bm_set bm i v : length (bm_set bm i v) = length bm.
Proof. apply length_insert. Qed.
#[export] Hint Rewrite length_bm_set : len_db.

Lemma bm_get_range bm i : bytes_ok bm -> 0 <= bm_get bm i < 2 ^ 8.
Proof.
  intros H. unfold bm_get. destruct (bm !! Z.to_nat i) as [b|] eqn:E; simpl; [|lia].
  eapply Forall_lookup_1 in E; [|done]. exact E.
Qed.

Lemma bm_set_bytes_ok bm i v : bytes_ok bm -> bytes_ok (bm_set bm i v).
Proof. intros. apply Forall_insert; auto with parakv. Qed.

(** A bit index is determined by its byte and its position in the byte. *)
Lemma slot_index_eq i j : i / 8 = j / 8 -> i mod 8 = j mod 8 -> i = j.
Proof.
  intros E1 E2. rewrite (Z.div_mod i 8), (Z.div_mod j 8) by lia. by rewrite E1, E2.
Qed.

(** Writing byte [i/8] with a value that differs from the old one only in bit
    [i mod 8] changes exactly bit [i] of the bitmap. *)
Lemma slot_bit_update bm i v b :
  0 <= i < 8 * Z.of_nat (length bm) ->
  (forall n, 0 <= n < 8 ->
     Z.testbit v n = if decide (n = i mod 8) then b else Z.testbit (bm_get bm (i / 8)) n) ->
  forall j, 0 <= j ->
    slot_bit (bm_set bm (i / 8) v) j = if decide (j = i) then b else slot_bit bm j.
Proof.
  intros Hi Hv j Hj. unfold slot_bit.
  assert (0 <= i / 8 < Z.of_nat (length bm)) by
    (split; [apply Z.div_pos; lia|apply Z.div_lt_upper_bound; lia]).
  assert (0 <= j / 8) by (apply Z.div_pos; lia).
  pose proof (Z.mod_pos_bound j 8 ltac:(lia)).
  rewrite bm_get_set by done. case_decide as E.
  - unfold u8. rewrite mod_pow2_testbit, (proj2 (Z.ltb_lt _ _)), Hv by lia. cbn [andb].
    rewrite E. do 2 case_decide; try done.
    + subst. destruct (slot_index_eq j i); done.
    + subst. done.
  - case_decide; [|done]. subst. done.
Qed.

Lemma slot_bit_set i s j :
  0 <= i < 8 * Z.of_nat (length (bitmap_ s)) -> 0 <= j ->
  slot_bit (bitmap_ (SetSlotBit i s)) j = if decide (j = i) then true else slot_bit (bitmap_ s) j.
Proof.
  intros Hi. apply slot_bit_update; [done|]. intros n Hn.
  pose proof (Z.mod_pos_bound i 8 ltac:(lia)).
  rewrite Z.lor_spec, Z.shiftl_1_l, Z.pow2_bits_eqb by lia.
  case_decide as E.
  - subst. by rewrite Z.eqb_refl, orb_true_r.
  - rewrite (proj2 (Z.eqb_neq _ _)) by lia. apply orb_false_r.
Qed.

Lemma slot_bit_clear i s j :
  0 <= i < 8 * Z.of_nat (length (bitmap_ s)) -> 0 <= j ->
  slot_bit (bitmap_ (ClearSlotBit i s)) j = if decide (j = i) then false else slot_bit (bitmap_ s) j.
Proof.
  intros Hi. apply slot_bit_update; [done|]. intros n Hn.
  pose proof (Z.mod_pos_bound i 8 ltac:(lia)).
  rewrite Z.land_spec, Z.lnot_spec, Z.shiftl_1_l, Z.pow2_bits_eqb by lia.
  case_decide as E.
  - subst. by rewrite Z.eqb_refl, andb_false_r.
  - rewrite (proj2 (Z.eqb_neq _ _)) by lia. apply andb_true_r.
Qed.

Lemma slot_bit_zeros n i : slot_bit (replicate n 0) i = false.
Proof.
  unfold slot_bit, bm_get. destruct (replicate n 0 !! Z.to_nat (i / 8)) eqn:E; simpl.
  - apply lookup_replicate in E as [-> _]. apply Z.bits_0.
  - apply Z.bits_0.
Qed.

(** Setting and clearing restore the byte, so the rollbacks restore the bitmap. *)
Lemma bitmap_bytes_ext bm1 bm2 :
  bytes_ok bm1 -> bytes_ok bm2 -> length bm1 = length bm2 ->
  (forall j, 0 <= j -> slot_bit bm1 j = slot_bit bm2 j) -> bm1 = bm2.
Proof.
  intros H1 H2 Hl Hb. apply list_eq. intros i. destruct (decide (i < length bm1)%nat).
  2: { by rewrite !lookup_ge_None_2 by lia. }
  destruct (lookup_lt_is_Some_2 bm1 i) as [x Hx]; [done|].
  destruct (lookup_lt_is_Some_2 bm2 i) as [y Hy]; [lia|].
  rewrite Hx, Hy. f_equal.
  pose proof (Forall_lookup_1 _ _ _ _ H1 Hx) as Rx. pose proof (Forall_lookup_1 _ _ _ _ H2 Hy) as Ry.
  cbn beta in Rx, Ry. unfold byte_ok in Rx, Ry.
  apply Z.bits_inj'. intros n Hn. destruct (Z.lt_ge_cases n 8).
  - specialize (Hb (Z.of_nat i * 8 + n) ltac:(lia)). unfold slot_bit, bm_get in Hb.
    assert ((Z.of_nat i * 8 + n) / 8 = Z.of_nat i) as E1
      by (symmetry; apply Z.div_unique with n; lia).
    assert ((Z.of_nat i * 8 + n) mod 8 = n) as E2
      by (symmetry; apply Z.mod_unique with (Z.of_nat i); lia).
    rewrite E1, E2, Nat2Z.id, Hx, Hy in Hb. exact Hb.
  - by rewrite (testbit_small x 8), (testbit_small y 8) by lia.
Qed.

(** ** Counting occupied slots *)

Lemma filter_ext_in {A} (P Q : A -> Prop) `{!forall x, Decision (P x)} `{!forall x, Decision (Q x)}
    (l : list A) :
  (forall y, y ∈ l -> (P y <-> Q y)) -> filter P l = filter Q l.
Proof.
  induction l as [|y l IH]; intros Hl; [done|]. rewrite !filter_cons.
  rewrite IH by (intros z Hz; apply Hl; by right).
  assert (P y <-> Q y) by (apply Hl; by left).
  destruct (decide (P y)), (decide (Q y)); tauto.
Qed.

Lemma filter_none {A} (P : A -> Prop) `{!forall x, Decision (P x)} (l : list A) :
  (forall y, y ∈ l -> ~ P y) -> filter P l = [].
Proof.
  intros Hl. induction l as [|y l IH]; [done|]. rewrite filter_cons, decide_False.
  - apply IH. intros z Hz. apply Hl. by right.
  - apply Hl. by left.
Qed.

Lemma filter_flip {A} `{!EqDecision A} (P Q : A -> Prop) `{!forall x, Decision (P x)} `{!forall x, Decision (Q x)}
    (l : list A) (x : A) :
  NoDup l -> x ∈ l -> ~ P x -> Q x -> (forall y, y ∈ l -> y <> x -> (P y <-> Q y)) ->
  length (filter Q l) = S (length (filter P l)).
Proof.
  intros Hnd Hx HP HQ Heq. induction Hnd as [|y l Hy Hnd IH]; [by apply elem_of_nil in Hx|].
  rewrite !filter_cons. destruct (decide (y = x)) as [->|Hne].
  - rewrite decide_True, decide_False by done. cbn [length]. do 2 f_equal.
    apply filter_ext_in. intros z Hz. symmetry. apply Heq; [by right|].
    by intros ->.
  - apply elem_of_cons in Hx as [->|Hx]; [done|].
    assert (P y <-> Q y) as E by (apply Heq; [by left|done]).
    assert (length (filter Q l) = S (length (filter P l))) as IH'
      by (apply IH; [done|]; intros z Hz; apply Heq; by right).
    destruct (decide (P y)), (decide (Q y)); cbn [length]; try tauto; lia.
Qed.

Lemma occ_count_nonneg bm n : 0 <= occ_count bm n <= Z.max 0 n.
Proof.
  unfold occ_count. pose proof (length_filter (fun i => slot_bit bm i = true) (seqZ 0 n)) as L.
  rewrite length_seqZ in L. lia.
Qed.

Lemma occ_count_set i s n :
  0 <= i < n -> n <= 8 * Z.of_nat (length (bitmap_ s)) -> slot_bit (bitmap_ s) i = false ->
  occ_count (bitmap_ (SetSlotBit i s)) n = occ_count (bitmap_ s) n + 1.
Proof.
  intros Hi Hn Hb. unfold occ_count.
  rewrite (filter_flip (fun j => slot_bit (bitmap_ s) j = true) _ (seqZ 0 n) i); [lia|..].
  - apply NoDup_seqZ.
  - apply elem_of_seqZ. lia.
  - by rewrite Hb.
  - cbn beta. by rewrite slot_bit_set, decide_True by lia.
  - intros j Hj Hne. apply elem_of_seqZ in Hj. by rewrite slot_bit_set, decide_False by (lia || done).
Qed.

Lemma occ_count_clear i s n :
  0 <= i < n -> n <= 8 * Z.of_nat (length (bitmap_ s)) -> slot_bit (bitmap_ s) i = true ->
  occ_count (bitmap_ (ClearSlotBit i s)) n = occ_count (bitmap_ s) n - 1.
Proof.
  intros Hi Hn Hb. unfold occ_count.
  rewrite (filter_flip (fun j => slot_bit (bitmap_ (ClearSlotBit i s)) j = true)
             (fun j => slot_bit (bitmap_ s) j = true) (seqZ 0 n) i); [lia|..].
  - apply NoDup_seqZ.
  - apply elem_of_seqZ. lia.
  - by rewrite slot_bit_clear, decide_True by lia.
  - done.
  - intros j Hj Hne. apply elem_of_seqZ in Hj. by rewrite slot_bit_clear, decide_False by (lia || done).
Qed.

Lemma occ_count_zeros k n : occ_count (replicate k 0) n = 0.
Proof.
  unfold occ_count.
  assert (filter (fun i => slot_bit (replicate k 0) i = true) (seqZ 0 n) = []) as ->; [|done].
  apply filter_none. intros j _. by rewrite slot_bit_zeros.
Qed.

Lemma occ_count_snoc bm n :
  0 <= n -> occ_count bm (n + 1) = occ_count bm n + (if slot_bit bm n then 1 else 0).
Proof.
  intros Hn. unfold occ_count. rewrite seqZ_app by lia.
  rewrite Z.add_0_l, (seqZ_cons n 1), (seqZ_nil (Z.succ n)), filter_app, length_app by lia.
  rewrite filter_cons. destruct (slot_bit bm n); simpl; lia.
Qed.

(** Slots at or past [c] being free, the occupied ones are below [c]. *)
Lemma occ_count_below bm c n :
  0 <= c <= n -> (forall i, c <= i < n -> slot_bit bm i = false) ->
  occ_count bm n = occ_count bm c.
Proof.
  intros Hc Hz. unfold occ_count. replace n with (c + (n - c)) by lia.
  rewrite seqZ_app, filter_app, length_app by lia.
  assert (filter (fun i => slot_bit bm i = true) (seqZ (0 + c) (n - c)) = []) as ->; [|simpl; lia].
  apply filter_none. intros j Hj. apply elem_of_seqZ in Hj.
  by rewrite Hz by lia.
Qed.

(** The rebuild scan computes the number of occupied slots and the position
    just past the last one. *)
Lemma rebuild_spec s n :
  0 <= n < 2 ^ 32 ->
  exists cursor,
    foldl (rebuild_step s) (0, 0) (seqZ 0 n) = (occ_count (bitmap_ s) n, cursor) /\
    0 <= cursor <= n /\ (forall i, cursor <= i < n -> slot_bit (bitmap_ s) i = false) /\
    (0 < cursor -> slot_bit (bitmap_ s) (cursor - 1) = true).
Proof.
  intros Hn. rewrite <- (Z2Nat.id n) by lia. assert (Z.of_nat (Z.to_nat n) < 2 ^ 32) as Hb by lia.
  revert Hb. generalize (Z.to_nat n) as k. clear n Hn. induction k as [|k IH]; intros Hb.
  - exists 0. split; [done|]. split; [lia|]. split; lia.
  - destruct IH as (c & E & Hc & Hz & Hlast); [lia|].
    rewrite seqZ_S, foldl_app, E, Z.add_0_l. cbn [foldl rebuild_step].
    rewrite IsSlotOccupied_bit. replace (Z.of_nat (S k)) with (Z.of_nat k + 1) by lia.
    rewrite occ_count_snoc by lia. pose proof (occ_count_nonneg (bitmap_ s) (Z.of_nat k)).
    destruct (slot_bit (bitmap_ s) (Z.of_nat k)) eqn:Eb.
    + rewrite !u32_small by lia. exists (Z.of_nat k + 1). split; [done|]. split; [lia|].
      split; [lia|]. intros _. by rewrite Z.add_simpl_r.
    + exists c. rewrite Z.add_0_r. split; [done|]. split; [lia|]. split; [|done].
      intros i Hi. destruct (decide (i = Z.of_nat k)) as [->|]; [done|]. apply Hz. lia.
Qed.

(** ** Layout *)

(** Configurations whose layout arithmetic stays in range: sizes below
    4 GiB, a slot of at least two bytes, and a bitmap area that fits
    in the segment. *)
Definition config_ok (c : SegmentConfig) : Prop :=
  0 <= key_size c /\ 0 <= value_size c /\ 2 <= key_size c + value_size c < 2 ^ 32 /\
  0 <= segment_size c < 2 ^ 32 /\ 0 <= bitmap_alignment c < 2 ^ 32 /\
  lay_bitmap_size (CalculateLayout c) <= segment_size c.

#[export] Instance config_ok_dec c : Decision (config_ok c).
Proof. unfold config_ok. apply _. Defined.

Lemma align_up_bounds b a : 0 < a -> b <= (b + a - 1) / a * a < b + a.
Proof.
  intros Ha. pose proof (Z.div_mod (b + a - 1) a). pose proof (Z.mod_pos_bound (b + a - 1) a). nia.
Qed.

Lemma div_mul_le a b : 0 < b -> 0 <= a -> 0 <= a / b /\ a / b * b <= a.
Proof.
  intros. split; [apply Z.div_pos; lia|]. rewrite Z.mul_comm. apply Z.mul_div_le. lia.
Qed.

Lemma layout_facts c :
  config_ok c ->
  let l := CalculateLayout c in
  lay_slot_size l = key_size c + value_size c /\
  0 <= lay_total_slots l < 2 ^ 31 /\
  lay_total_slots l <= 8 * lay_bitmap_size l /\
  0 <= lay_bitmap_size l /\ lay_data_offset l = lay_bitmap_size l /\
  lay_data_offset l + lay_total_slots l * lay_slot_size l <= segment_size c.
Proof.
  intros (Hk & Hv & Hkv & Hseg & Hal & Hfit). cbv zeta. revert Hfit.
  unfold CalculateLayout. cbn [lay_slot_size lay_total_slots lay_bitmap_size lay_data_offset].
  rewrite (u32_small (key_size c + value_size c)) by lia.
  rewrite (u64_small (segment_size c * 8)) by lia.
  set (slot := key_size c + value_size c) in *. set (seg := segment_size c) in *.
  destruct (div_mul_le (seg * 8) (8 * slot + 1)) as [T0 T1]; [lia..|].
  set (t0 := seg * 8 / (8 * slot + 1)) in *.
  assert (t0 < 2 ^ 31) by (assert (t0 * 17 <= t0 * (8 * slot + 1)) by nia; lia).
  rewrite (u32_small t0) by lia. rewrite (u32_small (t0 + 7)) by lia.
  assert (t0 <= 8 * ((t0 + 7) / 8) <= t0 + 7) as B0.
  { pose proof (Z.div_mod (t0 + 7) 8). pose proof (Z.mod_pos_bound (t0 + 7) 8). lia. }
  set (b0 := (t0 + 7) / 8) in *. set (al := bitmap_alignment c) in *.
  set (bm := if al >? 0 then u64 (u64 (b0 + al - 1) / al * al) else b0).
  assert (b0 <= bm) as B1.
  { subst bm. rewrite Z.gtb_ltb. destruct (Z.ltb_spec 0 al); [|lia].
    rewrite (u64_small (b0 + al - 1)) by lia.
    pose proof (align_up_bounds b0 al). rewrite u64_small by lia. lia. }
  intros Hfit. rewrite (u64_small (seg - bm)) by lia.
  destruct (div_mul_le (seg - bm) slot) as [D0 D1]; [lia..|].
  set (m := (seg - bm) / slot) in *.
  assert (m < 2 ^ 32) by nia. rewrite (u32_small m) by lia.
  split; [done|]. split; [lia|]. split; [lia|]. split; [lia|]. split; [done|].
  assert (Z.min t0 m * slot <= m * slot) by nia. lia.
Qed.

(** ** The invariant *)

Definition state_of (used cursor total : Z) : SegmentState :=
  if (used =? 0) && (cursor =? 0) then IDLE else if cursor >=? total then FULL else APPENDING.

(** The immutable part: the layout is the one computed from the configuration
    and the bitmap has its size. *)
Record seg_layout (s : SegmentBase) : Prop := {
  sl_config : config_ok (config_ s);
  sl_slot : slot_size_ s = lay_slot_size (CalculateLayout (config_ s));
  sl_total : total_slots_ s = lay_total_slots (CalculateLayout (config_ s));
  sl_bsize : bitmap_size_ s = lay_bitmap_size (CalculateLayout (config_ s));
  sl_doff : slot_data_offset_ s = lay_data_offset (CalculateLayout (config_ s));
  sl_blen : Z.of_nat (length (bitmap_ s)) = bitmap_size_ s;
  sl_bytes : bytes_ok (bitmap_ s);
}.

(** Counters and state agree with the bitmap; slots are allocated in order, so
    nothing past the cursor is occupied. *)
Record seg_inv (s : SegmentBase) : Prop := {
  si_layout :> seg_layout s;
  si_cursor : 0 <= append_cursor_ s <= total_slots_ s;
  si_free : forall i, append_cursor_ s <= i < total_slots_ s -> slot_bit (bitmap_ s) i = false;
  si_used : used_slots_ s = occ_count (bitmap_ s) (total_slots_ s);
  si_deleted : deleted_slots_ s = append_cursor_ s - used_slots_ s;
  si_state : state_ s = state_of (used_slots_ s) (append_cursor_ s) (total_slots_ s);
}.

Lemma seg_total_bounds s :
  seg_layout s -> 0 <= total_slots_ s < 2 ^ 31 /\
  total_slots_ s <= 8 * Z.of_nat (length (bitmap_ s)).
Proof.
  intros [Hc ? Ht Hb ? Hl ?]. destruct (layout_facts _ Hc) as (_ & H1 & H2 & _). lia.
Qed.

Lemma seg_inv_used s : seg_inv s -> 0 <= used_slots_ s <= append_cursor_ s.
Proof.
  intros [Hl Hc Hf Hu _ _]. rewrite Hu, (occ_count_below _ (append_cursor_ s)) by (lia || done).
  pose proof (occ_count_nonneg (bitmap_ s) (append_cursor_ s)). lia.
Qed.

Lemma UpdateState_state s :
  state_ (UpdateState s) = state_of (used_slots_ s) (append_cursor_ s) (total_slots_ s).
Proof. unfold UpdateState, state_of. by repeat case_match. Qed.

Lemma UpdateState_eq s :
  UpdateState s = set_state (state_of (used_slots_ s) (append_cursor_ s) (total_slots_ s)) s.
Proof. unfold UpdateState, state_of. by repeat case_match. Qed.

Lemma seg_layout_eq s s' :
  seg_layout s -> config_ s' = config_ s -> slot_size_ s' = slot_size_ s ->
  total_slots_ s' = total_slots_ s -> bitmap_size_ s' = bitmap_size_ s ->
  slot_data_offset_ s' = slot_data_offset_ s -> length (bitmap_ s') = length (bitmap_ s) ->
  bytes_ok (bitmap_ s') -> seg_layout s'.
Proof. intros [] E1 E2 E3 E4 E5 E6 ?. split; rewrite ?E1, ?E2, ?E3, ?E4, ?E5, ?E6; done. Qed.

Lemma SetSlotBit_layout i s : seg_layout s -> seg_layout (SetSlotBit i s).
Proof. intros H. apply (seg_layout_eq s); try done; [apply length_bm_set|]. apply bm_set_bytes_ok, H. Qed.

Lemma ClearSlotBit_layout i s : seg_layout s -> seg_layout (ClearSlotBit i s).
Proof. intros H. apply (seg_layout_eq s); try done; [apply length_bm_set|]. apply bm_set_bytes_ok, H. Qed.

(** The rollbacks of [Insert] and [Delete] restore the segment exactly. *)
Lemma Clear_Set i s :
  seg_layout s -> 0 <= i < total_slots_ s -> slot_bit (bitmap_ s) i = false ->
  ClearSlotBit i (SetSlotBit i s) = s.
Proof.
  intros Hl Hi Hb. pose proof (seg_total_bounds s Hl).
  assert (bitmap_ (ClearSlotBit i (SetSlotBit i s)) = bitmap_ s) as E.
  { apply bitmap_bytes_ext.
    - by apply ClearSlotBit_layout, SetSlotBit_layout.
    - apply Hl.
    - cbn. len.
    - intros j Hj. rewrite slot_bit_clear, slot_bit_set by (cbn; len).
      case_decide; by subst. }
  destruct s. unfold ClearSlotBit, SetSlotBit, set_bitmap in *. cbn in *. by rewrite E.
Qed.

Lemma Set_Clear i s :
  seg_layout s -> 0 <= i < total_slots_ s -> slot_bit (bitmap_ s) i = true ->
  SetSlotBit i (ClearSlotBit i s) = s.
Proof.
  intros Hl Hi Hb. pose proof (seg_total_bounds s Hl).
  assert (bitmap_ (SetSlotBit i (ClearSlotBit i s)) = bitmap_ s) as E.
  { apply bitmap_bytes_ext.
    - by apply SetSlotBit_layout, ClearSlotBit_layout.
    - apply Hl.
    - cbn. len.
    - intros j Hj. rewrite slot_bit_set, slot_bit_clear by (cbn; len).
      case_decide; by subst. }
  destruct s. unfold ClearSlotBit, SetSlotBit, set_bitmap in *. cbn in *. by rewrite E.
Qed.

(** ** Every transition of the bookkeeping preserves the invariant *)

(** Setting the bits of a batch, as [BatchInsert] does. *)
Definition SetSlotBits (sids : list Z) (s : SegmentBase) : SegmentBase :=
  foldl (fun b sid => SetSlotBit sid b) s sids.

(** The immutable fields. *)
Definition same_layout (s s' : SegmentBase) : Prop :=
  segment_id_ s' = segment_id_ s /\ config_ s' = config_ s /\ total_slots_ s' = total_slots_ s /\
  slot_size_ s' = slot_size_ s /\ bitmap_size_ s' = bitmap_size_ s /\
  slot_data_offset_ s' = slot_data_offset_ s.

#[export] Instance same_layout_preorder : PreOrder same_layout.
Proof.
  split; unfold same_layout.
  - intros s. done.
  - intros s1 s2 s3 (? & ? & ? & ? & ? & ?) (? & ? & ? & ? & ? & ?). repeat split; congruence.
Qed.

Lemma UpdateState_same s : same_layout s (UpdateState s).
Proof. rewrite UpdateState_eq. done. Qed.

Lemma seg_inv_intro s s' :
  seg_layout s -> same_layout s s' -> length (bitmap_ s') = length (bitmap_ s) ->
  bytes_ok (bitmap_ s') ->
  0 <= append_cursor_ s' <= total_slots_ s' ->
  (forall i, append_cursor_ s' <= i < total_slots_ s' -> slot_bit (bitmap_ s') i = false) ->
  used_slots_ s' = occ_count (bitmap_ s') (total_slots_ s') ->
  deleted_slots_ s' = append_cursor_ s' - used_slots_ s' ->
  seg_inv (UpdateState s').
Proof.
  intros Hl (? & ? & ? & ? & ? & ?) ? ? ? ? ? ?. rewrite UpdateState_eq.
  split; try done. by apply (seg_layout_eq s).
Qed.

Lemma SetSlotBits_spec sids s :
  same_layout s (SetSlotBits sids s) /\ length (bitmap_ (SetSlotBits sids s)) = length (bitmap_ s) /\
  used_slots_ (SetSlotBits sids s) = used_slots_ s /\
  deleted_slots_ (SetSlotBits sids s) = deleted_slots_ s /\
  append_cursor_ (SetSlotBits sids s) = append_cursor_ s /\
  state_ (SetSlotBits sids s) = state_ s /\
  (bytes_ok (bitmap_ s) -> bytes_ok (bitmap_ (SetSlotBits sids s))).
Proof.
  revert s. induction sids as [|i sids IH]; intros s; [done|].
  destruct (IH (SetSlotBit i s)) as (Hs & Hl & ? & ? & ? & ? & Hb).
  unfold SetSlotBits in *. cbn [foldl].
  split; [etrans; [|exact Hs]; done|]. split; [rewrite Hl; apply length_bm_set|].
  split; [done|]. split; [done|]. split; [done|]. split; [done|].
  intros Hok. apply Hb, bm_set_bytes_ok, Hok.
Qed.

Lemma SetSlotBits_bit sids s j :
  Forall (fun i => 0 <= i < 8 * Z.of_nat (length (bitmap_ s))) sids -> 0 <= j ->
  slot_bit (bitmap_ (SetSlotBits sids s)) j = bool_decide (j ∈ sids) || slot_bit (bitmap_ s) j.
Proof.
  revert s. induction sids as [|i sids IH]; intros s Hf Hj; [done|].
  apply Forall_cons in Hf as [Hi Hf]. change (SetSlotBits (i :: sids) s) with (SetSlotBits sids (SetSlotBit i s)).
  rewrite IH, slot_bit_set; [|done|done|cbn; by rewrite length_bm_set|done].
  destruct (decide (j = i)) as [->|E].
  - rewrite (bool_decide_eq_true_2 (i ∈ i :: sids)) by by left. by rewrite orb_true_r.
  - destruct (decide (j ∈ sids)).
    + rewrite !bool_decide_eq_true_2; [done|by right|done].
    + rewrite !bool_decide_eq_false_2; [done| |done]. by intros [?|?]%elem_of_cons.
Qed.

(** Occupying the next [n] slots. *)
Lemma SetSlotBits_range s c n :
  seg_layout s -> 0 <= c -> 0 <= n -> c + n <= total_slots_ s ->
  (forall i, c <= i < total_slots_ s -> slot_bit (bitmap_ s) i = false) ->
  let s' := SetSlotBits (seqZ c n) s in
  occ_count (bitmap_ s') (total_slots_ s) = occ_count (bitmap_ s) (total_slots_ s) + n /\
  (forall j, 0 <= j -> slot_bit (bitmap_ s') j =
     (if decide (c <= j < c + n) then true else slot_bit (bitmap_ s) j)).
Proof.
  intros Hl Hc Hn Hle Hz. pose proof (seg_total_bounds s Hl) as [_ Hb]. cbv zeta.
  assert (forall j, 0 <= j -> slot_bit (bitmap_ (SetSlotBits (seqZ c n) s)) j =
     (if decide (c <= j < c + n) then true else slot_bit (bitmap_ s) j)) as Hbits.
  { intros j Hj. rewrite SetSlotBits_bit; [|apply Forall_forall; intros i Hi%elem_of_seqZ; lia|done].
    destruct (decide (c <= j < c + n)).
    - rewrite bool_decide_eq_true_2 by (apply elem_of_seqZ; lia). done.
    - rewrite bool_decide_eq_false_2; [done|]. intros ?%elem_of_seqZ. lia. }
  split; [|done].
  set (m := bitmap_ (SetSlotBits (seqZ c n) s)) in *.
  rewrite (occ_count_below m (c + n)), (occ_count_below (bitmap_ s) c); [|lia|done|lia|].
  2: { intros i Hi. rewrite Hbits, decide_False by lia. apply Hz. lia. }
  assert (forall k, (k <= Z.to_nat n)%nat ->
    occ_count m (c + Z.of_nat k) = occ_count (bitmap_ s) c + Z.of_nat k) as Hk.
  { induction k as [|k IH]; intros Hk.
    - rewrite !Z.add_0_r. unfold occ_count. do 2 f_equal. apply filter_ext_in.
      intros j Hj%elem_of_seqZ. rewrite Hbits, decide_False by lia. done.
    - replace (c + Z.of_nat (S k)) with (c + Z.of_nat k + 1) by lia.
      rewrite occ_count_snoc, IH, Hbits, decide_True by lia. lia. }
  specialize (Hk (Z.to_nat n)). rewrite Z2Nat.id in Hk by lia. apply Hk. lia.
Qed.

(** The commit of [BatchInsert]; [Insert] is the case [n = 1]. *)
Definition commit_insert (n : Z) (s : SegmentBase) : SegmentBase :=
  UpdateState (set_counters (u32 (used_slots_ s + n)) (deleted_slots_ s)
    (u32 (append_cursor_ s + n)) s).

Lemma commit_insert_inv s n :
  seg_inv s -> 0 <= n -> append_cursor_ s + n <= total_slots_ s ->
  let s' := commit_insert n (SetSlotBits (seqZ (append_cursor_ s) n) s) in
  seg_inv s' /\ same_layout s s' /\ append_cursor_ s' = append_cursor_ s + n /\
  used_slots_ s' = used_slots_ s + n /\ deleted_slots_ s' = deleted_slots_ s /\
  (forall j, 0 <= j -> slot_bit (bitmap_ s') j =
     (if decide (append_cursor_ s <= j < append_cursor_ s + n) then true
      else slot_bit (bitmap_ s) j)).
Proof.
  intros Hi Hn Hle. cbv zeta. pose proof (seg_total_bounds s Hi) as [Ht _].
  pose proof (seg_inv_used s Hi). pose proof (si_cursor s Hi).
  destruct (SetSlotBits_range s (append_cursor_ s) n) as [Hocc Hbits];
    [apply Hi|lia..|apply Hi|].
  destruct (SetSlotBits_spec (seqZ (append_cursor_ s) n) s) as (Hs & Hlen & Eu & Ed & Ec & _ & Hb).
  set (s1 := SetSlotBits (seqZ (append_cursor_ s) n) s) in *.
  unfold commit_insert. rewrite Eu, Ec, !u32_small by lia.
  set (s2 := set_counters _ _ _ s1).
  assert (same_layout s s2) as Hs2 by exact Hs.
  split.
  - apply (seg_inv_intro s); try done; cbn.
    + apply Hi.
    + apply Hb, Hi.
    + rewrite (proj1 (proj2 (proj2 Hs))). lia.
    + intros i Hr. rewrite (proj1 (proj2 (proj2 Hs))) in Hr. rewrite Hbits, decide_False by lia.
      apply Hi. lia.
    + rewrite (proj1 (proj2 (proj2 Hs))), Hocc, (si_used s Hi). done.
    + rewrite Ed, (si_deleted s Hi). lia.
  - rewrite UpdateState_eq. split; [exact Hs|]. cbn. rewrite Ed. done.
Qed.

(** The commit of [Delete]. *)
Definition commit_delete (s : SegmentBase) : SegmentBase :=
  UpdateState (set_counters (u32 (used_slots_ s - 1)) (u32 (deleted_slots_ s + 1))
    (append_cursor_ s) s).

Lemma seg_inv_occupied s i :
  seg_inv s -> 0 <= i < total_slots_ s -> slot_bit (bitmap_ s) i = true -> i < append_cursor_ s.
Proof.
  intros Hi Hr Hb. destruct (Z.lt_ge_cases i (append_cursor_ s)); [done|].
  rewrite (si_free s Hi i) in Hb by lia. done.
Qed.

Lemma commit_delete_inv s i :
  seg_inv s -> 0 <= i < total_slots_ s -> slot_bit (bitmap_ s) i = true ->
  let s' := commit_delete (ClearSlotBit i s) in
  seg_inv s' /\ same_layout s s' /\ append_cursor_ s' = append_cursor_ s /\
  used_slots_ s' = used_slots_ s - 1 /\ deleted_slots_ s' = deleted_slots_ s + 1 /\
  (forall j, 0 <= j -> slot_bit (bitmap_ s') j =
     (if decide (j = i) then false else slot_bit (bitmap_ s) j)).
Proof.
  intros Hi Hr Hb. cbv zeta. pose proof (seg_total_bounds s Hi) as [Ht Hbl].
  pose proof (seg_inv_used s Hi). pose proof (si_cursor s Hi). pose proof (si_deleted s Hi).
  pose proof (occ_count_clear i s (total_slots_ s) Hr Hbl Hb) as Hocc.
  pose proof (occ_count_nonneg (bitmap_ (ClearSlotBit i s)) (total_slots_ s)).
  pose proof (si_used s Hi) as Hu.
  assert (forall j, 0 <= j -> slot_bit (bitmap_ (ClearSlotBit i s)) j =
     (if decide (j = i) then false else slot_bit (bitmap_ s) j)) as Hbits.
  { intros j Hj. apply slot_bit_clear; [lia|done]. }
  unfold commit_delete. cbn [used_slots_ deleted_slots_ append_cursor_ ClearSlotBit set_bitmap].
  rewrite (u32_small (used_slots_ s - 1)), (u32_small (deleted_slots_ s + 1)) by lia.
  set (s1 := ClearSlotBit i s) in *. split.
  - apply (seg_inv_intro s); try done; cbn -[s1].
    + apply Hi.
    + apply length_bm_set.
    + apply bm_set_bytes_ok, Hi.
    + intros j Hj. rewrite Hbits by lia. case_decide; [done|]. by apply Hi.
    + change (used_slots_ s - 1 = occ_count (bitmap_ s1) (total_slots_ s)). lia.
    + lia.
  - rewrite UpdateState_eq. done.
Qed.

Lemma ResetBitmap_inv s :
  seg_layout s -> seg_inv (ResetBitmap s) /\ same_layout s (ResetBitmap s) /\
  append_cursor_ (ResetBitmap s) = 0 /\ used_slots_ (ResetBitmap s) = 0 /\
  (forall j, slot_bit (bitmap_ (ResetBitmap s)) j = false).
Proof.
  intros Hl. pose proof (seg_total_bounds s Hl).
  assert (forall j, slot_bit (bitmap_ (ResetBitmap s)) j = false) by (intros; apply slot_bit_zeros).
  split; [|done]. split; try done.
  - apply (seg_layout_eq s); try done; cbn; [len|apply bytes_ok_zeros].
  - cbn. lia.
  - cbn. by rewrite occ_count_zeros.
Qed.

Lemma SegmentBase_new_inv id c : config_ok c -> seg_inv (SegmentBase_new id c).
Proof.
  intros Hc. destruct (layout_facts c Hc) as (_ & ? & ? & ? & _).
  split; try done; cbn.
  - split; try done; cbn; [rewrite length_replicate; lia|apply bytes_ok_zeros].
  - lia.
  - intros. apply slot_bit_zeros.
  - by rewrite occ_count_zeros.
Qed.

(** Rebuilding from any bitmap yields the invariant: the trailing free slots
    become allocatable again. *)
Lemma RebuildCounters_inv s :
  seg_layout s ->
  seg_inv (RebuildCounters s) /\ same_layout s (RebuildCounters s) /\
  bitmap_ (RebuildCounters s) = bitmap_ s /\
  used_slots_ (RebuildCounters s) = occ_count (bitmap_ s) (total_slots_ s) /\
  (forall i, append_cursor_ (RebuildCounters s) <= i < total_slots_ s -> slot_bit (bitmap_ s) i = false) /\
  (0 < append_cursor_ (RebuildCounters s) ->
   slot_bit (bitmap_ s) (append_cursor_ (RebuildCounters s) - 1) = true).
Proof.
  intros Hl. pose proof (seg_total_bounds s Hl) as [Ht _].
  destruct (rebuild_spec s (total_slots_ s)) as (c & E & Hc & Hz & Hlast); [lia|].
  unfold RebuildCounters. rewrite E.
  assert (0 <= occ_count (bitmap_ s) (total_slots_ s) <= c) as Hocc.
  { rewrite (occ_count_below _ c) by (lia || done).
    pose proof (occ_count_nonneg (bitmap_ s) c). lia. }
  rewrite (u32_small (c - _)) by lia. split.
  - apply (seg_inv_intro s); try done. apply Hl.
  - rewrite UpdateState_eq. done.
Qed.

(** ** Layout theorem *)

Lemma lay_bitmap_aligned c :
  config_ok c -> 0 < bitmap_alignment c ->
  (bitmap_alignment c | lay_bitmap_size (CalculateLayout c)).
Proof.
  intros (Hk & Hv & Hkv & Hseg & Hal & _) Ha.
  unfold CalculateLayout. cbn [lay_bitmap_size]. rewrite (u32_small (key_size c + value_size c)) by lia.
  rewrite (u64_small (segment_size c * 8)) by lia.
  set (slot := key_size c + value_size c) in *.
  destruct (div_mul_le (segment_size c * 8) (8 * slot + 1)) as [T0 T1]; [lia..|].
  set (t0 := segment_size c * 8 / (8 * slot + 1)) in *.
  assert (t0 < 2 ^ 31) by (assert (t0 * 17 <= t0 * (8 * slot + 1)) by nia; lia).
  rewrite (u32_small t0), (u32_small (t0 + 7)), Z.gtb_ltb, (proj2 (Z.ltb_lt _ _)) by lia.
  pose proof (Z.div_mod (t0 + 7) 8). pose proof (Z.mod_pos_bound (t0 + 7) 8).
  rewrite (u64_small ((t0 + 7) / 8 + bitmap_alignment c - 1)) by lia.
  pose proof (align_up_bounds ((t0 + 7) / 8) (bitmap_alignment c)).
  rewrite u64_small by lia. apply Z.divide_factor_r.
Qed.

Lemma GetSlotOffset_new id c i :
  config_ok c -> 0 <= i < lay_total_slots (CalculateLayout c) ->
  GetSlotOffset i (SegmentBase_new id c) = lay_bitmap_size (CalculateLayout c) + i * (key_size c + value_size c) /\
  GetSlotOffset i (SegmentBase_new id c) + (key_size c + value_size c) <= segment_size c.
Proof.
  intros Hc Hi. destruct (layout_facts c Hc) as (E1 & H2 & H3 & H4 & H5 & H6). destruct Hc as (? & ? & ? & ? & ? & ?).
  unfold GetSlotOffset. cbn [slot_data_offset_ slot_size_ SegmentBase_new]. rewrite E1, H5 in *.
  assert (i * (key_size c + value_size c) + (key_size c + value_size c) <=
    lay_total_slots (CalculateLayout c) * (key_size c + value_size c)) by nia.
  assert (0 <= i * (key_size c + value_size c)) by nia. rewrite u64_small by lia. lia.
Qed.

(** C39: the layout of a new segment is sound, for sizes below 4 GiB, slots of at
    least two bytes and a segment with room for its aligned bitmap ([config_ok]).
    A slot has the size of a key and a value; the bitmap starts at
    [GetBitmapOffset], is aligned and has a bit for every slot; each slot, from
    [GetSlotOffset] on, lies behind the bitmap and inside the segment; different
    slots do not overlap. *)
Theorem CalculateLayout_fits (id : Z) (c : SegmentConfig) (Hc : config_ok c) :
  let s := SegmentBase_new id c in
  slot_size_ s = key_size c + value_size c /\ 0 <= total_slots_ s /\
  Z.of_nat (length (bitmap_ s)) = bitmap_size_ s /\
  (0 < bitmap_alignment c -> (bitmap_alignment c | bitmap_size_ s)) /\
  (forall i, 0 <= i < total_slots_ s ->
     i / 8 < bitmap_size_ s /\ GetBitmapOffset s + bitmap_size_ s <= GetSlotOffset i s /\
     GetSlotOffset i s + slot_size_ s <= segment_size c) /\
  (forall i j, 0 <= i -> i < j -> j < total_slots_ s -> GetSlotOffset i s + slot_size_ s <= GetSlotOffset j s).
Proof.
  cbv zeta. pose proof (lay_bitmap_aligned c Hc) as Hal. pose proof (GetSlotOffset_new id c) as Ho.
  destruct (layout_facts c Hc) as (E1 & H2 & H3 & H4 & H5 & H6).
  cbn [slot_size_ total_slots_ bitmap_size_ bitmap_ SegmentBase_new]. rewrite length_replicate.
  unfold GetBitmapOffset. rewrite E1 in *. pose proof Hc as (? & ? & ? & _).
  split; [done|]. split; [lia|]. split; [lia|]. split; [exact Hal|]. split.
  - intros i Hi. destruct (Ho i Hc Hi) as [Ei Hb]. split; [apply Z.div_lt_upper_bound; lia|]. rewrite Ei in *. nia.
  - intros i j Hi Hij Hj. rewrite (proj1 (Ho i Hc ltac:(lia))), (proj1 (Ho j Hc ltac:(lia))). nia.
Qed.

Lemma CalculateLayout_fits_witness :
  let s := SegmentBase_new 0 default_config in
  total_slots_ s = 516096 /\ GetSlotOffset 516095 s + slot_size_ s <= segment_size default_config.
Proof.
  split; [vm_compute; reflexivity|].
  refine (proj2 (proj2 (proj1 (proj2 (proj2 (proj2 (proj2 (CalculateLayout_fits 0 default_config _))))) 516095 _)));
    apply (bool_decide_unpack _); vm_compute; exact I.
Defined.

(** A segment smaller than its aligned bitmap gets a layout outside
    itself: the remaining data area wraps around to almost 2^64 bytes, and with
    the default alignment a segment of 1000 bytes has slots that start at byte
    4096. *)
Example CalculateLayout_underflow :
  let c := mkConfig true 8 92 1000 f32_three_quarters 4096 in
  let l := CalculateLayout c in
  lay_total_slots l = 9 /\ lay_data_offset l = 4096 /\ ~ config_ok c /\
  GetSlotOffset 0 (SegmentBase_new 0 c) > segment_size c.
Proof.
  cbv zeta. split; [vm_compute; reflexivity|]. split; [vm_compute; reflexivity|].
  split; [|vm_compute; reflexivity].
  apply (bool_decide_unpack _). vm_compute. exact I.
Qed.
