(* ===== verification/SegmentOps.v ===== *)
(** * Slot operations of a segment
    ([parakv/core/segment/segment_file.cc], [segment_block_dev.cc])

    [SegmentFile] and [SegmentBlockDev] implement the same operations; they
    differ in how a byte range of the segment is written and read (a file
    descriptor, or a block device at a base offset), and in [Open] and
    [Close].  The class [SlotStore] is that difference, and this file holds
    the operations over it: [Insert], [BatchInsert], [Read], [Delete],
    [Compact], [SyncBitmap], [LoadBitmap], [FlushBitmap].  The class
    [SlotStoreLaws] states what a store promises, and the theorems are proved
    against it; [SegmentFile] and [SegmentBlockDev] discharge it. *)

From S2P Require Import Prelude Common SegmentBase.

(** ** The byte store under a segment *)

(** [H] names the byte range of one segment, [W] is the world it lives in.
    Offsets are relative to the start of the segment.  [st_read] returns the
    bytes that were put into the buffer. *)
Class SlotStore (H W : Type) := {
  st_write : H -> list Z -> Z -> W -> Status * W;
  st_read : H -> Z -> Z -> W -> Status * list Z * W;
}.

(** What a store promises.  [st_data h w] is the contents of the range when it
    is usable, [st_sep] tells ranges that do not overlap, [st_quiet] worlds in
    which no call fails.  A failed write may leave any bytes in its own range
    and changes nothing else. *)
Class SlotStoreLaws (H W : Type) `{SlotStore H W} := {
  st_data : H -> W -> option (list Z);
  st_sep : H -> H -> Prop;
  st_quiet : W -> Prop;
  st_sep_sym : forall h h', st_sep h h' -> st_sep h' h;
  st_write_spec : forall h buf off w s w' d,
    st_data h w = Some d -> 0 <= off -> off + Z.of_nat (length buf) <= Z.of_nat (length d) ->
    st_write h buf off w = (s, w') ->
    (exists buf', length buf' = length buf /\
       st_data h w' = Some (splice (Z.to_nat off) buf' d) /\ (s = kOk -> buf' = buf)) /\
    (forall h', st_sep h h' -> st_data h' w' = st_data h' w) /\
    (st_quiet w -> s = kOk /\ st_quiet w');
  st_read_spec : forall h count off w s got w' d,
    st_data h w = Some d -> 0 <= off -> 0 <= count -> off + count <= Z.of_nat (length d) ->
    st_read h count off w = (s, got, w') ->
    (s = kOk -> got = slice (Z.to_nat off) (Z.to_nat count) d) /\
    (forall h', st_data h' w' = st_data h' w) /\
    (st_quiet w -> s = kOk /\ st_quiet w');
}.

(** ** Segments *)

Record Segment (H : Type) := mkSegment {
  seg_base : SegmentBase;
  seg_handle : H;
  seg_open : bool;   (** [fd_ >= 0], resp. [opened_] *)
}.
Arguments mkSegment {H} _ _ _.
Arguments seg_base {H} _.
Arguments seg_handle {H} _.
Arguments seg_open {H} _.

Definition set_base {H} (b : SegmentBase) (s : Segment H) : Segment H :=
  mkSegment b (seg_handle s) (seg_open s).
Definition set_open {H} (o : bool) (s : Segment H) : Segment H :=
  mkSegment (seg_base s) (seg_handle s) o.

Definition GetSegmentId {H} (s : Segment H) : Z := segment_id_ (seg_base s).

(** The callback of [Compact]: key bytes, old segment and slot, new segment
    and slot, acting on a client state. *)
Definition SlotMoveCallback (X : Type) : Type := list Z -> Z -> Z -> Z -> Z -> X -> X.

(** ** Operations

    Pointer arguments are options ([None] is [nullptr]), and output pointers
    booleans telling whether they were passed; what was stored through them is
    part of the result. *)
Section ops.
  Context {H W : Type} `{SlotStore H W}.

Definition key_bytes (b : SegmentBase) : nat := Z.to_nat (key_size (config_ b)).
Definition value_bytes (b : SegmentBase) : nat := Z.to_nat (value_size (config_ b)).

Definition LoadBitmap (s : Segment H) (w : W) : Status * Segment H * W :=
  let b := seg_base s in
  let '(st, got, w) := st_read (seg_handle s) (bitmap_size_ b) (GetBitmapOffset b) w in
  (st, set_base (set_bitmap (got ++ drop (length got) (bitmap_ b)) b) s, w).

Definition FlushBitmap (s : Segment H) (w : W) : Status * W :=
  let b := seg_base s in
  st_write (seg_handle s) (take (Z.to_nat (bitmap_size_ b)) (bitmap_ b)) (GetBitmapOffset b) w.

Definition SyncBitmap (s : Segment H) (w : W) : Status * W :=
  if negb (seg_open s) then (kIOError, w) else FlushBitmap s w.

(** The two writes of a slot's payload: the key, then the value. *)
Definition write_slot (s : Segment H) (sid : Z) (key value : list Z) (w : W) : Status * W :=
  let b := seg_base s in
  let offset := GetSlotOffset sid b in
  let '(st, w) := st_write (seg_handle s) key offset w in
  if negb (status_is_ok st) then (st, w)
  else st_write (seg_handle s) value (u64 (offset + key_size (config_ b))) w.

Definition Insert (key value : option (list Z)) (slot_id : bool) (s : Segment H) (w : W)
    : Status * option Z * Segment H * W :=
  match key, value, slot_id with
  | Some key, Some value, true =>
    if negb (seg_open s) then (kIOError, None, s, w) else
    let b := seg_base s in
    let free_slot := FindFreeSlot b in
    if free_slot <? 0 then (kFull, None, s, w) else
    let sid := u32 free_slot in
    let '(st, w) := write_slot s sid (take (key_bytes b) key) (take (value_bytes b) value) w in
    if negb (status_is_ok st) then (st, None, s, w) else
    let s := set_base (SetSlotBit sid b) s in
    let '(st, w) := FlushBitmap s w in
    if negb (status_is_ok st) then (st, None, set_base (ClearSlotBit sid (seg_base s)) s, w) else
    let b := seg_base s in
    let b := set_counters (u32 (used_slots_ b + 1)) (deleted_slots_ b)
               (u32 (append_cursor_ b + 1)) b in
    (kOk, Some sid, set_base (UpdateState b) s, w)
  | _, _, _ => (kInvalidArgument, None, s, w)
  end.

(** Phase 1 of [BatchInsert]: [n] more payloads from index [i] on; returns the
    slot ids stored so far. *)
Fixpoint batch_payloads (n : nat) (i : Z) (keys values : list Z) (s : Segment H) (w : W)
    : Status * list Z * W :=
  match n with
  | O => (kOk, [], w)
  | S n =>
    let b := seg_base s in
    let sid := u32 (append_cursor_ b + i) in
    let '(st, w) := write_slot s sid
        (slice (Z.to_nat i * key_bytes b) (key_bytes b) keys)
        (slice (Z.to_nat i * value_bytes b) (value_bytes b) values) w in
    if negb (status_is_ok st) then (st, [], w) else
    let '(st, sids, w) := batch_payloads n (i + 1) keys values s w in
    (st, sid :: sids, w)
  end.

Definition BatchInsert (keys values : option (list Z)) (count : Z) (slot_ids : bool)
    (s : Segment H) (w : W) : Status * list Z * Segment H * W :=
  match keys, values, slot_ids, count =? 0 with
  | Some keys, Some values, true, false =>
    if negb (seg_open s) then (kIOError, [], s, w) else
    let b := seg_base s in
    let available := u32 (total_slots_ b - append_cursor_ b) in
    if count >? available then (kFull, [], s, w) else
    let '(st, sids, w) := batch_payloads (Z.to_nat count) 0 keys values s w in
    if negb (status_is_ok st) then (st, sids, s, w) else
    let s := set_base (SetSlotBits sids b) s in
    let '(st, w) := FlushBitmap s w in
    if negb (status_is_ok st) then (st, sids, s, w) else
    let b := seg_base s in
    let b := set_counters (u32 (used_slots_ b + count)) (deleted_slots_ b)
               (u32 (append_cursor_ b + count)) b in
    (kOk, sids, set_base (UpdateState b) s, w)
  | _, _, _, _ => (kInvalidArgument, [], s, w)
  end.

(** Read into a buffer that was passed; nothing for [nullptr]. *)
Definition read_into (want : bool) (h : H) (count off : Z) (w : W)
    : Status * option (list Z) * W :=
  if want then
    let '(st, got, w) := st_read h count off w in (st, Some got, w)
  else (kOk, None, w).

(** Results: status and the bytes put into the key and value buffers. *)
Definition Read (slot_id : Z) (key value : bool) (s : Segment H) (w : W)
    : Status * option (list Z) * option (list Z) * W :=
  let b := seg_base s in
  if slot_id >=? total_slots_ b then (kInvalidArgument, None, None, w) else
  if negb (seg_open s) then (kIOError, None, None, w) else
  if negb (IsSlotOccupied slot_id b) then (kNotFound, None, None, w) else
  let offset := GetSlotOffset slot_id b in
  let '(st, kbuf, w) := read_into key (seg_handle s) (key_size (config_ b)) offset w in
  if negb (status_is_ok st) then (st, kbuf, None, w) else
  let '(st, vbuf, w) :=
    read_into value (seg_handle s) (value_size (config_ b))
      (u64 (offset + key_size (config_ b))) w in
  (st, kbuf, vbuf, w).

Definition Delete (slot_id : Z) (s : Segment H) (w : W) : Status * Segment H * W :=
  let b := seg_base s in
  if slot_id >=? total_slots_ b then (kInvalidArgument, s, w) else
  if negb (seg_open s) then (kIOError, s, w) else
  if negb (IsSlotOccupied slot_id b) then (kNotFound, s, w) else
  let s := set_base (ClearSlotBit slot_id b) s in
  let '(st, w) := FlushBitmap s w in
  if negb (status_is_ok st) then (st, set_base (SetSlotBit slot_id (seg_base s)) s, w) else
  let b := seg_base s in
  let b := set_counters (u32 (used_slots_ b - 1)) (u32 (deleted_slots_ b + 1))
             (append_cursor_ b) b in
  (kOk, set_base (UpdateState b) s, w).

(** The two reads of a slot's payload into [key_buf] and [val_buf]. *)
Definition read_slot (s : Segment H) (i : Z) (w : W) : Status * list Z * list Z * W :=
  let b := seg_base s in
  let offset := GetSlotOffset i b in
  let '(st, key_buf, w) := st_read (seg_handle s) (key_size (config_ b)) offset w in
  if negb (status_is_ok st) then (st, key_buf, [], w) else
  let '(st, val_buf, w) :=
    st_read (seg_handle s) (value_size (config_ b)) (u64 (offset + key_size (config_ b))) w in
  (st, key_buf, val_buf, w).

(** The migration loop of [Compact] over the remaining slot numbers. *)
Fixpoint compact_loop {X} (cb : option (SlotMoveCallback X)) (slots : list Z)
    (s target : Segment H) (w : W) (x : X) : Status * Segment H * W * X :=
  match slots with
  | [] => (kOk, target, w, x)
  | i :: slots =>
    let b := seg_base s in
    if negb (IsSlotOccupied i b) then compact_loop cb slots s target w x else
    let '(st, key_buf, val_buf, w) := read_slot s i w in
    if negb (status_is_ok st) then (st, target, w, x) else
    let '(st, new_slot_id, target, w) := Insert (Some key_buf) (Some val_buf) true target w in
    if negb (status_is_ok st) then (st, target, w, x) else
    let x :=
      match cb with
      | Some on_slot_moved =>
          on_slot_moved key_buf (segment_id_ b) i (GetSegmentId target) (default 0 new_slot_id) x
      | None => x
      end in
    compact_loop cb slots s target w x
  end.

(** The source and the target are different objects. *)
Definition Compact {X} (target : option (Segment H)) (cb : option (SlotMoveCallback X))
    (s : Segment H) (w : W) (x : X) : Status * Segment H * option (Segment H) * W * X :=
  match target with
  | None => (kInvalidArgument, s, None, w, x)
  | Some target =>
    if negb (seg_open s) then (kIOError, s, Some target, w, x) else
    let '(st, target, w, x) :=
      compact_loop cb (seqZ 0 (append_cursor_ (seg_base s))) s target w x in
    if negb (status_is_ok st) then (st, s, Some target, w, x) else
    let s := set_base (ResetBitmap (seg_base s)) s in
    let '(st, w) := FlushBitmap s w in
    (st, s, Some target, w, x)
  end.

End ops.

(** ** The contents of a segment *)

Section view.
  Context {H W : Type} `{SlotStoreLaws H W}.
  Implicit Types (s t : Segment H) (w : W) (b : SegmentBase) (d : list Z).

(** Payload of slot [i] in the segment's bytes. *)
Definition slot_payload b d (i : Z) : list Z * list Z :=
  let off := Z.to_nat (slot_data_offset_ b + i * slot_size_ b) in
  (slice off (key_bytes b) d, slice (off + key_bytes b) (value_bytes b) d).

(** The occupied slots with their key and value bytes: what the segment
    stores. *)
Definition slot_map b d : gmap Z (list Z * list Z) :=
  list_to_map (omap (fun i => if slot_bit (bitmap_ b) i then Some (i, slot_payload b d i) else None)
                 (seqZ 0 (total_slots_ b))).

Definition seg_map s w : gmap Z (list Z * list Z) :=
  match st_data (seg_handle s) w with Some d => slot_map (seg_base s) d | None => ∅ end.

(** The segment is open, its bookkeeping consistent and its bytes are there. *)
Record seg_ok s w : Prop := {
  so_inv : seg_inv (seg_base s);
  so_open : seg_open s = true;
  so_data : exists d, st_data (seg_handle s) w = Some d /\
    segment_size (config_ (seg_base s)) <= Z.of_nat (length d);
}.

(** Layout facts in the form the operations need. *)
Lemma slot_bounds b i :
  seg_layout b -> 0 <= i < total_slots_ b ->
  slot_size_ b = Z.of_nat (key_bytes b) + Z.of_nat (value_bytes b) /\
  Z.of_nat (key_bytes b) = key_size (config_ b) /\
  Z.of_nat (value_bytes b) = value_size (config_ b) /\
  0 <= bitmap_size_ b /\ slot_data_offset_ b = bitmap_size_ b /\
  bitmap_size_ b <= slot_data_offset_ b + i * slot_size_ b /\
  slot_data_offset_ b + i * slot_size_ b + slot_size_ b <= segment_size (config_ b) < 2 ^ 32 /\
  GetSlotOffset i b = slot_data_offset_ b + i * slot_size_ b.
Proof.
  intros [Hc Es Et Eb Ed _ _] Hi. destruct (layout_facts _ Hc) as (L1 & L2 & L3 & L4 & L5 & L6).
  destruct Hc as (? & ? & ? & ? & ?). unfold key_bytes, value_bytes, GetSlotOffset.
  rewrite L1 in *. rewrite L5 in *. rewrite Es, Ed, Eb in *. rewrite Et in Hi.
  assert (i * (key_size (config_ b) + value_size (config_ b)) +
    (key_size (config_ b) + value_size (config_ b)) <=
    lay_total_slots (CalculateLayout (config_ b)) * (key_size (config_ b) + value_size (config_ b)))
    by nia.
  assert (0 <= i * (key_size (config_ b) + value_size (config_ b))) by nia.
  rewrite u64_small by lia. lia.
Qed.

Lemma slots_disjoint b i j :
  seg_layout b -> 0 <= i < total_slots_ b -> 0 <= j < total_slots_ b -> i <> j ->
  slot_data_offset_ b + i * slot_size_ b + slot_size_ b <= slot_data_offset_ b + j * slot_size_ b \/
  slot_data_offset_ b + j * slot_size_ b + slot_size_ b <= slot_data_offset_ b + i * slot_size_ b.
Proof.
  intros Hl Hi Hj Hne. destruct (slot_bounds b i Hl Hi) as (E & _).
  assert (0 <= slot_size_ b) by lia. destruct (Z.lt_total i j) as [|[|]]; [left|lia|right]; nia.
Qed.

Lemma bitmap_bound b :
  seg_layout b -> 0 <= bitmap_size_ b <= segment_size (config_ b) /\
  take (Z.to_nat (bitmap_size_ b)) (bitmap_ b) = bitmap_ b.
Proof.
  intros [Hc _ _ Eb _ El _]. destruct (layout_facts _ Hc) as (_ & _ & _ & ? & _).
  destruct Hc as (_ & _ & _ & _ & _ & ?). split; [lia|]. apply take_ge. lia.
Qed.

Lemma slot_map_lookup b d i :
  slot_map b d !! i =
  if decide (0 <= i < total_slots_ b) then
    if slot_bit (bitmap_ b) i then Some (slot_payload b d i) else None
  else None.
Proof.
  unfold slot_map. apply option_eq. intros p.
  rewrite <- elem_of_list_to_map.
  - rewrite list_elem_of_omap. split.
    + intros (j & Hj%elem_of_seqZ & E). destruct (slot_bit (bitmap_ b) j) eqn:Eb; [|done].
      simplify_eq. rewrite decide_True, Eb by lia. done.
    + case_decide; [|done]. destruct (slot_bit (bitmap_ b) i) eqn:Eb; [|done]. intros [= <-].
      exists i. rewrite Eb. split; [apply elem_of_seqZ; lia|done].
  - set (g := fun i => if slot_bit (bitmap_ b) i then Some (i, slot_payload b d i) else None).
    assert (forall l, NoDup l -> NoDup (omap g l).*1) as Hnd; [|apply Hnd, NoDup_seqZ].
    induction 1 as [|x l Hx Hnd IH]; [constructor|]. cbn.
    destruct (g x) as [[y p']|] eqn:E; [|done]. cbn. constructor; [|done].
    unfold g in E. case_match; simplify_eq. intros ([z q] & Ez & Hin)%list_elem_of_fmap.
    apply list_elem_of_omap in Hin as (z' & Hz' & E').
    unfold g in E'. cbn in Ez. case_match; by simplify_eq.
Qed.

Lemma payload_same_layout b b' d i :
  same_layout b b' -> slot_payload b' d i = slot_payload b d i.
Proof.
  intros (_ & Ec & _ & Es & _ & Ed). unfold slot_payload, key_bytes, value_bytes. by rewrite Ec, Es, Ed.
Qed.

Lemma slot_map_ext b b' d d' :
  same_layout b b' -> (forall i, 0 <= i < total_slots_ b -> slot_bit (bitmap_ b') i = slot_bit (bitmap_ b) i) ->
  (forall i, 0 <= i < total_slots_ b -> slot_bit (bitmap_ b) i = true ->
     slot_payload b d' i = slot_payload b d i) ->
  slot_map b' d' = slot_map b d.
Proof.
  intros Hs Hb Hp. apply map_eq. intros i. rewrite !slot_map_lookup, (proj1 (proj2 (proj2 Hs))).
  case_decide; [|done]. rewrite Hb by done. destruct (slot_bit (bitmap_ b) i) eqn:E; [|done].
  f_equal. rewrite <- Hp by done. by apply payload_same_layout.
Qed.

(** Writing inside the range of slot [i], or inside the bitmap, leaves the
    payload of every other slot alone. *)
Lemma payload_frame b d j off buf :
  seg_layout b -> segment_size (config_ b) <= Z.of_nat (length d) -> 0 <= j < total_slots_ b ->
  0 <= off ->
  (off + Z.of_nat (length buf) <= slot_data_offset_ b + j * slot_size_ b \/
   slot_data_offset_ b + j * slot_size_ b + slot_size_ b <= off) ->
  slot_payload b (splice (Z.to_nat off) buf d) j = slot_payload b d j.
Proof.
  intros Hl Hd Hj Ho Hdis. destruct (slot_bounds b j Hl Hj) as (E & _ & _ & ? & ? & ? & ? & _).
  unfold slot_payload. f_equal; apply slice_splice_disjoint; lia.
Qed.

(** ** Effects on the bytes *)

(** What a sequence of writes to segment [s] may do: the length stays, other
    ranges are untouched, and quiet worlds stay quiet. *)
Record wrote (h : H) (st : Status) (w w' : W) (d d' : list Z) : Prop := {
  wr_data : st_data h w' = Some d';
  wr_len : length d' = length d;
  wr_frame : forall h', st_sep h h' -> st_data h' w' = st_data h' w;
  wr_quiet : st_quiet w -> st = kOk /\ st_quiet w';
}.

Lemma st_write_wrote h buf off w st w' d :
  st_data h w = Some d -> 0 <= off -> off + Z.of_nat (length buf) <= Z.of_nat (length d) ->
  st_write h buf off w = (st, w') ->
  exists buf', length buf' = length buf /\ (st = kOk -> buf' = buf) /\
    wrote h st w w' d (splice (Z.to_nat off) buf' d).
Proof.
  intros Hd Ho Hl E. destruct (st_write_spec _ _ _ _ _ _ _ Hd Ho Hl E) as [(buf' & Hb & Hd' & Hok) [Hf Hq]].
  exists buf'. split; [done|]. split; [done|]. split; [done| |done|done]. len.
Qed.

Lemma wrote_trans h st1 st2 w1 w2 w3 d1 d2 d3 :
  wrote h st1 w1 w2 d1 d2 -> wrote h st2 w2 w3 d2 d3 -> wrote h st2 w1 w3 d1 d3.
Proof.
  intros [? L1 F1 Q1] [? L2 F2 Q2]. split; [done|congruence| |].
  - intros h' Hh. by rewrite F2, F1.
  - intros Hq. apply Q2, Q1, Hq.
Qed.

Lemma write_slot_spec s sid key value w st w' d :
  let b := seg_base s in
  seg_layout b -> st_data (seg_handle s) w = Some d ->
  segment_size (config_ b) <= Z.of_nat (length d) -> 0 <= sid < total_slots_ b ->
  length key = key_bytes b -> length value = value_bytes b ->
  write_slot s sid key value w = (st, w') ->
  exists d', wrote (seg_handle s) st w w' d d' /\
    (forall j, 0 <= j < total_slots_ b -> j <> sid -> slot_payload b d' j = slot_payload b d j) /\
    (st = kOk -> slot_payload b d' sid = (key, value)).
Proof.
  cbv zeta. intros Hl Hd Hlen Hs Hk Hv. set (b := seg_base s) in *.
  destruct (slot_bounds b sid Hl Hs) as (E & Ek & Ev & ? & ? & ? & ? & Eo).
  unfold write_slot. fold b. rewrite Eo, (u64_small (_ + key_size _)) by lia.
  set (off := slot_data_offset_ b + sid * slot_size_ b) in *.
  destruct (st_write (seg_handle s) key off w) as [st1 w1] eqn:E1.
  apply (st_write_wrote _ _ _ _ _ _ d) in E1 as (k' & Hk' & Hok1 & Hw1); [|done|lia..].
  destruct st1; cbn [status_is_ok negb]; intros E2;
    try (simplify_eq; eexists; split; [exact Hw1|]; split; [|done]; intros j Hj Hne;
         apply payload_frame; try done; try lia;
         destruct (slots_disjoint b sid j Hl) as [|]; lia).
  destruct Hw1 as [Hd1 Hl1 Hf1 Hq1]. pose proof (Build_wrote _ _ _ _ _ _ Hd1 Hl1 Hf1 Hq1) as Hw1.
  apply (st_write_wrote _ _ _ _ _ _ _ Hd1) in E2 as (v' & Hv' & Hok2 & Hw2); [|lia..].
  eexists. split; [by eapply wrote_trans|]. split.
  - intros j Hj Hne. destruct (slots_disjoint b sid j Hl) as [|]; try done;
      rewrite !payload_frame; try done; lia.
  - intros ->. rewrite Hok1, Hok2 by done. unfold slot_payload. fold off. f_equal.
    + rewrite slice_splice_disjoint by len. rewrite <- Hk. apply slice_splice_same.
    + rewrite <- Hv. replace (Z.to_nat off + key_bytes b)%nat with (Z.to_nat (off + key_size (config_ b))) by lia.
      apply slice_splice_same.
Qed.

(** The bitmap on the medium is the one in memory. *)
Definition seg_synced s w : Prop :=
  exists d, st_data (seg_handle s) w = Some d /\
    slice 0 (Z.to_nat (bitmap_size_ (seg_base s))) d = bitmap_ (seg_base s).

Lemma FlushBitmap_spec s w st w' d :
  let b := seg_base s in
  seg_layout b -> st_data (seg_handle s) w = Some d ->
  segment_size (config_ b) <= Z.of_nat (length d) ->
  FlushBitmap s w = (st, w') ->
  exists d', wrote (seg_handle s) st w w' d d' /\
    (forall j, 0 <= j < total_slots_ b -> slot_payload b d' j = slot_payload b d j) /\
    (st = kOk -> seg_synced s w').
Proof.
  cbv zeta. intros Hl Hd Hlen E. destruct (bitmap_bound _ Hl) as [Hb Ht].
  pose proof (sl_blen _ Hl). unfold FlushBitmap, GetBitmapOffset in E. rewrite Ht in E.
  apply (st_write_wrote _ _ _ _ _ _ d) in E as (bm & Hbl & Hok & Hw); [|done|lia..].
  eexists. split; [exact Hw|]. split.
  - intros j Hj. destruct (slot_bounds _ j Hl Hj) as (_ & _ & _ & _ & ? & ? & _).
    apply payload_frame; try done; lia.
  - intros ->. eexists. split; [apply Hw|]. rewrite Hok by done.
    replace (Z.to_nat (bitmap_size_ (seg_base s))) with (length (bitmap_ (seg_base s))) by lia.
    apply slice_splice_same.
Qed.

(** ** Specifications of the operations *)

Definition seg_same s s' : Prop :=
  seg_handle s' = seg_handle s /\ seg_open s' = seg_open s /\
  same_layout (seg_base s) (seg_base s').

#[export] Instance seg_same_preorder : PreOrder seg_same.
Proof.
  split.
  - intros s. done.
  - intros s1 s2 s3 (? & ? & ?) (? & ? & ?). split; [congruence|]. split; [congruence|]. by etrans.
Qed.

(** Everything outside the segment's own range is untouched. *)
Definition seg_frame s w w' : Prop :=
  forall h', st_sep (seg_handle s) h' -> st_data h' w' = st_data h' w.

Lemma seg_ok_wrote s s' w w' d d' st :
  seg_ok s w -> seg_same s s' -> seg_inv (seg_base s') ->
  st_data (seg_handle s) w = Some d -> wrote (seg_handle s) st w w' d d' -> seg_ok s' w'.
Proof.
  intros [Hi Ho (d0 & Hd0 & Hl)] (Eh & Eo & Es) Hi' Hd [Hd' Hlen _ _]. simplify_eq.
  split; [done|congruence|]. exists d'. rewrite Eh. split; [done|].
  destruct Es as (_ & -> & _). lia.
Qed.

Lemma seg_map_data s w d :
  st_data (seg_handle s) w = Some d -> seg_map s w = slot_map (seg_base s) d.
Proof. unfold seg_map. by intros ->. Qed.

Lemma FindFreeSlot_spec b :
  seg_inv b -> (append_cursor_ b < total_slots_ b /\ FindFreeSlot b = append_cursor_ b) \/
               (append_cursor_ b = total_slots_ b /\ FindFreeSlot b = -1).
Proof.
  intros Hi. pose proof (si_cursor b Hi). pose proof (seg_total_bounds b Hi). unfold FindFreeSlot.
  destruct (Z.ltb_spec (append_cursor_ b) (total_slots_ b)); [left|right; lia].
  split; [done|]. unfold i32. rewrite u32_small by lia.
  by rewrite (proj2 (Z.ltb_lt _ _)) by lia.
Qed.

(** A call that failed: the segment object is as before and so is what it
    stores, even if bytes were written. *)
Record op_failed s w w' : Prop := {
  of_ok : seg_ok s w';
  of_frame : seg_frame s w w';
  of_map : seg_map s w' = seg_map s w;
  of_quiet : ~ st_quiet w;
}.

Lemma wrote_failed s w st w' d d' :
  seg_ok s w -> st_data (seg_handle s) w = Some d -> wrote (seg_handle s) st w w' d d' ->
  st <> kOk ->
  (forall i, 0 <= i < total_slots_ (seg_base s) -> slot_bit (bitmap_ (seg_base s)) i = true ->
     slot_payload (seg_base s) d' i = slot_payload (seg_base s) d i) ->
  op_failed s w w'.
Proof.
  intros Hok Hd Hw Hst Hp. split.
  - eapply (seg_ok_wrote s); [done|done|apply Hok|done|done].
  - exact (wr_frame _ _ _ _ _ _ Hw).
  - rewrite (seg_map_data _ _ _ Hd), (seg_map_data _ _ _ (wr_data _ _ _ _ _ _ Hw)).
    by apply slot_map_ext.
  - intros Hq. by destruct (wr_quiet _ _ _ _ _ _ Hw Hq).
Qed.

(** The map after slots [c .. c+n) were filled. *)
Lemma slot_map_commit b n d d' i :
  seg_inv b -> 0 <= n -> append_cursor_ b + n <= total_slots_ b ->
  (forall i, 0 <= i < append_cursor_ b -> slot_payload b d' i = slot_payload b d i) ->
  slot_map (commit_insert n (SetSlotBits (seqZ (append_cursor_ b) n) b)) d' !! i =
  if decide (append_cursor_ b <= i < append_cursor_ b + n) then Some (slot_payload b d' i)
  else slot_map b d !! i.
Proof.
  intros Hi Hn Hle Hp. pose proof (si_cursor _ Hi).
  destruct (commit_insert_inv b n Hi) as (_ & Hs & _ & _ & _ & Hbits); [lia..|].
  rewrite slot_map_lookup, (payload_same_layout b), (proj1 (proj2 (proj2 Hs))) by done.
  destruct (decide (append_cursor_ b <= i < append_cursor_ b + n)) as [Hr|Hr].
  - by rewrite decide_True, Hbits, decide_True by lia.
  - rewrite slot_map_lookup. case_decide; [|done].
    rewrite Hbits, decide_False by lia. destruct (slot_bit (bitmap_ b) i) eqn:Eb; [|done].
    rewrite Hp; [done|]. pose proof (seg_inv_occupied b i Hi ltac:(lia) Eb). lia.
Qed.

Lemma commit_insert_synced n s b w :
  seg_synced (set_base b s) w -> seg_synced (set_base (commit_insert n b) s) w.
Proof.
  intros (d & Hd & E). exists d. split; [done|]. unfold commit_insert. by rewrite UpdateState_eq.
Qed.

(** The successful outcome of [Insert]. *)
Record inserted s w (key value : list Z) (sid : Z) s' w' : Prop := {
  in_ok : seg_ok s' w';
  in_same : seg_same s s';
  in_frame : seg_frame s w w';
  in_sid : sid = append_cursor_ (seg_base s) /\ sid < total_slots_ (seg_base s);
  in_synced : seg_synced s' w';
  in_cursor : append_cursor_ (seg_base s') = append_cursor_ (seg_base s) + 1;
  in_used : used_slots_ (seg_base s') = used_slots_ (seg_base s) + 1;
  in_deleted : deleted_slots_ (seg_base s') = deleted_slots_ (seg_base s);
  in_fresh : seg_map s w !! sid = None;
  in_map : seg_map s' w' = <[sid := (key, value)]> (seg_map s w);
}.

Lemma Insert_spec s key value w st out s' w' :
  seg_ok s w -> length key = key_bytes (seg_base s) -> length value = value_bytes (seg_base s) ->
  Insert (Some key) (Some value) true s w = (st, out, s', w') ->
  (st_quiet w -> st_quiet w') /\
  ((exists sid, st = kOk /\ out = Some sid /\ inserted s w key value sid s' w') \/
   (st = kFull /\ append_cursor_ (seg_base s) = total_slots_ (seg_base s) /\
      out = None /\ s' = s /\ w' = w) \/
   (st <> kOk /\ out = None /\ s' = s /\ op_failed s w w')).
Proof.
  intros Hok Hk Hv E. pose proof Hok as [Hi Ho (d & Hd & Hlen)].
  pose proof (si_layout _ Hi) as Hl. pose proof (si_cursor _ Hi) as Hc.
  unfold Insert in E. rewrite Ho in E. cbn [negb] in E.
  rewrite (take_ge key), (take_ge value) in E by lia.
  destruct (FindFreeSlot_spec _ Hi) as [[Hlt Ef]|[Heq Ef]]; rewrite Ef in E; clear Ef.
  2: { change (-1 <? 0) with true in E. cbv beta iota in E. simplify_eq. split; [done|].
       right. left. done. }
  pose proof (seg_total_bounds _ Hl).
  rewrite (proj2 (Z.ltb_ge _ _)), u32_small in E by lia.
  set (c := append_cursor_ (seg_base s)) in *.
  assert (slot_bit (bitmap_ (seg_base s)) c = false) as Hfree by (apply Hi; lia).
  destruct (write_slot s c key value w) as [st1 w1] eqn:E1.
  destruct (write_slot_spec s c key value w st1 w1 d) as (d1 & Hw1 & Hp1 & Hp1'); try done; [lia|].
  destruct (decide (st1 = kOk)) as [->|Hst1].
  2: { replace (status_is_ok st1) with false in E by by destruct st1. simplify_eq/=.
       assert (op_failed s' w w') as F.
       { eapply wrote_failed; [done..|]. intros i ? Hb. apply Hp1; [done|]. intros ->. congruence. }
       split; [intros Hq; by destruct (of_quiet _ _ _ F)|]. right. right. done. }
  cbn [status_is_ok negb] in E. specialize (Hp1' eq_refl).
  set (s1 := set_base (SetSlotBit c (seg_base s)) s) in *.
  destruct (FlushBitmap s1 w1) as [st2 w2] eqn:E2.
  apply (FlushBitmap_spec _ _ _ _ d1) in E2 as (d2 & Hw2 & Hp2 & Hsync);
    [|by apply SetSlotBit_layout|apply Hw1|by rewrite (wr_len _ _ _ _ _ _ Hw1)].
  pose proof (wrote_trans _ _ _ _ _ _ _ _ _ Hw1 Hw2) as Hw.
  destruct (decide (st2 = kOk)) as [->|Hst2].
  2: { replace (status_is_ok st2) with false in E by by destruct st2. cbn [negb] in E.
       assert (ClearSlotBit c (seg_base s1) = seg_base s) as Ecl by (apply Clear_Set; [done|lia|done]).
       rewrite Ecl in E. assert (set_base (seg_base s) s1 = s) as Es by (by destruct s).
       rewrite Es in E. simplify_eq.
       assert (op_failed s' w w') as F.
       { eapply wrote_failed; [done..|]. intros i ? Hb.
         etrans; [by apply (Hp2 i)|]. apply Hp1; [done|]. intros ->. congruence. }
       split; [intros Hq; by destruct (of_quiet _ _ _ F)|]. right. right. done. }
  cbn [status_is_ok negb] in E. split; [intros Hq; simplify_eq; by apply Hw|]. left. exists c.
  destruct (commit_insert_inv (seg_base s) 1 Hi) as (Hi' & Hsl & Ec & Eu & Ed & _); [lia..|].
  change (UpdateState _) with (commit_insert 1 (SetSlotBit c (seg_base s))) in E.
  fold c in Hi', Hsl, Ec, Eu, Ed.
  change (SetSlotBits (seqZ c 1) (seg_base s)) with (SetSlotBit c (seg_base s)) in *.
  simplify_eq. split; [done|]. split; [done|]. split; try done.
  - by eapply (seg_ok_wrote s).
  - exact (wr_frame _ _ _ _ _ _ Hw).
  - by apply (commit_insert_synced 1 s1), Hsync.
  - by rewrite (seg_map_data _ _ _ Hd), slot_map_lookup, decide_True, Hfree by lia.
  - rewrite (seg_map_data s _ _ Hd), (seg_map_data
      (set_base (commit_insert 1 (SetSlotBit c (seg_base s))) s1) w' d2 (wr_data _ _ _ _ _ _ Hw)).
    apply map_eq. intros i. etrans; [apply (slot_map_commit _ 1 d); [done|lia..|]|].
    + intros j Hj. etrans; [apply (Hp2 j); cbn; lia|]. apply Hp1; lia.
    + fold c. destruct (decide (c <= i < c + 1)) as [Hr|Hr].
      * replace i with c by lia. rewrite lookup_insert_eq, <- Hp1'. f_equal. apply (Hp2 c). cbn. lia.
      * rewrite lookup_insert_ne by lia. done.
Qed.

(** Reads change no byte range. *)
Definition world_same w w' : Prop :=
  (forall h, st_data h w' = st_data h w) /\ (st_quiet w -> st_quiet w').

#[export] Instance world_same_preorder : PreOrder world_same.
Proof.
  split.
  - intros w. done.
  - intros w1 w2 w3 [E1 Q1] [E2 Q2]. split; [|tauto]. intros h. by rewrite E2, E1.
Qed.

Lemma seg_map_same s w w' : world_same w w' -> seg_map s w' = seg_map s w.
Proof. unfold seg_map. by intros [-> _]. Qed.

Lemma seg_ok_same s w w' : world_same w w' -> seg_ok s w -> seg_ok s w'.
Proof. intros [E _] [? ? Hd]. split; [done..|]. by rewrite E. Qed.

Lemma read_part s w i off n st got w' d :
  seg_ok s w -> st_data (seg_handle s) w = Some d -> 0 <= i < total_slots_ (seg_base s) ->
  let b := seg_base s in
  (off, n) ∈ [(GetSlotOffset i b, key_size (config_ b));
              (u64 (GetSlotOffset i b + key_size (config_ b)), value_size (config_ b))] ->
  st_read (seg_handle s) n off w = (st, got, w') ->
  world_same w w' /\ (st_quiet w -> st = kOk) /\
  (st = kOk -> got = slice (Z.to_nat off) (Z.to_nat n) d).
Proof.
  cbv zeta. intros [Hi Ho (d' & Hd' & Hlen)] Hd Hr Hin E.
  assert (d' = d) as -> by congruence.
  destruct (slot_bounds _ i Hi Hr) as (Es & Ek & Ev & ? & ? & ? & ? & Eo).
  rewrite Eo, u64_small in Hin by lia.
  assert (0 <= off /\ 0 <= n /\ off + n <= Z.of_nat (length d)) as (? & ? & ?).
  { apply elem_of_cons in Hin as [[= -> ->]|Hin]; [lia|]. apply list_elem_of_singleton in Hin as [= -> ->]. lia. }
  destruct (st_read_spec (seg_handle s) n off w st got w' d) as (Hok & Hf & Hq); [done..|].
  split; [split; [done|]; intros ?; by apply Hq|]. split; [|done]. intros ?. by apply Hq.
Qed.

Lemma read_into_spec s w i off n want st buf w' d :
  seg_ok s w -> st_data (seg_handle s) w = Some d -> 0 <= i < total_slots_ (seg_base s) ->
  let b := seg_base s in
  (off, n) ∈ [(GetSlotOffset i b, key_size (config_ b));
              (u64 (GetSlotOffset i b + key_size (config_ b)), value_size (config_ b))] ->
  read_into want (seg_handle s) n off w = (st, buf, w') ->
  world_same w w' /\ (st_quiet w -> st = kOk) /\
  (st = kOk -> buf = if want then Some (slice (Z.to_nat off) (Z.to_nat n) d) else None).
Proof.
  cbv zeta. intros Hok Hd Hi Hin E. unfold read_into in E. destruct want; [|by simplify_eq].
  destruct (st_read _ _ _ w) as [[st1 got] w1] eqn:Er. simplify_eq.
  destruct (read_part s w i off n st got w' d) as (? & ? & Hg); [done..|].
  split; [done|]. split; [done|]. intros ->. by rewrite Hg.
Qed.

Lemma slot_payload_offsets b d i :
  seg_layout b -> 0 <= i < total_slots_ b ->
  slot_payload b d i =
    (slice (Z.to_nat (GetSlotOffset i b)) (Z.to_nat (key_size (config_ b))) d,
     slice (Z.to_nat (u64 (GetSlotOffset i b + key_size (config_ b)))) (Z.to_nat (value_size (config_ b))) d).
Proof.
  intros Hl Hi. destruct (slot_bounds b i Hl Hi) as (Es & Ek & Ev & ? & ? & ? & ? & Eo).
  rewrite Eo, u64_small by lia. unfold slot_payload. f_equal. f_equal. lia.
Qed.

Lemma seg_map_lookup s w d i :
  st_data (seg_handle s) w = Some d -> 0 <= i < total_slots_ (seg_base s) ->
  seg_map s w !! i =
  if slot_bit (bitmap_ (seg_base s)) i then Some (slot_payload (seg_base s) d i) else None.
Proof. intros Hd Hi. by rewrite (seg_map_data _ _ _ Hd), slot_map_lookup, decide_True. Qed.

Lemma seg_map_range s w i p : seg_map s w !! i = Some p -> 0 <= i < total_slots_ (seg_base s).
Proof.
  unfold seg_map. case_match; [|by rewrite lookup_empty]. rewrite slot_map_lookup. by case_decide.
Qed.

Lemma Read_spec s w i kw vw st k v w' :
  seg_ok s w -> 0 <= i -> Read i kw vw s w = (st, k, v, w') ->
  world_same w w' /\
  match seg_map s w !! i with
  | Some (key, value) =>
      (st_quiet w -> st = kOk) /\
      (st = kOk -> k = (if kw then Some key else None) /\ v = (if vw then Some value else None))
  | None => k = None /\ v = None /\
      st = (if i <? total_slots_ (seg_base s) then kNotFound else kInvalidArgument)
  end.
Proof.
  intros Hok Hi E. pose proof Hok as [Hinv Ho (d & Hd & Hlen)].
  unfold Read in E. rewrite Ho, Z.geb_leb in E. destruct (Z.leb_spec (total_slots_ (seg_base s)) i).
  { simplify_eq. split; [done|]. destruct (seg_map s w' !! i) eqn:Em.
    - apply seg_map_range in Em. lia.
    - by rewrite (proj2 (Z.ltb_ge _ _)). }
  rewrite (seg_map_lookup _ _ d) by (done || lia). rewrite (proj2 (Z.ltb_lt _ _)) by done.
  rewrite IsSlotOccupied_bit in E. cbn [negb] in E.
  destruct (slot_bit _ i) eqn:Eb; cbn [negb] in E; [|by simplify_eq].
  rewrite slot_payload_offsets by (apply Hinv || lia).
  destruct (read_into kw _ _ _ w) as [[st1 k1] w1] eqn:E1.
  apply (read_into_spec s w i _ _ _ _ _ _ d) in E1 as (S1 & Q1 & P1); [|done|done|lia|by left].
  destruct (decide (st1 = kOk)) as [->|Hne].
  2: { replace (status_is_ok st1) with false in E by by destruct st1. simplify_eq/=. tauto. }
  cbn [status_is_ok negb] in E. rewrite P1 in E by done.
  destruct (read_into vw _ _ _ w1) as [[st2 v1] w2] eqn:E2. simplify_eq.
  apply (read_into_spec s w1 i _ _ _ _ _ _ d) in E2 as (S2 & Q2 & P2);
    [|by eapply seg_ok_same|by rewrite (proj1 S1)|lia|by right; left].
  split; [by etrans|]. split; [intros Hq; by apply Q2, S1|]. intros ->. by rewrite P2.
Qed.

(** The successful outcome of [Delete]. *)
Record deleted s w (sid : Z) s' w' : Prop := {
  de_ok : seg_ok s' w';
  de_same : seg_same s s';
  de_frame : seg_frame s w w';
  de_synced : seg_synced s' w';
  de_cursor : append_cursor_ (seg_base s') = append_cursor_ (seg_base s);
  de_used : used_slots_ (seg_base s') = used_slots_ (seg_base s) - 1;
  de_deleted : deleted_slots_ (seg_base s') = deleted_slots_ (seg_base s) + 1;
  de_map : seg_map s' w' = delete sid (seg_map s w);
}.

Lemma Delete_spec s w i st s' w' :
  seg_ok s w -> 0 <= i -> Delete i s w = (st, s', w') ->
  (st_quiet w -> st_quiet w') /\
  match seg_map s w !! i with
  | Some _ => (st = kOk /\ deleted s w i s' w') \/ (st <> kOk /\ s' = s /\ op_failed s w w')
  | None => s' = s /\ w' = w /\
      st = (if i <? total_slots_ (seg_base s) then kNotFound else kInvalidArgument)
  end.
Proof.
  intros Hok Hi E. pose proof Hok as [Hinv Ho (d & Hd & Hlen)].
  unfold Delete in E. rewrite Ho, Z.geb_leb in E. destruct (Z.leb_spec (total_slots_ (seg_base s)) i).
  { simplify_eq. split; [done|]. destruct (seg_map s' w' !! i) eqn:Em.
    - apply seg_map_range in Em. lia.
    - by rewrite (proj2 (Z.ltb_ge _ _)). }
  rewrite (seg_map_lookup _ _ d) by (done || lia). rewrite (proj2 (Z.ltb_lt _ _)) by done.
  rewrite IsSlotOccupied_bit in E. cbn [negb] in E.
  destruct (slot_bit _ i) eqn:Eb; cbn [negb] in E; [|by simplify_eq].
  set (s1 := set_base (ClearSlotBit i (seg_base s)) s) in *.
  destruct (FlushBitmap s1 w) as [st1 w1] eqn:E1.
  apply (FlushBitmap_spec _ _ _ _ d) in E1 as (d1 & Hw & Hp & Hsync);
    [|apply ClearSlotBit_layout, Hinv|done|done].
  destruct (decide (st1 = kOk)) as [->|Hne].
  2: { replace (status_is_ok st1) with false in E by by destruct st1. cbn [negb] in E.
       assert (SetSlotBit i (seg_base s1) = seg_base s) as Ecl by (apply Set_Clear; [apply Hinv|lia|done]).
       rewrite Ecl in E. assert (set_base (seg_base s) s1 = s) as Es by (by destruct s).
       rewrite Es in E. simplify_eq.
       assert (op_failed s' w w') as F by (eapply wrote_failed; eauto).
       split; [intros Hq; by destruct (of_quiet _ _ _ F)|]. right. done. }
  cbn [status_is_ok negb] in E. split; [intros Hq; simplify_eq; by apply Hw|]. left.
  destruct (commit_delete_inv (seg_base s) i Hinv) as (Hi' & Hsl & Ec & Eu & Ed & Hbits); [lia|done|].
  change (UpdateState _) with (commit_delete (ClearSlotBit i (seg_base s))) in E.
  set (b' := commit_delete _) in *.
  simplify_eq. split; [done|]. split; try done.
  - by eapply (seg_ok_wrote s).
  - exact (wr_frame _ _ _ _ _ _ Hw).
  - destruct (Hsync eq_refl) as (d0 & Hd0 & Es). exists d0. split; [done|].
    unfold b', commit_delete. by rewrite UpdateState_eq.
  - rewrite (seg_map_data s _ _ Hd), (seg_map_data (set_base b' s1) w' d1 (wr_data _ _ _ _ _ _ Hw)).
    cbn [seg_base set_base]. apply map_eq. intros j. rewrite slot_map_lookup.
    rewrite (proj1 (proj2 (proj2 Hsl))).
    destruct (decide (j = i)) as [->|Hne].
    + rewrite lookup_delete_eq. case_decide; [|done]. by rewrite Hbits, decide_True by lia.
    + rewrite lookup_delete_ne, slot_map_lookup by done. case_decide; [|done].
      rewrite Hbits, decide_False by (lia || done). case_match; [|done]. f_equal.
      etrans; [|by apply (Hp j)]. by apply (payload_same_layout (seg_base s)).
Qed.

(** ** Batches *)

(** Entry [j] of the packed key and value arrays. *)
Definition batch_item b (keys values : list Z) (j : Z) : list Z * list Z :=
  (slice (Z.to_nat j * key_bytes b) (key_bytes b) keys,
   slice (Z.to_nat j * value_bytes b) (value_bytes b) values).

Lemma batch_payloads_spec n i keys values s w st sids w' d :
  let b := seg_base s in
  let c := append_cursor_ b in
  seg_inv b -> st_data (seg_handle s) w = Some d ->
  segment_size (config_ b) <= Z.of_nat (length d) ->
  0 <= i -> c + i + Z.of_nat n <= total_slots_ b ->
  (i + Z.of_nat n) * Z.of_nat (key_bytes b) <= Z.of_nat (length keys) ->
  (i + Z.of_nat n) * Z.of_nat (value_bytes b) <= Z.of_nat (length values) ->
  batch_payloads n i keys values s w = (st, sids, w') ->
  exists d', wrote (seg_handle s) st w w' d d' /\
    (forall j, 0 <= j < c + i -> slot_payload b d' j = slot_payload b d j) /\
    (st = kOk -> sids = seqZ (c + i) (Z.of_nat n) /\
       forall j, i <= j < i + Z.of_nat n -> slot_payload b d' (c + j) = batch_item b keys values j).
Proof.
  cbv zeta. revert i w d st sids.
  induction n as [|n IH]; intros i w d st sids Hi Hd Hlen Hi0 Hle Hk Hv E; cbn [batch_payloads] in E.
  { simplify_eq. exists d. split; [by split|]. split; [done|]. intros _. split; [done|lia]. }
  pose proof (si_cursor _ Hi). pose proof (seg_total_bounds _ Hi).
  rewrite u32_small in E by lia. set (sid := append_cursor_ (seg_base s) + i) in *.
  destruct (write_slot s sid _ _ w) as [st1 w1] eqn:E1.
  apply (write_slot_spec _ _ _ _ _ _ _ d) in E1 as (d1 & Hw1 & Hp1 & Hp1');
    [|apply Hi|done|done|lia|rewrite length_slice; nia|rewrite length_slice; nia].
  destruct (decide (st1 = kOk)) as [->|Hne].
  2: { replace (status_is_ok st1) with false in E by by destruct st1. simplify_eq/=.
       exists d1. split; [done|]. split; [|done]. intros j Hj. apply Hp1; lia. }
  cbn [status_is_ok negb] in E. destruct (batch_payloads n _ _ _ _ _) as [[st2 sids2] w2] eqn:E2.
  simplify_eq. apply (IH _ _ d1) in E2 as (d2 & Hw2 & Hp2 & Hok2);
    [|done|apply Hw1|by rewrite (wr_len _ _ _ _ _ _ Hw1)|lia..].
  exists d2. split; [by eapply wrote_trans|]. split.
  { intros j Hj. rewrite Hp2, Hp1 by lia. done. }
  intros ->. destruct (Hok2 eq_refl) as [-> Hit]. split.
  - rewrite (seqZ_cons (append_cursor_ (seg_base s) + i)) by lia. fold sid. do 2 f_equal; lia.
  - intros j Hj. destruct (decide (j = i)) as [->|].
    + rewrite Hp2 by lia. by apply Hp1'.
    + apply Hit. lia.
Qed.

(** The outcomes of [BatchInsert] on well-formed arguments.  In the last case
    the bitmap write failed: the bits stay set in memory while the counters do
    not move. *)
Lemma BatchInsert_spec s keys values count w st sids s' w' :
  let b := seg_base s in
  let c := append_cursor_ b in
  seg_ok s w -> 0 < count ->
  count * Z.of_nat (key_bytes b) <= Z.of_nat (length keys) ->
  count * Z.of_nat (value_bytes b) <= Z.of_nat (length values) ->
  BatchInsert (Some keys) (Some values) count true s w = (st, sids, s', w') ->
  (st = kOk /\ c + count <= total_slots_ b /\ sids = seqZ c count /\
   seg_ok s' w' /\ seg_same s s' /\ seg_frame s w w' /\ seg_synced s' w' /\
   (st_quiet w -> st_quiet w') /\
   append_cursor_ (seg_base s') = c + count /\
   used_slots_ (seg_base s') = used_slots_ b + count /\
   forall i, seg_map s' w' !! i =
     if decide (c <= i < c + count) then Some (batch_item b keys values (i - c))
     else seg_map s w !! i) \/
  (st = kFull /\ total_slots_ b < c + count /\ sids = [] /\ s' = s /\ w' = w) \/
  (st <> kOk /\ s' = s /\ op_failed s w w') \/
  (st <> kOk /\ ~ st_quiet w /\ s' = set_base (SetSlotBits (seqZ c count) b) s /\ seg_frame s w w').
Proof.
  cbv zeta. intros Hok Hc Hk Hv E. pose proof Hok as [Hi Ho (d & Hd & Hlen)].
  pose proof (si_cursor _ Hi). pose proof (seg_total_bounds _ Hi).
  unfold BatchInsert in E. rewrite Ho, (proj2 (Z.eqb_neq _ _)), (u32_small (_ - _)) in E by lia.
  cbn [negb] in E. rewrite Z.gtb_ltb in E.
  destruct (Z.ltb_spec (total_slots_ (seg_base s) - append_cursor_ (seg_base s)) count).
  { simplify_eq. right. left. split; [done|]. split; [lia|done]. }
  destruct (batch_payloads _ _ _ _ _ _) as [[st1 sids1] w1] eqn:E1.
  apply (batch_payloads_spec _ _ _ _ _ _ _ _ _ d) in E1 as (d1 & Hw1 & Hp1 & Hok1);
    [|done|done|done|lia..].
  rewrite Z2Nat.id, Z.add_0_r, Z.add_0_l in * by lia.
  assert (forall i, 0 <= i < total_slots_ (seg_base s) -> slot_bit (bitmap_ (seg_base s)) i = true ->
    0 <= i < append_cursor_ (seg_base s)) as Hocc.
  { intros i ? Hb. pose proof (seg_inv_occupied _ _ Hi ltac:(done) Hb). lia. }
  destruct (decide (st1 = kOk)) as [->|Hst1].
  2: { replace (status_is_ok st1) with false in E by by destruct st1. simplify_eq/=.
       right. right. left. split; [done|]. split; [done|]. eapply wrote_failed; eauto. }
  cbn [status_is_ok negb] in E. destruct (Hok1 eq_refl) as [-> Hit].
  set (c := append_cursor_ (seg_base s)) in *. set (b1 := SetSlotBits (seqZ c count) (seg_base s)) in *.
  destruct (SetSlotBits_spec (seqZ c count) (seg_base s)) as (Hs1 & Hl1 & _ & _ & _ & _ & Hb1).
  assert (seg_layout b1) as Hlay.
  { destruct Hs1 as (? & ? & ? & ? & ? & ?). apply (seg_layout_eq (seg_base s)); try done;
      [apply Hi|apply Hb1, Hi]. }
  destruct (FlushBitmap _ w1) as [st2 w2] eqn:E2.
  apply (FlushBitmap_spec (set_base b1 s) _ _ _ d1) in E2 as (d2 & Hw2 & Hp2 & Hsync);
    [|done|apply Hw1|rewrite (wr_len _ _ _ _ _ _ Hw1); cbn [seg_base set_base];
      by rewrite (proj1 (proj2 Hs1) : config_ b1 = _)].
  pose proof (wrote_trans _ _ _ _ _ _ _ _ _ Hw1 Hw2) as Hw.
  destruct (decide (st2 = kOk)) as [->|Hst2].
  2: { replace (status_is_ok st2) with false in E by by destruct st2. simplify_eq/=.
       right. right. right. split; [done|]. split; [|split; [done|exact (wr_frame _ _ _ _ _ _ Hw)]].
       intros Hq. by destruct (wr_quiet _ _ _ _ _ _ Hw Hq). }
  left. cbn [status_is_ok negb] in E.
  destruct (commit_insert_inv (seg_base s) count Hi) as (Hi' & Hsl & Ec & Eu & Ed & _); [lia..|].
  fold c b1 in Hi', Hsl, Ec, Eu, Ed. change (UpdateState _) with (commit_insert count b1) in E. simplify_eq.
  split; [done|]. split; [lia|]. split; [done|]. split; [by eapply (seg_ok_wrote s)|]. split; [done|].
  split; [exact (wr_frame _ _ _ _ _ _ Hw)|]. split; [by apply commit_insert_synced, Hsync|].
  split; [by intros ?; apply Hw|]. split; [done|]. split; [done|].
  assert (forall i, 0 <= i < total_slots_ (seg_base s) ->
    slot_payload (seg_base s) d2 i = slot_payload (seg_base s) d1 i) as Hp2'.
  { intros i Hr. cbn in Hp2. rewrite (proj1 (proj2 (proj2 Hs1)) : total_slots_ b1 = _) in Hp2.
    specialize (Hp2 i Hr). by rewrite !(payload_same_layout (seg_base s) b1) in Hp2. }
  intros i. rewrite (seg_map_data s _ _ Hd).
  rewrite (seg_map_data (set_base (commit_insert count b1) (set_base b1 s)) w' d2 (wr_data _ _ _ _ _ _ Hw)).
  etrans; [apply (slot_map_commit _ count d); [done|lia..|]|].
  - intros j Hj. rewrite Hp2', Hp1 by lia. done.
  - fold c. destruct (decide (c <= i < c + count)); [|done]. rewrite Hp2', <- Hit by lia. do 2 f_equal. lia.
Qed.

(** ** Compaction *)

(** The occupied slots among [slots], with their payloads, in order. *)
Definition live_slots (m : gmap Z (list Z * list Z)) (slots : list Z)
    : list (Z * (list Z * list Z)) :=
  omap (fun i => pair i <$> m !! i) slots.

(** Placing payloads in consecutive slots from [c] on. *)
Fixpoint place (c : Z) (ms : list (Z * (list Z * list Z))) (m : gmap Z (list Z * list Z))
    : gmap Z (list Z * list Z) :=
  match ms with
  | [] => m
  | (_, p) :: ms => place (c + 1) ms (<[c := p]> m)
  end.

(** The callbacks for these moves, in order. *)
Fixpoint run_moves {X} (cb : option (SlotMoveCallback X)) (src tgt c : Z)
    (ms : list (Z * (list Z * list Z))) (x : X) : X :=
  match ms with
  | [] => x
  | (i, p) :: ms =>
      run_moves cb src tgt (c + 1) ms
        (match cb with Some f => f p.1 src i tgt c x | None => x end)
  end.

Lemma place_old c ms m i : i < c -> place c ms m !! i = m !! i.
Proof.
  revert c m. induction ms as [|[j p] ms IH]; intros c m Hi; [done|]. cbn.
  rewrite IH by lia. apply lookup_insert_ne. lia.
Qed.

Lemma place_lookup c ms m i :
  place c ms m !! i =
  if decide (c <= i < c + Z.of_nat (length ms)) then snd <$> ms !! Z.to_nat (i - c) else m !! i.
Proof.
  revert c m. induction ms as [|[j p] ms IH]; intros c m; cbn [place length].
  { rewrite decide_False by lia. done. }
  rewrite IH. destruct (decide (i = c)) as [->|].
  - rewrite decide_False, decide_True, Z.sub_diag, lookup_insert_eq by lia. done.
  - rewrite lookup_insert_ne by lia. destruct (decide (c <= i < c + Z.of_nat (S (length ms)))).
    + rewrite decide_True by lia. replace (Z.to_nat (i - c)) with (S (Z.to_nat (i - (c + 1)))) by lia. done.
    + rewrite decide_False by lia. done.
Qed.

(** The state after moving [ms] from [s] to [t]. *)
Record moved s t w (ms : list (Z * (list Z * list Z))) t' w' : Prop := {
  mv_src : seg_ok s w' /\ seg_map s w' = seg_map s w;
  mv_ok : seg_ok t' w';
  mv_same : seg_same t t';
  mv_frame : forall h', st_sep (seg_handle s) h' -> st_sep (seg_handle t) h' ->
    st_data h' w' = st_data h' w;
  mv_cursor : append_cursor_ (seg_base t') = append_cursor_ (seg_base t) + Z.of_nat (length ms);
  mv_used : used_slots_ (seg_base t') = used_slots_ (seg_base t) + Z.of_nat (length ms);
  mv_deleted : deleted_slots_ (seg_base t') = deleted_slots_ (seg_base t);
  mv_map : seg_map t' w' = place (append_cursor_ (seg_base t)) ms (seg_map t w);
}.

Lemma moved_refl s t w w' :
  seg_ok s w -> seg_ok t w -> world_same w w' -> moved s t w [] t w'.
Proof.
  intros Hs Ht Hw. split; try done; try by rewrite ?Z.add_0_r.
  - split; [by eapply seg_ok_same|by apply seg_map_same].
  - by eapply seg_ok_same.
  - intros h' _ _. apply Hw.
  - by apply seg_map_same.
Qed.

Lemma op_failed_moved s t w w1 w' :
  seg_ok s w -> seg_ok t w -> st_sep (seg_handle t) (seg_handle s) -> world_same w w1 ->
  op_failed t w1 w' -> moved s t w [] t w'.
Proof.
  intros Hs Ht Hsep [Hw Hq] [Hok Hf Hm _]. specialize (Hf _ Hsep) as Hfs.
  rewrite Hw in Hfs. split; try done; try by rewrite ?Z.add_0_r.
  - split; [|unfold seg_map; by rewrite Hfs]. destruct Hs. split; try done. by rewrite Hfs.
  - intros h' _ Hh. by rewrite (Hf _ Hh), Hw.
  - rewrite Hm. by apply seg_map_same.
Qed.

Lemma moved_cons s t w w1 i p sid t1 w2 ms t' w' :
  seg_ok s w -> seg_ok t w -> st_sep (seg_handle t) (seg_handle s) -> world_same w w1 ->
  inserted t w1 p.1 p.2 sid t1 w2 -> moved s t1 w2 ms t' w' -> moved s t w ((i, p) :: ms) t' w'.
Proof.
  intros Hs Ht Hsep [Hw Hq] [Hok Hsame Hf [-> Hlt] _ Hc Hu Hd _ Hm] [[Hso Hsm] Ho' Hsame' Hf' Hc' Hu' Hd' Hm'].
  specialize (Hf _ Hsep) as Hfs. destruct Hsame as (Eh & Eo & El).
  split; cbn [length]; try done; try lia.
  - split; [done|]. rewrite Hsm. unfold seg_map. by rewrite Hfs, Hw.
  - etrans; [|exact Hsame']. done.
  - intros h' H1' H2'. rewrite Hf', (Hf _ H2'), Hw; [done|done|by rewrite Eh].
  - rewrite Hm', Hm, Hc. cbn [place]. f_equal. rewrite <- surjective_pairing. f_equal.
    by apply seg_map_same.
Qed.

Lemma seg_ok_frame s w w' :
  st_data (seg_handle s) w' = st_data (seg_handle s) w -> seg_ok s w -> seg_ok s w'.
Proof. intros E [? ? Hd]. split; [done..|]. by rewrite E. Qed.

Lemma seg_map_frame s w w' :
  st_data (seg_handle s) w' = st_data (seg_handle s) w -> seg_map s w' = seg_map s w.
Proof. unfold seg_map. by intros ->. Qed.

(** Source and target hold slots of the same shape in disjoint ranges. *)
Definition compactible s t : Prop :=
  st_sep (seg_handle t) (seg_handle s) /\ key_bytes (seg_base t) = key_bytes (seg_base s) /\
  value_bytes (seg_base t) = value_bytes (seg_base s).

Lemma compactible_same s t t' : compactible s t -> seg_same t t' -> compactible s t'.
Proof.
  intros (? & Ek & Ev) (Eh & _ & (_ & Ec & _)). unfold compactible, key_bytes, value_bytes in *.
  by rewrite Eh, Ec.
Qed.

Lemma slot_payload_length b d i :
  seg_layout b -> segment_size (config_ b) <= Z.of_nat (length d) -> 0 <= i < total_slots_ b ->
  length (slot_payload b d i).1 = key_bytes b /\ length (slot_payload b d i).2 = value_bytes b.
Proof.
  intros Hl Hd Hi. destruct (slot_bounds b i Hl Hi) as (E & _ & _ & ? & ? & ? & ? & _).
  unfold slot_payload. cbn. rewrite !length_slice. lia.
Qed.

Lemma read_slot_spec s w i st k v w' d :
  seg_ok s w -> st_data (seg_handle s) w = Some d -> 0 <= i < total_slots_ (seg_base s) ->
  read_slot s i w = (st, k, v, w') ->
  world_same w w' /\ (st_quiet w -> st = kOk) /\
  (st = kOk -> (k, v) = slot_payload (seg_base s) d i).
Proof.
  intros Hs Hd Hi E. unfold read_slot in E. rewrite slot_payload_offsets by (apply Hs || done).
  destruct (st_read _ _ _ w) as [[st1 k1] w1] eqn:E1.
  apply (read_part s w i _ _ _ _ _ d) in E1 as (S1 & Q1 & P1); [|done|done|done|by left].
  destruct (decide (st1 = kOk)) as [->|Hne].
  2: { replace (status_is_ok st1) with false in E by by destruct st1. simplify_eq/=. done. }
  cbn [status_is_ok negb] in E. destruct (st_read _ _ _ w1) as [[st2 v2] w2] eqn:E2. simplify_eq.
  apply (read_part s w1 i _ _ _ _ _ d) in E2 as (S2 & Q2 & P2);
    [|by eapply seg_ok_same|by rewrite (proj1 S1)|done|by right; left].
  split; [by etrans|]. split; [intros; by apply Q2, S1|]. intros ->. by rewrite P1, P2.
Qed.

(** A target insert that did not succeed moves nothing. *)
Lemma Insert_moved s t w w1 k v st out t1 w' :
  seg_ok s w -> seg_ok t w -> st_sep (seg_handle t) (seg_handle s) -> world_same w w1 ->
  length k = key_bytes (seg_base t) -> length v = value_bytes (seg_base t) ->
  Insert (Some k) (Some v) true t w1 = (st, out, t1, w') ->
  (st_quiet w1 -> st_quiet w') /\
  ((exists sid, st = kOk /\ out = Some sid /\ inserted t w1 k v sid t1 w') \/
   (st <> kOk /\ t1 = t /\ moved s t w [] t w' /\
    (st_quiet w1 -> st = kFull /\ append_cursor_ (seg_base t) = total_slots_ (seg_base t)))).
Proof.
  intros Hs Ht Hsep Hw Hk Hv E.
  apply Insert_spec in E as (Hq & Hout); [|by eapply seg_ok_same|done..]. split; [done|].
  destruct Hout as [?|[(-> & ? & _ & -> & ->)|(? & _ & -> & Hof)]]; [by left|right|right].
  - split; [done|]. split; [done|]. split; [by apply moved_refl|done].
  - split; [done|]. split; [done|]. split; [by eapply op_failed_moved|].
    intros Hq'. by destruct (of_quiet _ _ _ Hof).
Qed.

Lemma compact_loop_spec {X} (cb : option (SlotMoveCallback X)) slots s t w x st t' w' x' :
  seg_ok s w -> seg_ok t w -> compactible s t ->
  Forall (fun i => 0 <= i < total_slots_ (seg_base s)) slots ->
  compact_loop cb slots s t w x = (st, t', w', x') ->
  exists ms, ms `prefix_of` live_slots (seg_map s w) slots /\ moved s t w ms t' w' /\
    x' = run_moves cb (GetSegmentId s) (GetSegmentId t) (append_cursor_ (seg_base t)) ms x /\
    (st = kOk -> ms = live_slots (seg_map s w) slots) /\
    (st_quiet w -> st_quiet w' /\ (st = kOk \/
       st = kFull /\ append_cursor_ (seg_base t') = total_slots_ (seg_base t') /\
       (length ms < length (live_slots (seg_map s w) slots))%nat)).
Proof.
  revert t w x. induction slots as [|i slots IH]; intros t w x Hs Ht Hc Hf E; cbn [compact_loop] in E.
  { simplify_eq. exists []. split; [done|]. split; [by apply moved_refl|]. split; [done|]. split; [done|]. auto. }
  apply Forall_cons in Hf as [Hi Hf]. pose proof Hs as [Hinv Ho (d & Hd & Hlen)].
  destruct Hc as (Hsep & Ek & Ev).
  rewrite IsSlotOccupied_bit in E. cbn [live_slots omap list_omap]. fold (live_slots (seg_map s w) slots).
  rewrite (seg_map_lookup _ _ d) by done.
  destruct (slot_bit _ i) eqn:Eb; cbn [negb fmap option_fmap option_map] in *; [|by apply (IH t w x)].
  destruct (slot_payload_length _ d i (si_layout _ Hinv) Hlen Hi) as [Lk Lv].
  set (pl := slot_payload (seg_base s) d i) in *.
  destruct (read_slot s i w) as [[[st1 k] v] w1] eqn:E1.
  apply (read_slot_spec _ _ _ _ _ _ _ d) in E1 as (S1 & Q1 & P1); [|done..].
  destruct (decide (st1 = kOk)) as [->|Hne].
  2: { replace (status_is_ok st1) with false in E by by destruct st1. simplify_eq/=. exists [].
       split; [apply prefix_nil|]. split; [by apply moved_refl|]. split; [done|]. split; [done|].
       intros Hq. by destruct Hne; auto. }
  cbn [status_is_ok negb] in E. specialize (P1 eq_refl). fold pl in P1.
  replace k with pl.1 in * by by rewrite <- P1. replace v with pl.2 in * by by rewrite <- P1.
  destruct (Insert _ _ _ t w1) as [[[st3 out] t1] w3] eqn:E3.
  apply (Insert_moved s t w) in E3 as (Hq3 & Hout); [|done|done|done|done|congruence|congruence].
  destruct Hout as [(sid & -> & -> & Hins)|(Hne & -> & Hm & Hqf)].
  2: { replace (status_is_ok st3) with false in E by by destruct st3. simplify_eq/=. exists [].
       split; [apply prefix_nil|]. split; [done|]. split; [done|]. split; [done|].
       intros Hq. destruct Hqf as [-> ?]; [by apply S1|]. split; [apply Hq3, S1, Hq|]. right.
       split; [done|]. split; [done|]. cbn. lia. }
  cbn [status_is_ok negb default] in E.
  pose proof (in_frame _ _ _ _ _ _ _ Hins _ Hsep) as Efs. rewrite (proj1 S1) in Efs.
  destruct (in_sid _ _ _ _ _ _ _ Hins) as [-> _].
  apply IH in E as (ms & Hpre & Hmv & -> & Hall & Hqq); [..|done];
    [|by eapply seg_ok_frame|apply Hins|eapply compactible_same; [done|apply Hins]].
  rewrite (seg_map_frame s w w3) in Hpre, Hall, Hqq by done.
  exists ((i, pl) :: ms). split; [by apply prefix_cons|].
  split; [by eapply moved_cons|]. split.
  - cbn [run_moves]. rewrite (in_cursor _ _ _ _ _ _ _ Hins). unfold GetSegmentId.
    by rewrite (proj1 (proj2 (proj2 (in_same _ _ _ _ _ _ _ Hins)))).
  - split; [intros ->; by rewrite Hall|]. intros Hq. destruct Hqq as [? Hst]; [by apply Hq3, S1|].
    split; [done|]. destruct Hst as [?|(? & ? & ?)]; [by left|right]. split; [done|]. split; [done|]. cbn. lia.
Qed.

Lemma live_slots_elem m slots i p :
  (i, p) ∈ live_slots m slots <-> i ∈ slots /\ m !! i = Some p.
Proof.
  unfold live_slots. rewrite list_elem_of_omap. split.
  - intros (j & Hj & E). destruct (m !! j) eqn:Em; [|done]. cbn in E. by simplify_eq.
  - intros [Hi E]. exists i. by rewrite E.
Qed.

(** Every occupied slot is below the cursor, so compaction sees all of them. *)
Lemma live_slots_all s w i p :
  seg_ok s w ->
  (i, p) ∈ live_slots (seg_map s w) (seqZ 0 (append_cursor_ (seg_base s))) <->
  seg_map s w !! i = Some p.
Proof.
  intros [Hi Ho (d & Hd & _)]. rewrite live_slots_elem, elem_of_seqZ. split; [tauto|]. intros E.
  split; [|done]. pose proof (seg_map_range _ _ _ _ E) as Hr. rewrite (seg_map_lookup _ _ d) in E by done.
  destruct (slot_bit _ i) eqn:Eb; [|done]. pose proof (seg_inv_occupied _ _ Hi Hr Eb). lia.
Qed.

Lemma seg_map_reset s w :
  seg_layout (seg_base s) -> seg_map (set_base (ResetBitmap (seg_base s)) s) w = ∅.
Proof.
  intros Hl. unfold seg_map. cbn [seg_handle set_base]. case_match; [|done].
  apply map_eq. intros i. rewrite slot_map_lookup, lookup_empty.
  case_decide; [|done]. destruct (ResetBitmap_inv _ Hl) as (_ & _ & _ & _ & Hb). cbn [seg_base].
  by rewrite Hb.
Qed.

(** The effect of [Compact]: a prefix of the occupied slots moved, in order,
    with one callback each; if it got through all of them, the source is
    emptied. *)
Record compacted s t w (ms : list (Z * (list Z * list Z))) s' t' w' : Prop := {
  cp_src : seg_ok s' w';
  cp_src_same : seg_same s s';
  cp_tgt : seg_ok t' w';
  cp_tgt_same : seg_same t t';
  cp_frame : forall h', st_sep (seg_handle s) h' -> st_sep (seg_handle t) h' ->
    st_data h' w' = st_data h' w;
  cp_cursor : append_cursor_ (seg_base t') = append_cursor_ (seg_base t) + Z.of_nat (length ms);
  cp_map : seg_map t' w' = place (append_cursor_ (seg_base t)) ms (seg_map t w);
}.

Lemma Compact_spec {X} (cb : option (SlotMoveCallback X)) s t w x st s' ot w' x' :
  seg_ok s w -> seg_ok t w -> compactible s t ->
  Compact (Some t) cb s w x = (st, s', ot, w', x') ->
  let live := live_slots (seg_map s w) (seqZ 0 (append_cursor_ (seg_base s))) in
  exists t' ms, ot = Some t' /\ ms `prefix_of` live /\ compacted s t w ms s' t' w' /\
    x' = run_moves cb (GetSegmentId s) (GetSegmentId t) (append_cursor_ (seg_base t)) ms x /\
    ((st <> kOk /\ s' = s /\ seg_map s' w' = seg_map s w) \/
     (ms = live /\ seg_base s' = ResetBitmap (seg_base s) /\ seg_map s' w' = ∅)) /\
    (st = kOk -> ms = live /\ seg_base s' = ResetBitmap (seg_base s) /\ seg_synced s' w') /\
    (st_quiet w -> st_quiet w' /\ (st = kOk \/
       st = kFull /\ append_cursor_ (seg_base t') = total_slots_ (seg_base t') /\ (length ms < length live)%nat)).
Proof.
  intros Hs Ht Hc E. cbv zeta. pose proof Hs as [Hinv Ho _].
  unfold Compact in E. rewrite Ho in E. cbn [negb] in E.
  destruct (compact_loop _ _ _ _ _ _) as [[[st1 t1] w1] x1] eqn:E1.
  apply compact_loop_spec in E1 as (ms & Hpre & Hmv & -> & Hall & Hq); [|done..|].
  2: { apply Forall_forall. intros j Hj%elem_of_seqZ. pose proof (si_cursor _ Hinv). lia. }
  destruct (decide (st1 = kOk)) as [->|Hne].
  2: { replace (status_is_ok st1) with false in E by by destruct st1. simplify_eq/=. exists t1, ms.
       split; [done|]. split; [done|]. split; [by destruct Hmv as [[] ? ? ? ? ? ? ?]|]. split; [done|].
       split; [|done]. left. split; [done|]. split; [done|]. apply Hmv. }
  cbn [status_is_ok negb] in E. rewrite (Hall eq_refl) in *. clear Hall Hpre.
  set (live := live_slots _ _) in *.
  destruct (mv_src _ _ _ _ _ _ Hmv) as [Hs1 Hm1]. pose proof Hs1 as [_ _ (d & Hd & Hlen)].
  destruct (ResetBitmap_inv _ (si_layout _ Hinv)) as (Hri & Hrs & _ & _ & _).
  destruct (FlushBitmap _ w1) as [st2 w2] eqn:E2. simplify_eq.
  apply (FlushBitmap_spec _ _ _ _ d) in E2 as (d2 & Hw2 & _ & Hsync); [|apply Hri|done|done].
  set (s' := set_base (ResetBitmap (seg_base s)) s) in *.
  assert (st_data (seg_handle t1) w' = st_data (seg_handle t1) w1) as Eft.
  { apply (wr_frame _ _ _ _ _ _ Hw2), st_sep_sym. rewrite (proj1 (mv_same _ _ _ _ _ _ Hmv)). apply Hc. }
  exists t1, live. split; [done|]. split; [done|]. split; [|split; [done|]].
  - split; try apply Hmv; try done.
    + by eapply (seg_ok_wrote s).
    + eapply seg_ok_frame; [done|apply Hmv].
    + intros h' H1' H2'. rewrite (wr_frame _ _ _ _ _ _ Hw2) by done. by apply Hmv.
    + rewrite (seg_map_frame _ _ _ Eft). apply Hmv.
  - split; [right; split; [done|]; split; [done|]; apply seg_map_reset, Hinv|].
    split; [intros ->; split; [done|]; split; [done|]; by apply Hsync|].
    intros Hqw. destruct (wr_quiet _ _ _ _ _ _ Hw2) as [-> ?]; [by apply Hq|]. auto.
Qed.

(** ** Loading a segment from its bytes *)

(** The bookkeeping [Open] builds from the bytes of an existing file. *)
Definition loaded_base (id : Z) (c : SegmentConfig) (d : list Z) : SegmentBase :=
  let b := SegmentBase_new id c in
  RebuildCounters (set_bitmap (slice 0 (Z.to_nat (bitmap_size_ b)) d) b).

(** The bytes of the bitmap area. *)
Definition disk_bitmap (c : SegmentConfig) (d : list Z) : list Z :=
  slice 0 (Z.to_nat (lay_bitmap_size (CalculateLayout c))) d.

Lemma loaded_layout id c d :
  config_ok c -> bytes_ok (disk_bitmap c d) -> segment_size c <= Z.of_nat (length d) ->
  let b := SegmentBase_new id c in
  seg_layout (set_bitmap (slice 0 (Z.to_nat (bitmap_size_ b)) d) b).
Proof.
  intros Hc Hb Hl. pose proof (SegmentBase_new_inv id c Hc) as Hi.
  destruct (bitmap_bound _ (si_layout _ Hi)) as [? _]. pose proof (sl_blen _ (si_layout _ Hi)).
  change (config_ (SegmentBase_new id c)) with c in *.
  apply (seg_layout_eq (SegmentBase_new id c)); try done; [apply Hi|].
  cbn [bitmap_ set_bitmap]. rewrite length_slice. lia.
Qed.

(** What a segment loaded from bytes [d] stores. *)
Lemma loaded_slot_map id d b :
  seg_layout b -> bytes_ok (disk_bitmap (config_ b) d) -> segment_size (config_ b) <= Z.of_nat (length d) ->
  slot_map (loaded_base id (config_ b) d) d = slot_map (set_bitmap (disk_bitmap (config_ b) d) b) d.
Proof.
  intros Hl Hb Hd. destruct (loaded_layout id _ d (sl_config _ Hl) Hb Hd) as [_ Es' Et' Eb' Ed' _ _].
  destruct (RebuildCounters_inv _ (loaded_layout id _ d (sl_config _ Hl) Hb Hd)) as (_ & Hsame & Ebm & _).
  destruct Hsame as (_ & Sc & St & Ss & _ & Sd). destruct Hl as [_ Es Et Ebs Ed _ _].
  apply map_eq. intros i. rewrite !slot_map_lookup. unfold loaded_base. cbv zeta.
  rewrite St, Ebm. cbn [total_slots_ bitmap_ set_bitmap SegmentBase_new]. rewrite Et.
  unfold slot_payload, key_bytes, value_bytes. rewrite Sc, Ss, Sd.
  cbn [config_ slot_size_ slot_data_offset_ set_bitmap SegmentBase_new]. by rewrite Es, Ed.
Qed.

Lemma slot_map_extend b (t ext : list Z) :
  seg_layout b -> segment_size (config_ b) <= Z.of_nat (length t) ->
  slot_map b (t ++ ext) = slot_map b t.
Proof.
  intros Hl Hd. apply slot_map_ext; [done|done|]. intros i Hi _.
  destruct (slot_bounds b i Hl Hi) as (E & _ & _ & ? & ? & ? & ? & _).
  assert (forall o n, (o + n <= length t)%nat -> slice o n (t ++ ext) = slice o n t) as Hsl.
  { intros o n Hon. unfold slice. rewrite drop_app_le by lia. apply take_app_le. len. }
  unfold slot_payload. rewrite !Hsl by lia. done.
Qed.

Lemma set_bitmap_same b : set_bitmap (bitmap_ b) b = b.
Proof. by destruct b. Qed.

(** A clear bitmap loads as a new segment. *)
Lemma loaded_zero id c d :
  config_ok c -> disk_bitmap c d = replicate (Z.to_nat (lay_bitmap_size (CalculateLayout c))) 0 ->
  loaded_base id c d = SegmentBase_new id c.
Proof.
  intros Hc E. unfold loaded_base. cbv zeta.
  change (slice 0 _ d) with (disk_bitmap c d). rewrite E.
  change (replicate _ 0) with (bitmap_ (SegmentBase_new id c)). rewrite set_bitmap_same.
  pose proof (SegmentBase_new_inv id c Hc) as Hi. pose proof (seg_total_bounds _ Hi) as [Ht _].
  unfold RebuildCounters. destruct (rebuild_spec (SegmentBase_new id c) _ ltac:(
    split; [apply Ht|etrans; [apply Ht|done]])) as (cur & -> & Hcur & _ & Hlast).
  assert (cur = 0) as ->.
  { destruct (Z.lt_ge_cases 0 cur) as [Hlt|]; [|lia].
    specialize (Hlast Hlt). cbn in Hlast. by rewrite slot_bit_zeros in Hlast. }
  cbn [bitmap_ SegmentBase_new]. rewrite occ_count_zeros. done.
Qed.

(** ** Refinement of an abstract slot table *)

(** The abstract state: a bounded table that hands out slot numbers in
    increasing order. *)
Record SlotTable := mkTable {
  tb_cap : Z;
  tb_next : Z;
  tb_slots : gmap Z (list Z * list Z);
}.

Inductive seg_op :=
  | OpInsert (key value : list Z)
  | OpBatchInsert (keys values : list Z) (count : Z)
  | OpRead (slot : Z)
  | OpDelete (slot : Z).

(** Status, slot numbers handed out, payload read. *)
Definition seg_result : Type := Status * list Z * option (list Z * list Z).

(** Splitting packed arrays into [n] items of [kb] and [vb] bytes. *)
Fixpoint unpack (kb vb n : nat) (keys values : list Z) : list (list Z * list Z) :=
  match n with
  | O => []
  | S n => (take kb keys, take vb values) :: unpack kb vb n (drop kb keys) (drop vb values)
  end.

Definition table_step (kb vb : nat) (o : seg_op) (t : SlotTable) : seg_result * SlotTable :=
  match o with
  | OpInsert k v =>
      if tb_next t <? tb_cap t
      then ((kOk, [tb_next t], None),
            mkTable (tb_cap t) (tb_next t + 1) (<[tb_next t := (k, v)]> (tb_slots t)))
      else ((kFull, [], None), t)
  | OpBatchInsert ks vs n =>
      if n =? 0 then ((kInvalidArgument, [], None), t) else
      if tb_next t + n <=? tb_cap t
      then ((kOk, seqZ (tb_next t) n, None),
            mkTable (tb_cap t) (tb_next t + n)
              (place (tb_next t) (pair 0 <$> unpack kb vb (Z.to_nat n) ks vs) (tb_slots t)))
      else ((kFull, [], None), t)
  | OpRead i =>
      match tb_slots t !! i with
      | Some p => ((kOk, [], Some p), t)
      | None => ((if i <? tb_cap t then kNotFound else kInvalidArgument, [], None), t)
      end
  | OpDelete i =>
      match tb_slots t !! i with
      | Some _ => ((kOk, [], None), mkTable (tb_cap t) (tb_next t) (delete i (tb_slots t)))
      | None => ((if i <? tb_cap t then kNotFound else kInvalidArgument, [], None), t)
      end
  end.

Fixpoint table_run (kb vb : nat) (os : list seg_op) (t : SlotTable) : list seg_result * SlotTable :=
  match os with
  | [] => ([], t)
  | o :: os =>
      let '(r, t) := table_step kb vb o t in
      let '(rs, t) := table_run kb vb os t in
      (r :: rs, t)
  end.

(** The same operations on a segment. *)
Definition seg_step (o : seg_op) (s : Segment H) (w : W) : seg_result * Segment H * W :=
  match o with
  | OpInsert k v =>
      let '(st, out, s, w) := Insert (Some k) (Some v) true s w in
      ((st, option_list out, None), s, w)
  | OpBatchInsert ks vs n =>
      let '(st, sids, s, w) := BatchInsert (Some ks) (Some vs) n true s w in
      ((st, sids, None), s, w)
  | OpRead i =>
      let '(st, k, v, w) := Read i true true s w in
      ((st, [], match k, v with Some k, Some v => Some (k, v) | _, _ => None end), s, w)
  | OpDelete i => let '(st, s, w) := Delete i s w in ((st, [], None), s, w)
  end.

Fixpoint seg_run (os : list seg_op) (s : Segment H) (w : W) : list seg_result * Segment H * W :=
  match os with
  | [] => ([], s, w)
  | o :: os =>
      let '(r, s, w) := seg_step o s w in
      let '(rs, s, w) := seg_run os s w in
      (r :: rs, s, w)
  end.

(** Buffers of the sizes the configuration says, non-negative numbers. *)
Definition op_sized (kb vb : nat) (o : seg_op) : Prop :=
  match o with
  | OpInsert k v => length k = kb /\ length v = vb
  | OpBatchInsert ks vs n => 0 <= n /\ length ks = (Z.to_nat n * kb)%nat /\ length vs = (Z.to_nat n * vb)%nat
  | OpRead i | OpDelete i => 0 <= i
  end.

#[export] Instance op_sized_dec kb vb o : Decision (op_sized kb vb o).
Proof. destruct o; cbn; apply _. Defined.

Definition table_of s w : SlotTable :=
  mkTable (total_slots_ (seg_base s)) (append_cursor_ (seg_base s)) (seg_map s w).

Lemma length_unpack kb vb n ks vs : length (unpack kb vb n ks vs) = n.
Proof. revert ks vs. induction n as [|n IH]; intros; cbn; [done|]. by rewrite IH. Qed.

Lemma unpack_lookup kb vb n ks vs j :
  (j < n)%nat ->
  unpack kb vb n ks vs !! j = Some (slice (j * kb) kb ks, slice (j * vb) vb vs).
Proof.
  revert ks vs j. induction n as [|n IH]; intros ks vs j Hj; [lia|]. destruct j as [|j]; [done|].
  change (unpack kb vb n (drop kb ks) (drop vb vs) !! j =
    Some (slice (S j * kb) kb ks, slice (S j * vb) vb vs)).
  rewrite IH by lia. unfold slice. by rewrite !drop_drop.
Qed.

Lemma place_batch b c n ks vs m i :
  0 <= n ->
  place c (pair 0 <$> unpack (key_bytes b) (value_bytes b) (Z.to_nat n) ks vs) m !! i =
  if decide (c <= i < c + n) then Some (batch_item b ks vs (i - c)) else m !! i.
Proof.
  intros Hn. rewrite place_lookup, length_fmap, length_unpack, Z2Nat.id by done.
  case_decide; [|done]. rewrite list_lookup_fmap, unpack_lookup by lia. done.
Qed.

Lemma seg_step_refines o s w r s' w' :
  let kb := key_bytes (seg_base s) in
  let vb := value_bytes (seg_base s) in
  seg_ok s w -> st_quiet w -> op_sized kb vb o -> seg_step o s w = (r, s', w') ->
  table_step kb vb o (table_of s w) = (r, table_of s' w') /\
  seg_ok s' w' /\ st_quiet w' /\ seg_same s s'.
Proof.
  cbv zeta. intros Hok Hq Hsz E. pose proof (si_cursor _ (so_inv _ _ Hok)) as Hc.
  destruct o as [k v|ks vs n|i|i]; cbn [seg_step table_step table_of tb_next tb_cap tb_slots] in *.
  - destruct (Insert _ _ _ _ _) as [[[st out] s1] w1] eqn:E1. simplify_eq.
    apply Insert_spec in E1 as (Hq' & [(sid & -> & -> & Hin)|[(-> & ? & -> & -> & ->)|(_ & _ & _ & Hof)]]);
      [| | |done|apply Hsz|apply Hsz].
    + destruct Hin as [? Hs _ [-> ?] _ Ec _ _ _ Em]. rewrite (proj2 (Z.ltb_lt _ _)) by done.
      split; [|split; [done|]; split; auto; done]. unfold table_of. by rewrite Ec, Em, (proj1 (proj2 (proj2 (proj2 (proj2 Hs))))).
    + rewrite (proj2 (Z.ltb_ge _ _)) by lia. split; [done|]. by split; [|split].
    + by destruct (of_quiet _ _ _ Hof).
  - destruct Hsz as (Hn & Lk & Lv). destruct (Z.eqb_spec n 0) as [->|].
    { cbn in E. simplify_eq. split; [done|]. by split; [|split]. }
    destruct (BatchInsert _ _ _ _ _ _) as [[[st sids] s1] w1] eqn:E1. simplify_eq.
    apply BatchInsert_spec in E1; [|done|lia|lia|lia].
    destruct E1 as [(-> & ? & -> & ? & Hs & _ & _ & Hq' & Ec & _ & Em)|[(-> & ? & -> & -> & ->)|[(_ & _ & Hof)|(_ & ? & _)]]].
    + rewrite (proj2 (Z.leb_le _ _)) by done. split; [|split; [done|]; split; auto; done]. unfold table_of.
      rewrite Ec, (proj1 (proj2 (proj2 (proj2 (proj2 Hs))))). do 2 f_equal.
      apply map_eq. intros i. by rewrite place_batch, Em.
    + rewrite (proj2 (Z.leb_gt _ _)) by lia. split; [done|]. by split; [|split].
    + by destruct (of_quiet _ _ _ Hof).
    + done.
  - destruct (Read _ _ _ _ _) as [[[st k] v] w1] eqn:E1. simplify_eq.
    apply Read_spec in E1 as (Hw & Hr); [|done..].
    assert (table_of s' w' = table_of s' w) as -> by (unfold table_of; by rewrite (seg_map_same _ _ _ Hw)).
    split; [|split; [by eapply seg_ok_same|]; split; [by apply Hw|done]].
    destruct (seg_map s' w !! i) as [[k0 v0]|] eqn:Em.
    + destruct Hr as [-> Hr]; [|done]. destruct (Hr eq_refl) as [-> ->]. done.
    + destruct Hr as (-> & -> & ->). done.
  - destruct (Delete _ _ _) as [[st s1] w1] eqn:E1. simplify_eq.
    apply Delete_spec in E1 as (Hq' & Hr); [|done..]. destruct (seg_map s w !! i) eqn:Em.
    + destruct Hr as [[-> []]|(_ & _ & Hof)]; [|by destruct (of_quiet _ _ _ Hof)].
      split; [|split; [done|]; split; auto; done]. unfold table_of. 
      by rewrite de_cursor0, de_map0, (proj1 (proj2 (proj2 (proj2 (proj2 de_same0))))).
    + destruct Hr as (-> & -> & ->). split; [done|]. by split; [|split].
Qed.

Lemma seg_same_bytes s s' :
  seg_same s s' -> key_bytes (seg_base s') = key_bytes (seg_base s) /\
                   value_bytes (seg_base s') = value_bytes (seg_base s).
Proof. intros (_ & _ & (_ & E & _)). unfold key_bytes, value_bytes. by rewrite E. Qed.

Lemma seg_run_refines os s w rs s' w' :
  let kb := key_bytes (seg_base s) in
  let vb := value_bytes (seg_base s) in
  seg_ok s w -> st_quiet w -> Forall (op_sized kb vb) os -> seg_run os s w = (rs, s', w') ->
  table_run kb vb os (table_of s w) = (rs, table_of s' w') /\
  seg_ok s' w' /\ st_quiet w' /\ seg_same s s'.
Proof.
  cbv zeta. revert s w rs. induction os as [|o os IH]; intros s w rs Hok Hq Hsz E; cbn [seg_run table_run] in *.
  { simplify_eq. split; [done|]. by split; [|split]. }
  apply Forall_cons in Hsz as [Ho Hos].
  destruct (seg_step o s w) as [[r s1] w1] eqn:E1.
  apply seg_step_refines in E1 as (-> & Hok1 & Hq1 & Hs1); [|done..].
  destruct (seg_run os s1 w1) as [[rs1 s2] w2] eqn:E2. simplify_eq.
  destruct (seg_same_bytes _ _ Hs1) as [Ek Ev].
  apply IH in E2 as (Er & ? & ? & ?); [|done|done|by rewrite Ek, Ev].
  rewrite Ek, Ev in Er. rewrite Er. split; [done|]. split; [done|]. split; [done|]. by etrans.
Qed.

End view.
