(* ===== verification/SegmentFile.v ===== *)
(** * File segments ([parakv/core/segment/segment_file.cc], [segment_file.h])

    A segment stored in one file: the [SlotStore] of a path in the file system
    (the loops [PWrite] and [PRead]), [Open] and [Close].  The slot operations
    are those of [SegmentOps] at this store.  The theorems: what [Open] builds,
    what the operations do to the stored slots, that a reopened segment has
    the same contents, and that a segment file refines an abstract
    append-only slot table. *)

From S2P Require Import Prelude Common Sys SegmentBase SegmentOps.

(** ** The store *)

Definition PWrite (path : string) (buf : list Z) (offset : Z) (fs : FS) : Status * FS :=
  fs_pwrite path buf (Z.to_nat offset) fs.

Definition PRead (path : string) (count offset : Z) (fs : FS) : Status * list Z * FS :=
  fs_pread path (Z.to_nat count) (Z.to_nat offset) fs.

#[export] Instance file_store : SlotStore string FS :=
  {| st_write := PWrite; st_read := PRead |}.

Definition file_data (path : string) (fs : FS) : option (list Z) :=
  f_data <$> fs_files fs !! path.

Lemma splice_self o n d : (o + n <= length d)%nat -> splice o (slice o n d) d = d.
Proof.
  intros Hl. apply list_eq. intros i. destruct (decide (i < length d)%nat).
  2: { rewrite !lookup_ge_None_2; [done| |]; len. }
  destruct (decide (o <= i < o + n)%nat).
  - rewrite lookup_splice_in by len. rewrite lookup_slice by lia. f_equal. lia.
  - apply lookup_splice_out; [done|]. len.
Qed.

(** A write that stopped after [k] bytes, seen as a write of the full range. *)
Lemma pwritten_partial off k buf d :
  (k <= length buf)%nat -> (off + length buf <= length d)%nat ->
  exists buf', length buf' = length buf /\ pwritten off (take k buf) d = splice off buf' d /\
    (k = length buf -> buf' = buf).
Proof.
  intros Hk Hl. set (d1 := splice off (take k buf) d).
  exists (take k buf ++ slice (off + k) (length buf - k) d1).
  assert (length d1 = length d) by (subst d1; len).
  split; [len|]. split.
  - rewrite <- splice_app. fold d1. replace (length (take k buf)) with k by len.
    rewrite splice_self by lia.
    destruct (take k buf) as [|x l] eqn:E; [|done]. subst d1. rewrite splice_nil by lia. done.
  - intros ->. rewrite take_ge, Nat.sub_diag by lia. unfold slice. apply app_nil_r.
Qed.

#[export] Instance file_store_laws : SlotStoreLaws string FS.
Proof.
  refine {| st_data := file_data; st_sep := fun p p' => p <> p';
            st_quiet := fun fs => no_eio (fs_script fs) |}.
  - intros p p' Hne E. by apply Hne.
  - intros p buf off fs s fs' d Hd Ho Hl E. unfold file_data in *.
    destruct (fs_files fs !! p) as [f|] eqn:Ef; [|done]. injection Hd as <-.
    destruct (fs_pwrite_spec _ _ _ _ _ _ _ Ef E) as (k & Hk & Efs & Hs & Hq). split.
    + destruct (pwritten_partial (Z.to_nat off) k buf (f_data f)) as (buf' & Hb & Ep & Hfull); [done|lia|].
      exists buf'. split; [done|]. rewrite Efs, lookup_insert_eq. cbn. rewrite Ep. split; [done|].
      intros ->. apply Hfull. by destruct Hs as [[_ ?]|[? _]].
    + split; [|done]. intros p' Hp. by rewrite Efs, lookup_insert_ne.
  - intros p count off fs s got fs' d Hd Ho Hc Hl E. unfold file_data in *.
    destruct (fs_files fs !! p) as [f|] eqn:Ef; [|done]. injection Hd as <-.
    destruct (fs_pread_spec _ _ _ _ _ _ _ _ Ef E) as (Efs & _ & Hok & Hq). split.
    + intros ->. by apply Hok.
    + split; [intros p'; by rewrite Efs|]. intros Hn. destruct (Hq Hn) as [? Hr]. split; [|done].
      apply Hr. lia.
Defined.

(** ** Construction, [Open] and [Close] *)

Abbreviation SegmentFile := (Segment string).
Abbreviation file_path_ s := (seg_handle s).

Definition SegmentFile_new (segment_id : Z) (c : SegmentConfig) (file_path : string) : SegmentFile :=
  mkSegment (SegmentBase_new segment_id c) file_path false.

Definition SegmentFile_Open (s : SegmentFile) (fs : FS) : Status * SegmentFile * FS :=
  if seg_open s then (kOk, s, fs) else
  let '(file_exists, fs) := sys_stat (file_path_ s) fs in
  let '(ok, fs) := sys_open (file_path_ s) (negb file_exists) false fs in
  if negb ok then (kIOError, s, fs) else
  let s := set_open true s in
  if negb file_exists then
    let '(ok, fs) :=
      sys_truncate (file_path_ s) (Z.to_nat (segment_size (config_ (seg_base s)))) fs in
    if negb ok then (kIOError, set_open false s, fs) else
    let s := set_base (ResetBitmap (seg_base s)) s in
    let '(st, fs) := FlushBitmap s fs in
    if negb (status_is_ok st) then (st, set_open false s, fs) else (kOk, s, fs)
  else
    let '(st, s, fs) := LoadBitmap s fs in
    if negb (status_is_ok st) then (st, set_open false s, fs) else
    (kOk, set_base (RebuildCounters (seg_base s)) s, fs).

Definition SegmentFile_Close (s : SegmentFile) (fs : FS) : Status * SegmentFile * FS :=
  if negb (seg_open s) then (kOk, s, fs) else
  let '(_, fs) := FlushBitmap s fs in
  let '(_, fs) := sys_fsync (file_path_ s) fs in
  (kOk, set_open false s, fs).

(** ** Opening a segment *)

Lemma sys_call_quiet fs :
  no_eio (fs_script fs) -> exists sc, sys_call fs = (true, mkFS (fs_files fs) sc) /\ no_eio sc.
Proof.
  intros Hn. destruct (sys_call fs) as [b fs'] eqn:E. pose proof (sys_call_files _ _ _ E) as Ef.
  destruct (sys_call_no_eio _ _ _ Hn E) as [-> ?]. exists (fs_script fs'). destruct fs'. cbn in *. by subst.
Qed.

(** A new file: the segment is empty and its bitmap is on disk. *)
Lemma SegmentFile_Open_new id c p fs st s fs' :
  config_ok c -> no_eio (fs_script fs) -> fs_files fs !! p = None ->
  SegmentFile_Open (SegmentFile_new id c p) fs = (st, s, fs') ->
  st = kOk /\ seg_ok s fs' /\ seg_map s fs' = ∅ /\ seg_synced s fs' /\ no_eio (fs_script fs') /\
  seg_base s = SegmentBase_new id c /\ file_path_ s = p /\
  (forall p', p' <> p -> file_data p' fs' = file_data p' fs).
Proof.
  intros Hc Hn Hp E. unfold SegmentFile_Open in E. cbn [seg_open SegmentFile_new seg_handle] in E.
  unfold sys_stat in E. destruct (sys_call_quiet fs Hn) as (sc1 & Ec1 & Hn1); rewrite Ec1 in E.
  cbn [fs_files] in E. rewrite Hp, andb_false_r in E. cbn [negb] in E.
  unfold sys_open in E. destruct (sys_call_quiet (mkFS (fs_files fs) sc1) Hn1) as (sc2 & Ec2 & Hn2); rewrite Ec2 in E.
  cbn [negb fs_files] in E. rewrite Hp in E. cbn [negb] in E.
  unfold sys_truncate, set_files in E. cbn [fs_script fs_files] in E.
  destruct (sys_call_quiet (mkFS (<[p := mkFile [] []]> (fs_files fs)) sc2) Hn2) as (sc3 & Ec3 & Hn3); rewrite Ec3 in E.
  cbn [fs_files seg_handle set_open] in E. rewrite lookup_insert_eq in E. cbn [negb fs_script f_data f_sync] in E.
  rewrite insert_insert_eq in E.
  set (data := resize _ 0 []) in E. set (fs1 := mkFS _ sc3) in E.
  set (s1 := set_base _ _) in E.
  assert (st_data (seg_handle s1) fs1 = Some data) as Hd.
  { cbn. unfold file_data. cbn. by rewrite lookup_insert_eq. }
  assert (seg_inv (seg_base s1)) as Hi.
  { apply ResetBitmap_inv. apply (SegmentBase_new_inv id c Hc). }
  assert (segment_size c <= Z.of_nat (length data)) as Hl.
  { subst data. rewrite length_resize. cbn. lia. }
  assert (seg_base s1 = SegmentBase_new id c) as Eb.
  { subst s1. cbn. unfold ResetBitmap, SegmentBase_new. cbn. by rewrite length_replicate. }
  assert (forall w, seg_map s1 w = ∅) as Em by (intros; apply seg_map_reset, (SegmentBase_new_inv id c Hc)).
  destruct (FlushBitmap s1 fs1) as [st1 fs2] eqn:E1.
  destruct (FlushBitmap_spec s1 fs1 st1 fs2 data (si_layout _ Hi) Hd Hl E1) as (d' & Hw & _ & Hsync).
  destruct (wr_quiet _ _ _ _ _ _ Hw Hn3) as [-> Hn4]. cbn [status_is_ok negb] in E. simplify_eq.
  split; [done|]. split; [|split; [|split; [by apply Hsync|]; split; [done|]; split; [done|]; split; [done|]]].
  - split; [done|done|]. exists d'. split; [apply Hw|]. by rewrite (wr_len _ _ _ _ _ _ Hw).
  - apply Em.
  - intros p' Hne. change (file_data p' fs') with (st_data p' fs').
    rewrite (wr_frame _ _ _ _ _ _ Hw) by (by intros <-). cbn. unfold file_data. cbn.
    by rewrite lookup_insert_ne.
Qed.

Lemma SegmentFile_Open_existing id c p fs f st s fs' :
  config_ok c -> no_eio (fs_script fs) -> fs_files fs !! p = Some f -> bytes_ok (disk_bitmap c (f_data f)) ->
  segment_size c <= Z.of_nat (length (f_data f)) ->
  SegmentFile_Open (SegmentFile_new id c p) fs = (st, s, fs') ->
  st = kOk /\ s = mkSegment (loaded_base id c (f_data f)) p true /\
  fs_files fs' = fs_files fs /\ no_eio (fs_script fs') /\ seg_ok s fs' /\ seg_synced s fs'.
Proof.
  intros Hc Hn Hp Hb Hl E. pose proof (SegmentBase_new_inv id c Hc) as Hi.
  destruct (bitmap_bound _ (si_layout _ Hi)) as [Hbs _]. pose proof (sl_blen _ (si_layout _ Hi)) as Hbl.
  change (config_ (SegmentBase_new id c)) with c in *.
  unfold SegmentFile_Open in E. cbn [seg_open SegmentFile_new seg_handle] in E.
  unfold sys_stat in E. destruct (sys_call_quiet fs Hn) as (sc1 & Ec1 & Hn1); rewrite Ec1 in E.
  cbn [fs_files] in E. rewrite Hp, bool_decide_eq_true_2 in E by done. cbn [negb andb] in E.
  unfold sys_open in E. destruct (sys_call_quiet (mkFS (fs_files fs) sc1) Hn1) as (sc2 & Ec2 & Hn2); rewrite Ec2 in E.
  cbn [negb fs_files] in E. rewrite Hp in E. cbn [negb] in E.
  unfold LoadBitmap in E. cbn [seg_base set_open seg_handle] in E.
  destruct (st_read _ _ _ _) as [[st1 got] fs1] eqn:E1.
  pose proof E1 as (Efs & _)%(fs_pread_spec _ _ _ _ _ _ _ f); [|done].
  destruct (st_read_spec p (bitmap_size_ (SegmentBase_new id c)) 0 (mkFS (fs_files fs) sc2)
    st1 got fs1 (f_data f)) as (Hok & _ & Hq);
    [cbn; unfold file_data; cbn; by rewrite Hp|done|lia|lia|done|].
  destruct (Hq Hn2) as [-> Hn3]. rewrite (Hok eq_refl) in E. unfold GetBitmapOffset in E.
  change (Z.to_nat 0) with 0%nat in E.
  change (seg_base (SegmentFile_new id c p)) with (SegmentBase_new id c) in E. rewrite (drop_ge (bitmap_ _)), app_nil_r in E by (rewrite length_slice; lia).
  cbn [status_is_ok negb] in E.
  pose proof (loaded_layout id c _ Hc Hb Hl) as Hlay. cbv zeta in Hlay.
  destruct (RebuildCounters_inv _ Hlay) as (Hinv & Hsame & Ebm & _).
  assert (s = mkSegment (loaded_base id c (f_data f)) p true) as -> by (by simplify_eq).
  assert (fs' = fs1) as -> by (by simplify_eq). split; [by simplify_eq|]. clear E.
  assert (file_data p fs1 = Some (f_data f)) as Hd by (unfold file_data; rewrite Efs; cbn; by rewrite Hp).
  split; [done|]. split; [done|]. split; [done|]. split.
  - split; [done|done|]. exists (f_data f). split; [done|]. cbn [seg_base].
    unfold loaded_base. cbv zeta. by rewrite (proj1 (proj2 Hsame)).
  - exists (f_data f). split; [done|]. cbn [seg_base]. unfold loaded_base. cbv zeta.
    rewrite Ebm, (proj1 (proj2 (proj2 (proj2 (proj2 Hsame))))). done.
Qed.

Lemma disk_bitmap_synced s fs d ext :
  seg_ok s fs -> seg_synced s fs -> file_data (file_path_ s) fs = Some d ->
  disk_bitmap (config_ (seg_base s)) (d ++ ext) = bitmap_ (seg_base s).
Proof.
  intros [Hi _ (d1 & Hd1 & Hl)] (d' & Hd' & E) Hd. cbn in Hd', Hd1.
  assert (d' = d) as -> by congruence. assert (d1 = d) as -> by congruence.
  destruct (bitmap_bound _ (si_layout _ Hi)) as [? _]. unfold disk_bitmap.
  rewrite <- (sl_bsize _ (si_layout _ Hi)), <- E. unfold slice. rewrite !drop_0. apply take_app_le. lia.
Qed.

(** A segment whose bitmap is on disk, loaded again from its bytes (possibly
    followed by more). *)
Lemma loaded_map id s fs t ext fs' p :
  seg_ok s fs -> seg_synced s fs -> file_data (file_path_ s) fs = Some t ->
  file_data p fs' = Some (t ++ ext) ->
  seg_map (mkSegment (loaded_base id (config_ (seg_base s)) (t ++ ext)) p true) fs' = seg_map s fs.
Proof.
  intros Hok Hs Ht Hd. pose proof (disk_bitmap_synced s fs t ext Hok Hs Ht) as Ebm.
  destruct Hok as [Hi _ (t1 & Ht1 & Hl)]. cbn in Ht1. assert (t1 = t) as -> by congruence.
  rewrite (seg_map_data (mkSegment _ _ _) fs' (t ++ ext)), (seg_map_data s fs t) by done.
  cbn [seg_base]. rewrite loaded_slot_map; [|apply Hi|rewrite Ebm; apply Hi|rewrite length_app; lia].
  rewrite Ebm, set_bitmap_same. apply slot_map_extend; [apply Hi|done].
Qed.

(** ** Stopping in the middle of an operation

    The calls of [Insert] and [Delete] up to the point where the process stops
    are those of a run whose script ends in an error there, so a statement
    about every script covers a stop at every system call, and inside one. *)

Lemma FlushBitmap_prefix s fs st fs' d :
  seg_layout (seg_base s) -> file_data (file_path_ s) fs = Some d ->
  segment_size (config_ (seg_base s)) <= Z.of_nat (length d) ->
  FlushBitmap s fs = (st, fs') ->
  exists k, file_data (file_path_ s) fs' = Some (splice 0 (take k (bitmap_ (seg_base s))) d).
Proof.
  intros Hl Hd Hlen E. unfold file_data in *. destruct (fs_files fs !! _) as [f|] eqn:Ef; [|done].
  injection Hd as <-. unfold FlushBitmap in E. rewrite (proj2 (bitmap_bound _ Hl)) in E.
  destruct (fs_pwrite_spec _ _ _ _ _ _ _ Ef E) as (k & _ & Efs & _ & _).
  exists k. rewrite Efs, lookup_insert_eq. cbn. f_equal.
  destruct (take k _) eqn:Et; [|done]. by rewrite splice_nil by lia.
Qed.

(** Part of a bitmap in which one byte changes is the old or the new one. *)
Lemma splice_one_byte k q v bm d :
  slice 0 (length bm) d = bm ->
  slice 0 (length bm) (splice 0 (take k (bm_set bm q v)) d) = bm \/
  slice 0 (length bm) (splice 0 (take k (bm_set bm q v)) d) = bm_set bm q v.
Proof.
  intros E. assert (length bm <= length d)%nat as Hl by (rewrite <- E at 1; len).
  assert (forall i, (i < length bm)%nat -> d !! i = bm !! i) as Ei.
  { intros i Hi. rewrite <- (Nat.add_0_l i), <- (lookup_slice 0 (length bm)), E by done. done. }
  destruct (decide (Z.to_nat q < k)%nat); [right|left]; apply list_eq; intros i;
    (destruct (decide (i < length bm)%nat) as [Hi|Hi]; [|rewrite !lookup_ge_None_2; [done|len|len]]);
    rewrite lookup_slice by done; cbn [Nat.add].
  - destruct (decide (i < k)%nat).
    + rewrite lookup_splice_in by (len; lia). rewrite Nat.sub_0_r, lookup_take_lt by done. done.
    + rewrite lookup_splice_out by (len; lia). unfold bm_set. rewrite list_lookup_insert_ne by lia. auto.
  - destruct (decide (i < k)%nat).
    + rewrite lookup_splice_in by (len; lia). rewrite Nat.sub_0_r, lookup_take_lt by done.
      unfold bm_set. by rewrite list_lookup_insert_ne by lia.
    + rewrite lookup_splice_out by (len; lia). auto.
Qed.

Lemma write_slot_bitmap s sid key value fs st fs' d d' :
  let b := seg_base s in
  seg_layout b -> file_data (file_path_ s) fs = Some d ->
  segment_size (config_ b) <= Z.of_nat (length d) -> 0 <= sid < total_slots_ b ->
  length key = key_bytes b -> length value = value_bytes b ->
  write_slot s sid key value fs = (st, fs') -> file_data (file_path_ s) fs' = Some d' ->
  slice 0 (Z.to_nat (bitmap_size_ b)) d' = slice 0 (Z.to_nat (bitmap_size_ b)) d.
Proof.
  cbv zeta. intros Hl Hd Hlen Hs Hk Hv E Hd'.
  destruct (slot_bounds _ sid Hl Hs) as (Es & Ek & Ev & ? & ? & ? & ? & Eo).
  unfold write_slot in E. rewrite Eo, (u64_small (_ + key_size _)) in E by lia.
  destruct (st_write _ key _ fs) as [st1 fs1] eqn:E1.
  apply (st_write_wrote _ _ _ _ _ _ d) in E1 as (k' & Hk' & _ & Hw1); [|done|lia..].
  pose proof (wr_data _ _ _ _ _ _ Hw1) as Hd1. pose proof (wr_len _ _ _ _ _ _ Hw1) as Hl1. cbn in Hd1.
  destruct (decide (st1 = kOk)) as [->|Hne].
  2: { replace (status_is_ok st1) with false in E by by destruct st1. cbn [negb] in E.
       assert (fs1 = fs') as -> by congruence. rewrite Hd1 in Hd'. injection Hd' as <-.
       apply slice_splice_disjoint; lia. }
  cbn [status_is_ok negb] in E.
  apply (st_write_wrote _ _ _ _ _ _ _ (wr_data _ _ _ _ _ _ Hw1)) in E as (v' & Hv' & _ & Hw2); [|lia..].
  pose proof (wr_data _ _ _ _ _ _ Hw2) as Hd2. cbn in Hd2. rewrite Hd2 in Hd'. injection Hd' as <-.
  rewrite !slice_splice_disjoint by lia. done.
Qed.

(** The bytes after [Insert], wherever it stopped: the stored slots are intact,
    and the bitmap is the old one, or the new one with the payload in place. *)
Lemma Insert_disk s key value fs st out s' fs' d :
  let b := seg_base s in
  let c := append_cursor_ b in
  let n := Z.to_nat (bitmap_size_ b) in
  seg_ok s fs -> seg_synced s fs -> length key = key_bytes b -> length value = value_bytes b ->
  file_data (file_path_ s) fs = Some d ->
  Insert (Some key) (Some value) true s fs = (st, out, s', fs') ->
  exists d', file_data (file_path_ s) fs' = Some d' /\ length d' = length d /\
    (forall i, 0 <= i < total_slots_ b -> slot_bit (bitmap_ b) i = true ->
       slot_payload b d' i = slot_payload b d i) /\
    (slice 0 n d' = bitmap_ b \/
     (c < total_slots_ b /\ slice 0 n d' = bitmap_ (SetSlotBit c b) /\
      slot_payload b d' c = (key, value))).
Proof.
  cbv zeta. intros Hok (d0 & Hd0 & Hbm) Hk Hv Hd E. cbn in Hd0. assert (d0 = d) as -> by congruence.
  pose proof Hok as [Hi Ho (d1 & Hd1 & Hlen)]. cbn in Hd1. assert (d1 = d) as -> by congruence. clear Hd0 Hd1.
  pose proof (si_layout _ Hi) as Hl. pose proof (si_cursor _ Hi) as Hc.
  unfold Insert in E. rewrite Ho in E. cbn [negb] in E.
  rewrite (take_ge key), (take_ge value) in E by lia.
  destruct (FindFreeSlot_spec _ Hi) as [[Hlt Ef]|[Heq Ef]]; rewrite Ef in E; clear Ef.
  2: { change (-1 <? 0) with true in E. cbv beta iota in E. simplify_eq. eauto 10. }
  pose proof (seg_total_bounds _ Hl). rewrite (proj2 (Z.ltb_ge _ _)), u32_small in E by lia.
  set (c := append_cursor_ (seg_base s)) in *.
  assert (slot_bit (bitmap_ (seg_base s)) c = false) as Hfree by (apply Hi; lia).
  destruct (write_slot s c key value fs) as [st1 fs1] eqn:E1. pose proof E1 as E1'.
  destruct (write_slot_spec s c key value fs st1 fs1 d) as (d1 & Hw1 & Hp1 & Hp1'); try done; [lia|].
  apply (write_slot_bitmap s c _ _ _ _ _ d d1) in E1'; [|done|done|done|lia|done|done|apply Hw1].
  rewrite Hbm in E1'. pose proof (wr_len _ _ _ _ _ _ Hw1) as Hl1.
  assert (forall i, 0 <= i < total_slots_ (seg_base s) -> slot_bit (bitmap_ (seg_base s)) i = true ->
    slot_payload (seg_base s) d1 i = slot_payload (seg_base s) d i) as Hp.
  { intros i Hr Hb. apply Hp1; [done|]. intros ->. congruence. }
  destruct (decide (st1 = kOk)) as [->|Hne].
  2: { replace (status_is_ok st1) with false in E by by destruct st1. simplify_eq/=.
       exists d1. split; [apply Hw1|]. auto. }
  cbn [status_is_ok negb] in E. destruct (FlushBitmap _ fs1) as [st2 fs2] eqn:E2.
  assert (fs2 = fs') as -> by (destruct (status_is_ok st2); cbn [negb] in E; congruence). clear E.
  destruct (FlushBitmap_prefix (set_base (SetSlotBit c (seg_base s)) s) _ _ _ d1 (SetSlotBit_layout c _ Hl) (wr_data _ _ _ _ _ _ Hw1)
    ltac:(cbn; lia) E2) as (k & Hd2).
  apply (FlushBitmap_spec _ _ _ _ d1) in E2 as (d2 & Hw2 & Hp2 & _);
    [|by apply SetSlotBit_layout|apply Hw1|cbn; lia].
  assert (d2 = splice 0 (take k (bitmap_ (SetSlotBit c (seg_base s)))) d1) as ->.
  { pose proof (wr_data _ _ _ _ _ _ Hw2) as Hd2'.
    enough (Some d2 = Some (splice 0 (take k (bitmap_ (SetSlotBit c (seg_base s)))) d1)) as En by (by injection En).
    by etrans; [symmetry; exact Hd2'|exact Hd2]. }
  exists (splice 0 (take k (bitmap_ (SetSlotBit c (seg_base s)))) d1). split; [done|].
  split; [by rewrite (wr_len _ _ _ _ _ _ Hw2)|].
  split; [intros i Hr Hb; etrans; [by apply (Hp2 i)|by apply Hp]|].
  pose proof (sl_blen _ Hl) as Hbl.
  replace (Z.to_nat (bitmap_size_ (seg_base s))) with (length (bitmap_ (seg_base s))) in * by lia.
  destruct (splice_one_byte k (c / 8) (Z.lor (bm_get (bitmap_ (seg_base s)) (c / 8)) (Z.shiftl 1 (c mod 8)))
    _ _ E1') as [Eo|Eo]; [by left|right].
  split; [done|]. split; [done|]. etrans; [apply (Hp2 c); cbn; lia|]. by apply Hp1'.
Qed.

Lemma Delete_disk s i fs st s' fs' d :
  let b := seg_base s in
  let n := Z.to_nat (bitmap_size_ b) in
  seg_ok s fs -> seg_synced s fs -> 0 <= i -> file_data (file_path_ s) fs = Some d ->
  Delete i s fs = (st, s', fs') ->
  exists d', file_data (file_path_ s) fs' = Some d' /\ length d' = length d /\
    (forall j, 0 <= j < total_slots_ b -> slot_payload b d' j = slot_payload b d j) /\
    (slice 0 n d' = bitmap_ b \/
     (i < total_slots_ b /\ slice 0 n d' = bitmap_ (ClearSlotBit i b))).
Proof.
  cbv zeta. intros Hok (d0 & Hd0 & Hbm) Hi0 Hd E. cbn in Hd0. assert (d0 = d) as -> by congruence.
  pose proof Hok as [Hi Ho (d1 & Hd1 & Hlen)]. cbn in Hd1. assert (d1 = d) as -> by congruence. clear Hd0 Hd1.
  pose proof (si_layout _ Hi) as Hl. unfold Delete in E. rewrite Ho, Z.geb_leb in E.
  destruct (Z.leb_spec (total_slots_ (seg_base s)) i); [simplify_eq; eauto 8|]. cbn [negb] in E.
  destruct (IsSlotOccupied i (seg_base s)); cbn [negb] in E; [|simplify_eq; eauto 8].
  destruct (FlushBitmap _ fs) as [st2 fs2] eqn:E2.
  assert (fs2 = fs') as -> by (destruct (status_is_ok st2); cbn [negb] in E; congruence). clear E.
  destruct (FlushBitmap_prefix (set_base (ClearSlotBit i (seg_base s)) s) _ _ _ d
    (ClearSlotBit_layout i _ Hl) Hd Hlen E2) as (k & Hd2).
  apply (FlushBitmap_spec _ _ _ _ d) in E2 as (d2 & Hw2 & Hp2 & _);
    [|by apply ClearSlotBit_layout|done|done].
  assert (d2 = splice 0 (take k (bitmap_ (ClearSlotBit i (seg_base s)))) d) as ->.
  { pose proof (wr_data _ _ _ _ _ _ Hw2) as Hd2'.
    enough (Some d2 = Some (splice 0 (take k (bitmap_ (ClearSlotBit i (seg_base s)))) d)) as En by (by injection En).
    by etrans; [symmetry; exact Hd2'|exact Hd2]. }
  exists (splice 0 (take k (bitmap_ (ClearSlotBit i (seg_base s)))) d). split; [done|].
  split; [by rewrite (wr_len _ _ _ _ _ _ Hw2)|]. split; [done|].
  pose proof (sl_blen _ Hl) as Hbl.
  replace (Z.to_nat (bitmap_size_ (seg_base s))) with (length (bitmap_ (seg_base s))) in * by lia.
  destruct (splice_one_byte k (i / 8) (Z.land (bm_get (bitmap_ (seg_base s)) (i / 8)) (Z.lnot (Z.shiftl 1 (i mod 8))))
    _ _ Hbm) as [Eo|Eo]; [by left|right; done].
Qed.

(** A restart on files that hold bytes [d'] of the segment. *)
Lemma reopen_bytes id s fs2 st2 s2 fs3 d' bm :
  seg_layout (seg_base s) -> no_eio (fs_script fs2) ->
  file_data (file_path_ s) fs2 = Some d' ->
  segment_size (config_ (seg_base s)) <= Z.of_nat (length d') ->
  slice 0 (Z.to_nat (bitmap_size_ (seg_base s))) d' = bm -> bytes_ok bm ->
  SegmentFile_Open (SegmentFile_new id (config_ (seg_base s)) (file_path_ s)) fs2 = (st2, s2, fs3) ->
  st2 = kOk /\ seg_ok s2 fs3 /\ seg_map s2 fs3 = slot_map (set_bitmap bm (seg_base s)) d'.
Proof.
  intros Hl Hn Hd Hlen Hbm Hb E. unfold file_data in Hd.
  destruct (fs_files fs2 !! file_path_ s) as [f|] eqn:Ef; [|done]. injection Hd as <-.
  assert (disk_bitmap (config_ (seg_base s)) (f_data f) = bm) as Edb.
  { unfold disk_bitmap. by rewrite <- (sl_bsize _ Hl). }
  apply (SegmentFile_Open_existing _ _ _ _ f) in E as (-> & -> & Efs & _ & Hok & _);
    [|apply Hl|done|done|by rewrite Edb|done].
  split; [done|]. split; [done|].
  rewrite (seg_map_data _ fs3 (f_data f)) by (cbn; unfold file_data; by rewrite Efs, Ef).
  cbn [seg_base]. by rewrite loaded_slot_map, Edb by (done || by rewrite Edb).
Qed.

(** ** Properties *)

(** C17: a segment file refines the abstract slot table.  Opened on a path where
    there is no file, in an environment where calls may be interrupted and
    transfer short counts but do not fail, any sequence of inserts, batch
    inserts, reads and deletes returns exactly what the table returns started
    empty with the capacity of the layout: statuses, slot numbers and payloads,
    errors included.  It ends with the table's contents. *)
Theorem SegmentFile_refines_slot_table id c p fs st s fs1 os rs s' fs' :
  config_ok c -> no_eio (fs_script fs) -> fs_files fs !! p = None ->
  Forall (op_sized (Z.to_nat (key_size c)) (Z.to_nat (value_size c))) os ->
  SegmentFile_Open (SegmentFile_new id c p) fs = (st, s, fs1) ->
  seg_run os s fs1 = (rs, s', fs') ->
  st = kOk /\
  table_run (Z.to_nat (key_size c)) (Z.to_nat (value_size c)) os
    (mkTable (lay_total_slots (CalculateLayout c)) 0 ∅) = (rs, table_of s' fs').
Proof.
  intros Hc Hn Hp Hos E Er.
  apply SegmentFile_Open_new in E as (-> & Hok & Hm & _ & Hn1 & Eb & _); [|done..].
  split; [done|]. apply seg_run_refines in Er as (Er & _); [|done|done|by rewrite Eb].
  rewrite Eb in Er. rewrite <- Er. unfold table_of. by rewrite Hm, Eb.
Qed.

Definition tiny_config : SegmentConfig := mkConfig true 2 3 64 f32_three_quarters 4.
Definition tiny_ops : list seg_op :=
  [OpInsert [1; 2] [3; 4; 5]; OpBatchInsert [6; 7; 8; 9] [10; 11; 12; 13; 14; 15] 2;
   OpDelete 1; OpRead 1; OpRead 2; OpRead 400].

Lemma SegmentFile_refines_slot_table_witness :
  exists rs, table_run 2 3 tiny_ops (mkTable 12 0 ∅) = (rs.1.1, table_of rs.1.2 rs.2).
Proof.
  pose (fs := mkFS ∅ [Short 0; Eintr; Short 1; Short 0]).
  pose (o := SegmentFile_Open (SegmentFile_new 7 tiny_config "seg") fs).
  pose (r := seg_run tiny_ops o.1.2 o.2).
  exists r. refine (proj2 (SegmentFile_refines_slot_table 7 tiny_config "seg" fs o.1.1 o.1.2 o.2
    tiny_ops r.1.1 r.1.2 r.2 _ _ _ _ _ _)).
  - apply (bool_decide_unpack _). vm_compute. exact I.
  - apply (bool_decide_unpack _). vm_compute. exact I.
  - reflexivity.
  - apply (bool_decide_unpack _). vm_compute. exact I.
  - vm_compute. reflexivity.
  - vm_compute. reflexivity.
Defined.

(** The slots after one more bit is set. *)
Lemma slot_map_set b d d' c :
  seg_layout b -> 0 <= c < total_slots_ b ->
  (forall i, 0 <= i < total_slots_ b -> slot_bit (bitmap_ b) i = true -> slot_payload b d' i = slot_payload b d i) ->
  slot_map (SetSlotBit c b) d' = <[c := slot_payload b d' c]> (slot_map b d).
Proof.
  intros Hl Hc Hp. pose proof (seg_total_bounds _ Hl). apply map_eq. intros i. rewrite slot_map_lookup.
  destruct (decide (i = c)) as [->|Hne].
  - rewrite lookup_insert_eq, decide_True, slot_bit_set, decide_True by (cbn; lia). done.
  - rewrite lookup_insert_ne, slot_map_lookup by done. cbn [total_slots_ SetSlotBit set_bitmap].
    case_decide; [|done]. rewrite slot_bit_set, decide_False by (cbn; lia).
    destruct (slot_bit _ i) eqn:Eb; [|done]. f_equal. by rewrite <- (Hp i).
Qed.

(** Reopening a file whose bitmap is that of [s], or has the bit of one more
    slot, and which has the payloads of [s]. *)
Lemma reopen_inserted id s fs d fs2 st2 s2 fs3 d2 c :
  seg_ok s fs -> file_data (file_path_ s) fs = Some d -> no_eio (fs_script fs2) -> file_data (file_path_ s) fs2 = Some d2 ->
  (length d <= length d2)%nat -> 0 <= c ->
  (forall i, 0 <= i < total_slots_ (seg_base s) -> slot_bit (bitmap_ (seg_base s)) i = true ->
     slot_payload (seg_base s) d2 i = slot_payload (seg_base s) d i) ->
  (slice 0 (Z.to_nat (bitmap_size_ (seg_base s))) d2 = bitmap_ (seg_base s) \/
   c < total_slots_ (seg_base s) /\
   slice 0 (Z.to_nat (bitmap_size_ (seg_base s))) d2 = bitmap_ (SetSlotBit c (seg_base s))) ->
  SegmentFile_Open (SegmentFile_new id (config_ (seg_base s)) (file_path_ s)) fs2 = (st2, s2, fs3) ->
  st2 = kOk /\ (seg_map s2 fs3 = seg_map s fs \/
    c < total_slots_ (seg_base s) /\
    slice 0 (Z.to_nat (bitmap_size_ (seg_base s))) d2 = bitmap_ (SetSlotBit c (seg_base s)) /\
    seg_map s2 fs3 = <[c := slot_payload (seg_base s) d2 c]> (seg_map s fs)).
Proof.
  intros [Hi _ (d1 & Hd1 & Hlen)] Hd Hn Hd2 Hll Hc Hp Hbm Eo. cbn in Hd1. assert (d1 = d) as -> by congruence.
  pose proof (si_layout _ Hi) as Hl. rewrite (seg_map_data s fs d) by done. destruct Hbm as [Hbm|[Hct Hbm]].
  - apply (reopen_bytes id s _ _ _ _ d2 (bitmap_ (seg_base s))) in Eo as (-> & _ & ->); [|done|done|done|lia|done|apply Hl].
    split; [done|]. left. rewrite set_bitmap_same. by apply slot_map_ext.
  - apply (reopen_bytes id s _ _ _ _ d2 (bitmap_ (SetSlotBit c (seg_base s)))) in Eo as (-> & _ & ->);
      [|done|done|done|lia|done|apply (SetSlotBit_layout c _ Hl)].
    split; [done|]. right. split; [done|]. split; [done|]. by apply slot_map_set.
Qed.

(** [Insert] syncs nothing. *)
Lemma PWrite_sync p buf off fs st fs' f :
  fs_files fs !! p = Some f -> PWrite p buf off fs = (st, fs') ->
  exists f', fs_files fs' !! p = Some f' /\ f_sync f' = f_sync f.
Proof.
  intros Hf E. destruct (fs_pwrite_spec _ _ _ _ _ _ _ Hf E) as (k & _ & -> & _). rewrite lookup_insert_eq. by eexists.
Qed.

Lemma Insert_sync key value b s fs st out s' fs' f :
  fs_files fs !! file_path_ s = Some f -> Insert key value b s fs = (st, out, s', fs') ->
  exists f', fs_files fs' !! file_path_ s = Some f' /\ f_sync f' = f_sync f.
Proof.
  intros Hf. assert (exists f', fs_files fs !! file_path_ s = Some f' /\ f_sync f' = f_sync f) as Hsame by eauto.
  unfold Insert. destruct key as [key|], value as [value|], b; try (by intros [= <- <- <- <-]).
  destruct (negb (seg_open s)); [by intros [= <- <- <- <-]|]. cbv zeta.
  destruct (_ <? 0); [by intros [= <- <- <- <-]|]. unfold write_slot, FlushBitmap. cbn [st_write file_store].
  destruct (PWrite _ _ _ fs) as [st1 fs1] eqn:E1. apply (PWrite_sync _ _ _ _ _ _ _ Hf) in E1 as (f1 & Hf1 & Es1).
  destruct (status_is_ok st1) eqn:Eo1; cbn [negb]; [|rewrite Eo1; cbn [negb]; intros [= <- <- <- <-]; eauto].
  destruct (PWrite _ _ _ fs1) as [st2 fs2] eqn:E2. apply (PWrite_sync _ _ _ _ _ _ _ Hf1) in E2 as (f2 & Hf2 & Es2).
  rewrite Es1 in Es2. destruct (status_is_ok st2); cbn [negb]; [|intros [= <- <- <- <-]; eauto].
  cbn [seg_handle set_base]. destruct (PWrite _ _ _ fs2) as [st3 fs3] eqn:E3.
  apply (PWrite_sync _ _ _ _ _ _ _ Hf2) in E3 as (f3 & Hf3 & Es3). rewrite Es2 in Es3.
  destruct (status_is_ok st3); cbn [negb]; intros [= <- <- <- <-]; eauto.
Qed.

(** Every byte of [d2] is that of [d] or that of [d']. *)
Definition mixed (d d' d2 : list Z) : Prop :=
  (length d <= length d2)%nat /\ forall i x, (i < length d)%nat -> d2 !! i = Some x -> d !! i = Some x \/ d' !! i = Some x.

Lemma crash_image_mixed d d' d2 : length d' = length d -> crash_image (mkFile d' d) d2 -> mixed d d' d2.
Proof.
  intros Hl [Hlen Hb]. cbn in *. split; [lia|]. intros i x Hi Hx. destruct (Hb i x Hx) as [?|[?|[_ Hn]]]; [by left|by right|].
  apply lookup_ge_None in Hn. lia.
Qed.

Lemma mixed_slice d d' d2 o n :
  mixed d d' d2 -> (o + n <= length d)%nat -> slice o n d' = slice o n d -> slice o n d2 = slice o n d.
Proof.
  intros [Hl Hm] Hn E. apply list_eq. intros i. destruct (decide (i < n)%nat) as [Hi|Hi].
  2: { rewrite !lookup_ge_None_2; [done| |]; len. }
  assert (d' !! (o + i)%nat = d !! (o + i)%nat) as Ei.
  { rewrite <- !(lookup_slice o n) by done. by rewrite E. }
  rewrite !lookup_slice by done. destruct (lookup_lt_is_Some_2 d2 (o + i)) as [x Hx]; [lia|]. rewrite Hx.
  destruct (Hm (o + i)%nat x) as [?|?]; [lia|done|done|congruence].
Qed.

Lemma mixed_payload b d d' d2 i :
  seg_layout b -> 0 <= i < total_slots_ b -> segment_size (config_ b) <= Z.of_nat (length d) -> mixed d d' d2 ->
  slot_payload b d' i = slot_payload b d i -> slot_payload b d2 i = slot_payload b d i.
Proof.
  intros Hl Hi Hd Hm. destruct (slot_bounds b i Hl Hi) as (E & _ & _ & ? & ? & ? & ? & _). unfold slot_payload.
  intros [= E1 E2]. f_equal; (eapply mixed_slice; [done| |done]); lia.
Qed.

(** A bitmap of which some bytes are those before a bit was set and some those
    after is one of the two. *)
Lemma mixed_bitmap b c d d' d2 n :
  mixed d d' d2 -> (n <= length d)%nat -> slice 0 n d = bitmap_ b -> slice 0 n d' = bitmap_ (SetSlotBit c b) ->
  slice 0 n d2 = bitmap_ b \/ slice 0 n d2 = bitmap_ (SetSlotBit c b).
Proof.
  intros [Hl Hm] Hn Hb Hb'. set (j := Z.to_nat (c / 8)).
  assert (forall i, slice 0 n d2 !! i = bitmap_ b !! i \/ slice 0 n d2 !! i = bitmap_ (SetSlotBit c b) !! i) as Hor.
  { intros i. rewrite <- Hb, <- Hb'. destruct (decide (i < n)%nat) as [Hi|Hi].
    - rewrite !lookup_slice by done. destruct (lookup_lt_is_Some_2 d2 (0 + i)) as [x Hx]; [cbn; lia|]. rewrite Hx.
      destruct (Hm (0 + i)%nat x) as [->| ->]; [cbn; lia|done|by left|by right].
    - left. rewrite !lookup_ge_None_2; [done| |]; len. }
  assert (forall i, i <> j -> bitmap_ (SetSlotBit c b) !! i = bitmap_ b !! i) as Hsame.
  { intros i Hi. cbn [bitmap_ SetSlotBit set_bitmap]. unfold bm_set. by rewrite list_lookup_insert_ne. }
  destruct (Hor j) as [Hj|Hj]; [left|right]; apply list_eq; intros i; destruct (decide (i = j)) as [->|Hne]; try done;
    destruct (Hor i) as [->| ->]; try done; [by apply Hsame|by rewrite Hsame].
Qed.


(** A segment with one slot in it, for the witnesses. *)
Definition tiny_segment : SegmentFile * FS :=
  let '(_, s, fs) := SegmentFile_Open (SegmentFile_new 7 tiny_config "seg") (mkFS ∅ []) in
  let '(_, _, s, fs) := Insert (Some [1; 2]) (Some [3; 4; 5]) true s fs in (s, fs).

Lemma tiny_segment_ok : seg_ok tiny_segment.1 tiny_segment.2 /\ seg_synced tiny_segment.1 tiny_segment.2.
Proof.
  destruct (SegmentFile_Open (SegmentFile_new 7 tiny_config "seg") (mkFS ∅ [])) as [[st s] fs] eqn:E.
  pose proof E as E0. apply SegmentFile_Open_new in E0 as (_ & Hok & _ & _ & Hn & Eb & _);
    [|apply (bool_decide_unpack _); vm_compute; exact I|constructor|done].
  unfold tiny_segment. rewrite E.
  destruct (Insert _ _ _ s fs) as [[[st1 out] s1] fs1] eqn:E1.
  apply Insert_spec in E1 as (_ & Hout); [|done|by rewrite Eb|by rewrite Eb].
  destruct Hout as [(sid & _ & _ & Hin)|[(_ & Hf & _)|(_ & _ & _ & Hof)]].
  - split; apply Hin.
  - rewrite Eb in Hf. vm_compute in Hf. discriminate Hf.
  - by destruct (of_quiet _ _ _ Hof).
Qed.

(** The same segment after its file was synced, with a script. *)
Definition tiny_data : list Z := default [] (file_data "seg" tiny_segment.2).
Definition tiny_synced (script : list sysret) : FS := mkFS {["seg" := mkFile tiny_data tiny_data]} script.

Definition tiny_insert (script : list sysret) : Status * option Z * SegmentFile * FS :=
  Insert (Some [6; 7]) (Some [8; 9; 9]) true tiny_segment.1 (tiny_synced script).

Definition tiny_reopen (files : gmap string File) : Status * SegmentFile * FS :=
  SegmentFile_Open (SegmentFile_new 7 tiny_config "seg") (mkFS files []).


(** The insert returns [kOk], the machine stops, and of what was written only the
    byte of the bitmap has reached the disk: the new slot is there with zeros. *)
Example power_loss_tears_slot :
  let '(st, _, _, fs) := tiny_insert [] in
  let d2 := <[0%nat := 3]> tiny_data in
  let '(st2, s2, fs3) := tiny_reopen {["seg" := mkFile d2 d2]} in
  st = kOk /\ (exists f, fs_files fs !! "seg"%string = Some f /\ crash_image f d2) /\
  st2 = kOk /\ seg_map s2 fs3 !! 1 = Some ([0; 0], [0; 0; 0]).
Proof.
  destruct (tiny_insert []) as [[[st out] s'] fs] eqn:E. cbv zeta.
  destruct (tiny_reopen _) as [[st2 s2] fs3] eqn:E2. vm_compute in E. injection E as <- <- <- <-.
  vm_compute in E2. injection E2 as <- <- <-. split; [reflexivity|]. split; [|split; vm_compute; reflexivity].
  eexists. split; [vm_compute; reflexivity|]. split; [vm_compute; lia|]. intros [|i] x Hx; [by right; left|].
  left. rewrite list_lookup_insert_ne in Hx by done. exact Hx.
Qed.

(** the same for [Delete], for a stop of the process: the slot is either still
    there or gone, and all others are untouched. *)
Theorem SegmentFile_Delete_crash_atomic id s i fs st s' fs' fs2 st2 s2 fs3 :
  seg_ok s fs -> seg_synced s fs -> 0 <= i ->
  Delete i s fs = (st, s', fs') ->
  fs_files fs2 = fs_files fs' -> no_eio (fs_script fs2) ->
  SegmentFile_Open (SegmentFile_new id (config_ (seg_base s)) (file_path_ s)) fs2 = (st2, s2, fs3) ->
  st2 = kOk /\ (seg_map s2 fs3 = seg_map s fs \/ seg_map s2 fs3 = delete i (seg_map s fs)).
Proof.
  intros Hok Hs Hi0 E Ef Hn Eo. pose proof Hok as [Hi _ (d & Hd & Hlen)].
  pose proof (si_layout _ Hi) as Hl.
  apply (Delete_disk _ _ _ _ _ _ d) in E as (d' & Hd' & Hld & Hp & Hbm); [|done..].
  assert (file_data (file_path_ s) fs2 = Some d') as Hd2 by (unfold file_data; by rewrite Ef).
  rewrite (seg_map_data s _ _ Hd). destruct Hbm as [Hbm|(Hc & Hbm)].
  - apply (reopen_bytes id s _ _ _ _ d' (bitmap_ (seg_base s))) in Eo as (-> & _ & ->);
      [|done|done|done|lia|done|apply Hl].
    split; [done|]. left. rewrite set_bitmap_same. apply slot_map_ext; [done|done|]. auto.
  - apply (reopen_bytes id s _ _ _ _ d' (bitmap_ (ClearSlotBit i (seg_base s)))) in Eo as (-> & _ & ->);
      [|done|done|done|lia|done|apply (ClearSlotBit_layout i _ Hl)].
    split; [done|]. right. pose proof (seg_total_bounds _ Hl).
    change (set_bitmap _ (seg_base s)) with (ClearSlotBit i (seg_base s)).
    apply map_eq. intros j. rewrite slot_map_lookup. destruct (decide (j = i)) as [->|Hne].
    + rewrite lookup_delete_eq, decide_True, slot_bit_clear, decide_True by (cbn; lia). done.
    + rewrite lookup_delete_ne, slot_map_lookup by done. cbn [total_slots_ ClearSlotBit set_bitmap].
      case_decide; [|done]. rewrite slot_bit_clear, decide_False by (cbn; lia).
      destruct (slot_bit _ j) eqn:Eb; [|done]. f_equal. by rewrite <- (Hp j).
Qed.

Lemma SegmentFile_Delete_crash_atomic_witness :
  exists s2 fs3, SegmentFile_Open (SegmentFile_new 7 tiny_config "seg")
     (mkFS (fs_files (Delete 0 tiny_segment.1 (set_script [Short 0; Eio] tiny_segment.2)).2) [])
     = (kOk, s2, fs3) /\
  (seg_map s2 fs3 = seg_map tiny_segment.1 (set_script [Short 0; Eio] tiny_segment.2) \/
   seg_map s2 fs3 = delete 0 (seg_map tiny_segment.1 (set_script [Short 0; Eio] tiny_segment.2))).
Proof.
  pose (fs := set_script [Short 0; Eio] tiny_segment.2).
  pose (r := Delete 0 tiny_segment.1 fs).
  pose (o := SegmentFile_Open (SegmentFile_new 7 tiny_config "seg") (mkFS (fs_files r.2) [])).
  destruct tiny_segment_ok as [Hok Hs].
  exists o.1.2, o.2. split; [vm_compute; reflexivity|].
  refine (proj2 (SegmentFile_Delete_crash_atomic 7 tiny_segment.1 0 fs
    r.1.1 r.1.2 r.2 (mkFS (fs_files r.2) []) o.1.1 o.1.2 o.2 _ _ _ _ _ _ _)).
  - exact (seg_ok_frame tiny_segment.1 tiny_segment.2 fs eq_refl Hok).
  - exact Hs.
  - lia.
  - vm_compute. reflexivity.
  - vm_compute. reflexivity.
  - constructor.
  - vm_compute. reflexivity.
Defined.

(** [Close] puts everything on stable storage when no call fails. *)
Lemma SegmentFile_Close_spec s fs st s1 fs1 :
  seg_ok s fs -> no_eio (fs_script fs) -> SegmentFile_Close s fs = (st, s1, fs1) ->
  exists d, st = kOk /\ s1 = set_open false s /\
    fs_files fs1 !! file_path_ s = Some (mkFile d d) /\
    seg_ok s fs1 /\ seg_synced s fs1 /\ seg_map s fs1 = seg_map s fs.
Proof.
  intros Hok Hn E. pose proof Hok as [Hi Ho (d & Hd & Hlen)].
  unfold SegmentFile_Close in E. rewrite Ho in E. cbn [negb] in E.
  destruct (FlushBitmap s fs) as [st0 fs0] eqn:E0.
  apply (FlushBitmap_spec _ _ _ _ d) in E0 as (d' & Hw & Hp & Hsync); [|apply Hi|done|done].
  destruct (wr_quiet _ _ _ _ _ _ Hw Hn) as [-> Hn0].
  pose proof (wr_data _ _ _ _ _ _ Hw) as Hd'. cbn in Hd', Hn0. unfold file_data in Hd'.
  destruct (fs_files fs0 !! file_path_ s) as [f|] eqn:Ef; [|done]. injection Hd' as <-.
  destruct (sys_fsync _ fs0) as [ok fs2] eqn:E2.
  destruct (sys_fsync_spec _ _ _ _ f Ef E2) as [[-> Efs]|(_ & _ & ?)]; [|done].
  injection E as <- <- <-.
  assert (file_data (file_path_ s) fs2 = Some (f_data f)) as Hd2.
  { unfold file_data. by rewrite Efs, lookup_insert_eq. }
  exists (f_data f). split; [done|]. split; [done|]. split; [by rewrite Efs, lookup_insert_eq|].
  split; [split; [done|done|]; exists (f_data f); split; [done|]; by rewrite (wr_len _ _ _ _ _ _ Hw)|].
  split.
  - destruct (Hsync eq_refl) as (d0 & Hd0 & Eb). cbn in Hd0. unfold file_data in Hd0. rewrite Ef in Hd0.
    injection Hd0 as <-. exists (f_data f). done.
  - rewrite (seg_map_data s fs2 (f_data f)), (seg_map_data s fs d) by done. apply slot_map_ext; [done|done|]. auto.
Qed.

(** The counters [Open] makes from the bitmap of [s]. *)
Lemma loaded_counters id (s : SegmentFile) t :
  seg_inv (seg_base s) -> segment_size (config_ (seg_base s)) <= Z.of_nat (length t) ->
  disk_bitmap (config_ (seg_base s)) t = bitmap_ (seg_base s) ->
  let b := loaded_base id (config_ (seg_base s)) t in
  used_slots_ b = used_slots_ (seg_base s) /\ deleted_slots_ b = append_cursor_ b - used_slots_ b /\
  0 <= append_cursor_ b <= append_cursor_ (seg_base s) /\
  (forall i, is_Some (slot_map (seg_base s) t !! i) -> i < append_cursor_ b) /\
  (0 < append_cursor_ b -> is_Some (slot_map (seg_base s) t !! (append_cursor_ b - 1))).
Proof.
  intros Hi Hlen Edb. pose proof (si_layout _ Hi) as Hl. cbv zeta. unfold loaded_base. cbv zeta.
  destruct (RebuildCounters_inv _ (loaded_layout id _ t (sl_config _ Hl) ltac:(rewrite Edb; apply Hl) Hlen))
    as (Hinv & Hsame & Ebm & Hu & Hfree & Hlast).
  destruct Hsame as (_ & _ & Et & _). cbn [bitmap_ total_slots_ set_bitmap SegmentBase_new bitmap_size_] in *.
  unfold disk_bitmap in Edb. rewrite Edb in *. rewrite <- (sl_total _ Hl) in *.
  set (b := RebuildCounters _) in *. pose proof (si_cursor _ Hinv) as Hcur. rewrite Et in Hcur.
  split; [by rewrite Hu, (si_used _ Hi)|]. split; [apply Hinv|].
  assert (forall i, is_Some (slot_map (seg_base s) t !! i) <-> 0 <= i < total_slots_ (seg_base s) /\ slot_bit (bitmap_ (seg_base s)) i = true) as Hm.
  { intros i. rewrite slot_map_lookup. destruct (decide _); [|split; [by intros [? ?]|tauto]].
    destruct (slot_bit _ i); (split; [by intros [? ?]|by intros [_ ?]]). }
  split; [|split].
  - split; [lia|]. destruct (Z.le_gt_cases (append_cursor_ b) 0); [pose proof (si_cursor _ Hi); lia|].
    pose proof (seg_inv_occupied (seg_base s) (append_cursor_ b - 1) Hi ltac:(lia) (Hlast ltac:(lia))). lia.
  - intros i [Hr Hb]%Hm. destruct (Z.lt_ge_cases i (append_cursor_ b)); [done|]. rewrite (Hfree i) in Hb by lia. done.
  - intros H0. apply Hm. split; [lia|]. by apply Hlast.
Qed.

(** C30: a segment closed without errors and opened again stores the same slots,
    also when power was lost in between: for every possible contents of the
    file after the loss, [Open] succeeds and finds the same keys and values in
    the same slots.  It counts the same used slots; the next slot to be given out
    is the one behind the last that is in use, so that deleted slots at the end
    are free again and not counted as deleted ([reopen_forgets_deleted]). *)
Theorem SegmentFile_reopen id s fs st s1 fs1 f d fs2 st2 s2 fs3 :
  seg_ok s fs -> no_eio (fs_script fs) ->
  SegmentFile_Close s fs = (st, s1, fs1) ->
  fs_files fs1 !! file_path_ s = Some f -> crash_image f d ->
  fs_files fs2 !! file_path_ s = Some (mkFile d d) -> no_eio (fs_script fs2) ->
  SegmentFile_Open (SegmentFile_new id (config_ (seg_base s)) (file_path_ s)) fs2 = (st2, s2, fs3) ->
  st2 = kOk /\ seg_ok s2 fs3 /\ seg_map s2 fs3 = seg_map s fs /\
  let b := seg_base s2 in
  used_slots_ b = used_slots_ (seg_base s) /\ deleted_slots_ b = append_cursor_ b - used_slots_ b /\
  0 <= append_cursor_ b <= append_cursor_ (seg_base s) /\
  (forall i, is_Some (seg_map s fs !! i) -> i < append_cursor_ b) /\
  (0 < append_cursor_ b -> is_Some (seg_map s fs !! (append_cursor_ b - 1))).
Proof.
  intros Hok Hn E Hf Hcr Hf2 Hn2 Eo.
  apply SegmentFile_Close_spec in E as (d0 & _ & _ & Hf1 & Hok1 & Hs1 & <-); [|done..].
  rewrite Hf in Hf1. injection Hf1 as ->.
  destruct (crash_image_prefix _ _ d0 Hcr) as [ext ->]; [done|done|].
  assert (file_data (file_path_ s) fs1 = Some d0) as Hd1 by (unfold file_data; by rewrite Hf).
  pose proof (disk_bitmap_synced s fs1 d0 ext Hok1 Hs1 Hd1) as Edb.
  destruct Hok1 as [Hi Ho (d1 & Hd1' & Hlen)]. cbn in Hd1'. assert (d1 = d0) as -> by congruence.
  apply (SegmentFile_Open_existing _ _ _ _ (mkFile (d0 ++ ext) (d0 ++ ext))) in Eo as (-> & -> & Efs & _ & Hok2 & _);
    [|apply Hi|done|done|cbn; rewrite Edb; apply Hi|cbn; rewrite length_app; lia].
  split; [done|]. split; [done|]. cbn [f_data seg_base]. split.
  - eapply loaded_map; [by split; eauto|done|done|]. unfold file_data. by rewrite Efs, Hf2.
  - rewrite (seg_map_data s fs1 d0), <- (slot_map_extend (seg_base s) d0 ext) by (done || apply Hi).
    apply loaded_counters; [done|rewrite length_app; lia|done].
Qed.

Lemma SegmentFile_reopen_witness :
  seg_map tiny_segment.1 tiny_segment.2 = <[0 := ([1; 2], [3; 4; 5])]> ∅ /\
  seg_map (SegmentFile_Open (SegmentFile_new 7 tiny_config "seg")
     (mkFS (fs_files (SegmentFile_Close tiny_segment.1 tiny_segment.2).2) [])).1.2
    (SegmentFile_Open (SegmentFile_new 7 tiny_config "seg")
     (mkFS (fs_files (SegmentFile_Close tiny_segment.1 tiny_segment.2).2) [])).2
  = seg_map tiny_segment.1 tiny_segment.2.
Proof.
  pose (r := SegmentFile_Close tiny_segment.1 tiny_segment.2).
  pose (fs2 := mkFS (fs_files r.2) []).
  pose (o := SegmentFile_Open (SegmentFile_new 7 tiny_config "seg") fs2).
  pose (d := default [] (file_data "seg" r.2)).
  destruct tiny_segment_ok as [Hok _]. split; [vm_compute; reflexivity|].
  refine (proj1 (proj2 (proj2 (SegmentFile_reopen 7 tiny_segment.1 tiny_segment.2
    r.1.1 r.1.2 r.2 (mkFile d d) d fs2 o.1.1 o.1.2 o.2 Hok _ _ _ _ _ _ _)))).
  - constructor.
  - vm_compute. reflexivity.
  - vm_compute. reflexivity.
  - split; [cbn; lia|]. intros i x Hx. by left.
  - vm_compute. reflexivity.
  - constructor.
  - vm_compute. reflexivity.
Defined.

(** Two slots, the second deleted: after [Close] and [Open] it is given out
    again, and the segment counts no deleted slot. *)
Example reopen_forgets_deleted :
  let '(_, _, s, fs) := Insert (Some [6; 7]) (Some [8; 9; 9]) true tiny_segment.1 tiny_segment.2 in
  let '(_, s, fs) := Delete 1 s fs in
  let '(_, _, fs1) := SegmentFile_Close s fs in
  let '(st, s2, _) := tiny_reopen (fs_files fs1) in
  append_cursor_ (seg_base s) = 2 /\ deleted_slots_ (seg_base s) = 1 /\
  st = kOk /\ append_cursor_ (seg_base s2) = 1 /\ deleted_slots_ (seg_base s2) = 0.
Proof. vm_compute. auto 10. Qed.

(** ** Behaviours on error paths *)

(** [BatchInsert] does not undo the bits it set when the bitmap write fails
    ([Insert] does).  Here a batch of two fails at the bitmap write, the
    counters do not move, yet the slots read as occupied, and the next
    [Insert] is given a slot that already reads as occupied. *)
Example BatchInsert_flush_failure_leaves_bits :
  let '(s0, fs0) := tiny_segment in
  let fs0 := set_script [Short 9; Short 9; Short 9; Short 9; Eio] fs0 in
  let '(st, sids, s1, fs1) := BatchInsert (Some [6; 7; 8; 9]) (Some [1; 1; 1; 2; 2; 2]) 2 true s0 fs0 in
  st = kIOError /\ sids = [1; 2] /\
  used_slots_ (seg_base s1) = 1 /\ append_cursor_ (seg_base s1) = 1 /\
  occ_count (bitmap_ (seg_base s1)) (total_slots_ (seg_base s1)) = 3 /\
  (Read 2 true true s1 fs1).1 = (kOk, Some [8; 9], Some [2; 2; 2]) /\
  IsSlotOccupied (FindFreeSlot (seg_base s1)) (seg_base s1) = true.
Proof. vm_compute. auto 10. Qed.

(** If [ftruncate] fails while a segment file is created, the empty file stays
    behind and every later [Open] reports corruption, although nothing was
    ever stored. *)
Example Open_after_failed_creation :
  let s := SegmentFile_new 7 tiny_config "seg" in
  let '(st, s1, fs1) := SegmentFile_Open s (mkFS ∅ [Short 0; Short 0; Eio]) in
  st = kIOError /\ seg_open s1 = false /\ fs_script fs1 = [] /\
  (SegmentFile_Open s1 fs1).1.1 = kCorruption.
Proof. vm_compute. auto. Qed.
