(* ===== verification/SegmentBlockDev.v ===== *)
(** * Block-device segments
    ([parakv/core/segment/segment_block_dev.cc], [segment_block_dev.h])

    A segment in the range [base_lba_offset, base_lba_offset + segment_size) of
    a block device.  The device behind the interface [BlockDeviceIO] has no
    implementation in the sources: it is the parameter of this file, with what
    the segment relies on as the laws [BlockDeviceLaws].  The slot operations
    are those of [SegmentOps]; this file has [AbsoluteOffset], [Open], [Close],
    the laws of the store, and the refinement theorem. *)

From S2P Require Import Prelude Common SegmentBase SegmentOps.

(** ** The device interface *)

Class BlockDeviceIO (D : Type) := {
  bd_Write : list Z -> Z -> D -> Status * D;
  bd_Read : Z -> Z -> D -> Status * list Z * D;
  bd_Sync : D -> Status * D;
}.

(** What a device promises for accesses inside it: a successful write replaces
    the addressed bytes, a failed one may leave anything in them, a successful
    read returns them, and [Sync] changes no byte. *)
Class BlockDeviceLaws (D : Type) `{BlockDeviceIO D} := {
  bd_data : D -> list Z;
  bd_quiet : D -> Prop;
  bd_Write_spec : forall buf off d s d',
    0 <= off -> off + Z.of_nat (length buf) <= Z.of_nat (length (bd_data d)) ->
    bd_Write buf off d = (s, d') ->
    (exists buf', length buf' = length buf /\
       bd_data d' = splice (Z.to_nat off) buf' (bd_data d) /\ (s = kOk -> buf' = buf)) /\
    (bd_quiet d -> s = kOk /\ bd_quiet d');
  bd_Read_spec : forall count off d s got d',
    0 <= off -> 0 <= count -> off + count <= Z.of_nat (length (bd_data d)) ->
    bd_Read count off d = (s, got, d') ->
    (s = kOk -> got = slice (Z.to_nat off) (Z.to_nat count) (bd_data d)) /\
    bd_data d' = bd_data d /\ (bd_quiet d -> s = kOk /\ bd_quiet d');
  bd_Sync_spec : forall d s d',
    bd_Sync d = (s, d') -> bd_data d' = bd_data d /\ (bd_quiet d -> s = kOk /\ bd_quiet d');
}.

(** ** The store *)

(** [base_lba_offset_], with the size of the range. *)
Record BlockRange := mkRange { base_lba_offset_ : Z; range_size : Z }.

Definition AbsoluteOffset (h : BlockRange) (relative : Z) : Z :=
  u64 (base_lba_offset_ h + relative).

#[export] Instance block_store D `{BlockDeviceIO D} : SlotStore BlockRange D :=
  {| st_write h buf off d := bd_Write buf (AbsoluteOffset h off) d;
     st_read h count off d := bd_Read count (AbsoluteOffset h off) d |}.

Section device.
  Context {D : Type} `{BlockDeviceLaws D}.

Definition range_data (h : BlockRange) (d : D) : option (list Z) :=
  if decide (0 <= base_lba_offset_ h /\ 0 <= range_size h /\
             base_lba_offset_ h + range_size h <= Z.of_nat (length (bd_data d)) /\
             base_lba_offset_ h + range_size h < 2 ^ 64)
  then Some (slice (Z.to_nat (base_lba_offset_ h)) (Z.to_nat (range_size h)) (bd_data d))
  else None.

Definition range_sep (h h' : BlockRange) : Prop :=
  base_lba_offset_ h + range_size h <= base_lba_offset_ h' \/
  base_lba_offset_ h' + range_size h' <= base_lba_offset_ h.

Lemma slice_splice_inside o n off buf d :
  (off + length buf <= n)%nat -> (o + n <= length d)%nat ->
  slice o n (splice (o + off) buf d) = splice off buf (slice o n d).
Proof.
  intros Hb Hn. apply list_eq. intros i. destruct (decide (i < n)%nat).
  2: { rewrite !lookup_ge_None_2; [done|len|len]. }
  rewrite lookup_slice by done. destruct (decide (off <= i < off + length buf)%nat).
  - rewrite !lookup_splice_in by lia. f_equal. lia.
  - rewrite !lookup_splice_out by (len; lia). by rewrite lookup_slice.
Qed.

Lemma slice_slice o n off k d :
  (off + k <= n)%nat -> slice off k (slice o n d) = slice (o + off) k d.
Proof.
  intros Hk. apply list_eq. intros i. destruct (decide (i < k)%nat).
  - rewrite !lookup_slice by lia. f_equal. lia.
  - rewrite !lookup_ge_None_2; [done|len|len].
Qed.

#[export] Instance block_store_laws : SlotStoreLaws BlockRange D.
Proof.
  refine {| st_data := range_data; st_sep := range_sep; st_quiet := bd_quiet |}.
  - intros h h'. unfold range_sep. tauto.
  - intros h buf off w s w' d Hd Ho Hl E. unfold range_data in *. case_decide as Hr; [|done].
    injection Hd as <-. rewrite length_slice in Hl. cbn in E.
    unfold AbsoluteOffset in E. rewrite u64_small in E by lia.
    apply bd_Write_spec in E as [(buf' & Hb & Ed & Hok) Hq]; [|lia..].
    assert (length (bd_data w') = length (bd_data w)) as El by (rewrite Ed; len).
    split; [|split; [|done]].
    + exists buf'. rewrite decide_True by lia. split; [done|]. split; [|done]. f_equal.
      rewrite Ed, Z2Nat.inj_add by lia. apply slice_splice_inside; lia.
    + intros h' Hs. unfold range_sep in Hs. rewrite El. case_decide; [|done]. f_equal.
      rewrite Ed. apply slice_splice_disjoint; lia.
  - intros h count off w s got w' d Hd Ho Hc Hl E. unfold range_data in *. case_decide as Hr; [|done].
    injection Hd as <-. rewrite length_slice in Hl. cbn in E.
    unfold AbsoluteOffset in E. rewrite u64_small in E by lia.
    apply bd_Read_spec in E as (Hok & Ed & Hq); [|lia..].
    split; [|split; [|done]].
    + intros ->. rewrite slice_slice, Hok, Z2Nat.inj_add by (done || lia). done.
    + intros h'. by rewrite Ed.
Defined.

(** ** Construction, [Open], [Close] *)

Definition SegmentBlockDev_new (segment_id : Z) (c : SegmentConfig) (base_lba_offset : Z)
    : Segment BlockRange :=
  mkSegment (SegmentBase_new segment_id c) (mkRange base_lba_offset (segment_size c)) false.

Definition SegmentBlockDev_Open (s : Segment BlockRange) (d : D) : Status * Segment BlockRange * D :=
  if seg_open s then (kOk, s, d) else
  let '(st, s, d) := LoadBitmap s d in
  if negb (status_is_ok st) then (st, s, d) else
  (kOk, set_open true (set_base (RebuildCounters (seg_base s)) s), d).

Definition SegmentBlockDev_Close (s : Segment BlockRange) (d : D) : Status * Segment BlockRange * D :=
  if negb (seg_open s) then (kOk, s, d) else
  let '(st, d) := FlushBitmap s d in
  if negb (status_is_ok st) then (st, s, d) else
  let '(st, d) := bd_Sync d in
  if negb (status_is_ok st) then (st, s, d) else
  (kOk, set_open false s, d).

(** The slot operations at this store. *)
Definition SegmentBlockDev_Insert : option (list Z) -> option (list Z) -> bool ->
  Segment BlockRange -> D -> Status * option Z * Segment BlockRange * D := Insert.
Definition SegmentBlockDev_BatchInsert : option (list Z) -> option (list Z) -> Z -> bool ->
  Segment BlockRange -> D -> Status * list Z * Segment BlockRange * D := BatchInsert.
Definition SegmentBlockDev_Read : Z -> bool -> bool -> Segment BlockRange -> D ->
  Status * option (list Z) * option (list Z) * D := Read.
Definition SegmentBlockDev_Delete : Z -> Segment BlockRange -> D ->
  Status * Segment BlockRange * D := Delete.
Definition SegmentBlockDev_Compact {X} : option (Segment BlockRange) -> option (SlotMoveCallback X) ->
  Segment BlockRange -> D -> X ->
  Status * Segment BlockRange * option (Segment BlockRange) * D * X := Compact.
Definition SegmentBlockDev_SyncBitmap : Segment BlockRange -> D -> Status * D := SyncBitmap.

(** ** Theorems *)

Lemma SegmentBlockDev_Open_spec id c base d bytes st s d' :
  config_ok c -> bd_quiet d -> range_data (mkRange base (segment_size c)) d = Some bytes ->
  bytes_ok (disk_bitmap c bytes) ->
  SegmentBlockDev_Open (SegmentBlockDev_new id c base) d = (st, s, d') ->
  st = kOk /\ s = mkSegment (loaded_base id c bytes) (mkRange base (segment_size c)) true /\
  range_data (mkRange base (segment_size c)) d' = Some bytes /\ bd_quiet d' /\ seg_ok s d'.
Proof.
  intros Hc Hq Hd Hb E. pose proof (SegmentBase_new_inv id c Hc) as Hi.
  assert (Z.of_nat (length bytes) = segment_size c) as Hlen.
  { unfold range_data in Hd. case_decide; [|done]. injection Hd as <-. cbn in *. rewrite length_slice. lia. }
  destruct (bitmap_bound _ (si_layout _ Hi)) as [Hbs _]. pose proof (sl_blen _ (si_layout _ Hi)) as Hbl.
  change (config_ (SegmentBase_new id c)) with c in *.
  unfold SegmentBlockDev_Open, LoadBitmap in E.
  change (seg_open (SegmentBlockDev_new id c base)) with false in E.
  change (seg_base (SegmentBlockDev_new id c base)) with (SegmentBase_new id c) in E. cbv zeta iota in E.
  change (seg_handle (SegmentBlockDev_new id c base)) with (mkRange base (segment_size c)) in E.
  destruct (st_read _ _ _ d) as [[st1 got] d1] eqn:E1.
  destruct (st_read_spec (mkRange base (segment_size c)) (bitmap_size_ (SegmentBase_new id c)) 0 d
    st1 got d1 bytes) as (Hok & Hsame & Hqq); [done|done|lia|lia|done|].
  destruct (Hqq Hq) as [-> Hq1]. rewrite (Hok eq_refl) in E. unfold GetBitmapOffset in E.
  change (Z.to_nat 0) with 0%nat in E.
  rewrite (drop_ge (bitmap_ _)), app_nil_r in E by (rewrite length_slice; lia).
  cbn [status_is_ok negb] in E.
  assert (s = mkSegment (loaded_base id c bytes) (mkRange base (segment_size c)) true) as -> by (by simplify_eq).
  assert (d1 = d') as -> by congruence. assert (st = kOk) as -> by congruence. clear E.
  destruct (RebuildCounters_inv _ (loaded_layout id c bytes Hc Hb ltac:(lia))) as (Hinv & Hs & _).
  split; [done|]. split; [done|]. pose proof (Hsame (mkRange base (segment_size c))) as Hd'. cbn in Hd'.
  split; [by rewrite Hd'|]. split; [done|]. split; [done|done|]. exists bytes.
  split; [cbn; by rewrite Hd'|]. cbn [seg_base]. unfold loaded_base. cbv zeta.
  rewrite (proj1 (proj2 Hs)). cbn. lia.
Qed.

(** C36: a block-device segment refines the abstract slot table, for every
    device that keeps its promises and does not fail.  The table starts with
    what the range held before: opening a range whose bitmap is clear starts
    from the empty table, and then any sequence of inserts, batch inserts,
    reads and deletes returns exactly what the table returns. *)
Theorem SegmentBlockDev_refines_slot_table id c base d bytes st s d1 os rs s' d' :
  config_ok c -> bd_quiet d -> range_data (mkRange base (segment_size c)) d = Some bytes ->
  disk_bitmap c bytes = replicate (Z.to_nat (lay_bitmap_size (CalculateLayout c))) 0 ->
  Forall (op_sized (Z.to_nat (key_size c)) (Z.to_nat (value_size c))) os ->
  SegmentBlockDev_Open (SegmentBlockDev_new id c base) d = (st, s, d1) ->
  seg_run os s d1 = (rs, s', d') ->
  st = kOk /\
  table_run (Z.to_nat (key_size c)) (Z.to_nat (value_size c)) os
    (mkTable (lay_total_slots (CalculateLayout c)) 0 ∅) = (rs, table_of s' d').
Proof.
  intros Hc Hq Hd Hbm Hos E Er.
  assert (bytes_ok (disk_bitmap c bytes)) as Hb by (rewrite Hbm; apply bytes_ok_zeros).
  apply (SegmentBlockDev_Open_spec _ _ _ _ bytes) in E as (-> & -> & Hd1 & Hq1 & Hok); [|done..].
  split; [done|]. pose proof (SegmentBase_new_inv id c Hc) as Hi.
  rewrite (loaded_zero id c bytes) in * by done.
  apply seg_run_refines in Er as (Er & _); [|done|done|done]. rewrite <- Er. unfold table_of.
  assert (seg_map (mkSegment (SegmentBase_new id c) (mkRange base (segment_size c)) true) d1 = ∅) as ->; [|done].
  unfold seg_map. case_match; [|done]. apply map_eq. intros i. rewrite slot_map_lookup, lookup_empty.
  case_decide; [|done]. cbn. by rewrite slot_bit_zeros.
Qed.

(** closing a block-device segment and opening it again gives the same
    slots, for every device that keeps its promises and does not fail. *)
Theorem SegmentBlockDev_reopen id s d st s1 d1 st2 s2 d2 :
  seg_ok s d -> bd_quiet d -> range_size (seg_handle s) = segment_size (config_ (seg_base s)) ->
  SegmentBlockDev_Close s d = (st, s1, d1) ->
  SegmentBlockDev_Open
    (SegmentBlockDev_new id (config_ (seg_base s)) (base_lba_offset_ (seg_handle s))) d1 = (st2, s2, d2) ->
  st = kOk /\ st2 = kOk /\ seg_ok s2 d2 /\ seg_map s2 d2 = seg_map s d.
Proof.
  intros Hok Hq Hr E Eo. pose proof Hok as [Hi Ho (bytes & Hd & Hlen)].
  unfold SegmentBlockDev_Close in E. rewrite Ho in E. cbn [negb] in E.
  destruct (FlushBitmap s d) as [st0 d0] eqn:E0.
  apply (FlushBitmap_spec _ _ _ _ bytes) in E0 as (bytes' & Hw & Hp & Hsync); [|apply Hi|done|done].
  destruct (wr_quiet _ _ _ _ _ _ Hw Hq) as [-> Hq0]. cbn [status_is_ok negb] in E.
  destruct (bd_Sync d0) as [st3 d3] eqn:E3. apply bd_Sync_spec in E3 as [Ed Hqs].
  destruct (Hqs Hq0) as [-> Hq3]. cbn [status_is_ok negb] in E. injection E as <- <- <-.
  assert (range_data (seg_handle s) d3 = Some bytes') as Hd3.
  { pose proof (wr_data _ _ _ _ _ _ Hw) as Hd'. cbn in Hd'. unfold range_data in *. by rewrite Ed. }
  assert (disk_bitmap (config_ (seg_base s)) bytes' = bitmap_ (seg_base s)) as Edb.
  { destruct (Hsync eq_refl) as (b0 & Hb0 & Eb). pose proof (wr_data _ _ _ _ _ _ Hw) as Hd'.
    rewrite Hb0 in Hd'. injection Hd' as ->. unfold disk_bitmap. by rewrite <- (sl_bsize _ (si_layout _ Hi)). }
  assert (mkRange (base_lba_offset_ (seg_handle s)) (segment_size (config_ (seg_base s))) = seg_handle s) as Eh.
  { rewrite <- Hr. by destruct (seg_handle s). }
  apply (SegmentBlockDev_Open_spec _ _ _ _ bytes') in Eo as (-> & -> & Hd2 & _ & Hok2);
    [|apply Hi|done|by rewrite Eh|rewrite Edb; apply Hi].
  split; [done|]. split; [done|]. split; [done|].
  rewrite (seg_map_data _ d2 bytes') by done. rewrite (seg_map_data s d bytes) by done. cbn [seg_base].
  rewrite loaded_slot_map; [|apply Hi|rewrite Edb; apply Hi|by rewrite (wr_len _ _ _ _ _ _ Hw)].
  rewrite Edb, set_bitmap_same. apply slot_map_ext; [done|done|]. auto.
Qed.

End device.

(** ** A device that keeps the promises: a byte array *)

Definition array_write (buf : list Z) (off : Z) (d : list Z) : Status * list Z :=
  if (off + Z.of_nat (length buf) <=? Z.of_nat (length d))
  then (kOk, splice (Z.to_nat off) buf d) else (kIOError, d).

Definition array_read (count off : Z) (d : list Z) : Status * list Z * list Z :=
  if (off + count <=? Z.of_nat (length d))
  then (kOk, slice (Z.to_nat off) (Z.to_nat count) d, d) else (kIOError, [], d).

#[export] Instance array_device : BlockDeviceIO (list Z) :=
  {| bd_Write := array_write; bd_Read := array_read; bd_Sync d := (kOk, d) |}.

#[export] Instance array_device_laws : BlockDeviceLaws (list Z).
Proof.
  refine {| bd_data d := d; bd_quiet _ := True |}.
  - intros buf off d s d' Ho Hl E. cbn in E. unfold array_write in E.
    rewrite (proj2 (Z.leb_le _ _)) in E by done. injection E as <- <-. split; [by exists buf|done].
  - intros count off d s got d' Ho Hc Hl E. cbn in E. unfold array_read in E.
    rewrite (proj2 (Z.leb_le _ _)) in E by done. by injection E as <- <- <-.
  - intros d s d' E. by injection E as <- <-.
Defined.

Definition dev_config : SegmentConfig := mkConfig true 2 3 64 f32_three_quarters 4.
Definition dev_zero : list Z := replicate 200 0.
Definition dev_ops : list seg_op :=
  [OpInsert [1; 2] [3; 4; 5]; OpBatchInsert [6; 7; 8; 9] [10; 11; 12; 13; 14; 15] 2; OpDelete 1; OpRead 2].

Lemma SegmentBlockDev_refines_slot_table_witness :
  exists rs, table_run 2 3 dev_ops (mkTable 12 0 ∅) = (rs.1.1, table_of rs.1.2 rs.2).
Proof.
  pose (o := SegmentBlockDev_Open (SegmentBlockDev_new 7 dev_config 100) dev_zero).
  pose (r := seg_run dev_ops o.1.2 o.2). exists r.
  refine (proj2 (SegmentBlockDev_refines_slot_table 7 dev_config 100 dev_zero (replicate 64 0)
    o.1.1 o.1.2 o.2 dev_ops r.1.1 r.1.2 r.2 _ _ _ _ _ _ _)).
  - apply (bool_decide_unpack _). vm_compute. exact I.
  - exact I.
  - vm_compute. reflexivity.
  - vm_compute. reflexivity.
  - apply (bool_decide_unpack _). vm_compute. exact I.
  - vm_compute. reflexivity.
  - vm_compute. reflexivity.
Defined.

Definition dev_segment : Segment BlockRange * list Z :=
  let '(_, s, d) := SegmentBlockDev_Open (SegmentBlockDev_new 7 dev_config 100) dev_zero in (s, d).

Lemma dev_segment_ok : seg_ok dev_segment.1 dev_segment.2.
Proof.
  unfold dev_segment.
  destruct (SegmentBlockDev_Open (SegmentBlockDev_new 7 dev_config 100) dev_zero) as [[st s] d] eqn:E.
  apply (SegmentBlockDev_Open_spec _ _ _ _ (replicate 64 0)) in E as (_ & _ & _ & _ & Hok);
    [done| | |vm_compute; reflexivity|]; [|done|]; apply (bool_decide_unpack _); vm_compute; exact I.
Qed.

Lemma SegmentBlockDev_reopen_witness :
  seg_map (SegmentBlockDev_Open (SegmentBlockDev_new 8 dev_config 100)
            (SegmentBlockDev_Close dev_segment.1 dev_segment.2).2).1.2
          (SegmentBlockDev_Open (SegmentBlockDev_new 8 dev_config 100)
            (SegmentBlockDev_Close dev_segment.1 dev_segment.2).2).2
  = seg_map dev_segment.1 dev_segment.2.
Proof.
  pose (r := SegmentBlockDev_Close dev_segment.1 dev_segment.2).
  pose (o := SegmentBlockDev_Open (SegmentBlockDev_new 8 dev_config 100) r.2).
  refine (proj2 (proj2 (proj2 (SegmentBlockDev_reopen 8 dev_segment.1 dev_segment.2
    r.1.1 r.1.2 r.2 o.1.1 o.1.2 o.2 dev_segment_ok I _ _ _)))).
  - vm_compute. reflexivity.
  - vm_compute. reflexivity.
  - vm_compute. reflexivity.
Defined.
