(* ===== verification/SegmentManager.v ===== *)
(** * The segment manager ([parakv/core/segment/segment_manager.cc], [.h])

    Classification of segments into idle, appending and full, choice of the
    segment to append to, the saved state file, compaction, and hot/cold
    tracking.  Segments are any [SlotStore]; a [shared_ptr] to a segment is its
    id, [segments_] is the store the pointers refer to.

    An [unordered_set] or [unordered_map] iterates in an order the standard
    does not fix.  [iter n X] is the order of the [n]-th iteration of the run,
    over the elements [X]; every theorem holds for all orders.  The ghost field
    [clock_] counts iterations. *)

From S2P Require Import Prelude Common Sys SegmentBase SegmentOps.

(** ** State *)

Record SegmentManager (H : Type) := mkMgr {
  segments_ : gmap Z (Segment H);
  idle_set_ : gset Z;
  appending_set_ : gset Z;
  full_set_ : gset Z;
  full_order_ : list Z;
  access_counters_ : gmap Z Z;
  hot_segments_ : gset Z;
  clock_ : nat;
}.
Arguments mkMgr {H} _ _ _ _ _ _ _ _.
Arguments segments_ {H} _.
Arguments idle_set_ {H} _.
Arguments appending_set_ {H} _.
Arguments full_set_ {H} _.
Arguments full_order_ {H} _.
Arguments access_counters_ {H} _.
Arguments hot_segments_ {H} _.
Arguments clock_ {H} _.

Definition SegmentManager_new {H} : SegmentManager H := mkMgr ∅ ∅ ∅ ∅ [] ∅ ∅ 0.

(** Field updates. *)
Definition set_segments {H} (x : gmap Z (Segment H)) (m : SegmentManager H) : SegmentManager H :=
  mkMgr x (idle_set_ m) (appending_set_ m) (full_set_ m) (full_order_ m) (access_counters_ m)
    (hot_segments_ m) (clock_ m).
Definition set_classes {H} (idle app full : gset Z) (order : list Z) (m : SegmentManager H)
    : SegmentManager H :=
  mkMgr (segments_ m) idle app full order (access_counters_ m) (hot_segments_ m) (clock_ m).
Definition set_heat {H} (acc : gmap Z Z) (hot : gset Z) (m : SegmentManager H) : SegmentManager H :=
  mkMgr (segments_ m) (idle_set_ m) (appending_set_ m) (full_set_ m) (full_order_ m) acc hot (clock_ m).
Definition set_clock {H} (n : nat) (m : SegmentManager H) : SegmentManager H :=
  mkMgr (segments_ m) (idle_set_ m) (appending_set_ m) (full_set_ m) (full_order_ m)
    (access_counters_ m) (hot_segments_ m) n.
Definition tick {H} (m : SegmentManager H) : SegmentManager H :=
  mkMgr (segments_ m) (idle_set_ m) (appending_set_ m) (full_set_ m) (full_order_ m)
    (access_counters_ m) (hot_segments_ m) (S (clock_ m)).

(** [v.erase(std::remove(v.begin(), v.end(), x), v.end())]. *)
Definition erase_remove (x : Z) (l : list Z) : list Z := filter (fun y => y <> x) l.

(** ** Registration and lookup *)

Definition classify {H} (id : Z) (st : SegmentState) (m : SegmentManager H) : SegmentManager H :=
  match st with
  | IDLE => set_classes ({[id]} ∪ idle_set_ m) (appending_set_ m) (full_set_ m) (full_order_ m) m
  | APPENDING => set_classes (idle_set_ m) ({[id]} ∪ appending_set_ m) (full_set_ m) (full_order_ m) m
  | FULL => set_classes (idle_set_ m) (appending_set_ m) ({[id]} ∪ full_set_ m) (full_order_ m ++ [id]) m
  end.

Definition AddSegment {H} (segment : option (Segment H)) (m : SegmentManager H)
    : Status * SegmentManager H :=
  match segment with
  | None => (kInvalidArgument, m)
  | Some segment =>
      let id := GetSegmentId segment in
      if bool_decide (is_Some (segments_ m !! id)) then (kInvalidArgument, m) else
      let state := GetState (seg_base segment) in
      (kOk, classify id state (set_segments (<[id := segment]> (segments_ m)) m))
  end.

Definition GetSegment {H} (segment_id : Z) (m : SegmentManager H) : option (Segment H) :=
  segments_ m !! segment_id.

Definition MarkSegmentFullInternal {H} (segment_id : Z) (m : SegmentManager H)
    : Status * SegmentManager H :=
  if negb (bool_decide (is_Some (segments_ m !! segment_id))) then (kNotFound, m) else
  if bool_decide (segment_id ∈ full_set_ m) then (kOk, m) else
  (kOk, set_classes (idle_set_ m ∖ {[segment_id]}) (appending_set_ m ∖ {[segment_id]})
          ({[segment_id]} ∪ full_set_ m) (full_order_ m ++ [segment_id]) m).

Definition MarkSegmentFull {H} (segment_id : Z) (m : SegmentManager H) : Status * SegmentManager H :=
  MarkSegmentFullInternal segment_id m.

Definition ReleaseSegment {H} (segment_id : Z) (m : SegmentManager H) : Status * SegmentManager H :=
  if negb (bool_decide (is_Some (segments_ m !! segment_id))) then (kNotFound, m) else
  (kOk, set_heat (delete segment_id (access_counters_ m)) (hot_segments_ m ∖ {[segment_id]})
          (set_classes ({[segment_id]} ∪ idle_set_ m) (appending_set_ m ∖ {[segment_id]})
             (full_set_ m ∖ {[segment_id]}) (erase_remove segment_id (full_order_ m)) m)).

Section choice.
  Context {H : Type} (iter : nat -> gset Z -> list Z).

Definition PromoteIdleSegment (m : SegmentManager H) : Outcome (option Z * SegmentManager H) :=
  if bool_decide (idle_set_ m = ∅) then Ret (None, m) else
  match iter (clock_ m) (idle_set_ m) with
  | [] => UB
  | id :: _ =>
      let m := tick m in
      let m := set_classes (idle_set_ m ∖ {[id]}) ({[id]} ∪ appending_set_ m)
                 (full_set_ m) (full_order_ m) m in
      Ret (Some id, m)
  end.

(** The loop of [GetActiveSegment] over the remaining ids.  [segments_[id]] of
    an id that is not registered is a null pointer, dereferenced at once.  When
    [MarkSegmentFullInternal] erases the element the range-for stands on, the
    loop goes on from an invalidated iterator. *)
Fixpoint active_loop (ids : list Z) (m : SegmentManager H) : Outcome (option Z * SegmentManager H) :=
  match ids with
  | [] => PromoteIdleSegment m
  | id :: ids =>
    match segments_ m !! id with
    | None => UB
    | Some seg =>
      if GetFreeSlots (seg_base seg) >? 0 then Ret (Some id, m) else
      let '(_, m') := MarkSegmentFullInternal id m in
      if bool_decide (id ∈ appending_set_ m') then active_loop ids m' else UB
    end
  end.

(** The id of the segment to append to, if any. *)
Definition GetActiveSegment (m : SegmentManager H) : Outcome (option Z * SegmentManager H) :=
  active_loop (iter (clock_ m) (appending_set_ m)) (tick m).

End choice.

(** ** The state file *)

Definition kStateMagic : Z := 0x534D4753.
Definition kStateVersion : Z := 1.

Definition PutU32 (buf : list Z) (v : Z) : list Z :=
  buf ++ [u8 (Z.land v 0xFF); u8 (Z.land (Z.shiftr v 8) 0xFF);
          u8 (Z.land (Z.shiftr v 16) 0xFF); u8 (Z.land (Z.shiftr v 24) 0xFF)].

(** Returns the value and the rest of the input. *)
Definition GetU32 (p : list Z) : option (Z * list Z) :=
  match p with
  | p0 :: p1 :: p2 :: p3 :: rest =>
      Some (Z.lor (Z.lor (Z.lor p0 (Z.shiftl p1 8)) (Z.shiftl p2 16)) (Z.shiftl p3 24), rest)
  | _ => None
  end.

Definition SerializeIds (buf : list Z) (ids : list Z) : list Z :=
  foldl PutU32 (PutU32 buf (u32 (Z.of_nat (length ids)))) ids.

Definition state_bytes (full appending idle : list Z) : list Z :=
  let buf := PutU32 (PutU32 [] kStateMagic) kStateVersion in
  SerializeIds (SerializeIds (SerializeIds buf full) appending) idle.

(** One [write] on a file just truncated: the count, [None] for -1. *)
Definition sys_write (path : string) (buf : list Z) (fs : FS) : option nat * FS :=
  match fs_files fs !! path with
  | None => (None, fs)
  | Some f =>
      let put n sc := (Some n, mkFS (<[path := mkFile (f_data f ++ take n buf) (f_sync f)]> (fs_files fs)) sc) in
      match fs_script fs with
      | [] => put (length buf) []
      | Short n :: sc => put (Nat.min (S n) (length buf)) sc
      | _ :: sc => (None, set_script sc fs)
      end
  end.

Section persist.
  Context {H : Type} (iter : nat -> gset Z -> list Z).

Definition SaveState (path : string) (m : SegmentManager H) (fs : FS)
    : Status * SegmentManager H * FS :=
  let appending := iter (clock_ m) (appending_set_ m) in
  let m := tick m in
  let idle := iter (clock_ m) (idle_set_ m) in
  let m := tick m in
  let buf := state_bytes (full_order_ m) appending idle in
  let tmp_path := (path +:+ ".tmp")%string in
  let '(ok, fs) := sys_open tmp_path true true fs in
  if negb ok then (kIOError, m, fs) else
  let '(written, fs) := sys_write tmp_path buf fs in
  if negb (bool_decide (written = Some (length buf))) then (kIOError, m, sys_unlink tmp_path fs) else
  let '(ok, fs) := sys_fsync tmp_path fs in
  if negb ok then (kIOError, m, sys_unlink tmp_path fs) else
  let '(ok, fs) := sys_rename tmp_path path fs in
  if negb ok then (kIOError, m, sys_unlink tmp_path fs) else
  (kOk, m, fs).

(** The read loop of [LoadState]: up to [count] bytes, stopping at the end of
    the file; [false] on an error other than [EINTR]. *)
Fixpoint read_upto (sc : script) (count pos : nat) (d : list Z) : bool * list Z * script :=
  match count with
  | O => (true, [], sc)
  | _ =>
    match sc with
    | [] => (true, slice pos count d, [])
    | Eintr :: sc => read_upto sc count pos d
    | Eio :: sc => (false, [], sc)
    | Short n :: sc =>
        let got := slice pos (Nat.min (S n) count) d in
        if (length got =? 0)%nat then (true, [], sc) else
        let '(ok, rest, sc) := read_upto sc (count - length got) (pos + length got) d in
        (ok, got ++ rest, sc)
    end
  end.

(** The lambda [read_ids]: a count, then that many ids. *)
Fixpoint read_n (n : nat) (p : list Z) : option (list Z * list Z) :=
  match n with
  | O => Some ([], p)
  | S n =>
      '(v, p) ← GetU32 p;
      '(out, p) ← read_n n p;
      Some (v :: out, p)
  end.

Definition read_ids (p : list Z) : option (list Z * list Z) :=
  '(count, p) ← GetU32 p; read_n (Z.to_nat count) p.

(** The three lists of a state file; [None] when it is malformed. *)
Definition parse_state (buf : list Z) : option (list Z * list Z * list Z) :=
  '(magic, p) ← GetU32 buf;
  if negb (magic =? kStateMagic) then None else
  '(version, p) ← GetU32 p;
  if negb (version =? kStateVersion) then None else
  '(full, p) ← read_ids p;
  '(appending, p) ← read_ids p;
  '(idle, p) ← read_ids p;
  Some (full, appending, idle).

(** Applying the lists: the saved classes, in this order, for the segments
    the manager has; the classified ids so far. *)
Definition load_full (m : SegmentManager H) (classified : gset Z) (ids : list Z)
    : SegmentManager H * gset Z :=
  foldl (fun '(m, cl) id =>
    if bool_decide (segments_ m !! id = None) then (m, cl)
    else (set_classes (idle_set_ m) (appending_set_ m) ({[id]} ∪ full_set_ m) (full_order_ m ++ [id]) m,
          {[id]} ∪ cl)) (m, classified) ids.

Definition load_appending (m : SegmentManager H) (classified : gset Z) (ids : list Z)
    : SegmentManager H * gset Z :=
  foldl (fun '(m, cl) id =>
    if bool_decide (segments_ m !! id = None) || bool_decide (id ∈ cl) then (m, cl)
    else (set_classes (idle_set_ m) ({[id]} ∪ appending_set_ m) (full_set_ m) (full_order_ m) m,
          {[id]} ∪ cl)) (m, classified) ids.

Definition load_idle (m : SegmentManager H) (classified : gset Z) (ids : list Z)
    : SegmentManager H * gset Z :=
  foldl (fun '(m, cl) id =>
    if bool_decide (segments_ m !! id = None) || bool_decide (id ∈ cl) then (m, cl)
    else (set_classes ({[id]} ∪ idle_set_ m) (appending_set_ m) (full_set_ m) (full_order_ m) m,
          {[id]} ∪ cl)) (m, classified) ids.

(** The remaining segments, in iteration order, by their own state. *)
Definition load_rest (m : SegmentManager H) (classified : gset Z) (ids : list Z) : SegmentManager H :=
  foldl (fun m id =>
    if bool_decide (id ∈ classified) then m else
    match segments_ m !! id with
    | None => m
    | Some seg => classify id (GetState (seg_base seg)) m
    end) m ids.

Definition apply_state (full appending idle : list Z) (m : SegmentManager H) : SegmentManager H :=
  let m := set_classes ∅ ∅ ∅ [] m in
  let '(m, cl) := load_full m ∅ full in
  let '(m, cl) := load_appending m cl appending in
  let '(m, cl) := load_idle m cl idle in
  let ids := iter (clock_ m) (dom (segments_ m)) in
  load_rest (tick m) cl ids.

Definition LoadState (path : string) (m : SegmentManager H) (fs : FS)
    : Status * SegmentManager H * FS :=
  let '(exists_, fs) := sys_stat path fs in
  if negb exists_ then (kOk, m, fs) else
  let size := match fs_files fs !! path with Some f => length (f_data f) | None => O end in
  if (size <? 8)%nat then (kCorruption, m, fs) else
  let '(ok, fs) := sys_open path false false fs in
  if negb ok then (kIOError, m, fs) else
  let data := match fs_files fs !! path with Some f => f_data f | None => [] end in
  let '(ok, got, sc) := read_upto (fs_script fs) size 0 data in
  let fs := set_script sc fs in
  if negb ok then (kIOError, m, fs) else
  let buf := got ++ replicate (size - length got) 0 in
  match parse_state buf with
  | None => (kCorruption, m, fs)
  | Some (full, appending, idle) => (kOk, apply_state full appending idle m, fs)
  end.

End persist.

(** ** Compaction *)

Section compaction.
  Context {H W : Type} `{SlotStore H W} (iter : nat -> gset Z -> list Z).

(** The first loop of [RunCompaction]: full segments that are not hot and need
    compaction.  Every full id is dereferenced. *)
Fixpoint candidates (ids : list Z) (m : SegmentManager H) : Outcome (list Z) :=
  match ids with
  | [] => Ret []
  | id :: ids =>
    match segments_ m !! id with
    | None => UB
    | Some seg =>
      rest ← candidates ids m;
      Ret (if negb (bool_decide (id ∈ hot_segments_ m)) && NeedsCompaction (seg_base seg)
           then id :: rest else rest)
    end
  end.

(** The bookkeeping after a segment was compacted into [target]. *)
Definition finish_compaction (src_id target_id : Z) (m : SegmentManager H) : SegmentManager H :=
  let m := set_classes ({[src_id]} ∪ idle_set_ m) (appending_set_ m) (full_set_ m ∖ {[src_id]})
             (erase_remove src_id (full_order_ m)) m in
  match GetState <$> (seg_base <$> segments_ m !! target_id) with
  | Some FULL =>
      set_classes (idle_set_ m) (appending_set_ m ∖ {[target_id]}) ({[target_id]} ∪ full_set_ m)
        (full_order_ m ++ [target_id]) m
  | _ => m
  end.

(** The second loop.  [cb] is [slot_move_cb_], acting on the client state [x].
    Compacting a segment into itself would lock its mutex twice. *)
Fixpoint compact_candidates {X} (cb : option (SlotMoveCallback X)) (ids : list Z)
    (m : SegmentManager H) (w : W) (x : X) : Outcome (Status * SegmentManager H * W * X) :=
  match ids with
  | [] => Ret (kOk, m, w, x)
  | src_id :: ids =>
    '(active, m) ← GetActiveSegment iter m;
    match active with
    | None => Ret (kNoSpace, m, w, x)
    | Some target_id =>
      match segments_ m !! src_id with
      | None => compact_candidates cb ids m w x
      | Some src =>
        if bool_decide (target_id = src_id) then UB else
        match segments_ m !! target_id with
        | None => UB
        | Some target =>
          let '(st, src, target, w, x) := Compact (Some target) cb src w x in
          let m := set_segments (<[src_id := src]> (segments_ m)) m in
          let m := match target with
                   | Some target => set_segments (<[target_id := target]> (segments_ m)) m
                   | None => m
                   end in
          if negb (status_is_ok st) then Ret (st, m, w, x) else
          compact_candidates cb ids (finish_compaction src_id target_id m) w x
        end
      end
    end
  end.

Definition RunCompaction {X} (cb : option (SlotMoveCallback X)) (m : SegmentManager H) (w : W) (x : X)
    : Outcome (Status * SegmentManager H * W * X) :=
  let ids := iter (clock_ m) (full_set_ m) in
  let m := tick m in
  cands ← candidates ids m;
  compact_candidates cb cands m w x.

End compaction.

(** ** Hot and cold segments *)

Section heat.
  Context {H : Type} (iter : nat -> gset Z -> list Z).

Definition RecordAccess (segment_id : Z) (m : SegmentManager H) : SegmentManager H :=
  let c := default 0 (access_counters_ m !! segment_id) in
  set_heat (<[segment_id := u64 (c + 1)]> (access_counters_ m)) (hot_segments_ m) m.

(** The promotion loop. *)
Definition promote (threshold max : Z) (acc : gmap Z Z) (ids : list Z) (hot : gset Z) : gset Z :=
  foldl (fun hot id =>
    let count := default 0 (acc !! id) in
    if (count >=? threshold) && negb (bool_decide (id ∈ hot)) && (Z.of_nat (size hot) <? max)
    then {[id]} ∪ hot else hot) hot ids.

(** The demotion loop: those without a counter, or below the threshold. *)
Definition demote (threshold : Z) (acc : gmap Z Z) (ids : list Z) (hot : gset Z) : gset Z :=
  foldl (fun hot id =>
    match acc !! id with
    | Some c => if c <? threshold then hot ∖ {[id]} else hot
    | None => hot ∖ {[id]}
    end) hot ids.

(** The inner loop of the eviction: the first id with the least count below
    [UINT64_MAX], 0 if there is none. *)
Definition victim (acc : gmap Z Z) (ids : list Z) : Z :=
  (foldl (fun '(v, mn) id =>
    let c := default 0 (acc !! id) in
    if c <? mn then (id, c) else (v, mn)) (0, UINT64_MAX) ids).1.

(** The eviction loop; [None] when [fuel] does not suffice. *)
Fixpoint evict (fuel : nat) (max : Z) (acc : gmap Z Z) (n : nat) (hot : gset Z)
    : option (gset Z * nat) :=
  if Z.of_nat (size hot) <=? max then Some (hot, n) else
  match fuel with
  | O => None
  | S fuel => evict fuel max acc (S n) (hot ∖ {[victim acc (iter n hot)]})
  end.

Definition EvaluateHotCold (hot_threshold max_hot_segments : Z) (m : SegmentManager H)
    : option (Status * SegmentManager H) :=
  let acc := access_counters_ m in
  let hot := promote hot_threshold max_hot_segments acc (iter (clock_ m) (dom acc)) (hot_segments_ m) in
  let hot := demote hot_threshold acc (iter (S (clock_ m)) hot) hot in
  '(hot, n) ← evict (S (size hot)) max_hot_segments acc (S (S (clock_ m))) hot;
  Some (kOk, set_clock n (set_heat ∅ hot m)).

Definition IsHotSegment (segment_id : Z) (m : SegmentManager H) : bool :=
  bool_decide (segment_id ∈ hot_segments_ m).

End heat.

(** ** Queries *)

Definition GetTotalSegments {H} (m : SegmentManager H) : Z := u32 (Z.of_nat (size (segments_ m))).
Definition GetIdleSegments {H} (m : SegmentManager H) : Z := u32 (Z.of_nat (size (idle_set_ m))).
Definition GetFullSegments {H} (m : SegmentManager H) : Z := u32 (Z.of_nat (size (full_set_ m))).
Definition GetFullSegmentOrder {H} (m : SegmentManager H) : list Z := full_order_ m.

(** ** The classification is a partition *)

(** Every registered segment is in exactly one of the three sets, [full_order_]
    lists the full ones without repetition, and ids are keys.  [part_at] is the
    condition at one id, on the membership bits. *)
Definition part_at (idle app full order registered : bool) : bool :=
  eqb registered (idle || app || full) && negb (idle && app) && negb (idle && full) &&
  negb (app && full) && eqb order full.

Definition mem (x : Z) (X : gset Z) : bool := bool_decide (x ∈ X).
Definition mem_l (x : Z) (l : list Z) : bool := bool_decide (x ∈ l).
Definition registered {H} (x : Z) (m : SegmentManager H) : bool :=
  bool_decide (is_Some (segments_ m !! x)).

Record mgr_part {H} (m : SegmentManager H) : Prop := {
  mp_at : forall id, part_at (mem id (idle_set_ m)) (mem id (appending_set_ m))
    (mem id (full_set_ m)) (mem_l id (full_order_ m)) (registered id m) = true;
  mp_nodup : NoDup (full_order_ m);
  mp_ids : forall id s, segments_ m !! id = Some s -> GetSegmentId s = id;
}.

Lemma NoDup_snoc (l : list Z) x : NoDup l -> x ∉ l -> NoDup (l ++ [x]).
Proof.
  intros Hl Hx. apply NoDup_app. split; [done|]. split; [|apply NoDup_singleton].
  intros y Hy ->%list_elem_of_singleton. done.
Qed.

Lemma erase_remove_nodup x l : NoDup l -> NoDup (erase_remove x l).
Proof. apply NoDup_filter. Qed.

(** Membership bits after the updates of the code. *)
Lemma mem_add x id X : mem x ({[id]} ∪ X) = bool_decide (x = id) || mem x X.
Proof.
  unfold mem. rewrite <- bool_decide_or. apply bool_decide_ext. by rewrite elem_of_union, elem_of_singleton.
Qed.
Lemma mem_remove x id X : mem x (X ∖ {[id]}) = mem x X && negb (bool_decide (x = id)).
Proof.
  unfold mem. rewrite <- bool_decide_not, <- bool_decide_and. apply bool_decide_ext.
  by rewrite elem_of_difference, elem_of_singleton.
Qed.
Lemma mem_empty x : mem x ∅ = false.
Proof. apply bool_decide_eq_false_2. apply not_elem_of_empty. Qed.
Lemma mem_snoc x id l : mem_l x (l ++ [id]) = mem_l x l || bool_decide (x = id).
Proof.
  unfold mem_l. rewrite <- bool_decide_or. apply bool_decide_ext. by rewrite elem_of_app, list_elem_of_singleton.
Qed.
Lemma mem_erase x id l : mem_l x (erase_remove id l) = mem_l x l && negb (bool_decide (x = id)).
Proof.
  unfold mem_l, erase_remove. rewrite <- bool_decide_not, <- bool_decide_and. apply bool_decide_ext.
  rewrite list_elem_of_filter. tauto.
Qed.
Lemma registered_add {H} x id (seg : Segment H) m :
  registered x (set_segments (<[id := seg]> (segments_ m)) m) = bool_decide (x = id) || registered x m.
Proof.
  unfold registered. cbn. rewrite <- bool_decide_or. apply bool_decide_ext.
  destruct (decide (x = id)) as [->|].
  - rewrite lookup_insert_eq. split; eauto.
  - rewrite lookup_insert_ne by done. split; [auto|]. by intros [->|?].
Qed.
Create Rewrite HintDb mem_db.
#[export] Hint Rewrite mem_add mem_remove mem_empty mem_snoc mem_erase @registered_add : mem_db.

(** [bits] decides a goal on membership bits by cases. *)
Ltac bits :=
  repeat match goal with
  | H : context [mem ?x ?X] |- _ => destruct (mem x X)
  | H : context [mem_l ?x ?l] |- _ => destruct (mem_l x l)
  | H : context [registered ?x ?m] |- _ => destruct (registered x m)
  | |- context [mem ?x ?X] => destruct (mem x X)
  | |- context [mem_l ?x ?l] => destruct (mem_l x l)
  | |- context [registered ?x ?m] => destruct (registered x m)
  end; try done.

(** [bits_at x id] the same, for [x] after an update at [id]. *)
Ltac bits_at x id :=
  autorewrite with mem_db; destruct (decide (x = id)) as [->|];
  [rewrite ?(bool_decide_eq_true_2 (id = id)) by done|rewrite ?(bool_decide_eq_false_2 (x = id)) by done];
  bits.

Section part.
  Context {H : Type}.
  Implicit Types (m : SegmentManager H).

Lemma mem_true x X : mem x X = true <-> x ∈ X.
Proof. apply bool_decide_eq_true. Qed.
Lemma mem_l_true x l : mem_l x l = true <-> x ∈ l.
Proof. apply bool_decide_eq_true. Qed.
Lemma mem_l_false x l : mem_l x l = false <-> x ∉ l.
Proof. apply bool_decide_eq_false. Qed.
Lemma registered_true x m : registered x m = true <-> is_Some (segments_ m !! x).
Proof. apply bool_decide_eq_true. Qed.

Lemma SegmentManager_new_part : mgr_part (H := H) SegmentManager_new.
Proof.
  split; cbn.
  - intros id. rewrite !mem_empty. done.
  - constructor.
  - intros id s. by rewrite lookup_empty.
Qed.

Lemma classify_part id st m seg :
  mgr_part m -> segments_ m !! id = None -> GetSegmentId seg = id ->
  mgr_part (classify id st (set_segments (<[id := seg]> (segments_ m)) m)).
Proof.
  intros Hp Hid Eid. pose proof (mp_at _ Hp id) as Hat.
  assert (registered id m = false) as Hr by (unfold registered; by rewrite Hid).
  rewrite Hr in Hat.
  assert (forall x s, <[id := seg]> (segments_ m) !! x = Some s -> GetSegmentId s = x) as Hids.
  { intros x s [[<- <-]|[_ ?]]%lookup_insert_Some; [done|]. by eapply mp_ids. }
  assert (NoDup (full_order_ m ++ [id])) as Hn.
  { apply NoDup_snoc; [apply Hp|]. apply mem_l_false. bits. }
  destruct st; (split; cbn [classify set_classes idle_set_ appending_set_ full_set_ full_order_ segments_ set_segments];
    [|apply Hp || done|done]); intros x; pose proof (mp_at _ Hp x) as Hx;
    change (registered x _) with (registered x (set_segments (<[id := seg]> (segments_ m)) m));
    bits_at x id.
Qed.

Lemma AddSegment_part segment m st m' :
  mgr_part m -> AddSegment segment m = (st, m') -> mgr_part m'.
Proof.
  intros Hp E. unfold AddSegment in E. destruct segment as [seg|]; [|by simplify_eq].
  case_bool_decide as Hin; [by simplify_eq|]. injection E as <- <-.
  by apply classify_part; [|apply eq_None_not_Some|].
Qed.

Lemma MarkSegmentFull_part id m st m' :
  mgr_part m -> MarkSegmentFullInternal id m = (st, m') -> mgr_part m'.
Proof.
  intros Hp E. unfold MarkSegmentFullInternal in E.
  change (bool_decide (is_Some _)) with (registered id m) in E.
  change (bool_decide (id ∈ _)) with (mem id (full_set_ m)) in E.
  pose proof (mp_at _ Hp id) as Hat.
  destruct (registered id m) eqn:Er; cbn [negb] in E; [|by simplify_eq].
  destruct (mem id (full_set_ m)) eqn:Ef; [by simplify_eq|]. injection E as <- <-.
  split; cbn; [|apply NoDup_snoc; [apply Hp|apply mem_l_false; bits]|apply Hp].
  intros x. pose proof (mp_at _ Hp x) as Hx.
  change (registered x _) with (registered x m). bits_at x id.
Qed.

Lemma ReleaseSegment_part id m st m' :
  mgr_part m -> ReleaseSegment id m = (st, m') -> mgr_part m'.
Proof.
  intros Hp E. unfold ReleaseSegment in E.
  change (bool_decide (is_Some _)) with (registered id m) in E.
  destruct (registered id m) eqn:Er; cbn [negb] in E; [|by simplify_eq]. injection E as <- <-.
  split; cbn; [|apply erase_remove_nodup, Hp|apply Hp].
  intros x. pose proof (mp_at _ Hp x) as Hx.
  change (registered x _) with (registered x m). bits_at x id.
Qed.

Lemma tick_part m : mgr_part m -> mgr_part (tick m).
Proof. by intros []. Qed.

End part.

(** ** Choosing the active segment *)

Section active.
  Context {H : Type} (iter : nat -> gset Z -> list Z).
  Hypothesis iter_ok : forall n X, iter n X ≡ₚ elements X.
  Implicit Types (m : SegmentManager H).

Lemma iter_elem n X id : id ∈ iter n X <-> id ∈ X.
Proof using iter_ok. by rewrite iter_ok, elem_of_elements. Qed.

(** The manager after promoting [id] from idle to appending. *)
Definition promoted (id : Z) m : SegmentManager H :=
  set_classes (idle_set_ m ∖ {[id]}) ({[id]} ∪ appending_set_ m) (full_set_ m) (full_order_ m)
    (tick (tick m)).

(** The results [GetActiveSegment] can have. *)
Inductive active_result m : Outcome (option Z * SegmentManager H) -> Prop :=
  | ar_none : idle_set_ m = ∅ -> appending_set_ m = ∅ -> active_result m (Ret (None, tick m))
  | ar_append id seg : id ∈ appending_set_ m -> segments_ m !! id = Some seg ->
      0 < GetFreeSlots (seg_base seg) -> active_result m (Ret (Some id, tick m))
  | ar_promote id seg : appending_set_ m = ∅ -> id ∈ idle_set_ m -> segments_ m !! id = Some seg ->
      active_result m (Ret (Some id, promoted id m))
  | ar_ub id seg : id ∈ appending_set_ m -> segments_ m !! id = Some seg ->
      GetFreeSlots (seg_base seg) = 0 -> active_result m UB.

Lemma mp_registered m id :
  mgr_part m -> id ∈ idle_set_ m \/ id ∈ appending_set_ m \/ id ∈ full_set_ m ->
  exists seg, segments_ m !! id = Some seg.
Proof.
  intros Hp Hin. pose proof (mp_at _ Hp id) as Hat. rewrite <- !mem_true in Hin.
  apply registered_true. destruct Hin as [E|[E|E]]; rewrite E in Hat; bits.
Qed.

Lemma GetFreeSlots_nonneg b : 0 <= GetFreeSlots b.
Proof. apply u32_range. Qed.

Lemma GetActiveSegment_result m :
  mgr_part m -> active_result m (GetActiveSegment iter m).
Proof using iter_ok.
  intros Hp. unfold GetActiveSegment.
  destruct (iter (clock_ m) (appending_set_ m)) as [|id ids] eqn:Ei; cbn [active_loop].
  - assert (appending_set_ m = ∅) as Ha.
    { apply leibniz_equiv, elements_empty_iff, Permutation_nil_r. by rewrite <- Ei, iter_ok. }
    unfold PromoteIdleSegment. cbn. case_bool_decide as Hi; [by constructor|].
    destruct (iter (S (clock_ m)) (idle_set_ m)) as [|id ids] eqn:Ej.
    + destruct Hi. apply leibniz_equiv, elements_empty_iff, Permutation_nil_r. by rewrite <- Ej, iter_ok.
    + assert (id ∈ idle_set_ m) as Hin by (apply (iter_elem (S (clock_ m))); rewrite Ej; by left).
      destruct (mp_registered m id Hp) as [seg Hs]; [auto|]. by econstructor.
  - assert (id ∈ appending_set_ m) as Hin by (apply (iter_elem (clock_ m)); rewrite Ei; by left).
    destruct (mp_registered m id Hp) as [seg Hs]; [auto|]. cbn. rewrite Hs.
    rewrite Z.gtb_ltb. destruct (Z.ltb_spec 0 (GetFreeSlots (seg_base seg))); [by econstructor|].
    assert (GetFreeSlots (seg_base seg) = 0) by (pose proof (GetFreeSlots_nonneg (seg_base seg)); lia).
    unfold MarkSegmentFullInternal. cbn. rewrite Hs, bool_decide_eq_true_2 by done. cbn.
    rewrite (bool_decide_eq_false_2 (id ∈ full_set_ m)).
    + cbn. rewrite bool_decide_eq_false_2 by (rewrite elem_of_difference, elem_of_singleton; tauto). by econstructor.
    + pose proof (mp_at _ Hp id) as Hat. apply mem_true in Hin. rewrite Hin in Hat.
      rewrite <- mem_true. bits.
Qed.

Lemma promoted_part id m : mgr_part m -> id ∈ idle_set_ m -> mgr_part (promoted id m).
Proof.
  intros Hp Hid. apply mem_true in Hid. split; cbn; [|apply Hp..].
  intros x. pose proof (mp_at _ Hp x) as Hx. change (registered x _) with (registered x m). bits_at x id.
Qed.

Lemma GetActiveSegment_part m o m' :
  mgr_part m -> GetActiveSegment iter m = Ret (o, m') -> mgr_part m'.
Proof using iter_ok.
  intros Hp E. pose proof (GetActiveSegment_result m Hp) as Hr. rewrite E in Hr.
  inversion Hr; subst; [by apply tick_part..|]. by apply promoted_part.
Qed.

(** No appending segment is out of slots: the state in which the loop of
    [GetActiveSegment] does not erase while iterating. *)
Definition none_exhausted m : Prop :=
  forall id seg, id ∈ appending_set_ m -> segments_ m !! id = Some seg -> 0 < GetFreeSlots (seg_base seg).

Lemma GetActiveSegment_defined m :
  mgr_part m -> none_exhausted m -> exists o m', GetActiveSegment iter m = Ret (o, m').
Proof using iter_ok.
  intros Hp Hn. destruct (GetActiveSegment_result m Hp) as [| | |id seg Hid Hs Hf]; eauto.
  specialize (Hn _ _ Hid Hs). lia.
Qed.

End active.

(** ** What compaction does to the stored slots *)

Section compact.
  Context {H W : Type} `{SlotStoreLaws H W} (iter : nat -> gset Z -> list Z).
  Hypothesis iter_ok : forall n X, iter n X ≡ₚ elements X.
  Implicit Types (m : SegmentManager H) (w : W).

(** All segments are usable, have configuration [c] and do not overlap. *)
Record mgr_segs (c : SegmentConfig) m w : Prop := {
  ms_ok : forall id s, segments_ m !! id = Some s -> seg_ok s w /\ config_ (seg_base s) = c;
  ms_sep : forall i j s t, segments_ m !! i = Some s -> segments_ m !! j = Some t -> i <> j ->
    st_sep (seg_handle s) (seg_handle t);
}.

(** The payload stored in slot [i] of segment [id]. *)
Definition stored : Type := Z -> Z -> option (list Z * list Z).
Definition mgr_view m w : stored := fun id i => s ← segments_ m !! id; seg_map s w !! i.

(** [v'] is [v] after moving [ms] from segment [src] to the slots of [tgt] from
    [c] on; with [all] the source was emptied, and everything in it moved. *)
Record relocated (cap : Z) (v : stored) (src tgt c : Z) (ms : list (Z * (list Z * list Z)))
    (all : bool) (v' : stored) : Prop := {
  re_ne : src <> tgt;
  re_nodup : NoDup ms.*1;
  re_src : forall i p, (i, p) ∈ ms -> v src i = Some p;
  re_all : all = true -> forall i p, v src i = Some p -> (i, p) ∈ ms;
  re_bound : 0 <= c /\ c + Z.of_nat (length ms) <= cap;
  re_fresh : forall j, c <= j -> v tgt j = None;
  re_view_tgt : forall j, v' tgt j =
    if decide (c <= j < c + Z.of_nat (length ms)) then snd <$> ms !! Z.to_nat (j - c) else v tgt j;
  re_view_src : forall j, v' src j = if all then None else v src j;
  re_view_other : forall a j, a <> src -> a <> tgt -> v' a j = v a j;
}.

Lemma config_same_compactible s t c :
  config_ (seg_base s) = c -> config_ (seg_base t) = c ->
  st_sep (seg_handle t) (seg_handle s) -> compactible s t.
Proof. intros Es Et Hs. unfold compactible, key_bytes, value_bytes. by rewrite Es, Et. Qed.

Lemma seg_map_past s w j :
  seg_ok s w -> append_cursor_ (seg_base s) <= j -> seg_map s w !! j = None.
Proof.
  intros [Hi _ (d & Hd & _)] Hj. rewrite (seg_map_data _ _ _ Hd), slot_map_lookup.
  case_decide; [|done]. rewrite (si_free _ Hi) by lia. done.
Qed.

Lemma live_slots_nodup (mp : gmap Z (list Z * list Z)) slots :
  NoDup slots -> NoDup (live_slots mp slots).*1.
Proof.
  unfold live_slots. induction 1 as [|i l Hi Hl IH]; [constructor|]. cbn.
  destruct (mp !! i) as [p|]; cbn; [|done]. constructor; [|done].
  intros ([j q] & Ej & Hin)%list_elem_of_fmap. cbn in Ej. subst j.
  apply list_elem_of_omap in Hin as (z & Hz & E). destruct (mp !! z); [|done]. cbn in E. by simplify_eq.
Qed.

(** One [Compact] call inside the manager. *)
Lemma Compact_relocates {X} (cb : option (SlotMoveCallback X)) c m w x src_id tgt_id s t st s' ot w' x' :
  mgr_segs c m w -> segments_ m !! src_id = Some s -> segments_ m !! tgt_id = Some t ->
  GetSegmentId s = src_id -> GetSegmentId t = tgt_id -> src_id <> tgt_id ->
  Compact (Some t) cb s w x = (st, s', ot, w', x') ->
  exists t' ms all, ot = Some t' /\
    let m' := set_segments (<[tgt_id := t']> (<[src_id := s']> (segments_ m))) m in
    mgr_segs c m' w' /\
    relocated (lay_total_slots (CalculateLayout c)) (mgr_view m w) src_id tgt_id
      (append_cursor_ (seg_base t)) ms all (mgr_view m' w') /\
    x' = run_moves cb src_id tgt_id (append_cursor_ (seg_base t)) ms x /\
    (st = kOk -> all = true) /\
    (all = true -> seg_base s' = ResetBitmap (seg_base s)) /\ (all = false -> s' = s) /\
    seg_same s s' /\ seg_same t t' /\
    append_cursor_ (seg_base t') = append_cursor_ (seg_base t) + Z.of_nat (length ms) /\
    (st_quiet w -> st_quiet w').
Proof.
  intros [Hok Hsep] Hs Ht Is It Hne E.
  destruct (Hok _ _ Hs) as [Hso Hsc]. destruct (Hok _ _ Ht) as [Hto Htc].
  apply Compact_spec in E as (t' & ms & -> & Hpre & Hcp & -> & Hres & Hst & Hq);
    [|done|done|eapply config_same_compactible; eauto].
  set (live := live_slots (seg_map s w) (seqZ 0 (append_cursor_ (seg_base s)))) in *.
  assert (exists all : bool, (st = kOk -> all = true) /\
    (all = true -> ms = live /\ seg_base s' = ResetBitmap (seg_base s) /\ seg_map s' w' = ∅) /\
    (all = false -> s' = s /\ seg_map s' w' = seg_map s w)) as (all & Ha1 & Ha2 & Ha3).
  { destruct Hres as [(? & ? & ?)|?]; [by exists false|by exists true]. }
  destruct Hcp as [Cs Css Ct Cts Cf Cc Cm]. rewrite Is, It.
  exists t', ms, all. split; [done|]. cbv zeta.
  set (m' := set_segments _ m).
  assert (segments_ m' !! tgt_id = Some t') as Lt by apply lookup_insert_eq.
  assert (segments_ m' !! src_id = Some s') as Ls.
  { cbn. rewrite lookup_insert_ne by done. apply lookup_insert_eq. }
  assert (forall a, a <> src_id -> a <> tgt_id -> segments_ m' !! a = segments_ m !! a) as Lo.
  { intros a ? ?. cbn. by rewrite !lookup_insert_ne by done. }
  assert (forall a u, segments_ m !! a = Some u -> a <> src_id -> a <> tgt_id ->
    st_data (seg_handle u) w' = st_data (seg_handle u) w) as Lf.
  { intros a u Hu Ha1' Ha2'. apply Cf; eauto. }
  assert (forall a u, segments_ m' !! a = Some u -> exists u0, segments_ m !! a = Some u0 /\
    seg_handle u = seg_handle u0) as Lh.
  { intros a u Hu. destruct (decide (a = tgt_id)) as [->|]; [|destruct (decide (a = src_id)) as [->|]].
    - rewrite Lt in Hu. injection Hu as <-. exists t. split; [done|]. apply Cts.
    - rewrite Ls in Hu. injection Hu as <-. exists s. split; [done|]. apply Css.
    - rewrite Lo in Hu by done. eauto. }
  split; [split|split; [|split; [done|]; split; [done|]]].
  - intros a u Hu. destruct (decide (a = tgt_id)) as [->|]; [|destruct (decide (a = src_id)) as [->|]].
    + rewrite Lt in Hu. injection Hu as <-. split; [done|]. by rewrite (proj1 (proj2 (proj2 (proj2 Cts)))).
    + rewrite Ls in Hu. injection Hu as <-. split; [done|]. by rewrite (proj1 (proj2 (proj2 (proj2 Css)))).
    + rewrite Lo in Hu by done. destruct (Hok _ _ Hu). split; [|done]. eapply seg_ok_frame; [by eapply Lf|done].
  - intros i j u1 u2 (v1 & ? & ->)%Lh (v2 & ? & ->)%Lh Hij. eauto.
  - assert (forall a j, a <> src_id -> a <> tgt_id -> mgr_view m' w' a j = mgr_view m w a j) as Vo.
    { intros a j ? ?. unfold mgr_view. rewrite Lo by done. destruct (segments_ m !! a) as [u|] eqn:Hu; [|done].
      cbn. by rewrite (seg_map_frame u w w') by (by eapply Lf). }
    assert (forall j, mgr_view m w src_id j = seg_map s w !! j) as Vs by (intros j; unfold mgr_view; by rewrite Hs).
    assert (forall j, mgr_view m w tgt_id j = seg_map t w !! j) as Vt by (intros j; unfold mgr_view; by rewrite Ht).
    assert (forall i p, (i, p) ∈ live <-> seg_map s w !! i = Some p) as Hlive by (intros; by apply live_slots_all).
    pose proof (si_cursor _ (so_inv _ _ Ct)) as Hct. pose proof (si_cursor _ (so_inv _ _ Hto)).
    split; try done.
    + destruct Hpre as [ext Eext]. assert (NoDup live.*1) as Hnd by (apply live_slots_nodup, NoDup_seqZ).
      rewrite Eext, fmap_app in Hnd. apply NoDup_app in Hnd. apply Hnd.
    + intros i p Hin. rewrite Vs. apply Hlive. destruct Hpre as [ext ->]. apply elem_of_app. by left.
    + intros -> i p. rewrite Vs, <- Hlive. destruct (Ha2 eq_refl) as [-> _]. done.
    + split; [lia|]. rewrite <- Cc. etrans; [apply Hct|].
      rewrite (sl_total _ (si_layout _ (so_inv _ _ Ct))), (proj1 (proj2 (proj2 (proj2 Cts)))), Htc. done.
    + intros j Hj. rewrite Vt. by apply seg_map_past.
    + intros j. rewrite Vt. unfold mgr_view. rewrite Lt. cbn. by rewrite Cm, place_lookup.
    + intros j. rewrite Vs. unfold mgr_view. rewrite Ls. cbn. destruct all.
      * destruct (Ha2 eq_refl) as (_ & _ & ->). apply lookup_empty.
      * by destruct (Ha3 eq_refl) as (_ & ->).
  - split; [intros ?; by apply Ha2|]. split; [intros ?; by apply Ha3|]. split; [done|]. split; [done|].
    split; [done|]. intros Hw. by destruct (Hq Hw).
Qed.

Lemma GetFreeSlots_inv b : seg_inv b -> GetFreeSlots b = total_slots_ b - used_slots_ b.
Proof.
  intros Hi. unfold GetFreeSlots. rewrite (si_deleted _ Hi).
  pose proof (seg_inv_used b Hi). pose proof (si_cursor b Hi). pose proof (seg_total_bounds b Hi).
  rewrite u32_small by lia. lia.
Qed.

(** Every idle or appending segment has a free slot. *)
Definition all_free m : Prop :=
  forall id seg, id ∈ idle_set_ m \/ id ∈ appending_set_ m -> segments_ m !! id = Some seg ->
    0 < GetFreeSlots (seg_base seg).

(** The chosen segment is one that can take an append, and the rest of the
    invariants survive. *)
Lemma GetActiveSegment_spec c m w :
  mgr_part m -> mgr_segs c m w ->
  match GetActiveSegment iter m with
  | UB => ~ all_free m
  | Ret (o, m') =>
      mgr_part m' /\ mgr_segs c m' w /\ segments_ m' = segments_ m /\ full_set_ m' = full_set_ m /\
      full_order_ m' = full_order_ m /\
      (all_free m -> all_free m') /\
      match o with
      | Some id => id ∈ appending_set_ m' /\ exists seg, segments_ m' !! id = Some seg
      | None => idle_set_ m = ∅ /\ appending_set_ m = ∅
      end
  end.
Proof using iter_ok.
  intros Hp Hs. destruct (GetActiveSegment_result iter iter_ok m Hp) as [? ?|id seg ? ? ?|id seg ? Hid ?|id seg Hid Hseg Hf].
  - split; [by apply tick_part|]. split; [by destruct Hs|]. done.
  - split; [by apply tick_part|]. split; [by destruct Hs|]. split; [done|]. split; [done|]. split; [done|].
    split; [done|]. split; [done|]. by exists seg.
  - split; [by apply promoted_part|]. split; [by destruct Hs|]. split; [done|]. split; [done|]. split; [done|]. split.
    + intros Hf i sg Hi. apply Hf. cbn in Hi. rewrite elem_of_difference, elem_of_union, elem_of_singleton in Hi.
      destruct Hi as [[? _]|[->|?]]; auto.
    + split; [|by exists seg]. cbn [appending_set_ promoted set_classes]. apply elem_of_union.
      left. by apply elem_of_singleton.
  - intros Hall. specialize (Hall id seg (or_intror Hid) Hseg). lia.
Qed.

Lemma finish_compaction_part src tgt m :
  mgr_part m -> src ∈ full_set_ m -> tgt ∈ appending_set_ m -> mgr_part (finish_compaction src tgt m).
Proof.
  intros Hp Hs Ht. pose proof (mp_at _ Hp src) as Has. pose proof (mp_at _ Hp tgt) as Hat.
  apply mem_true in Hs, Ht. rewrite Hs in Has. rewrite Ht in Hat.
  assert (src <> tgt) as Hne by (intros ->; rewrite Hs in Hat; clear Has; bits).
  clear Has Hat. set (m1 := set_classes ({[src]} ∪ idle_set_ m) (appending_set_ m) (full_set_ m ∖ {[src]})
    (erase_remove src (full_order_ m)) m).
  assert (mgr_part m1) as Hp1.
  { split; cbn; [|apply erase_remove_nodup, Hp|apply Hp]. intros x. pose proof (mp_at _ Hp x) as Hx.
    change (registered x m1) with (registered x m). autorewrite with mem_db.
    destruct (decide (x = src)) as [->|].
    - rewrite Hs in *. rewrite !(bool_decide_eq_true_2 (src = src)) by done. clear Ht Hs. bits.
    - rewrite !(bool_decide_eq_false_2 (x = src)) by done. clear Ht Hs. bits. }
  unfold finish_compaction. fold m1. destruct (GetState <$> _) as [[]|]; try done.
  assert (mem tgt (appending_set_ m1) = true) as Ht1 by done. clear Hs Ht.
  pose proof (mp_at _ Hp1 tgt) as Hat1. rewrite Ht1 in Hat1.
  split; [|apply NoDup_snoc; [apply Hp1|apply mem_l_false; clear Ht1; bits]|apply Hp1].
  intros x. pose proof (mp_at _ Hp1 x) as Hx. cbn [set_classes idle_set_ appending_set_ full_set_ full_order_].
  change (registered x _) with (registered x m1). autorewrite with mem_db.
  destruct (decide (x = tgt)) as [->|].
  - rewrite Ht1 in *. rewrite ?(bool_decide_eq_true_2 (tgt = tgt)) by done. clear Ht1 Hat1. bits.
  - rewrite ?(bool_decide_eq_false_2 (x = tgt)) by done. clear Ht1 Hat1. bits.
Qed.

(** The same, for the classes after a compaction. *)
Lemma finish_compaction_full src tgt m id :
  id ∈ full_set_ m -> id <> src -> id ∈ full_set_ (finish_compaction src tgt m).
Proof.
  intros Hid Hne. unfold finish_compaction. destruct (GetState <$> _) as [[]|]; cbn;
    rewrite ?elem_of_union, elem_of_difference, !elem_of_singleton; tauto.
Qed.

Lemma finish_compaction_free c src tgt m w :
  mgr_segs c m w -> 0 < lay_total_slots (CalculateLayout c) ->
  (forall id seg, id <> src -> id <> tgt -> id ∈ idle_set_ m \/ id ∈ appending_set_ m ->
     segments_ m !! id = Some seg -> 0 < GetFreeSlots (seg_base seg)) ->
  (forall seg, segments_ m !! src = Some seg -> used_slots_ (seg_base seg) = 0) ->
  src ∉ appending_set_ m -> tgt ∉ idle_set_ m -> src <> tgt ->
  all_free (finish_compaction src tgt m).
Proof.
  intros Hs Hcap Hf Hsrc Hsa Hti Hne id seg Hid Hseg.
  assert (segments_ (finish_compaction src tgt m) = segments_ m) as Eseg.
  { unfold finish_compaction. by destruct (GetState <$> _) as [[]|]. }
  rewrite Eseg in Hseg. destruct (ms_ok _ _ _ Hs _ _ Hseg) as [[Hi _ _] Hc].
  rewrite GetFreeSlots_inv by done. pose proof (sl_total _ (si_layout _ Hi)) as Et. rewrite Hc in Et.
  destruct (decide (id = src)) as [->|Hns]; [rewrite (Hsrc _ Hseg); lia|].
  destruct (decide (id = tgt)) as [->|Hnt].
  - unfold finish_compaction in Hid. cbn [segments_ set_classes] in Hid. rewrite Hseg in Hid. cbn in Hid.
    unfold GetState in Hid. rewrite (si_state _ Hi) in Hid. unfold state_of in Hid.
    pose proof (seg_inv_used _ Hi). pose proof (si_cursor _ Hi).
    destruct (Z.eqb_spec (used_slots_ (seg_base seg)) 0); [lia|]. cbn [andb] in Hid.
    rewrite Z.geb_leb in Hid. destruct (Z.leb_spec (total_slots_ (seg_base seg)) (append_cursor_ (seg_base seg)));
      [|lia].
    exfalso. cbn in Hid. rewrite elem_of_union, elem_of_difference, !elem_of_singleton in Hid.
    destruct Hid as [[?|?]|[_ ?]]; congruence.
  - rewrite <- GetFreeSlots_inv by done. eapply (Hf id); try done.
    unfold finish_compaction in Hid. destruct (GetState <$> _) as [[]|]; cbn in Hid;
      rewrite ?elem_of_union, ?elem_of_difference, ?elem_of_singleton in Hid; tauto.
Qed.

(** Replacing a segment object by its successor, after an operation on it. *)
Definition put_segment (id : Z) (s : Segment H) m : SegmentManager H :=
  set_segments (<[id := s]> (segments_ m)) m.

Lemma put_segment_part id s s' m :
  mgr_part m -> segments_ m !! id = Some s -> segment_id_ (seg_base s') = segment_id_ (seg_base s) ->
  mgr_part (put_segment id s' m).
Proof.
  intros Hp Hs Eid. split; [|apply Hp|].
  - intros x. rewrite <- (mp_at _ Hp x). f_equal. unfold registered, put_segment. cbn.
    apply bool_decide_ext. rewrite lookup_insert_is_Some'. split; [|auto]. intros [<-|?]; eauto.
  - intros x u. cbn. intros [[<- <-]|[_ ?]]%lookup_insert_Some.
    + unfold GetSegmentId. rewrite Eid. by eapply mp_ids.
    + by eapply mp_ids.
Qed.

Lemma put_segment_segs c id s s' m w w' :
  mgr_segs c m w -> segments_ m !! id = Some s -> seg_ok s' w' -> seg_same s s' -> seg_frame s w w' ->
  mgr_segs c (put_segment id s' m) w'.
Proof.
  intros [Hok Hsep] Hs Hs' (Eh & _ & (_ & Ec & _)) Hf.
  assert (forall x u, <[id := s']> (segments_ m) !! x = Some u -> exists u0, segments_ m !! x = Some u0 /\
    seg_handle u = seg_handle u0) as Lh.
  { intros x u [[<- <-]|[_ ?]]%lookup_insert_Some; eauto. }
  split; cbn.
  - intros x u [[<- <-]|[Hne Hu]]%lookup_insert_Some.
    + split; [done|]. rewrite Ec. by apply (Hok id).
    + destruct (Hok _ _ Hu). split; [|done]. eapply seg_ok_frame; [|done]. apply Hf. by eapply Hsep.
  - intros i j u1 u2 (v1 & ? & ->)%Lh (v2 & ? & ->)%Lh Hij. eauto.
Qed.

Lemma put_segment_view id s s' m w w' a j c :
  mgr_segs c m w -> segments_ m !! id = Some s -> seg_frame s w w' ->
  mgr_view (put_segment id s' m) w' a j =
  if decide (a = id) then seg_map s' w' !! j else mgr_view m w a j.
Proof.
  intros [_ Hsep] Hs Hf. unfold mgr_view, put_segment. cbn. case_decide as Ha.
  - subst a. by rewrite lookup_insert_eq.
  - rewrite lookup_insert_ne by done. destruct (segments_ m !! a) as [u|] eqn:Hu; [|done].
    cbn. rewrite (seg_map_frame u w w'); [done|]. apply Hf. by eapply Hsep.
Qed.

Section loop.
  Context {X : Type} (cb : option (SlotMoveCallback X)) (c : SegmentConfig) (D : gset Z)
    (P : stored -> X -> Prop).
  Hypothesis P_step : forall v x src tgt cur ms all v',
    src ∈ D -> tgt ∈ D ->
    P v x -> relocated (lay_total_slots (CalculateLayout c)) v src tgt cur ms all v' ->
    P v' (run_moves cb src tgt cur ms x).

(** The segments stay where they are stored, and nothing fails that does not
    fail in the store. *)
Definition store_kept (m : SegmentManager H) (w : W) (m' : SegmentManager H) (w' : W) : Prop :=
  seg_handle <$> segments_ m' = seg_handle <$> segments_ m /\ (st_quiet w -> st_quiet w').

(** Compaction keeps the registered ids, where they are stored, and every
    property of the stored slots and the client state that one relocation with
    its callbacks keeps. *)
Lemma compact_candidates_spec ids m w x :
  mgr_part m -> mgr_segs c m w -> dom (segments_ m) = D -> P (mgr_view m w) x -> NoDup ids -> Forall (.∈ full_set_ m) ids ->
  match compact_candidates iter cb ids m w x with
  | UB => ~ (all_free m /\ 0 < lay_total_slots (CalculateLayout c))
  | Ret (st, m', w', x') =>
      mgr_part m' /\ mgr_segs c m' w' /\ dom (segments_ m') = D /\ store_kept m w m' w' /\ P (mgr_view m' w') x'
  end.
Proof using iter_ok P_step.
  revert m w x. induction ids as [|src ids IH]; intros m w x Hp Hs HD HP Hnd Hf; cbn [compact_candidates].
  { do 3 (split; [done|]). split; [|done]. by split. }
  apply NoDup_cons in Hnd as [Hni Hnd]. apply Forall_cons in Hf as [Hsrc Hf].
  pose proof (GetActiveSegment_spec c m w Hp Hs) as Ha.
  destruct (GetActiveSegment iter m) as [[o m1]|]; cbn [mbind Outcome_bind]; [|tauto].
  destruct Ha as (Hp1 & Hs1 & Es1 & Ef1 & _ & Hfree1 & Ho).
  assert (P (mgr_view m1 w) x) as HP1 by (unfold mgr_view; rewrite Es1; exact HP).
  rewrite <- Es1 in HD. destruct o as [tgt|]; [|do 3 (split; [done|]); split; [|done]; split; [by rewrite Es1|done]].
  destruct Ho as (Htgt & t & Ht).
  rewrite <- Ef1 in Hsrc, Hf.
  destruct (mp_registered m1 src Hp1) as [s Hss]; [auto|]. rewrite Hss, Ht.
  pose proof (mp_at _ Hp1 src) as Hat. apply mem_true in Hsrc, Htgt. rewrite Hsrc in Hat.
  assert (tgt <> src) as Hne by (intros ->; rewrite Htgt in Hat; bits).
  rewrite bool_decide_eq_false_2 by done.
  destruct (Compact (Some t) cb s w x) as [[[[st s'] ot] w'] x'] eqn:E.
  apply (Compact_relocates cb c m1 w x src tgt) in E as
    (t' & ms & all & -> & Hs' & Hre & -> & Hst & Hall & Hnall & Hss' & Htt' & Hcur & Hqt);
    [|done|done|done|by eapply mp_ids|by eapply mp_ids|done].
  cbv zeta in Hs', Hre. cbn [segments_ set_segments].
  set (m2 := set_segments (<[tgt := t']> (<[src := s']> (segments_ m1))) m1) in *.
  assert (mgr_part m2) as Hp2.
  { split; [|apply Hp1|].
    - intros x0. pose proof (mp_at _ Hp1 x0) as Hx. rewrite <- Hx. f_equal. unfold registered. cbn.
      apply bool_decide_ext. rewrite !lookup_insert_is_Some'. split; [|auto].
      intros [<-|[<-|?]]; eauto.
    - intros id u. cbn. intros [[<- <-]|[_ [[<- <-]|[_ ?]]%lookup_insert_Some]]%lookup_insert_Some.
      + unfold GetSegmentId. rewrite (proj1 (proj2 (proj2 Htt'))). by eapply mp_ids.
      + unfold GetSegmentId. rewrite (proj1 (proj2 (proj2 Hss'))). by eapply mp_ids.
      + by eapply mp_ids. }
  assert (src ∈ D /\ tgt ∈ D) as [HDs HDt] by (rewrite <- HD; split; by eapply elem_of_dom_2).
  pose proof (P_step _ _ _ _ _ _ _ _ HDs HDt HP1 Hre) as HP2.
  assert (store_kept m w m2 w') as Hk2.
  { split; [|done]. rewrite <- Es1. cbn. rewrite !fmap_insert, (proj1 Hss'), (proj1 Htt').
    by rewrite (insert_id _ src), insert_id by (rewrite lookup_fmap, ?Hss, ?Ht; done). }
  assert (dom (segments_ m2) = D) as HD2.
  { cbn [segments_ m2 set_segments]. rewrite !dom_insert_L, HD.
    apply singleton_subseteq_l in HDs, HDt. by rewrite (subseteq_union_1_L _ _ HDs), (subseteq_union_1_L _ _ HDt). }
  change (set_segments _ _) with m2.
  destruct (decide (st = kOk)) as [->|Hne'].
  2: { replace (status_is_ok st) with false by by destruct st. done. }
  cbn [status_is_ok negb]. rewrite (Hst eq_refl) in *.
  assert (segments_ (finish_compaction src tgt m2) = segments_ m2) as Es3.
  { unfold finish_compaction. by destruct (GetState <$> _) as [[]|]. }
  assert (mgr_segs c (finish_compaction src tgt m2) w') as Hs3.
  { destruct Hs'. split; rewrite Es3; done. }
  apply mem_true in Hsrc, Htgt.
  assert (mgr_part (finish_compaction src tgt m2)) as Hp3 by (by apply finish_compaction_part).
  assert (P (mgr_view (finish_compaction src tgt m2) w')
    (run_moves cb src tgt (append_cursor_ (seg_base t)) ms x)) as HP3.
  { unfold mgr_view. rewrite Es3. exact HP2. }
  assert (Forall (.∈ full_set_ (finish_compaction src tgt m2)) ids) as Hf3.
  { apply Forall_forall. intros id Hid. rewrite Forall_forall in Hf.
    apply finish_compaction_full; [by apply Hf|]. intros ->. done. }
  rewrite <- Es3 in HD2. specialize (IH _ _ _ Hp3 Hs3 HD2 HP3 Hnd Hf3).
  destruct (compact_candidates _ _ _ _ _ _) as [[[[? ?] ?] ?]|].
  { destruct IH as (? & ? & ? & [Eh Hq3] & ?), Hk2 as [Eh2 Hq2]. do 3 (split; [done|]). split; [|done].
    split; [rewrite Eh, Es3; exact Eh2|]. intros Hw. by apply Hq3, Hq2. }
  intros [Hfr Hcap]. apply IH. split; [|done]. specialize (Hfree1 Hfr).
  apply (finish_compaction_free c _ _ _ w'); [done|done|..|by apply not_eq_sym].
  - intros id seg ? ? Hid. cbn. rewrite !lookup_insert_ne by done. by apply Hfree1.
  - intros seg. cbn. rewrite lookup_insert_ne, lookup_insert_eq by done. intros [= <-]. by rewrite Hall.
  - cbn. rewrite <- mem_true. bits.
  - cbn. pose proof (mp_at _ Hp1 tgt) as Hat'. apply mem_true in Htgt. rewrite Htgt in Hat'.
    rewrite <- mem_true. clear Hat. bits.
Qed.

Lemma candidates_spec ids m :
  mgr_part m -> Forall (.∈ full_set_ m) ids -> exists l, candidates ids m = Ret l /\ l `sublist_of` ids.
Proof.
  intros Hp. induction ids as [|id ids IH]; intros Hf; cbn [candidates]; [eauto|].
  apply Forall_cons in Hf as [Hid Hf]. destruct (mp_registered m id Hp) as [seg ->]; [auto|].
  destruct (IH Hf) as (l & -> & Hl). cbn [mbind Outcome_bind].
  case_match; eexists; (split; [done|]); by constructor.
Qed.

Lemma RunCompaction_spec m w x :
  mgr_part m -> mgr_segs c m w -> dom (segments_ m) = D -> P (mgr_view m w) x ->
  match RunCompaction iter cb m w x with
  | UB => ~ (all_free m /\ 0 < lay_total_slots (CalculateLayout c))
  | Ret (st, m', w', x') =>
      mgr_part m' /\ mgr_segs c m' w' /\ dom (segments_ m') = D /\ store_kept m w m' w' /\ P (mgr_view m' w') x'
  end.
Proof using iter_ok P_step.
  intros Hp Hs HD HP. unfold RunCompaction.
  assert (Forall (.∈ full_set_ (tick m)) (iter (clock_ m) (full_set_ m))) as Hf.
  { apply Forall_forall. intros id Hid. by apply (iter_elem iter iter_ok (clock_ m)) in Hid. }
  destruct (candidates_spec _ (tick m) (tick_part _ Hp) Hf) as (l & -> & Hl). cbn [mbind Outcome_bind].
  apply (compact_candidates_spec l (tick m) w x); [by apply tick_part|by destruct Hs|done|done| |].
  - eapply sublist_NoDup; [|exact Hl]. rewrite iter_ok. apply NoDup_elements.
  - rewrite Forall_forall in *. intros id Hid. apply Hf. by eapply elem_of_sublist.
Qed.

End loop.

End compact.
