(* ===== verification/ManagerState.v ===== *)
(** * The state file of the segment manager
    ([SaveState] and [LoadState] of [parakv/core/segment/segment_manager.cc])

    The theorems on the persisted classification: the byte format reads back,
    [SaveState] is atomic and durable, and a manager that loads the file of
    another one over the same segments has its classification. *)

From S2P Require Import Prelude Common Sys SegmentBase SegmentOps SegmentManager.

(** ** The state file reads back *)

Lemma PutU32_eq buf v : PutU32 buf v = buf ++ le_bytes 4 v.
Proof.
  unfold PutU32. cbn [le_bytes]. rewrite !Z.shiftr_shiftr by lia. cbn [Z.add Pos.add Pos.succ Pos.add_carry].
  assert (forall x, u8 (Z.land x 0xFF) = u8 x) as E.
  { intros x. unfold u8. change 0xFF with (Z.ones 8). rewrite Z.land_ones by lia. apply Z.mod_mod. lia. }
  by rewrite !E.
Qed.

Lemma GetU32_le v rest : v ∈ᵤ 32 -> GetU32 (le_bytes 4 v ++ rest) = Some (v, rest).
Proof.
  intros Hv. pose proof (le_val_bytes 4 v) as E. change (8 * Z.of_nat 4) with 32 in E.
  rewrite Z.mod_small in E by exact Hv. cbn [le_bytes le_val] in E.
  cbn [le_bytes app GetU32]. do 2 f_equal. etrans; [|exact E]. clear E.
  rewrite Z.shiftl_0_l, Z.lor_0_r, !Z.shiftl_lor, !Z.shiftl_shiftl by lia.
  by rewrite !Z.lor_assoc.
Qed.

Definition ids_bytes (ids : list Z) : list Z :=
  le_bytes 4 (u32 (Z.of_nat (length ids))) ++ concat (le_bytes 4 <$> ids).

Lemma SerializeIds_eq buf ids : SerializeIds buf ids = buf ++ ids_bytes ids.
Proof.
  unfold SerializeIds, ids_bytes. rewrite PutU32_eq, app_assoc.
  generalize (buf ++ le_bytes 4 (u32 (Z.of_nat (length ids)))) as b. clear buf.
  induction ids as [|x ids IH]; intros b; cbn [foldl fmap list_fmap concat]; [by rewrite app_nil_r|].
  rewrite IH, PutU32_eq. by rewrite <- app_assoc.
Qed.

Lemma read_n_ids ids rest :
  Forall (in_u 32) ids -> read_n (length ids) (concat (le_bytes 4 <$> ids) ++ rest) = Some (ids, rest).
Proof.
  induction 1 as [|x ids Hx Hids IH]; [done|]. cbn [length read_n fmap list_fmap concat].
  rewrite <- app_assoc, GetU32_le by done. cbn [mbind option_bind]. rewrite IH. done.
Qed.

Lemma read_ids_bytes ids rest :
  Forall (in_u 32) ids -> Z.of_nat (length ids) < 2 ^ 32 -> read_ids (ids_bytes ids ++ rest) = Some (ids, rest).
Proof.
  intros Hi Hl. unfold read_ids, ids_bytes. rewrite u32_small, <- app_assoc by lia.
  rewrite GetU32_le by (unfold in_u; lia). cbn [mbind option_bind]. rewrite Nat2Z.id. by apply read_n_ids.
Qed.

Lemma parse_state_bytes full app idle rest :
  Forall (in_u 32) full -> Forall (in_u 32) app -> Forall (in_u 32) idle ->
  Z.of_nat (length full) < 2 ^ 32 -> Z.of_nat (length app) < 2 ^ 32 -> Z.of_nat (length idle) < 2 ^ 32 ->
  parse_state (state_bytes full app idle ++ rest) = Some (full, app, idle).
Proof.
  intros. unfold state_bytes, parse_state. rewrite !SerializeIds_eq, !PutU32_eq. cbn [List.app].
  rewrite <- !app_assoc. rewrite GetU32_le by (unfold in_u, kStateMagic; lia). cbn [mbind option_bind].
  rewrite Z.eqb_refl. cbn [negb]. rewrite GetU32_le by (unfold in_u, kStateVersion; lia). cbn [mbind option_bind].
  rewrite Z.eqb_refl. cbn [negb].
  rewrite read_ids_bytes by done. cbn [mbind option_bind].
  rewrite read_ids_bytes by done. cbn [mbind option_bind].
  rewrite read_ids_bytes by done. done.
Qed.

Lemma state_bytes_length full app idle : (8 <= length (state_bytes full app idle))%nat.
Proof.
  unfold state_bytes. rewrite !SerializeIds_eq, !PutU32_eq, !length_app, !length_le_bytes. lia.
Qed.

Section apply.
  Context {H : Type} (iter : nat -> gset Z -> list Z).
  Hypothesis iter_ok : forall n X, iter n X ≡ₚ elements X.
  Implicit Types (m : SegmentManager H).

Lemma add_comm (id : Z) (X Y : gset Z) : X ∪ ({[id]} ∪ Y) = {[id]} ∪ X ∪ Y.
Proof. by rewrite (assoc_L (∪)), (comm_L (∪) X {[id]}). Qed.

Definition known m (ids : list Z) : Prop := Forall (fun id => segments_ m !! id <> None) ids.

Lemma load_full_spec ids m cl :
  known m ids ->
  load_full m cl ids =
    (set_classes (idle_set_ m) (appending_set_ m) (list_to_set ids ∪ full_set_ m) (full_order_ m ++ ids) m,
     list_to_set ids ∪ cl).
Proof.
  unfold load_full. revert m cl. induction ids as [|id ids IH]; intros m cl Hk; cbn [foldl].
  - rewrite app_nil_r. cbn [list_to_set]. rewrite !(left_id_L ∅ (∪)). by destruct m.
  - apply Forall_cons in Hk as [Hid Hk]. rewrite bool_decide_eq_false_2 by done.
    rewrite IH by done. cbn [set_classes idle_set_ appending_set_ full_set_ full_order_ list_to_set].
    rewrite <- app_assoc, !add_comm. done.
Qed.

Lemma load_appending_spec ids m cl :
  known m ids -> NoDup ids -> (forall id, id ∈ ids -> id ∉ cl) ->
  load_appending m cl ids =
    (set_classes (idle_set_ m) (list_to_set ids ∪ appending_set_ m) (full_set_ m) (full_order_ m) m,
     list_to_set ids ∪ cl).
Proof.
  unfold load_appending. intros Hk Hn. revert m cl Hk. induction Hn as [|id ids Hid Hn IH]; intros m cl Hk Hd; cbn [foldl].
  - cbn [list_to_set]. rewrite !(left_id_L ∅ (∪)). by destruct m.
  - apply Forall_cons in Hk as [Hi Hk]. rewrite !bool_decide_eq_false_2; [|by apply Hd; left|done]. cbn [orb].
    rewrite IH; [|done|intros x Hx; rewrite elem_of_union, elem_of_singleton; intros [->|?]; [done|];
      by apply (Hd x); [right|]].
    cbn [set_classes idle_set_ appending_set_ full_set_ full_order_ list_to_set].
    by rewrite !add_comm.
Qed.

Lemma load_idle_spec ids m cl :
  known m ids -> NoDup ids -> (forall id, id ∈ ids -> id ∉ cl) ->
  load_idle m cl ids =
    (set_classes (list_to_set ids ∪ idle_set_ m) (appending_set_ m) (full_set_ m) (full_order_ m) m,
     list_to_set ids ∪ cl).
Proof.
  unfold load_idle. intros Hk Hn. revert m cl Hk. induction Hn as [|id ids Hid Hn IH]; intros m cl Hk Hd; cbn [foldl].
  - cbn [list_to_set]. rewrite !(left_id_L ∅ (∪)). by destruct m.
  - apply Forall_cons in Hk as [Hi Hk]. rewrite !bool_decide_eq_false_2; [|by apply Hd; left|done]. cbn [orb].
    rewrite IH; [|done|intros x Hx; rewrite elem_of_union, elem_of_singleton; intros [->|?]; [done|];
      by apply (Hd x); [right|]].
    cbn [set_classes idle_set_ appending_set_ full_set_ full_order_ list_to_set].
    by rewrite !add_comm.
Qed.

Lemma load_rest_spec ids m cl :
  Forall (fun id => id ∈ cl) ids -> load_rest m cl ids = m.
Proof.
  unfold load_rest. induction 1 as [|id ids Hid _ IH]; [done|]. cbn [foldl].
  by rewrite bool_decide_eq_true_2.
Qed.

(** Applying three lists that partition the registered ids installs them. *)
Lemma apply_state_spec full app idle m :
  known m full -> known m app -> known m idle -> NoDup (full ++ app ++ idle) ->
  (forall id, is_Some (segments_ m !! id) -> id ∈ full ++ app ++ idle) ->
  let m' := apply_state iter full app idle m in
  segments_ m' = segments_ m /\ idle_set_ m' = list_to_set idle /\
  appending_set_ m' = list_to_set app /\ full_set_ m' = list_to_set full /\ full_order_ m' = full.
Proof using iter_ok.
  intros Kf Ka Ki Hnd Hall. cbv zeta. apply NoDup_app in Hnd as (Nf & Dfa & (Na & Dai & Ni)%NoDup_app).
  unfold apply_state. rewrite load_full_spec by done.
  rewrite load_appending_spec; [|done|done|].
  2: { intros id Hin. rewrite elem_of_union, elem_of_list_to_set. intros [Hf|?%elem_of_empty]; [|done].
       apply (Dfa id Hf), elem_of_app. by left. }
  rewrite load_idle_spec; [|done|done|].
  2: { intros id Hin. rewrite !elem_of_union, !elem_of_list_to_set. intros [Ha|[Hf|?%elem_of_empty]]; [| |done].
       - by apply (Dai id Ha).
       - apply (Dfa id Hf), elem_of_app. by right. }
  rewrite load_rest_spec.
  - cbn. rewrite !(right_id_L ∅ (∪)). done.
  - apply Forall_forall. intros id Hin. apply (iter_elem iter iter_ok) in Hin. cbn in Hin.
    apply elem_of_dom, Hall in Hin. rewrite !elem_of_union, !elem_of_list_to_set.
    apply elem_of_app in Hin as [?|[?|?]%elem_of_app]; auto.
Qed.

End apply.

(** ** Writing and reading the file *)

Section persist.
  Context {H : Type} (iter : nat -> gset Z -> list Z).
  Hypothesis iter_ok : forall n X, iter n X ≡ₚ elements X.
  Implicit Types (m : SegmentManager H).

Lemma sys_write_spec p buf fs n fs' y :
  fs_files fs !! p = Some (mkFile [] y) -> sys_write p buf fs = (n, fs') ->
  (forall q, p <> q -> fs_files fs' !! q = fs_files fs !! q) /\
  (n = Some (length buf) -> fs_files fs' !! p = Some (mkFile buf y)).
Proof.
  intros Hf E. unfold sys_write in E. rewrite Hf in E.
  destruct (fs_script fs) as [|[| |k] sc]; injection E as <- <-; cbn.
  - split; [intros q Hq; by rewrite lookup_insert_ne|]. intros _. by rewrite lookup_insert_eq, take_ge.
  - done.
  - done.
  - split; [intros q Hq; by rewrite lookup_insert_ne|]. intros [= En].
    by rewrite lookup_insert_eq, take_ge by lia.
Qed.

(** The saved lists. *)
Definition saved_bytes m : list Z :=
  state_bytes (full_order_ m) (iter (clock_ m) (appending_set_ m)) (iter (S (clock_ m)) (idle_set_ m)).

Lemma SaveState_spec path m fs st m' fs' :
  SaveState iter path m fs = (st, m', fs') ->
  m' = tick (tick m) /\
  (st = kOk /\ fs_files fs' !! path = Some (mkFile (saved_bytes m) (saved_bytes m)) \/
   st = kIOError /\ fs_files fs' !! path = fs_files fs !! path).
Proof.
  intros E. unfold SaveState in E. set (tmp := (path +:+ ".tmp")%string) in *.
  assert (tmp <> path) as Hne by apply tmp_path_ne.
  cbn [clock_ tick idle_set_ full_order_] in E. fold (saved_bytes m) in E.
  destruct (sys_open tmp true true fs) as [ok fs1] eqn:E1.
  pose proof (sys_open_other _ path _ _ _ _ _ Hne E1) as F1.
  destruct ok; cbn [negb] in E; [|simplify_eq; eauto].
  apply sys_open_trunc in E1 as [y Hf1].
  destruct (sys_write tmp (saved_bytes m) fs1) as [n fs2] eqn:E2.
  destruct (sys_write_spec _ _ _ _ _ _ Hf1 E2) as [F2 Hw]. specialize (F2 path Hne).
  case_bool_decide as Hn; cbn [negb] in E.
  2: { simplify_eq. split; [done|]. right. split; [done|]. by rewrite sys_unlink_other, F2. }
  specialize (Hw Hn). destruct (sys_fsync tmp fs2) as [ok fs3] eqn:E3.
  destruct (sys_fsync_spec _ _ _ _ _ Hw E3) as [[-> Ef3]|(-> & Ef3 & _)]; cbn [negb] in E.
  2: { simplify_eq. split; [done|]. right. split; [done|]. by rewrite sys_unlink_other, Ef3, F2. }
  destruct (sys_rename tmp path fs3) as [ok fs4] eqn:E4. unfold sys_rename in E4.
  destruct (sys_call fs3) as [b fs5] eqn:E5. apply sys_call_files in E5. rewrite E5, Ef3 in E4.
  cbn [f_data] in E4. rewrite lookup_insert_eq in E4.
  destruct b; injection E4 as <- <-; cbn [negb] in E; simplify_eq; (split; [done|]).
  - left. split; [done|]. cbn. by rewrite lookup_insert_eq.
  - right. split; [done|]. rewrite sys_unlink_other, E5, Ef3, lookup_insert_ne by done. by rewrite F2.
Qed.

Lemma read_upto_no_eio sc count pos d :
  no_eio sc -> (pos + count <= length d)%nat ->
  exists sc', read_upto sc count pos d = (true, slice pos count d, sc').
Proof.
  revert count pos. induction sc as [|r sc IH]; intros count pos Hn Hl.
  - destruct count; cbn [read_upto]; [|eauto]. exists []. unfold slice. done.
  - apply Forall_cons in Hn as [Hr Hn]. destruct count; cbn [read_upto]; [exists (r :: sc); done|].
    destruct r; [by apply IH|done|].
    set (k := Nat.min (S n) (S count)). assert (0 < k <= S count)%nat as Hk by lia.
    assert (length (slice pos k d) = k) as Lk by (rewrite length_slice; lia).
    rewrite Lk. destruct (Nat.eqb_spec k 0); [lia|].
    destruct (IH (S count - k)%nat (pos + k)%nat Hn ltac:(lia)) as (sc' & ->).
    exists sc'. do 2 f_equal. apply list_eq. intros i. destruct (decide (i < k)%nat).
    + rewrite lookup_app_l by lia. rewrite !lookup_slice by lia. done.
    + rewrite lookup_app_r, Lk by lia. destruct (decide (i < S count)%nat).
      * rewrite !lookup_slice by lia. f_equal. lia.
      * rewrite !lookup_ge_None_2; [done| |]; rewrite length_slice; lia.
Qed.

Lemma LoadState_spec path m fs d y full app idle rest st m' fs' :
  no_eio (fs_script fs) -> fs_files fs !! path = Some (mkFile d y) ->
  d = state_bytes full app idle ++ rest -> parse_state d = Some (full, app, idle) ->
  LoadState iter path m fs = (st, m', fs') ->
  st = kOk /\ m' = apply_state iter full app idle m.
Proof.
  intros Hn Hf Ed Hp E. unfold LoadState, sys_stat in E.
  destruct (sys_call fs) as [b1 fs1] eqn:E1. pose proof (sys_call_files _ _ _ E1) as F1.
  destruct (sys_call_no_eio _ _ _ Hn E1) as [-> Hn1].
  rewrite F1, Hf, bool_decide_eq_true_2 in E by done. cbn [andb negb f_data] in E. pose proof (state_bytes_length full app idle) as Hl.
  assert (8 <= length d)%nat as Hld by (rewrite Ed, length_app; lia).
  rewrite (proj2 (Nat.ltb_ge _ _)) in E by lia.
  unfold sys_open in E. destruct (sys_call fs1) as [b2 fs2] eqn:E2. pose proof (sys_call_files _ _ _ E2) as F2.
  destruct (sys_call_no_eio _ _ _ Hn1 E2) as [-> Hn2]. cbn [negb] in E.
  rewrite F2, F1, Hf in E. cbn [negb] in E. rewrite F2, F1, Hf in E. cbn [f_data] in E.
  destruct (read_upto_no_eio (fs_script fs2) (length d) 0 d Hn2 ltac:(lia)) as (sc & Er).
  rewrite Er in E. cbn [negb] in E.
  assert (slice 0 (length d) d = d) as Es by (unfold slice; rewrite drop_0; by apply take_ge).
  rewrite Es, Nat.sub_diag, app_nil_r, Hp in E. by simplify_eq.
Qed.

End persist.

(** ** Properties *)

Section roundtrip.
  Context {H : Type} (iter : nat -> gset Z -> list Z).
  Hypothesis iter_ok : forall n X, iter n X ≡ₚ elements X.
  Implicit Types (m : SegmentManager H).

Lemma class_ids_ok m X :
  mgr_part m -> (forall id, is_Some (segments_ m !! id) -> id ∈ᵤ 32) ->
  Z.of_nat (size (segments_ m)) < 2 ^ 32 ->
  (forall id, id ∈ X -> id ∈ idle_set_ m \/ id ∈ appending_set_ m \/ id ∈ full_set_ m) -> NoDup X ->
  Forall (in_u 32) X /\ Z.of_nat (length X) < 2 ^ 32 /\
  (forall m2, dom (segments_ m2) = dom (segments_ m) -> known (H := H) m2 X).
Proof.
  intros Hp Hids Hsz Hin Hnd.
  assert (forall id, id ∈ X -> id ∈ dom (segments_ m)) as Hd.
  { intros id Hid. destruct (mp_registered m id Hp) as [s Hs]; [auto|]. apply elem_of_dom. eauto. }
  split; [|split].
  - apply Forall_forall. intros id Hid. by apply Hids, elem_of_dom, Hd.
  - assert (list_to_set X ⊆ dom (segments_ m)) as Hsub.
    { intros id Hid%elem_of_list_to_set. auto. }
    apply subseteq_size in Hsub. rewrite size_list_to_set, size_dom in Hsub by done. lia.
  - intros m2 Ed. apply Forall_forall. intros id Hid. rewrite <- not_elem_of_dom, Ed.
    intros Hn. by apply Hn, Hd.
Qed.

(** The three saved lists partition the registered ids. *)
Lemma saved_lists_partition m a i :
  mgr_part m -> a ≡ₚ elements (appending_set_ m) -> i ≡ₚ elements (idle_set_ m) ->
  NoDup (full_order_ m ++ a ++ i) /\
  (forall id, is_Some (segments_ m !! id) -> id ∈ full_order_ m ++ a ++ i).
Proof.
  intros Hp Ea Ei. split.
  - apply NoDup_app. split; [apply Hp|]. split.
    + intros id Ho%mem_l_true. rewrite elem_of_app, Ea, Ei, !elem_of_elements, <- !mem_true.
      pose proof (mp_at _ Hp id) as Hat. rewrite Ho in Hat. clear Ho. bits; by intros [].
    + apply NoDup_app. rewrite Ea, Ei. split; [apply NoDup_elements|]. split; [|apply NoDup_elements].
      intros id. rewrite Ea, Ei, !elem_of_elements. intros Ha%mem_true. rewrite <- mem_true.
      pose proof (mp_at _ Hp id) as Hat. rewrite Ha in Hat. clear Ha. bits.
  - intros id Hr%registered_true. pose proof (mp_at _ Hp id) as Hat. rewrite Hr in Hat. clear Hr.
    rewrite !elem_of_app, Ea, Ei, !elem_of_elements, <- mem_l_true, <- !mem_true. bits; auto.
Qed.

(** C34: the classification survives a restart.  A manager over the same segment
    ids that loads the file saved by [SaveState] has exactly the saved idle,
    appending and full sets, and the same order of full segments; also when
    power was lost right after [SaveState] returned, for every possible
    contents of the file. *)
Theorem SaveState_LoadState_roundtrip path m fs m1 fs1 f d m2 fs2 y st m3 fs3 :
  mgr_part m -> (forall id, is_Some (segments_ m !! id) -> id ∈ᵤ 32) ->
  Z.of_nat (size (segments_ m)) < 2 ^ 32 ->
  SaveState iter path m fs = (kOk, m1, fs1) ->
  fs_files fs1 !! path = Some f -> crash_image f d ->
  dom (segments_ m2) = dom (segments_ m) ->
  fs_files fs2 !! path = Some (mkFile d y) -> no_eio (fs_script fs2) ->
  LoadState iter path m2 fs2 = (st, m3, fs3) ->
  st = kOk /\ idle_set_ m3 = idle_set_ m /\ appending_set_ m3 = appending_set_ m /\
  full_set_ m3 = full_set_ m /\ full_order_ m3 = full_order_ m.
Proof using iter_ok.
  intros Hp Hids Hsz E Hf Hcr Hdom Hf2 Hn El.
  apply SaveState_spec in E as (_ & [[_ Hf1]|[? _]]); [|done]. rewrite Hf in Hf1. injection Hf1 as ->.
  destruct (crash_image_prefix _ _ (saved_bytes iter m) Hcr) as [ext ->]; [done|done|].
  set (a := iter (clock_ m) (appending_set_ m)). set (i := iter (S (clock_ m)) (idle_set_ m)).
  assert (a ≡ₚ elements (appending_set_ m)) as Ea by apply iter_ok.
  assert (i ≡ₚ elements (idle_set_ m)) as Ei by apply iter_ok.
  destruct (saved_lists_partition m a i Hp Ea Ei) as [Hnd Hall].
  pose proof Hnd as (_ & _ & (Na & _ & Ni)%NoDup_app)%NoDup_app.
  destruct (class_ids_ok m (full_order_ m) Hp Hids Hsz) as (Of & Lf & Kf);
    [intros id Hid%mem_l_true; right; right; rewrite <- mem_true;
     pose proof (mp_at _ Hp id) as Hat; rewrite Hid in Hat; clear Hid; bits|apply Hp|].
  destruct (class_ids_ok m a Hp Hids Hsz) as (Oa & La & Ka);
    [intros id; rewrite Ea, elem_of_elements; auto|done|].
  destruct (class_ids_ok m i Hp Hids Hsz) as (Oi & Li & Ki);
    [intros id; rewrite Ei, elem_of_elements; auto|done|].
  destruct (LoadState_spec iter path m2 fs2 _ y (full_order_ m) a i ext st m3 fs3 Hn Hf2) as [-> ->];
    [done|by apply parse_state_bytes|done|].
  split; [done|].
  destruct (apply_state_spec iter iter_ok (full_order_ m) a i m2) as (_ & -> & -> & -> & ->);
    [by apply Kf|by apply Ka|by apply Ki|done| |].
  { intros id Hid. apply Hall. apply elem_of_dom. rewrite <- Hdom. by apply elem_of_dom. }
  rewrite Ea, Ei, !list_to_set_elements_L. split; [done|]. split; [done|]. split; [|done].
  apply set_eq. intros id. rewrite elem_of_list_to_set, <- mem_l_true, <- mem_true.
  pose proof (mp_at _ Hp id) as Hat. bits.
Qed.

(** [SaveState] replaces the state file atomically.  Whatever system call
    fails, it either reports success with the complete new state in the file
    and on stable storage, or reports an I/O error with the old file in
    place. *)
Theorem SaveState_atomic path m fs st m' fs' :
  SaveState iter path m fs = (st, m', fs') ->
  (st = kOk /\ exists f, fs_files fs' !! path = Some f /\ f_sync f = f_data f /\
     f_data f = state_bytes (full_order_ m) (iter (clock_ m) (appending_set_ m))
                  (iter (S (clock_ m)) (idle_set_ m))) \/
  (st = kIOError /\ fs_files fs' !! path = fs_files fs !! path).
Proof using.
  intros E. apply SaveState_spec in E as (_ & [[-> Hf]|[-> Hf]]); [left|by right].
  split; [done|]. eexists. split; [exact Hf|]. done.
Qed.

End roundtrip.

(** ** Loading keeps the partition *)

Section load_part.
  Context {H : Type} (iter : nat -> gset Z -> list Z).
  Hypothesis iter_ok : forall n X, iter n X ≡ₚ elements X.
  Implicit Types (m : SegmentManager H).

(** Between the loops of [LoadState]: the classified ids are the ones in a
    class, each in one class, and registered. *)
Record loading (segs : gmap Z (Segment H)) m (cl : gset Z) : Prop := {
  ld_segs : segments_ m = segs;
  ld_at : forall x, part_at (mem x (idle_set_ m)) (mem x (appending_set_ m)) (mem x (full_set_ m))
    (mem_l x (full_order_ m)) (mem x cl) = true;
  ld_reg : forall x, x ∈ cl -> is_Some (segs !! x);
  ld_nodup : NoDup (full_order_ m);
}.

Lemma loading_add segs m cl id idle app full order :
  loading segs m cl -> mem id cl = false -> segs !! id <> None -> NoDup order ->
  (forall x, part_at (mem x idle) (mem x app) (mem x full) (mem_l x order)
     (bool_decide (x = id) || mem x cl) = true) ->
  loading segs (set_classes idle app full order m) ({[id]} ∪ cl).
Proof.
  intros [Es Hat Hreg Hn] Hid Hs Hno Hx. split; cbn; [done| | |done].
  - intros x. rewrite mem_add. apply Hx.
  - intros x [->%elem_of_singleton|?]%elem_of_union; [by apply not_eq_None_Some|auto].
Qed.

Lemma loading_classify segs m cl id st :
  loading segs m cl -> mem id cl = false -> segs !! id <> None ->
  loading segs (classify id st m) ({[id]} ∪ cl).
Proof.
  intros Hl Hid Hs. pose proof (ld_at _ _ _ Hl id) as Hat. rewrite Hid in Hat.
  assert (NoDup (full_order_ m ++ [id])) as Hno.
  { apply NoDup_snoc; [apply Hl|]. apply mem_l_false. clear Hid. bits. }
  destruct st; apply loading_add; try done; try apply Hl; intros x;
    pose proof (ld_at _ _ _ Hl x) as Hx; autorewrite with mem_db;
    (destruct (decide (x = id)) as [->|];
     [rewrite Hid in *; rewrite ?(bool_decide_eq_true_2 (id = id)) by done; clear Hid; bits
     |rewrite ?(bool_decide_eq_false_2 (x = id)) by done; clear Hid Hat; bits]).
Qed.

Lemma load_full_part ids segs m cl :
  loading segs m cl -> NoDup ids -> (forall id, id ∈ ids -> id ∉ cl) ->
  loading segs (load_full m cl ids).1 (load_full m cl ids).2.
Proof.
  intros Hl Hn. revert m cl Hl. unfold load_full.
  induction Hn as [|id ids Hid Hn IH]; intros m cl Hl Hd; cbn [foldl]; [done|].
  case_bool_decide as Hs; [apply IH; [done|]; intros x Hx; apply Hd; by right|].
  rewrite (ld_segs _ _ _ Hl) in Hs. apply IH.
  - apply (loading_classify segs m cl id FULL); [done| |done]. apply bool_decide_eq_false_2, Hd. by left.
  - intros x Hx [->%elem_of_singleton|Hc]%elem_of_union; [done|]. apply (Hd x); [by right|done].
Qed.

Lemma load_appending_part ids segs m cl :
  loading segs m cl -> loading segs (load_appending m cl ids).1 (load_appending m cl ids).2.
Proof.
  revert m cl. unfold load_appending. induction ids as [|id ids IH]; intros m cl Hl; cbn [foldl]; [done|].
  case_bool_decide as Hs; cbn [orb]; [by apply IH|]. case_bool_decide as Hc; cbn [orb]; [by apply IH|].
  rewrite (ld_segs _ _ _ Hl) in Hs. apply IH, (loading_classify segs m cl id APPENDING); [done| |done].
  by apply bool_decide_eq_false_2.
Qed.

Lemma load_idle_part ids segs m cl :
  loading segs m cl -> loading segs (load_idle m cl ids).1 (load_idle m cl ids).2.
Proof.
  revert m cl. unfold load_idle. induction ids as [|id ids IH]; intros m cl Hl; cbn [foldl]; [done|].
  case_bool_decide as Hs; cbn [orb]; [by apply IH|]. case_bool_decide as Hc; cbn [orb]; [by apply IH|].
  rewrite (ld_segs _ _ _ Hl) in Hs. apply IH, (loading_classify segs m cl id IDLE); [done| |done].
  by apply bool_decide_eq_false_2.
Qed.

(** The last loop classifies every id it visits. *)
Lemma load_rest_part ids segs m cl done_ :
  loading segs m (cl ∪ done_) -> NoDup ids -> (forall id, id ∈ ids -> id ∉ done_) ->
  exists cl', loading segs (load_rest m cl ids) cl' /\
    (forall id, id ∈ cl \/ id ∈ done_ \/ (id ∈ ids /\ is_Some (segs !! id)) -> id ∈ cl').
Proof.
  intros Hl Hn. revert m done_ Hl. unfold load_rest.
  induction Hn as [|id ids Hid Hn IH]; intros m dn Hl Hd; cbn [foldl].
  { exists (cl ∪ dn). split; [done|]. intros id [?|[?|[?%elem_of_nil _]]]; [..|done]; apply elem_of_union; auto. }
  assert (forall x, x ∈ ids -> x ∉ dn) as Hd' by (intros x Hx; apply Hd; by right).
  case_bool_decide as Hc.
  { destruct (IH m dn Hl Hd') as (cl' & ? & Hin). exists cl'. split; [done|].
    intros x [?|[?|[[->|?]%elem_of_cons ?]]]; apply Hin; auto. }
  rewrite (ld_segs _ _ _ Hl). destruct (segs !! id) as [seg|] eqn:Es.
  2: { destruct (IH m dn Hl Hd') as (cl' & ? & Hin). exists cl'. split; [done|].
       intros x [?|[?|[[->|?]%elem_of_cons Hs]]]; [by apply Hin; auto..| |by apply Hin; auto].
       rewrite Es in Hs. by destruct Hs. }
  destruct (IH (classify id (GetState (seg_base seg)) m) ({[id]} ∪ dn)) as (cl' & ? & Hin).
  - replace (cl ∪ ({[id]} ∪ dn)) with ({[id]} ∪ (cl ∪ dn)) by (by rewrite add_comm, (assoc_L (∪))).
    apply loading_classify; [done| |by rewrite Es]. apply bool_decide_eq_false_2.
    intros [?|?]%elem_of_union; [done|]. apply (Hd id); [by left|done].
  - intros x Hx [->%elem_of_singleton|?]%elem_of_union; [done|]. by apply (Hd' x).
  - exists cl'. split; [done|]. intros x [?|[?|[[->|?]%elem_of_cons ?]]]; apply Hin; auto.
    + right. left. apply elem_of_union. by right.
    + right. left. apply elem_of_union. left. by apply elem_of_singleton.
Qed.

Lemma apply_state_part full app idle m :
  mgr_part m -> NoDup full -> mgr_part (apply_state iter full app idle m).
Proof using iter_ok.
  intros Hp Hn. unfold apply_state. set (m0 := set_classes ∅ ∅ ∅ [] m).
  assert (loading (segments_ m) m0 ∅) as L0.
  { split; cbn; [done| | |constructor].
    - intros x. rewrite !mem_empty. done.
    - intros x []%elem_of_empty. }
  pose proof (load_full_part full _ m0 ∅ L0 Hn ltac:(intros; apply not_elem_of_empty)) as L1.
  destruct (load_full m0 ∅ full) as [m1 cl1]. cbn in L1.
  pose proof (load_appending_part app _ m1 cl1 L1) as L2. destruct (load_appending m1 cl1 app) as [m2 cl2]. cbn in L2.
  pose proof (load_idle_part idle _ m2 cl2 L2) as L3. destruct (load_idle m2 cl2 idle) as [m3 cl3]. cbn in L3.
  set (ids := iter (clock_ m3) (dom (segments_ m3))).
  destruct (load_rest_part ids (segments_ m) (tick m3) cl3 ∅) as (cl4 & L4 & Hall).
  { rewrite (right_id_L ∅ (∪)). by destruct L3. }
  { unfold ids. rewrite iter_ok. apply NoDup_elements. }
  { intros. apply not_elem_of_empty. }
  destruct L4 as [Es Hat Hreg Hnd]. split; [|done|].
  - intros x. rewrite <- (Hat x). f_equal. unfold registered, mem. apply bool_decide_ext. rewrite Es. split.
    + intros Hx. apply Hall. right. right. split; [|done]. apply (iter_elem iter iter_ok), elem_of_dom.
      by rewrite (ld_segs _ _ _ L3).
    + apply Hreg.
  - rewrite Es. apply Hp.
Qed.

(** Any file whose list of full segments has no repetition. *)
Lemma LoadState_part path m fs st m' fs' :
  mgr_part m ->
  (forall f full app idle, fs_files fs !! path = Some f -> parse_state (f_data f) = Some (full, app, idle) ->
     NoDup full) ->
  no_eio (fs_script fs) -> LoadState iter path m fs = (st, m', fs') -> mgr_part m'.
Proof using iter_ok.
  intros Hp Hf Hn E. unfold LoadState, sys_stat in E.
  destruct (sys_call fs) as [b1 fs1] eqn:E1. pose proof (sys_call_files _ _ _ E1) as F1.
  destruct (sys_call_no_eio _ _ _ Hn E1) as [-> Hn1]. rewrite F1 in E.
  destruct (fs_files fs !! path) as [f|] eqn:Ef; [|by simplify_eq/=].
  rewrite bool_decide_eq_true_2 in E by done. cbn [andb negb] in E.
  case_match; [by simplify_eq|].
  unfold sys_open in E. destruct (sys_call fs1) as [b2 fs2] eqn:E2. pose proof (sys_call_files _ _ _ E2) as F2.
  destruct (sys_call_no_eio _ _ _ Hn1 E2) as [-> Hn2]. cbn [negb] in E. rewrite F2, F1, Ef in E. cbn [negb] in E.
  rewrite F2, F1, Ef in E.
  destruct (read_upto_no_eio (fs_script fs2) (length (f_data f)) 0 (f_data f) Hn2 ltac:(lia)) as (sc & Er).
  rewrite Er in E. cbn [negb] in E.
  assert (slice 0 (length (f_data f)) (f_data f) = f_data f) as Es by (unfold slice; rewrite drop_0; by apply take_ge).
  rewrite Es, Nat.sub_diag, app_nil_r in E.
  destruct (parse_state (f_data f)) as [[[full app] idle]|] eqn:Ep; [|by simplify_eq]. simplify_eq.
  apply apply_state_part; [done|]. by eapply Hf.
Qed.

End load_part.

(** ** Witnesses *)

Definition plain_iter (n : nat) (X : gset Z) : list Z := elements X.

Definition demo_config : SegmentConfig := mkConfig true 2 3 64 f32_three_quarters 4.
Definition demo_add (id : Z) (st : SegmentState) (m : SegmentManager string) : SegmentManager string :=
  (AddSegment (Some (mkSegment (set_state st (SegmentBase_new id demo_config)) "p" false)) m).2.

(** Four segments: 3 and then 1 became full, 2 is appending, 4 idle. *)
Definition demo_mgr : SegmentManager string :=
  demo_add 4 IDLE (demo_add 1 FULL (demo_add 3 FULL (demo_add 2 APPENDING SegmentManager_new))).

Lemma demo_add_part id st m : mgr_part m -> mgr_part (demo_add id st m).
Proof. intros Hp. unfold demo_add. destruct (AddSegment _ m) as [s m'] eqn:E. by eapply AddSegment_part. Qed.

Lemma demo_mgr_part : mgr_part demo_mgr.
Proof. do 4 apply demo_add_part. apply SegmentManager_new_part. Qed.

Lemma SaveState_LoadState_roundtrip_witness :
  exists m3, m3 = (LoadState plain_iter "s" (demo_add 1 IDLE (demo_add 2 IDLE (demo_add 3 IDLE (demo_add 4 IDLE SegmentManager_new))))
     (mkFS (fs_files (SaveState plain_iter "s" demo_mgr (mkFS ∅ [Eintr; Short 200])).2) [Short 3; Eintr; Short 2])).1.2 /\
  full_order_ m3 = [3; 1] /\ idle_set_ m3 = {[4]} /\ appending_set_ m3 = {[2]}.
Proof.
  pose (sv := SaveState plain_iter "s" demo_mgr (mkFS ∅ [Eintr; Short 200])).
  pose (m2 := demo_add 1 IDLE (demo_add 2 IDLE (demo_add 3 IDLE (demo_add 4 IDLE SegmentManager_new)))).
  pose (fs2 := mkFS (fs_files sv.2) [Short 3; Eintr; Short 2]).
  pose (ld := LoadState plain_iter "s" m2 fs2).
  pose (d := default [] (f_data <$> fs_files sv.2 !! "s")).
  exists ld.1.2. split; [reflexivity|].
  assert (ld.1.1 = kOk /\ idle_set_ ld.1.2 = idle_set_ demo_mgr /\
    appending_set_ ld.1.2 = appending_set_ demo_mgr /\ full_set_ ld.1.2 = full_set_ demo_mgr /\
    full_order_ ld.1.2 = full_order_ demo_mgr) as (_ & E1 & E2 & _ & E3).
  { refine (SaveState_LoadState_roundtrip plain_iter (fun n X => Permutation_refl _) "s" demo_mgr
      (mkFS ∅ [Eintr; Short 200]) sv.1.2 sv.2 (mkFile d d) d m2 fs2 d ld.1.1 ld.1.2 ld.2
      demo_mgr_part _ _ _ _ _ _ _ _ _).
    - intros id Hid. apply elem_of_dom in Hid.
      assert (dom (segments_ demo_mgr) = {[1; 2; 3; 4]}) as E by (vm_compute; reflexivity).
      rewrite E, !elem_of_union, !elem_of_singleton in Hid. unfold in_u. lia.
    - vm_compute. reflexivity.
    - vm_compute. reflexivity.
    - vm_compute. reflexivity.
    - split; [cbn; lia|]. intros i x Hx. by left.
    - vm_compute. reflexivity.
    - vm_compute. reflexivity.
    - apply (bool_decide_unpack _). vm_compute. exact I.
    - vm_compute. reflexivity. }
  rewrite E1, E2, E3. split; [vm_compute; reflexivity|]. split; vm_compute; reflexivity.
Defined.

Lemma SaveState_atomic_witness :
  exists st m' fs', SaveState plain_iter "s" demo_mgr (mkFS {["s" := mkFile [9] [9]]} [Short 0; Short 4]) = (st, m', fs') /\
   ((st = kOk /\ exists f, fs_files fs' !! "s" = Some f /\ f_sync f = f_data f /\
     f_data f = state_bytes [3; 1] [2] [4]) \/
    (st = kIOError /\ fs_files fs' !! "s" = Some (mkFile [9] [9]))).
Proof.
  pose (r := SaveState plain_iter "s" demo_mgr (mkFS {["s" := mkFile [9] [9]]} [Short 0; Short 4])).
  exists r.1.1, r.1.2, r.2. split; [vm_compute; reflexivity|].
  refine (SaveState_atomic plain_iter "s" demo_mgr (mkFS {["s" := mkFile [9] [9]]} [Short 0; Short 4])
    r.1.1 r.1.2 r.2 _). vm_compute. reflexivity.
Defined.
