(* ===== verification/ManagerTheorems.v ===== *)
(** * Theorems on the segment manager

    The contract of [GetActiveSegment], the partition invariant over all
    histories of the manager, what [RunCompaction] does to the stored slots,
    and [EvaluateHotCold].  All hold for every iteration order of the
    unordered containers. *)

From S2P Require Import Prelude Common Sys SegmentBase SegmentOps SegmentFile SegmentManager ManagerState.

Section theorems.
  Context {H : Type} (iter : nat -> gset Z -> list Z).
  Hypothesis iter_ok : forall n X, iter n X ≡ₚ elements X.
  Implicit Types (m : SegmentManager H).

(** ** Choosing a segment *)

(** what [GetActiveSegment] returns.  If it returns a segment, that segment
    is registered and now classified as appending, and it either was appending
    with a free slot, or was idle while nothing was appending.  It returns null
    only when nothing is idle or appending.  Otherwise some appending segment
    has no free slot, and the range-for goes on from an erased element. *)
Theorem GetActiveSegment_contract m :
  mgr_part m ->
  match GetActiveSegment iter m with
  | Ret (Some id, m') =>
      mgr_part m' /\ segments_ m' = segments_ m /\ id ∈ appending_set_ m' /\
      exists seg, segments_ m !! id = Some seg /\
        (id ∈ appending_set_ m /\ 0 < GetFreeSlots (seg_base seg) \/
         appending_set_ m = ∅ /\ id ∈ idle_set_ m /\ id ∉ idle_set_ m')
  | Ret (None, m') => idle_set_ m = ∅ /\ appending_set_ m = ∅ /\ m' = tick m
  | UB => exists id seg, id ∈ appending_set_ m /\ segments_ m !! id = Some seg /\
            GetFreeSlots (seg_base seg) = 0
  end.
Proof using iter_ok.
  intros Hp. destruct (GetActiveSegment_result iter iter_ok m Hp) as [| |id seg ? Hid|]; eauto.
  - split; [by apply tick_part|]. split; [done|]. split; [done|]. eauto.
  - split; [by apply promoted_part|]. split; [done|].
    split; [cbn [appending_set_ promoted set_classes]; apply elem_of_union; left; by apply elem_of_singleton|].
    exists seg. split; [done|]. right. split; [done|]. split; [done|].
    cbn [idle_set_ promoted set_classes]. rewrite elem_of_difference, elem_of_singleton. tauto.
Qed.

(** a single appending segment without free slots makes the next
    [GetActiveSegment] undefined: [MarkSegmentFullInternal] erases from
    [appending_set_] the element the range-for stands on. *)
Theorem GetActiveSegment_exhausted m id seg :
  mgr_part m -> appending_set_ m = {[id]} -> segments_ m !! id = Some seg ->
  GetFreeSlots (seg_base seg) = 0 -> GetActiveSegment iter m = UB.
Proof using iter_ok.
  intros Hp Ha Hs Hf.
  destruct (GetActiveSegment_result iter iter_ok m Hp) as [? E|id' seg' Hid Hs' ?|id' seg' E ? ?|]; [| | |done].
  - exfalso. rewrite Ha in E. by apply non_empty_singleton_L in E.
  - rewrite Ha in Hid. apply elem_of_singleton in Hid as ->. rewrite Hs in Hs'. injection Hs' as <-. lia.
  - exfalso. rewrite Ha in E. by apply non_empty_singleton_L in E.
Qed.

(** ** Hot and cold segments *)

Lemma victim_elem acc ids :
  ids <> [] -> (forall id, id ∈ ids -> default 0 (acc !! id) < UINT64_MAX) -> victim acc ids ∈ ids.
Proof.
  intros Hne Hlt. unfold victim.
  set (f := fun '(v, mn) id => let c := default 0 (acc !! id) in if c <? mn then (id, c) else (v, mn)).
  assert (forall ids v mn, (foldl f (v, mn) ids).1 ∈ ids \/
     ((foldl f (v, mn) ids).1 = v /\ Forall (fun id => mn <= default 0 (acc !! id)) ids)) as Hgen.
  { clear. intros ids. induction ids as [|id ids IH]; intros v mn; cbn [foldl]; [auto|].
    assert (f (v, mn) id = if default 0 (acc !! id) <? mn then (id, default 0 (acc !! id)) else (v, mn)) as -> by done.
    destruct (Z.ltb_spec (default 0 (acc !! id)) mn) as [Hc|Hc].
    - destruct (IH id (default 0 (acc !! id))) as [?|[E ?]]; [left; by right|left; rewrite E; by left].
    - destruct (IH v mn) as [?|[E ?]]; [left; by right|right]. split; [done|]. by constructor. }
  destruct (Hgen ids 0 UINT64_MAX) as [?|[_ Hall]]; [done|].
  destruct ids as [|id ids]; [done|]. apply Forall_cons in Hall as [Hge _].
  specialize (Hlt id ltac:(by left)). lia.
Qed.

Lemma evict_spec fuel max acc n hot :
  0 <= max -> (size hot < fuel)%nat -> (forall id, default 0 (acc !! id) < UINT64_MAX) ->
  exists hot' n', evict iter fuel max acc n hot = Some (hot', n') /\ hot' ⊆ hot /\
    Z.of_nat (size hot') <= max.
Proof using iter_ok.
  intros Hmax. revert n hot. induction fuel as [|fuel IH]; intros n hot Hf Hlt; [lia|]. cbn [evict].
  destruct (Z.leb_spec (Z.of_nat (size hot)) max); [eauto|].
  set (v := victim acc (iter n hot)).
  assert (v ∈ hot) as Hv.
  { apply (iter_elem iter iter_ok n). apply victim_elem; [|done]. intros E.
    assert (elements hot = []) as E' by (apply Permutation_nil_r; rewrite <- (iter_ok n), E; done).
    unfold size, set_size in *. cbn in *. rewrite E' in *. cbn in *. lia. }
  assert (size (hot ∖ {[v]}) < size hot)%nat.
  { apply subset_size. split; [apply subseteq_difference_l; done|].
    intros Hsub. specialize (Hsub v Hv). rewrite elem_of_difference, elem_of_singleton in Hsub. tauto. }
  destruct (IH (S n) (hot ∖ {[v]})) as (hot' & n' & E & Hs & ?); [lia|done|].
  exists hot', n'. split; [done|]. split; [|done]. etrans; [exact Hs|]. by apply subseteq_difference_l.
Qed.

Lemma promote_subset thr max acc ids hot : promote thr max acc ids hot ⊆ hot ∪ list_to_set ids.
Proof.
  unfold promote. revert hot. induction ids as [|id ids IH]; intros hot; cbn [foldl list_to_set].
  { by rewrite (right_id_L ∅ (∪)). }
  etrans; [apply IH|]. intros x. rewrite !elem_of_union, elem_of_singleton. case_match; rewrite ?elem_of_union, ?elem_of_singleton; tauto.
Qed.

Lemma demote_spec thr acc ids hot id :
  id ∈ demote thr acc ids hot ->
  id ∈ hot /\ (id ∈ ids -> exists c, acc !! id = Some c /\ thr <= c).
Proof.
  unfold demote. revert hot. induction ids as [|x ids IH]; intros hot Hin; cbn [foldl] in Hin.
  { split; [done|]. by intros ?%elem_of_nil. }
  apply IH in Hin as [Hin Hc].
  assert (id ∈ hot /\ (id = x -> exists c, acc !! id = Some c /\ thr <= c)) as [Hh Hx].
  { destruct (acc !! x) as [c|] eqn:E; [destruct (Z.ltb_spec c thr)|].
    - rewrite elem_of_difference, elem_of_singleton in Hin. split; [tauto|]. intros ->. tauto.
    - split; [done|]. intros ->. eauto.
    - rewrite elem_of_difference, elem_of_singleton in Hin. split; [tauto|]. intros ->. tauto. }
  split; [done|]. intros [->|?]%elem_of_cons; auto.
Qed.

(** C35: [EvaluateHotCold] terminates, leaves at most [max_hot_segments] hot
    segments, each with a count of at least the threshold in the past period
    (so segments that were hot and cooled down are demoted), marks nothing hot
    that was neither hot nor accessed, and starts a new period with empty
    counters.  Counters below [UINT64_MAX] are what the eviction loop needs to
    make progress. *)
Theorem EvaluateHotCold_correct threshold max m :
  0 <= max -> map_Forall (fun _ c => c < UINT64_MAX) (access_counters_ m) ->
  exists m', EvaluateHotCold iter threshold max m = Some (kOk, m') /\
    Z.of_nat (size (hot_segments_ m')) <= max /\
    (forall id, id ∈ hot_segments_ m' ->
       (id ∈ hot_segments_ m \/ id ∈ dom (access_counters_ m)) /\
       exists c, access_counters_ m !! id = Some c /\ threshold <= c) /\
    access_counters_ m' = ∅ /\ segments_ m' = segments_ m /\
    idle_set_ m' = idle_set_ m /\ appending_set_ m' = appending_set_ m /\
    full_set_ m' = full_set_ m /\ full_order_ m' = full_order_ m.
Proof using iter_ok.
  intros Hmax Hlt. unfold EvaluateHotCold. set (acc := access_counters_ m) in *.
  set (hot1 := promote _ _ _ _ _). set (hot2 := demote _ _ _ _).
  destruct (evict_spec (S (size hot2)) max acc (S (S (clock_ m))) hot2) as (hot3 & n & -> & Hs & Hsz);
    [done|lia| |].
  { intros id. destruct (acc !! id) eqn:E; cbn; [by apply (Hlt id)|done]. }
  cbn [mbind option_bind]. eexists. split; [reflexivity|]. cbn. split; [done|]. split; [|done].
  intros id Hid. apply Hs in Hid. apply demote_spec in Hid as [Hin Hc]. split.
  - apply promote_subset in Hin. rewrite elem_of_union, elem_of_list_to_set, (iter_elem iter iter_ok) in Hin. done.
  - apply Hc. by apply (iter_elem iter iter_ok).
Qed.

End theorems.

(** ** Histories *)

Section history.
  Context {H W : Type} `{SlotStoreLaws H W} (iter : nat -> gset Z -> list Z).
  Hypothesis iter_ok : forall n X, iter n X ≡ₚ elements X.
  Context (c : SegmentConfig).
  Implicit Types (m : SegmentManager H) (w : W).

Definition has_config (seg : Segment H) : Prop := config_ (seg_base seg) = c.

(** The steps of a run: the operations of the manager, and the operations its
    clients perform on segments through the pointers it hands out. *)
Inductive mgr_step : SegmentManager H * W -> SegmentManager H * W -> Prop :=
  | step_add seg m st m' w :
      seg_ok seg w -> has_config seg ->
      (forall id t, segments_ m !! id = Some t -> st_sep (seg_handle seg) (seg_handle t)) ->
      AddSegment (Some seg) m = (st, m') -> mgr_step (m, w) (m', w)
  | step_active m o m' w : GetActiveSegment iter m = Ret (o, m') -> mgr_step (m, w) (m', w)
  | step_full id m st m' w : MarkSegmentFull id m = (st, m') -> mgr_step (m, w) (m', w)
  | step_release id m st m' w : ReleaseSegment id m = (st, m') -> mgr_step (m, w) (m', w)
  | step_insert id seg key value st out seg' m w w' :
      segments_ m !! id = Some seg ->
      length key = key_bytes (seg_base seg) -> length value = value_bytes (seg_base seg) ->
      Insert (Some key) (Some value) true seg w = (st, out, seg', w') ->
      mgr_step (m, w) (put_segment id seg' m, w')
  | step_read id seg i kw vw st k v m w w' :
      segments_ m !! id = Some seg -> 0 <= i -> Read i kw vw seg w = (st, k, v, w') ->
      mgr_step (m, w) (m, w')
  | step_delete id seg i st seg' m w w' :
      segments_ m !! id = Some seg -> 0 <= i -> Delete i seg w = (st, seg', w') ->
      mgr_step (m, w) (put_segment id seg' m, w')
  | step_access id m w : mgr_step (m, w) (RecordAccess id m, w)
  | step_heat threshold max st m m' w :
      EvaluateHotCold iter threshold max m = Some (st, m') -> mgr_step (m, w) (m', w)
  | step_save path st m m' fs fs' w :
      SaveState iter path m fs = (st, m', fs') -> mgr_step (m, w) (m', w)
  | step_load path st m m' fs fs' w :
      (forall f full app idle, fs_files fs !! path = Some f ->
         parse_state (f_data f) = Some (full, app, idle) -> NoDup full) ->
      no_eio (fs_script fs) -> LoadState iter path m fs = (st, m', fs') -> mgr_step (m, w) (m', w)
  | step_compact X (cb : option (SlotMoveCallback X)) x x' st m m' w w' :
      RunCompaction iter cb m w x = Ret (st, m', w', x') -> mgr_step (m, w) (m', w').

Lemma mgr_segs_same m m' w : mgr_segs c m w -> segments_ m' = segments_ m -> mgr_segs c m' w.
Proof. intros [H1' H2'] E. split; rewrite E; done. Qed.

Lemma LoadState_segments path m fs st m' fs' :
  LoadState iter path m fs = (st, m', fs') -> segments_ m' = segments_ m.
Proof.
  assert (forall A B (f : SegmentManager H * A -> B -> SegmentManager H * A) l s,
    (forall s x, segments_ (f s x).1 = segments_ s.1) -> segments_ (foldl f s l).1 = segments_ s.1) as Hf.
  { intros A B f l s Hs. revert s. induction l as [|x l IH]; intros s; [done|]. cbn. by rewrite IH. }
  assert (forall full app idle, segments_ (apply_state iter full app idle m) = segments_ m) as Ha.
  { intros full app idle. unfold apply_state. set (m0 := set_classes ∅ ∅ ∅ [] m).
    assert (segments_ (load_full m0 ∅ full).1 = segments_ m0) as E1.
    { unfold load_full. apply (Hf (gset Z) Z). intros [? ?] x. by case_bool_decide. }
    destruct (load_full m0 ∅ full) as [m1 cl1]. cbn in E1.
    assert (segments_ (load_appending m1 cl1 app).1 = segments_ m1) as E2.
    { unfold load_appending. apply (Hf (gset Z) Z). intros [? ?] x. by case_match. }
    destruct (load_appending m1 cl1 app) as [m2 cl2]. cbn in E2.
    assert (segments_ (load_idle m2 cl2 idle).1 = segments_ m2) as E3.
    { unfold load_idle. apply (Hf (gset Z) Z). intros [? ?] x. by case_match. }
    destruct (load_idle m2 cl2 idle) as [m3 cl3]. cbn in E3.
    unfold load_rest. generalize (iter (clock_ m3) (dom (segments_ m3))) as ids. intros ids.
    assert (forall m4, segments_ m4 = segments_ m -> segments_ (foldl (fun m id =>
      if bool_decide (id ∈ cl3) then m else match segments_ m !! id with None => m
      | Some seg => classify id (GetState (seg_base seg)) m end) m4 ids) = segments_ m) as Hr.
    { induction ids as [|id ids IH]; intros m4 E4; cbn [foldl]; [done|]. apply IH.
      case_bool_decide; [done|]. case_match; [|done]. by destruct (GetState _). }
    apply Hr. cbn. congruence. }
  intros E. unfold LoadState in E. repeat (case_match; simplify_eq; try done).
Qed.

Lemma mgr_step_inv m w m' w' :
  mgr_part m -> mgr_segs c m w -> mgr_step (m, w) (m', w') -> mgr_part m' /\ mgr_segs c m' w'.
Proof using iter_ok.
  intros Hp Hs Hstep. inversion Hstep; subst; clear Hstep.
  - split; [by eapply AddSegment_part|]. destruct Hs as [Hok Hsep].
    match goal with E : AddSegment _ _ = _ |- _ => unfold AddSegment in E; case_bool_decide; injection E as <- <- end;
      [by split|].
    assert (forall st, segments_ (classify (GetSegmentId seg) st
      (set_segments (<[GetSegmentId seg := seg]> (segments_ m)) m)) = <[GetSegmentId seg := seg]> (segments_ m)) as Es
      by (by intros []).
    split; rewrite Es.
    + intros id s [[<- <-]|[_ ?]]%lookup_insert_Some; [done|by eapply Hok].
    + intros i j s t [[<- <-]|[? ?]]%lookup_insert_Some [[<- <-]|[? ?]]%lookup_insert_Some Hij; eauto; try done.
      apply st_sep_sym. eauto.
  - match goal with E : GetActiveSegment _ _ = _ |- _ =>
      pose proof (GetActiveSegment_spec iter iter_ok c m w' Hp Hs) as Ha; rewrite E in Ha end. tauto.
  - split; [by eapply MarkSegmentFull_part|]. apply (mgr_segs_same m); [done|].
    match goal with E : MarkSegmentFull _ _ = _ |- _ =>
      unfold MarkSegmentFull, MarkSegmentFullInternal in E; repeat (case_match; simplify_eq; try done) end.
  - split; [by eapply ReleaseSegment_part|]. apply (mgr_segs_same m); [done|].
    match goal with E : ReleaseSegment _ _ = _ |- _ => unfold ReleaseSegment in E; case_match; by simplify_eq end.
  - match goal with Hl : segments_ m !! id = Some seg, E : Insert _ _ _ _ _ = _ |- _ =>
      destruct (ms_ok _ _ _ Hs _ _ Hl) as [Hok Hc]; apply Insert_spec in E as (_ & Hout); [|done..];
      assert (seg_ok seg' w' /\ seg_same seg seg' /\ seg_frame seg w w') as (Ho & Hsm & Hf);
      [destruct Hout as [(? & _ & _ & [])|[(_ & _ & _ & -> & ->)|(_ & _ & -> & [])]]; done|];
      split; [by eapply put_segment_part; [done..|apply Hsm]|by eapply put_segment_segs] end.
  - match goal with Hl : segments_ _ !! id = Some seg, E : Read _ _ _ _ _ = _ |- _ =>
      destruct (ms_ok _ _ _ Hs _ _ Hl) as [Hok Hc]; apply Read_spec in E as (Hw & _); [|done..] end.
    split; [done|]. destruct Hs as [Hok' Hsep]. split; [|done]. intros x s Hx.
    destruct (Hok' _ _ Hx). split; [|done]. by eapply seg_ok_same.
  - match goal with Hl : segments_ m !! id = Some seg, E : Delete _ _ _ = _ |- _ =>
      destruct (ms_ok _ _ _ Hs _ _ Hl) as [Hok Hc]; apply Delete_spec in E as (_ & Hout); [|done..];
      assert (seg_ok seg' w' /\ seg_same seg seg' /\ seg_frame seg w w') as (Ho & Hsm & Hf);
      [destruct (seg_map seg w !! i); [destruct Hout as [[_ []]|(_ & -> & [])]|destruct Hout as (-> & -> & _)]; done|];
      split; [by eapply put_segment_part; [done..|apply Hsm]|by eapply put_segment_segs] end.
  - split; [by destruct Hp|by destruct Hs].
  - match goal with E : EvaluateHotCold _ _ _ _ = _ |- _ => unfold EvaluateHotCold in E;
      destruct (evict _ _ _ _ _ _) as [[hot n]|]; [|done]; cbn in E; injection E as <- <- end.
    split; [by destruct Hp|by destruct Hs].
  - match goal with E : SaveState _ _ _ _ = _ |- _ => apply SaveState_spec in E as (-> & _) end.
    split; [by destruct Hp|by destruct Hs].
  - split; [by eapply LoadState_part|]. apply (mgr_segs_same m); [done|]. by eapply LoadState_segments.
  - match goal with E : RunCompaction _ _ _ _ _ = _ |- _ =>
      pose proof (RunCompaction_spec iter iter_ok cb c _ (fun _ _ => True) ltac:(done) m w x Hp Hs eq_refl I) as Hr;
      rewrite E in Hr end. tauto.
Qed.

Lemma mgr_run_inv w0 m w :
  rtc mgr_step (SegmentManager_new, w0) (m, w) -> mgr_part m /\ mgr_segs c m w.
Proof using iter_ok.
  intros Hr. refine (rtc_ind_r (R := mgr_step) (fun s => mgr_part s.1 /\ mgr_segs c s.1 s.2)
    (SegmentManager_new, w0) _ _ (m, w) Hr).
  - split; [apply SegmentManager_new_part|]. split; cbn; intros *; by rewrite ?lookup_empty.
  - intros [m1 w1] [m2 w2] _ Hstep [Hp Hs]. by eapply mgr_step_inv.
Qed.

(** C27: the classification of the manager is a partition in every reachable
    state.  Starting from an empty manager, after any sequence of registering
    disjoint segments, choosing, marking full, releasing, compacting, saving,
    loading, evaluating heat, and of inserts, reads and deletes on the segments,
    with any failures: every registered segment is in exactly one of
    [idle_set_], [appending_set_] and [full_set_], [full_order_] lists
    [full_set_] without repetition, and every segment's bookkeeping is
    consistent. *)
Theorem manager_partition_invariant w0 m w :
  rtc mgr_step (SegmentManager_new, w0) (m, w) ->
  (forall id, part_at (bool_decide (id ∈ idle_set_ m)) (bool_decide (id ∈ appending_set_ m))
     (bool_decide (id ∈ full_set_ m)) (bool_decide (id ∈ full_order_ m))
     (bool_decide (is_Some (segments_ m !! id))) = true) /\
  NoDup (full_order_ m) /\
  (forall id s, segments_ m !! id = Some s -> GetSegmentId s = id /\ seg_inv (seg_base s)).
Proof using iter_ok.
  intros Hr. apply mgr_run_inv in Hr as [Hp Hs].
  split; [apply Hp|]. split; [apply Hp|]. intros id s Hl. split; [by eapply mp_ids|].
  apply (ms_ok _ _ _ Hs _ _ Hl).
Qed.

(** ** Compaction *)

(** C11: compaction neither loses nor invents data, whatever fails.  If every
    idle or appending segment has a free slot, [RunCompaction] has a defined
    result; the keys and values stored in all segments together are exactly
    those stored before, the classification is still a partition and every
    segment is consistent; for every iteration order, every callback, and also
    when it returns an error in the middle. *)
Theorem RunCompaction_keeps_payloads X (cb : option (SlotMoveCallback X)) m w x :
  mgr_part m -> mgr_segs c m w -> all_free m -> 0 < lay_total_slots (CalculateLayout c) ->
  exists st m' w' x', RunCompaction iter cb m w x = Ret (st, m', w', x') /\
    mgr_part m' /\ mgr_segs c m' w' /\
    forall p, (exists id i, mgr_view m' w' id i = Some p) <-> (exists id i, mgr_view m w id i = Some p).
Proof using iter_ok.
  intros Hp Hs Hfree Hcap.
  pose (P := fun (v : stored) (_ : X) =>
    forall p, (exists id i, v id i = Some p) <-> (exists id i, mgr_view m w id i = Some p)).
  assert (forall v x src tgt cur ms all v', P v x ->
    relocated (lay_total_slots (CalculateLayout c)) v src tgt cur ms all v' ->
    P v' (run_moves cb src tgt cur ms x)) as Hstep.
  { intros v x0 src tgt cur ms all v' HP Hr p. rewrite <- (HP p). split.
    - intros (id & i & E). destruct (decide (id = tgt)) as [->|Ht]; [|destruct (decide (id = src)) as [->|Hsrc]].
      + rewrite (re_view_tgt _ _ _ _ _ _ _ _ Hr) in E. case_decide; [|eauto].
        apply fmap_Some in E as ([k q] & Ek & ->). apply list_elem_of_lookup_2 in Ek.
        exists src, k. cbn. by apply (re_src _ _ _ _ _ _ _ _ Hr).
      + rewrite (re_view_src _ _ _ _ _ _ _ _ Hr) in E. destruct all; [done|eauto].
      + rewrite (re_view_other _ _ _ _ _ _ _ _ Hr) in E by done. eauto.
    - intros (id & i & E). destruct (decide (id = tgt)) as [->|Ht]; [|destruct (decide (id = src)) as [->|Hsrc]].
      + exists tgt, i. rewrite (re_view_tgt _ _ _ _ _ _ _ _ Hr). rewrite decide_False; [done|].
        intros [Hc _]. rewrite (re_fresh _ _ _ _ _ _ _ _ Hr) in E by done. done.
      + destruct all.
        * apply (re_all _ _ _ _ _ _ _ _ Hr eq_refl) in E. apply list_elem_of_lookup_1 in E as [k Ek].
          exists tgt, (cur + Z.of_nat k). rewrite (re_view_tgt _ _ _ _ _ _ _ _ Hr).
          apply lookup_lt_Some in Ek as Hk. rewrite decide_True by lia.
          replace (Z.to_nat (cur + Z.of_nat k - cur)) with k by lia. by rewrite Ek.
        * exists src, i. by rewrite (re_view_src _ _ _ _ _ _ _ _ Hr).
      + exists id, i. by rewrite (re_view_other _ _ _ _ _ _ _ _ Hr). }
  pose proof (RunCompaction_spec iter iter_ok cb c _ P (fun v x src tgt cur ms all v' _ _ => Hstep v x src tgt cur ms all v') m w x Hp Hs eq_refl ltac:(done)) as Hr.
  destruct (RunCompaction iter cb m w x) as [[[[st m'] w'] x']|]; [|tauto].
  exists st, m', w', x'. split; [done|]. destruct Hr as (? & ? & _ & _ & ?). done.
Qed.

End history.

(** ** Witnesses

    Two file segments of two slots each.  Segment 1 is filled and one of its
    slots deleted, then it is marked full. *)

Lemma plain_iter_ok n X : plain_iter n X ≡ₚ elements X.
Proof. done. Qed.

Definition two_config : SegmentConfig := mkConfig true 2 3 16 f32_half 4.

Definition demo_open (id : Z) (p : string) (fs : FS) : SegmentFile * FS :=
  let '(_, s, fs) := SegmentFile_Open (SegmentFile_new id two_config p) fs in (s, fs).

Definition demo_fs0 : FS := mkFS ∅ [].
Definition demo_s1 : SegmentFile := (demo_open 1 "a" demo_fs0).1.
Definition demo_fs1 : FS := (demo_open 1 "a" demo_fs0).2.
Definition demo_s2 : SegmentFile := (demo_open 2 "b" demo_fs1).1.
Definition demo_fs2 : FS := (demo_open 2 "b" demo_fs1).2.

Definition demo_m1 : SegmentManager string := (AddSegment (Some demo_s1) SegmentManager_new).2.
Definition demo_m2 : SegmentManager string := (AddSegment (Some demo_s2) demo_m1).2.

Lemma demo_open_ok id p fs :
  fs_files fs !! p = None -> no_eio (fs_script fs) ->
  let r := demo_open id p fs in
  seg_ok r.1 r.2 /\ config_ (seg_base r.1) = two_config /\ seg_handle r.1 = p /\
  (forall p', p' <> p -> file_data p' r.2 = file_data p' fs).
Proof.
  intros Hp Hn. unfold demo_open. destruct (SegmentFile_Open _ fs) as [[st s] fs'] eqn:E.
  apply SegmentFile_Open_new in E as (_ & Hok & _ & _ & Hn' & Eb & Eh & Hf);
    [|apply (bool_decide_unpack _); vm_compute; exact I|done|done].
  cbn. rewrite Eb. done.
Qed.

Lemma demo_segs :
  seg_ok demo_s1 demo_fs2 /\ config_ (seg_base demo_s1) = two_config /\ seg_handle demo_s1 = "a" /\
  seg_ok demo_s2 demo_fs2 /\ config_ (seg_base demo_s2) = two_config /\ seg_handle demo_s2 = "b".
Proof.
  destruct (demo_open_ok 1 "a" demo_fs0 ltac:(vm_compute; reflexivity) ltac:(constructor)) as (Hok1 & Hc1 & Hh1 & _).
  destruct (demo_open_ok 2 "b" demo_fs1 ltac:(vm_compute; reflexivity)
    ltac:(apply (bool_decide_unpack _); vm_compute; exact I)) as (Hok2 & Hc2 & Hh2 & Hf2).
  fold demo_s1 demo_fs1 in Hok1, Hc1, Hh1. fold demo_s2 demo_fs2 in Hok2, Hc2, Hh2, Hf2.
  split; [|exact (conj Hc1 (conj Hh1 (conj Hok2 (conj Hc2 Hh2))))]. eapply seg_ok_frame; [|exact Hok1]. cbn. rewrite Hh1. by apply Hf2.
Qed.

Lemma demo_step1 iter : mgr_step iter two_config (SegmentManager_new, demo_fs2) (demo_m1, demo_fs2).
Proof.
  destruct demo_segs as (Hok & Hc & _). eapply (step_add iter two_config demo_s1 _ kOk); [done|done| |].
  - intros id t Hl. cbn in Hl. by rewrite lookup_empty in Hl.
  - vm_compute. reflexivity.
Qed.

Lemma demo_step2 iter : mgr_step iter two_config (demo_m1, demo_fs2) (demo_m2, demo_fs2).
Proof.
  destruct demo_segs as (_ & _ & Hh1 & Hok & Hc & Hh2).
  eapply (step_add iter two_config demo_s2 _ kOk); [done|done| |].
  - intros id t. change (segments_ demo_m1) with (<[1 := demo_s1]> (∅ : gmap Z SegmentFile)).
    intros [[_ <-]|[_ Hl]]%lookup_insert_Some; [|by rewrite lookup_empty in Hl]. cbn. by rewrite Hh1, Hh2.
  - vm_compute. reflexivity.
Qed.

(** Two inserts and a delete on segment 1, then it is marked full. *)
Definition demo_i1 := Insert (Some [1; 2]) (Some [3; 4; 5]) true demo_s1 demo_fs2.
Definition demo_i2 := Insert (Some [6; 7]) (Some [8; 9; 9]) true demo_i1.1.2 demo_i1.2.
Definition demo_d := Delete 0 demo_i2.1.2 demo_i2.2.
Definition demo_m3 : SegmentManager string :=
  (MarkSegmentFull 1 (put_segment 1 demo_d.1.2 (put_segment 1 demo_i2.1.2 (put_segment 1 demo_i1.1.2 demo_m2)))).2.
Definition demo_fs3 : FS := demo_d.2.

Lemma demo_run : rtc (mgr_step plain_iter two_config) (SegmentManager_new, demo_fs2) (demo_m3, demo_fs3).
Proof.
  eapply rtc_l; [exact (demo_step1 plain_iter)|]. eapply rtc_l; [exact (demo_step2 plain_iter)|].
  eapply rtc_l; [eapply (step_insert plain_iter two_config 1 demo_s1 [1; 2] [3; 4; 5] demo_i1.1.1.1 demo_i1.1.1.2
    demo_i1.1.2 demo_m2 _ demo_i1.2); vm_compute; reflexivity|].
  eapply rtc_l; [eapply (step_insert plain_iter two_config 1 demo_i1.1.2 [6; 7] [8; 9; 9] demo_i2.1.1.1 demo_i2.1.1.2
    demo_i2.1.2 _ _ demo_i2.2); vm_compute; reflexivity|].
  eapply rtc_l; [eapply (step_delete plain_iter two_config 1 demo_i2.1.2 0 demo_d.1.1 demo_d.1.2 _ _ demo_d.2);
    [vm_compute; reflexivity|lia|vm_compute; reflexivity]|].
  eapply rtc_l; [eapply (step_full plain_iter two_config 1 _ kOk demo_m3); vm_compute; reflexivity|].
  apply rtc_refl.
Qed.

Lemma demo_inv : mgr_part demo_m3 /\ mgr_segs two_config demo_m3 demo_fs3.
Proof. exact (mgr_run_inv plain_iter plain_iter_ok two_config demo_fs2 demo_m3 demo_fs3 demo_run). Qed.

Lemma manager_partition_invariant_witness :
  idle_set_ demo_m3 = {[2]} /\ full_order_ demo_m3 = [1] /\ NoDup (full_order_ demo_m3).
Proof.
  split; [vm_compute; reflexivity|]. split; [vm_compute; reflexivity|].
  exact (proj1 (proj2 (manager_partition_invariant plain_iter plain_iter_ok two_config
    demo_fs2 demo_m3 demo_fs3 demo_run))).
Defined.

Lemma GetActiveSegment_contract_witness :
  exists m', GetActiveSegment plain_iter demo_m3 = Ret (Some 2, m') /\ mgr_part m' /\ 2 ∈ appending_set_ m'.
Proof.
  pose proof (GetActiveSegment_contract plain_iter plain_iter_ok demo_m3 (proj1 demo_inv)) as Hc.
  assert (exists m', GetActiveSegment plain_iter demo_m3 = Ret (Some 2, m')) as [m' E]
    by (eexists; vm_compute; reflexivity).
  rewrite E in Hc. exists m'. destruct Hc as (Hp & _ & Ha & _). exact (conj E (conj Hp Ha)).
Defined.

Lemma demo_free : all_free demo_m3.
Proof.
  intros id seg Hid. assert (idle_set_ demo_m3 = {[2]}) as E1 by (vm_compute; reflexivity).
  assert (appending_set_ demo_m3 = ∅) as E2 by (vm_compute; reflexivity).
  rewrite E1, E2, elem_of_singleton, elem_of_empty in Hid. destruct Hid as [->|[]].
  assert ((GetFreeSlots <$> (seg_base <$> segments_ demo_m3 !! 2)) = Some 2) as E3 by (vm_compute; reflexivity).
  intros Hl. rewrite Hl in E3. cbn [fmap option_fmap option_map] in E3. injection E3 as E3. lia.
Qed.

(** The remaining slot of segment 1 moves to slot 0 of segment 2. *)
Lemma RunCompaction_keeps_payloads_witness :
  exists st m' w' x', RunCompaction plain_iter (Some (fun k a i b j (x : list (list Z * Z * Z * Z * Z)) =>
      x ++ [(k, a, i, b, j)])) demo_m3 demo_fs3 [] = Ret (st, m', w', x') /\
    st = kOk /\ x' = [([6; 7], 1, 1, 2, 0)] /\ mgr_view m' w' 2 0 = Some ([6; 7], [8; 9; 9]) /\
    (forall p, (exists id i, mgr_view m' w' id i = Some p) <->
               (exists id i, mgr_view demo_m3 demo_fs3 id i = Some p)).
Proof.
  pose (cb := Some (fun k a i b j (x : list (list Z * Z * Z * Z * Z)) => x ++ [(k, a, i, b, j)])).
  destruct (RunCompaction_keeps_payloads plain_iter plain_iter_ok two_config _ cb demo_m3 demo_fs3 []
    (proj1 demo_inv) (proj2 demo_inv) demo_free ltac:(vm_compute; reflexivity))
    as (st & m' & w' & x' & E & _ & _ & Hp).
  exists st, m', w', x'. split; [exact E|].
  assert (match RunCompaction plain_iter cb demo_m3 demo_fs3 [] with
    | Ret (st, m', w', x') => st = kOk /\ x' = [([6; 7], 1, 1, 2, 0)] /\
        mgr_view m' w' 2 0 = Some ([6; 7], [8; 9; 9])
    | UB => False end) as Hv by (vm_compute; auto).
  rewrite E in Hv. destruct Hv as (? & ? & ?). auto.
Defined.

(** Segment 1 is promoted and filled; nothing is deleted. *)
(** The other order of two elements. *)
Definition rev_iter (n : nat) (X : gset Z) : list Z := reverse (elements X).

Lemma rev_iter_ok n X : rev_iter n X ≡ₚ elements X.
Proof. apply reverse_Permutation. Qed.

Definition demo_m4 : SegmentManager string :=
  match GetActiveSegment rev_iter demo_m2 with Ret (_, m) => m | UB => demo_m2 end.
Definition demo_m5 : SegmentManager string :=
  put_segment 1 demo_i2.1.2 (put_segment 1 demo_i1.1.2 demo_m4).

Lemma demo_fill : rtc (mgr_step rev_iter two_config) (SegmentManager_new, demo_fs2) (demo_m5, demo_i2.2).
Proof.
  eapply rtc_l; [exact (demo_step1 rev_iter)|]. eapply rtc_l; [exact (demo_step2 rev_iter)|].
  eapply rtc_l; [eapply (step_active rev_iter two_config demo_m2 (Some 1) demo_m4); vm_compute; reflexivity|].
  eapply rtc_l; [eapply (step_insert rev_iter two_config 1 demo_s1 [1; 2] [3; 4; 5] demo_i1.1.1.1 demo_i1.1.1.2
    demo_i1.1.2 demo_m4 _ demo_i1.2); vm_compute; reflexivity|].
  eapply rtc_l; [eapply (step_insert rev_iter two_config 1 demo_i1.1.2 [6; 7] [8; 9; 9] demo_i2.1.1.1 demo_i2.1.1.2
    demo_i2.1.2 _ _ demo_i2.2); vm_compute; reflexivity|].
  apply rtc_refl.
Qed.

Lemma GetActiveSegment_exhausted_witness :
  demo_i1.1.1.1 = kOk /\ demo_i2.1.1.1 = kOk /\ idle_set_ demo_m5 = {[2]} /\
  GetActiveSegment rev_iter demo_m5 = UB.
Proof.
  split; [vm_compute; reflexivity|]. split; [vm_compute; reflexivity|]. split; [vm_compute; reflexivity|].
  refine (GetActiveSegment_exhausted rev_iter rev_iter_ok demo_m5 1 demo_i2.1.2 _ _ _ _).
  - exact (proj1 (mgr_run_inv rev_iter rev_iter_ok two_config demo_fs2 demo_m5 demo_i2.2 demo_fill)).
  - vm_compute. reflexivity.
  - vm_compute. reflexivity.
  - vm_compute. reflexivity.
Defined.

Definition demo_hot : SegmentManager string :=
  set_heat (<[1 := 5]> (<[2 := 9]> (<[3 := 1]> ∅))) {[3; 4]} SegmentManager_new.

Lemma EvaluateHotCold_correct_witness :
  exists m', EvaluateHotCold plain_iter 4 1 demo_hot = Some (kOk, m') /\
    Z.of_nat (size (hot_segments_ m')) <= 1 /\ access_counters_ m' = ∅.
Proof.
  destruct (EvaluateHotCold_correct plain_iter plain_iter_ok 4 1 demo_hot) as (m' & E & Hs & _ & Ha & _).
  - lia.
  - apply (bool_decide_unpack _). vm_compute. exact I.
  - exists m'. split; [exact E|]. split; [exact Hs|exact Ha].
Defined.
