(* ===== verification/ManagerProgress.v ===== *)
(** * Compaction makes room

    The other half of the correctness of [RunCompaction]: without I/O failures
    it gets its work done. *)

From S2P Require Import Prelude Common Sys SegmentBase SegmentOps SegmentFile SegmentManager ManagerState ManagerTheorems.

Section progress.
Context {H W : Type} `{SlotStoreLaws H W} (iter : nat -> gset Z -> list Z).
Hypothesis iter_ok : forall n X, iter n X ≡ₚ elements X.
Implicit Types (m : SegmentManager H) (w : W) (s t : Segment H).

(** The slots that compaction moves are the used ones. *)
Lemma live_slots_length s w :
  seg_ok s w ->
  Z.of_nat (length (live_slots (seg_map s w) (seqZ 0 (append_cursor_ (seg_base s))))) = used_slots_ (seg_base s).
Proof.
  intros [Hi _ (d & Hd & Hlen)]. set (b := seg_base s) in *. pose proof (si_cursor _ Hi) as Hc.
  rewrite (si_used _ Hi), (occ_count_below _ (append_cursor_ b) _ Hc) by apply Hi. unfold occ_count. f_equal.
  assert (forall l, Forall (fun i => 0 <= i < total_slots_ b) l ->
    length (live_slots (seg_map s w) l) = length (filter (fun i => slot_bit (bitmap_ b) i = true) l)) as Hl.
  { induction 1 as [|i l Hi' _ IH]; [done|]. cbn [live_slots omap list_omap]. fold (live_slots (seg_map s w) l).
    rewrite (seg_map_lookup _ _ d), filter_cons by done. fold b.
    destruct (slot_bit (bitmap_ b) i); cbn; [by rewrite IH|exact IH]. }
  apply Hl, Forall_forall. intros i Hin%elem_of_seqZ. lia.
Qed.

(** Only [src] needs compaction. *)
Lemma candidates_one ids m src :
  mgr_part m -> NoDup ids -> Forall (.∈ full_set_ m) ids -> src ∈ ids ->
  (forall id s, id ∈ full_set_ m -> segments_ m !! id = Some s ->
     ((id ∉ hot_segments_ m) /\ NeedsCompaction (seg_base s) = true) <-> id = src) ->
  candidates ids m = Ret [src].
Proof.
  intros Hp Hnd Hf Hin Hone.
  assert (forall ids, Forall (.∈ full_set_ m) ids -> src ∉ ids -> candidates ids m = Ret []) as Hnone.
  { clear ids Hnd Hf Hin. induction ids as [|id ids IH]; intros Hf Hni; [done|]. cbn [candidates].
    apply Forall_cons in Hf as [Hid Hf]. apply not_elem_of_cons in Hni as [Hne Hni].
    destruct (mp_registered m id Hp) as [s Hs]; [auto|]. rewrite Hs, (IH Hf Hni). cbn [mbind Outcome_bind].
    specialize (Hone id s Hid Hs). destruct (NeedsCompaction (seg_base s)); [|by rewrite andb_false_r].
    case_bool_decide as Hh; [done|]. destruct Hne. symmetry. by apply Hone. }
  induction ids as [|id ids IH]; [by apply not_elem_of_nil in Hin|]. cbn [candidates].
  apply NoDup_cons in Hnd as [Hni Hnd]. apply Forall_cons in Hf as [Hid Hf].
  destruct (mp_registered m id Hp) as [s Hs]; [auto|]. rewrite Hs. specialize (Hone id s Hid Hs).
  destruct (decide (id = src)) as [->|Hne].
  - rewrite (Hnone ids Hf Hni). cbn [mbind Outcome_bind]. destruct (proj2 Hone eq_refl) as [Hh ->].
    by rewrite bool_decide_eq_false_2.
  - apply elem_of_cons in Hin as [Hin|Hin]; [by destruct Hne|]. rewrite IH by done. cbn [mbind Outcome_bind].
    destruct (NeedsCompaction (seg_base s)); [|by rewrite andb_false_r]. case_bool_decide as Hh; [done|]. destruct Hne. by apply Hone.
Qed.

(** Compaction of one segment into one that has room for it. *)
Lemma Compact_succeeds {X} (cb : option (SlotMoveCallback X)) s t w x :
  seg_ok s w -> seg_ok t w -> compactible s t -> st_quiet w ->
  used_slots_ (seg_base s) <= total_slots_ (seg_base t) - append_cursor_ (seg_base t) ->
  exists s' t' w' x', Compact (Some t) cb s w x = (kOk, s', Some t', w', x') /\
    seg_base s' = ResetBitmap (seg_base s) /\ seg_map s' w' = ∅.
Proof.
  intros Hs Ht Hc Hq Hroom. destruct (Compact (Some t) cb s w x) as [[[[st s'] ot] w'] x'] eqn:E.
  pose proof (live_slots_length s w Hs) as Hlen.
  apply Compact_spec in E as (t' & ms & -> & _ & Hcp & _ & Hres & Hok & Hq'); [|done|done|done].
  destruct (Hq' Hq) as [_ [->|(-> & Hfull & Hlt)]].
  - exists s', t', w', x'. split; [done|]. destruct (Hok eq_refl) as (_ & -> & _). split; [done|].
    by destruct Hres as [[? _]|(_ & _ & ?)].
  - pose proof (cp_cursor _ _ _ _ _ _ _ Hcp) as Hcur. destruct (cp_tgt_same _ _ _ _ _ _ _ Hcp) as (_ & _ & _ & _ & Htot & _). lia.
Qed.

Lemma finish_compaction_idle src tgt m :
  src ∈ idle_set_ (finish_compaction src tgt m) /\ segments_ (finish_compaction src tgt m) = segments_ m.
Proof. unfold finish_compaction. destruct (GetState <$> _) as [[]|]; cbn; (split; [set_solver|done]). Qed.

(** C12: Compaction makes room.  Suppose one full segment that is not hot needs
    compaction, some segment is idle or appending, and those that are have room
    for the used slots of the full one.  When no I/O fails, [RunCompaction]
    returns [kOk]; the segment is idle again, stores nothing, and all its slots
    are free. *)
Theorem RunCompaction_reclaims {X} (cb : option (SlotMoveCallback X)) c m w x src s :
  mgr_part m -> mgr_segs c m w -> st_quiet w -> segments_ m !! src = Some s -> src ∈ full_set_ m ->
  (forall id s', id ∈ full_set_ m -> segments_ m !! id = Some s' ->
     ((id ∉ hot_segments_ m) /\ NeedsCompaction (seg_base s') = true) <-> id = src) ->
  idle_set_ m ∪ appending_set_ m <> ∅ ->
  (forall id t, id ∈ idle_set_ m ∪ appending_set_ m -> segments_ m !! id = Some t ->
     0 < GetFreeSlots (seg_base t) /\ used_slots_ (seg_base s) <= total_slots_ (seg_base t) - append_cursor_ (seg_base t)) ->
  exists m' w' x' s', RunCompaction iter cb m w x = Ret (kOk, m', w', x') /\
    src ∈ idle_set_ m' /\ segments_ m' !! src = Some s' /\
    GetFreeSlots (seg_base s') = total_slots_ (seg_base s) /\ forall i, mgr_view m' w' src i = None.
Proof using iter_ok.
  intros Hp Hs Hq Hsrc Hfull Hone Hsome Hroom. unfold RunCompaction.
  set (ids := iter (clock_ m) (full_set_ m)).
  assert (candidates ids (tick m) = Ret [src]) as ->.
  { apply candidates_one; [by apply tick_part|unfold ids; rewrite iter_ok; apply NoDup_elements| | |done].
    - apply Forall_forall. intros id Hid. by apply (iter_elem iter iter_ok (clock_ m)) in Hid.
    - by apply (iter_elem iter iter_ok (clock_ m)). }
  cbn [mbind Outcome_bind compact_candidates].
  assert (exists tgt t m1, GetActiveSegment iter (tick m) = Ret (Some tgt, m1) /\ segments_ m1 = segments_ m /\
    tgt ∈ idle_set_ m ∪ appending_set_ m /\ segments_ m !! tgt = Some t) as (tgt & t & m1 & -> & Es & Htgt & Ht).
  { pose proof (GetActiveSegment_result iter iter_ok (tick m) (tick_part _ Hp)) as Hr.
    inversion Hr as [Hi Ha E|id seg Hid Hseg Hf E|id seg Ha Hid Hseg E|id seg Hid Hseg Hf E].
    - destruct Hsome. change (idle_set_ m = ∅) in Hi. change (appending_set_ m = ∅) in Ha. by rewrite Hi, Ha, union_empty_l_L.
    - exists id, seg, (tick (tick m)). split; [done|]. split; [done|]. split; [by apply elem_of_union_r|done].
    - exists id, seg, (promoted id (tick m)). split; [done|]. split; [done|]. split; [by apply elem_of_union_l|done].
    - destruct (Hroom id seg) as [Hpos _]; [by apply elem_of_union_r|done|]. lia. }
  cbn [mbind Outcome_bind]. rewrite Es, Hsrc, Ht.
  assert (tgt <> src) as Hne.
  { intros ->. pose proof (mp_at _ Hp src) as Hat. apply mem_true in Hfull. rewrite Hfull in Hat.
    apply elem_of_union in Htgt as [Hin|Hin]; apply mem_true in Hin; rewrite Hin in Hat; bits. }
  rewrite bool_decide_eq_false_2 by done. destruct (ms_ok _ _ _ Hs src s Hsrc) as [Hso Hsc].
  destruct (ms_ok _ _ _ Hs tgt t Ht) as [Hto Htc]. destruct (Hroom tgt t Htgt Ht) as [_ Hfit].
  destruct (Compact_succeeds cb s t w x Hso Hto) as (s' & t' & w' & x' & -> & Eb & Em); [|done|done|].
  { eapply config_same_compactible; [done|done|]. by eapply (ms_sep _ _ _ Hs). }
  cbn [status_is_ok negb]. eexists _, w', x', s'. split; [reflexivity|].
  split; [apply finish_compaction_idle|]. unfold mgr_view. rewrite (proj2 (finish_compaction_idle _ _ _)). cbn.
  rewrite lookup_insert_ne, lookup_insert_eq by done. split; [done|]. split.
  - pose proof Hso as [Hinv _ _]. destruct (ResetBitmap_inv _ (si_layout _ Hinv)) as (Hri & Hsame & Hcur & Hus & _).
    unfold GetFreeSlots. rewrite Eb, (si_deleted _ Hri), Hcur, Hus. destruct Hsame as (_ & _ & -> & _).
    destruct (seg_total_bounds _ (si_layout _ Hinv)) as [? _]. rewrite u32_small; lia.
  - intros i. cbn. by rewrite Em, lookup_empty.
Qed.

End progress.

(** Segment 1 of the example is compacted into segment 2, and is free again. *)
Lemma RunCompaction_reclaims_witness :
  exists m' w' x' s', RunCompaction plain_iter (None : option (SlotMoveCallback unit)) demo_m3 demo_fs3 tt = Ret (kOk, m', w', x') /\
    1 ∈ idle_set_ m' /\ segments_ m' !! 1 = Some s' /\ GetFreeSlots (seg_base s') = 2 /\ forall i, mgr_view m' w' 1 i = None.
Proof.
  assert ((fun s => (used_slots_ (seg_base s), total_slots_ (seg_base s), NeedsCompaction (seg_base s))) <$>
    segments_ demo_m3 !! 1 = Some (1, 2, true)) as E0 by (vm_compute; reflexivity).
  destruct (segments_ demo_m3 !! 1) as [s|] eqn:Hs; [|discriminate E0].
  cbn [fmap option_fmap option_map] in E0. injection E0 as Hu Ht Hn.
  assert (full_set_ demo_m3 = {[1]} /\ idle_set_ demo_m3 = {[2]} /\ appending_set_ demo_m3 = ∅ /\ hot_segments_ demo_m3 = ∅)
    as (Ef & Ei & Ea & Eh) by (repeat split; vm_compute; reflexivity).
  destruct (RunCompaction_reclaims plain_iter plain_iter_ok (None : option (SlotMoveCallback unit)) two_config demo_m3 demo_fs3 tt 1 s)
    as (m' & w' & x' & s' & E & Hi & Hl & Hf & Hv); [apply demo_inv|apply demo_inv| |exact Hs|rewrite Ef; by apply elem_of_singleton|..].
  - apply (bool_decide_unpack _); vm_compute; exact I.
  - intros id s0. rewrite Ef, elem_of_singleton, Eh. intros -> Hs0. rewrite Hs in Hs0. injection Hs0 as <-. split; [done|].
    intros _. split; [apply not_elem_of_empty|done].
  - rewrite Ei, Ea, union_empty_r_L. apply non_empty_singleton_L.
  - intros id t. rewrite Ei, Ea, union_empty_r_L, elem_of_singleton. intros -> Hl.
    assert ((fun t => (GetFreeSlots (seg_base t), total_slots_ (seg_base t), append_cursor_ (seg_base t))) <$>
      segments_ demo_m3 !! 2 = Some (2, 2, 0)) as E by (vm_compute; reflexivity).
    rewrite Hl in E. cbn [fmap option_fmap option_map] in E. injection E as E1 E2 E3. lia.
  - exists m', w', x', s'. rewrite <- Ht. auto.
Defined.
