(* ===== verification/Index.v ===== *)
(** * The index ([parakv/core/index/index.cc], [index.h])

    [Index<KeyT>] maps keys to encoded locations, stores key and value bytes in
    the segments of a [SegmentManager], logs every change to a WAL, and takes
    snapshots that let the log be truncated.

    The index is generic in the key type, as the template is, in the segments
    ([SlotStore]) and in the two phmap operations that write and read a
    snapshot ([Phmap]), which belong to a third-party library.  The in-memory
    map is a [gmap].  Operations that only touch the map and the index's own
    files act on the index and the file system [FS]; those that also reach the
    segments act on an [Env].  Calls are sequential: one at a time. *)

From S2P Require Import Prelude Common Sys Key Offset Wal SegmentBase SegmentOps SegmentManager.
From Stdlib Require Import Ascii.

(** ** Third-party snapshot format *)

(** [map.phmap_dump(ar)] on a [BinaryOutputArchive(path)], and
    [map.phmap_load(ar)] on a [BinaryInputArchive(path)]; [None] is a load
    that returned false. *)
Class Phmap (K : Type) `{!KeyT K} := {
  phmap_dump : gmap K Z -> string -> FS -> bool * FS;
  phmap_load : string -> FS -> option (gmap K Z) * FS;
}.

(** What the index relies on: a dump that reports success left a file from
    which a load gets the same map; both touch no other file, and fail only
    when an I/O call failed.  [phmap_image d m]: the bytes [d] hold [m]. *)
Class PhmapLaws (K : Type) `{!KeyT K} `{!Phmap K} := {
  phmap_image : list Z -> gmap K Z -> Prop;
  phmap_dump_spec : forall m p fs ok fs', phmap_dump m p fs = (ok, fs') ->
    (forall q, q <> p -> fs_files fs' !! q = fs_files fs !! q) /\
    (ok = true -> exists f, fs_files fs' !! p = Some f /\ phmap_image (f_data f) m) /\
    (no_eio (fs_script fs) -> ok = true /\ no_eio (fs_script fs'));
  phmap_load_spec : forall p f m fs o fs', fs_files fs !! p = Some f -> phmap_image (f_data f) m ->
    phmap_load p fs = (o, fs') ->
    fs_files fs' = fs_files fs /\ (o = None \/ o = Some m) /\
    (no_eio (fs_script fs) -> o = Some m /\ no_eio (fs_script fs'));
}.

(** ** State *)

Record Options := mkOpts {
  segment_manager : bool;        (** the pointer is not null *)
  wal_path : string;
  segment_config : SegmentConfig;
  wal_checkpoint_bytes : Z;
  snapshot_dir : string;
  namespace_name : string;
}.

Record Index (K : Type) `{!KeyT K} := mkIndex {
  opts_ : Options;
  map_ : gmap K Z;
  wal_ : option WalWriter;
  wal_bytes_ : Z;
  opened_ : bool;
}.
Arguments mkIndex {K _} _ _ _ _ _.
Arguments opts_ {K _} _.
Arguments map_ {K _} _.
Arguments wal_ {K _} _.
Arguments wal_bytes_ {K _} _.
Arguments opened_ {K _} _.

(** ** Paths *)

Definition FileExists (path : string) (fs : FS) : bool * FS := sys_stat path fs.

(** [dir.back() == '/']. *)
Definition ends_in_slash (dir : string) : bool :=
  bool_decide (String.get (String.length dir - 1) dir = Some "/"%char).

Definition SnapshotPath (dir : string) : string :=
  if bool_decide (dir = EmptyString) then EmptyString else
  if ends_in_slash dir then (dir +:+ "index.snapshot")%string
  else (dir +:+ "/index.snapshot")%string.

Definition SnapshotTmpPath (dir : string) : string := (SnapshotPath dir +:+ ".tmp")%string.

(** ** Operations on the map and the index's files *)

Section files.
Context {K : Type} `{!KeyT K} `{!Phmap K}.
Implicit Types (ix : Index K) (fs : FS).

Definition Index_new (opts : Options) : Index K := mkIndex opts ∅ None 0 false.

Definition set_map (m : gmap K Z) ix : Index K :=
  mkIndex (opts_ ix) m (wal_ ix) (wal_bytes_ ix) (opened_ ix).
Definition set_wal (w : option WalWriter) ix : Index K :=
  mkIndex (opts_ ix) (map_ ix) w (wal_bytes_ ix) (opened_ ix).
Definition set_wal_bytes (n : Z) ix : Index K :=
  mkIndex (opts_ ix) (map_ ix) (wal_ ix) n (opened_ ix).
Definition set_opened (o : bool) ix : Index K :=
  mkIndex (opts_ ix) (map_ ix) (wal_ ix) (wal_bytes_ ix) o.

(** The [switch] of [ApplyRecord]: other type bytes do nothing. *)
Definition ApplyRecord (r : WalRecord K) (m : gmap K Z) : gmap K Z :=
  if (rec_type r =? kInsert) || (rec_type r =? kUpdate) then <[rec_key r := disk_addr r]> m
  else if rec_type r =? kDelete then delete (rec_key r) m
  else m.

Definition LoadSnapshot (path : string) ix fs : Status * Index K * FS :=
  let '(fresh, fs) := phmap_load path fs in
  match fresh with
  | None => (kCorruption, ix, fs)
  | Some fresh => (kOk, set_map fresh ix, fs)
  end.

Definition DumpSnapshot (path : string) ix fs : Status * FS :=
  let '(ok, fs) := phmap_dump (map_ ix) path fs in
  (if ok then kOk else kIOError, fs).

Definition RotateWal ix fs : Status * Index K * FS :=
  match wal_ ix with
  | None => (kOk, ix, fs)
  | Some w =>
      let '(_, _, fs) := WalWriter_Close w fs in
      let ix := set_wal None ix in
      let '(s, fresh, fs) := WalWriter_Open (wal_path (opts_ ix)) true WalWriter_new fs in
      if negb (status_is_ok s) then (s, ix, fs)
      else (kOk, set_wal_bytes 0 (set_wal (Some fresh) ix), fs)
  end.

Definition Checkpoint ix fs : Status * Index K * FS :=
  let dir := snapshot_dir (opts_ ix) in
  if is_empty dir then (kInvalidArgument, ix, fs) else
  let final_path := SnapshotPath dir in
  let tmp_path := SnapshotTmpPath dir in
  let '(s, fs) := DumpSnapshot tmp_path ix fs in
  if negb (status_is_ok s) then (s, ix, fs) else
  let '(ok, fs) := sys_rename tmp_path final_path fs in
  if negb ok then (kIOError, ix, fs) else
  RotateWal ix fs.

Definition AppendWal (type : Z) (key : K) (disk_addr old_disk_addr : Z) ix fs
    : Status * Index K * FS :=
  match wal_ ix with
  | None => (kOk, ix, fs)
  | Some w =>
      let rec := mkRec type key disk_addr old_disk_addr in
      let '(s, w, fs) := AppendRecord rec w fs in
      let ix := set_wal (Some w) ix in
      if negb (status_is_ok s) then (s, ix, fs) else
      let bytes := bytes_written_ w in
      let ix := set_wal_bytes bytes ix in
      if (wal_checkpoint_bytes (opts_ ix) >? 0) && (bytes >=? wal_checkpoint_bytes (opts_ ix)) &&
         negb (is_empty (snapshot_dir (opts_ ix)))
      then let '(_, ix, fs) := Checkpoint ix fs in (kOk, ix, fs)
      else (kOk, ix, fs)
  end.

(** Step 1 of [Open]. *)
Definition open_snapshot ix fs : Status * Index K * FS :=
  let dir := snapshot_dir (opts_ ix) in
  if is_empty dir then (kOk, ix, fs) else
  let snap := SnapshotPath dir in
  let '(there, fs) := FileExists snap fs in
  if there then LoadSnapshot snap ix fs else (kOk, ix, fs).

(** Step 2: replay, then cut the log at the last good record. *)
Definition open_replay ix fs : option (Status * Index K * FS) :=
  let path := wal_path (opts_ ix) in
  if is_empty path then Some (kOk, ix, fs) else
  let '(there, fs) := FileExists path fs in
  if negb there then Some (kOk, ix, fs) else
  let '(s, reader, fs) := WalReader_Open path WalReader_new fs in
  if negb (status_is_ok s) then Some (s, ix, fs) else
  match ReplayRecords ApplyRecord reader fs (map_ ix) with
  | None => None
  | Some (s, m, reader, fs) =>
      let ix := set_map m ix in
      if negb (status_is_ok s) then Some (s, ix, fs) else
      let good := last_good_offset_ reader in
      let '(ok, fs) := sys_truncate path (Z.to_nat good) fs in
      Some (if ok then kOk else kIOError, ix, fs)
  end.

(** Step 3. *)
Definition open_wal ix fs : Status * Index K * FS :=
  let path := wal_path (opts_ ix) in
  if is_empty path then (kOk, ix, fs) else
  let '(s, w, fs) := WalWriter_Open path false WalWriter_new fs in
  let ix := set_wal (Some w) ix in
  if negb (status_is_ok s) then (s, ix, fs)
  else (kOk, set_wal_bytes (bytes_written_ w) ix, fs).

(** [None]: the replay loop ran out of fuel. *)
Definition Index_Open ix fs : option (Status * Index K * FS) :=
  if opened_ ix then Some (kOk, ix, fs) else
  let ix := set_opened true ix in
  if negb (key_size (segment_config (opts_ ix)) =? Z.of_nat (key_sizeof (K := K)))
  then Some (kInvalidArgument, ix, fs) else
  let '(s, ix, fs) := open_snapshot ix fs in
  if negb (status_is_ok s) then Some (s, ix, fs) else
  '(s, ix, fs) ← open_replay ix fs;
  if negb (status_is_ok s) then Some (s, ix, fs) else
  Some (open_wal ix fs).

Definition Index_Close ix fs : Status * Index K * FS :=
  if negb (opened_ ix) then (kOk, ix, fs) else
  let ix := set_opened false ix in
  match wal_ ix with
  | None => (kOk, ix, fs)
  | Some w =>
      let '(_, _, fs) := WalWriter_Close w fs in
      (kOk, set_wal None ix, fs)
  end.

(** [~Index]. *)
Definition Index_destroy ix fs : FS :=
  let '(_, ix, fs) := Checkpoint ix fs in
  let '(_, _, fs) := Index_Close ix fs in fs.

(** ** Lookups *)

Definition Contains (key : K) ix : bool := bool_decide (is_Some (map_ ix !! key)).

(** [encoded_offset]: whether the output pointer was passed. *)
Definition Lookup (key : K) (encoded_offset : bool) ix : Status * option Z :=
  if negb encoded_offset then (kInvalidArgument, None) else
  match map_ ix !! key with
  | Some enc => (kOk, Some enc)
  | None => (kNotFound, None)
  end.

Definition RemapIfEquals (key : K) (old_off new_off : Z) ix : Status * Index K :=
  match map_ ix !! key with
  | Some v => if v =? old_off then (kOk, set_map (<[key := new_off]> (map_ ix)) ix) else (kNotFound, ix)
  | None => (kNotFound, ix)
  end.

(** The callback [AttachToSegmentManager] registers, with the index alive. *)
Definition slot_moved : SlotMoveCallback (Index K * FS) :=
  fun key old_seg old_slot new_seg new_slot '(ix, fs) =>
    let old_enc := EncodeSegmentSlot old_seg old_slot in
    let new_enc := EncodeSegmentSlot new_seg new_slot in
    let key := key_of_raw (take (key_sizeof (K := K)) key) in
    let '(_, ix, fs) := AppendWal kUpdate key new_enc old_enc ix fs in
    let '(_, ix) := RemapIfEquals key old_enc new_enc ix in
    (ix, fs).

Definition AttachToSegmentManager ix : option (SlotMoveCallback (Index K * FS)) :=
  if segment_manager (opts_ ix) then Some slot_moved else None.

Definition Size ix : Z := Z.of_nat (size (map_ ix)).
Definition WalBytes ix : Z := wal_bytes_ ix.

(** [order] is the order in which phmap visits the keys. *)
Definition ForEachKey {X} (order : gmap K Z -> list K) (callback : K -> X -> X) ix (x : X) : X :=
  foldl (fun x k => callback k x) x (order (map_ ix)).

End files.

(** ** The data path *)

Record Env (K H W : Type) `{!KeyT K} := mkEnv {
  e_ix : Index K;
  e_fs : FS;
  e_mgr : SegmentManager H;
  e_w : W;
}.
Arguments mkEnv {K H W _} _ _ _ _.
Arguments e_ix {K H W _} _.
Arguments e_fs {K H W _} _.
Arguments e_mgr {K H W _} _.
Arguments e_w {K H W _} _.

Section data.
Context {K : Type} `{!KeyT K} `{!Phmap K} {H W : Type} `{SlotStore H W}.
Context (iter : nat -> gset Z -> list Z).
Implicit Types (e : Env K H W).

Definition set_ix (ix : Index K) e : Env K H W := mkEnv ix (e_fs e) (e_mgr e) (e_w e).
Definition set_files_of (ix : Index K) (fs : FS) e : Env K H W := mkEnv ix fs (e_mgr e) (e_w e).
Definition set_store (m : SegmentManager H) (w : W) e : Env K H W := mkEnv (e_ix e) (e_fs e) m w.
Definition e_opts e : Options := opts_ (e_ix e).

(** [opts_.segment_manager->...] through a null pointer is undefined. *)
Definition FreeSlot (encoded : Z) e : Outcome (Status * Env K H W) :=
  if negb (bool_decide (GetFlag encoded = kSegmentSlot)) then Ret (kOk, e) else
  if negb (segment_manager (e_opts e)) then UB else
  let seg_id := Offset.GetSegmentId encoded in
  let slot_id := GetSlotId encoded in
  match GetSegment seg_id (e_mgr e) with
  | None => Ret (kNotFound, e)
  | Some seg =>
      let '(s, seg, w) := Delete slot_id seg (e_w e) in
      Ret (s, set_store (put_segment seg_id seg (e_mgr e)) w e)
  end.

(** One [seg->Insert(&key, value, &slot_id)] on the segment [id]. *)
Definition insert_into (id : Z) (key : K) (value : list Z) e
    : Outcome (Status * option Z * Env K H W) :=
  match segments_ (e_mgr e) !! id with
  | None => UB
  | Some seg =>
      let '(s, slot_id, seg, w) := Insert (Some (key_raw key)) (Some value) true seg (e_w e) in
      Ret (s, slot_id, set_store (put_segment id seg (e_mgr e)) w e)
  end.

Definition active_segment e : Outcome (option Z * Env K H W) :=
  '(o, m) ← GetActiveSegment iter (e_mgr e); Ret (o, set_store m (e_w e) e).

(** The status and the encoded offset. *)
Definition WriteToSegment (key : K) (value : list Z) e : Outcome (Status * Z * Env K H W) :=
  '(o, e) ← active_segment e;
  match o with
  | None => Ret (kNoSpace, 0, e)
  | Some seg =>
    '(s, slot_id, e) ← insert_into seg key value e;
    if bool_decide (s = kFull) then
      let '(_, m) := MarkSegmentFull seg (e_mgr e) in
      '(o, e) ← active_segment (set_store m (e_w e) e);
      match o with
      | None => Ret (kNoSpace, 0, e)
      | Some seg =>
        '(s, slot_id, e) ← insert_into seg key value e;
        if negb (status_is_ok s) then Ret (s, 0, e)
        else Ret (kOk, EncodeSegmentSlot seg (default 0 slot_id), e)
      end
    else if negb (status_is_ok s) then Ret (s, 0, e)
    else Ret (kOk, EncodeSegmentSlot seg (default 0 slot_id), e)
  end.

Definition append_wal (type : Z) (key : K) (disk_addr old_disk_addr : Z) e : Status * Env K H W :=
  let '(s, ix, fs) := AppendWal type key disk_addr old_disk_addr (e_ix e) (e_fs e) in
  (s, set_files_of ix fs e).

(** [value]: the bytes at the pointer, [None] for a null pointer. *)
Definition Put (key : K) (value : option (list Z)) (value_size : Z) e
    : Outcome (Status * Env K H W) :=
  match value with
  | None => Ret (kInvalidArgument, e)
  | Some value =>
    if negb (value_size =? SegmentBase.value_size (segment_config (e_opts e)))
    then Ret (kInvalidArgument, e) else
    if negb (segment_manager (e_opts e)) then Ret (kInvalidArgument, e) else
    '(s, new_enc, e) ← WriteToSegment key value e;
    if negb (status_is_ok s) then Ret (s, e) else
    let old := map_ (e_ix e) !! key in
    let e := set_ix (set_map (<[key := new_enc]> (map_ (e_ix e))) (e_ix e)) e in
    let '(wal_s, e) :=
      append_wal (if bool_decide (is_Some old) then kUpdate else kInsert) key new_enc (default 0 old) e in
    if negb (status_is_ok wal_s) then
      let m := map_ (e_ix e) in
      let m := match old with
               | Some old_enc => alter (fun _ => old_enc) key m
               | None => delete key m
               end in
      '(_, e) ← FreeSlot new_enc (set_ix (set_map m (e_ix e)) e);
      Ret (wal_s, e)
    else
      match old with
      | Some old_enc => '(_, e) ← FreeSlot old_enc e; Ret (kOk, e)
      | None => Ret (kOk, e)
      end
  end.

(** The status and the bytes put into [value_out], when it was passed. *)
Definition Get (key : K) (value_out : bool) (value_size : Z) e
    : Outcome (Status * option (list Z) * Env K H W) :=
  if negb value_out then Ret (kInvalidArgument, None, e) else
  if negb (value_size =? SegmentBase.value_size (segment_config (e_opts e)))
  then Ret (kInvalidArgument, None, e) else
  match Lookup key true (e_ix e) with
  | (kOk, Some enc) =>
    if negb (bool_decide (GetFlag enc = kSegmentSlot)) then Ret (kNotFound, None, e) else
    if negb (segment_manager (e_opts e)) then UB else
    let seg_id := Offset.GetSegmentId enc in
    let slot_id := GetSlotId enc in
    match GetSegment seg_id (e_mgr e) with
    | None => Ret (kNotFound, None, e)
    | Some seg =>
        let '(s, _, out, w) := Read slot_id true true seg (e_w e) in
        Ret (s, out, set_store (e_mgr e) w e)
    end
  | (s, _) => Ret (s, None, e)
  end.

(** [try_emplace] keeps an entry that is there. *)
Definition try_emplace (key : K) (v : Z) (m : gmap K Z) : gmap K Z :=
  match m !! key with Some _ => m | None => <[key := v]> m end.

Definition Index_Delete (key : K) e : Outcome (Status * Env K H W) :=
  match map_ (e_ix e) !! key with
  | None => Ret (kNotFound, e)
  | Some old_enc =>
    let e := set_ix (set_map (delete key (map_ (e_ix e))) (e_ix e)) e in
    let '(s, e) := append_wal kDelete key 0 old_enc e in
    if negb (status_is_ok s) then
      Ret (s, set_ix (set_map (try_emplace key old_enc (map_ (e_ix e))) (e_ix e)) e)
    else
      '(_, e) ← FreeSlot old_enc e;
      Ret (kOk, e)
  end.

(** The key stored at a location, copied into a [KeyT]. *)
Definition ReadKeyAtEncoded (encoded : Z) e : Outcome (Status * option K * Env K H W) :=
  if negb (bool_decide (GetFlag encoded = kSegmentSlot)) then Ret (kInvalidArgument, None, e) else
  if negb (key_size (segment_config (e_opts e)) =? Z.of_nat (key_sizeof (K := K)))
  then Ret (kInvalidArgument, None, e) else
  if negb (segment_manager (e_opts e)) then UB else
  match GetSegment (Offset.GetSegmentId encoded) (e_mgr e) with
  | None => Ret (kNotFound, None, e)
  | Some seg =>
      let '(s, key_buf, _, w) := Read (GetSlotId encoded) true true seg (e_w e) in
      let e := set_store (e_mgr e) w e in
      if negb (status_is_ok s) then Ret (s, None, e)
      else Ret (kOk, key_of_raw <$> key_buf, e)
  end.

(** ** Type-erased data path: [None] is a null key pointer. *)

Definition raw_key (key_input : option (list Z)) (key_size : Z) : option K :=
  match key_input with
  | None => None
  | Some k => if negb (key_size =? Z.of_nat (key_sizeof (K := K))) then None
              else Some (key_of_raw (take (key_sizeof (K := K)) k))
  end.

Definition PutRaw (key_input : option (list Z)) (key_size : Z) (value : option (list Z))
    (value_size : Z) e : Outcome (Status * Env K H W) :=
  match raw_key key_input key_size with
  | None => Ret (kInvalidArgument, e)
  | Some key => Put key value value_size e
  end.

Definition GetRaw (key_input : option (list Z)) (key_size : Z) (value_out : bool)
    (value_size : Z) e : Outcome (Status * option (list Z) * Env K H W) :=
  match raw_key key_input key_size with
  | None => Ret (kInvalidArgument, None, e)
  | Some key => Get key value_out value_size e
  end.

Definition DeleteRaw (key_input : option (list Z)) (key_size : Z) e
    : Outcome (Status * Env K H W) :=
  match raw_key key_input key_size with
  | None => Ret (kInvalidArgument, e)
  | Some key => Index_Delete key e
  end.

Definition LookupRaw (key_input : option (list Z)) (key_size : Z) (encoded_offset : bool) e
    : Status * option Z :=
  match raw_key key_input key_size with
  | None => (kInvalidArgument, None)
  | Some key => Lookup key encoded_offset (e_ix e)
  end.

End data.
