(* ===== verification/IndexData.v ===== *)
(** * The index data path: what [Put], [Get] and [Delete] do to the stored data

    The contents of an index are the keys of its map with the values stored at
    the locations the map gives them.  This file holds the invariant that ties
    the map to the segments, and what every operation of the data path, and
    compaction with the index's callback, does to the contents. *)

From S2P Require Import Prelude Common Sys Key Offset Wal SegmentBase SegmentOps SegmentManager Index.

(** ** Contents *)

Section contents.
Context {K : Type} `{!KeyT K} `{!KeyTLaws K}.
Implicit Types (v : stored) (m : gmap K Z) (k : K).

(** The location [enc] holds the key [k] with the value [val]. *)
Definition entry_at v k (enc : Z) (val : list Z) : Prop :=
  exists sid slot, enc = EncodeSegmentSlot sid slot /\ seg_slot_ok sid slot /\
    v sid slot = Some (key_raw k, val).

(** Every entry of the map is at a location that holds its key. *)
Definition index_ok v m : Prop :=
  forall k enc, m !! k = Some enc -> key_valid k /\ exists val, entry_at v k enc val.

(** The value stored at a location. *)
Definition value_of v (enc : Z) : option (list Z) :=
  if bool_decide (GetFlag enc = kSegmentSlot)
  then snd <$> v (Offset.GetSegmentId enc) (GetSlotId enc) else None.

Definition contents v m : gmap K (list Z) := omap (value_of v) m.

(** One slot changed. *)
Definition vset v (sid slot : Z) (o : option (list Z * list Z)) : stored :=
  fun a i => if decide (a = sid /\ i = slot) then o else v a i.

Definition v_same v v' : Prop := forall a i, v' a i = v a i.

Lemma entry_value v k enc val : entry_at v k enc val -> value_of v enc = Some val.
Proof.
  intros (sid & slot & -> & Hok & Hv). unfold value_of.
  rewrite GetFlag_EncodeSegmentSlot, GetSegmentId_EncodeSegmentSlot, GetSlotId_EncodeSegmentSlot by done.
  rewrite bool_decide_eq_true_2 by done. by rewrite Hv.
Qed.

Lemma contents_lookup v m k : contents v m !! k = m !! k ≫= value_of v.
Proof. apply lookup_omap. Qed.

Lemma index_ok_lookup v m k enc :
  index_ok v m -> m !! k = Some enc -> exists val, entry_at v k enc val /\ contents v m !! k = Some val.
Proof.
  intros Hi Hk. destruct (Hi _ _ Hk) as [_ [val Hv]]. exists val. split; [done|].
  rewrite contents_lookup, Hk. cbn. by eapply entry_value.
Qed.

(** The contents have exactly the keys of the map. *)
Lemma index_ok_none v m k : index_ok v m -> m !! k = None <-> contents v m !! k = None.
Proof.
  intros Hi. rewrite contents_lookup. destruct (m !! k) as [enc|] eqn:E; [|done].
  destruct (index_ok_lookup v m k enc Hi E) as (val & He & _). cbn. by rewrite (entry_value _ _ _ _ He).
Qed.

Lemma key_raw_inj k k' : key_valid k -> key_valid k' -> key_raw k = key_raw k' -> k = k'.
Proof. intros Hk Hk' E. by rewrite <- (key_of_raw_raw k Hk), E, key_of_raw_raw. Qed.

(** Different keys have different locations. *)
Lemma index_ok_inj v m k k' enc :
  index_ok v m -> m !! k = Some enc -> m !! k' = Some enc -> k = k'.
Proof.
  intros Hi Hk Hk'. destruct (Hi _ _ Hk) as [V1 (val & s1 & t1 & -> & O1 & E1)].
  destruct (Hi _ _ Hk') as [V2 (val' & s2 & t2 & E & O2 & E2)].
  apply EncodeSegmentSlot_inj in E as [-> ->]; [|done|done].
  apply key_raw_inj; [done|done|]. congruence.
Qed.

(** Two maps over two views agree at a key when its entry moved along. *)
Lemma contents_eq v m v' m' (c : gmap K (list Z)) :
  contents v m = c -> index_ok v m ->
  (forall k, m !! k = None -> m' !! k = None) ->
  (forall k enc val, m !! k = Some enc -> entry_at v k enc val ->
     exists enc', m' !! k = Some enc' /\ entry_at v' k enc' val) ->
  index_ok v' m' /\ contents v' m' = c.
Proof.
  intros <- Hi Hn Hs. split.
  - intros k enc' Hk. destruct (m !! k) as [enc|] eqn:E; [|rewrite Hn in Hk by done; done].
    destruct (Hi _ _ E) as [Hv [val He]]. split; [done|]. exists val.
    destruct (Hs _ _ _ E He) as (enc2 & E2 & He2). congruence.
  - apply map_eq. intros k. rewrite !contents_lookup. destruct (m !! k) as [enc|] eqn:E.
    + destruct (Hi _ _ E) as [_ [val He]]. destruct (Hs _ _ _ E He) as (enc' & -> & He').
      cbn. by rewrite (entry_value _ _ _ _ He), (entry_value _ _ _ _ He').
    + by rewrite Hn.
Qed.

Lemma index_ok_same v v' m :
  v_same v v' -> index_ok v m -> index_ok v' m /\ contents v' m = contents v m.
Proof.
  intros Hs Hi. apply (contents_eq v m); [done|done|done|].
  intros k enc val Hk (sid & slot & -> & Hok & Hv). eexists. split; [done|].
  exists sid, slot. by rewrite Hs.
Qed.

(** Filling a slot that was empty, or emptying one the map does not use. *)
Lemma index_ok_vset v m sid slot o :
  seg_slot_ok sid slot -> index_ok v m ->
  (v sid slot = None \/ forall k, m !! k <> Some (EncodeSegmentSlot sid slot)) ->
  index_ok (vset v sid slot o) m /\ contents (vset v sid slot o) m = contents v m.
Proof.
  intros Hok Hi Hfree. apply (contents_eq v m); [done|done|done|].
  intros k enc val Hk (a & i & -> & Hai & Hv). eexists. split; [done|].
  exists a, i. split; [done|]. split; [done|]. unfold vset. rewrite decide_False; [done|].
  intros [-> ->]. destruct Hfree as [Hn|Hn]; [congruence|by apply (Hn k)].
Qed.

(** Adding or replacing the entry of a key that is stored at [enc]. *)
Lemma index_ok_insert v m k enc val :
  key_valid k -> entry_at v k enc val -> index_ok v m ->
  index_ok v (<[k := enc]> m) /\ contents v (<[k := enc]> m) = <[k := val]> (contents v m).
Proof.
  intros Hk He Hi. split.
  - intros k' e' [[<- <-]|[_ ?]]%lookup_insert_Some; [by eauto|by apply Hi].
  - apply omap_insert_Some. by eapply entry_value.
Qed.

Lemma index_ok_delete v m k :
  index_ok v m -> index_ok v (delete k m) /\ contents v (delete k m) = delete k (contents v m).
Proof.
  intros Hi. split; [|apply omap_delete].
  intros k' e' [_ ?]%lookup_delete_Some. by apply Hi.
Qed.

(** A location whose key was removed from the map is used by nobody. *)
Lemma index_ok_unused v m k enc k' :
  index_ok v m -> m !! k = Some enc -> delete k m !! k' <> Some enc.
Proof.
  intros Hi Hk [Hne Hk']%lookup_delete_Some. apply Hne. by eapply index_ok_inj.
Qed.

End contents.

(** ** What logging leaves alone *)

Section frame.
Context {K : Type} `{!KeyT K} `{!Phmap K}.
Implicit Types (ix : Index K) (fs : FS).

Lemma RotateWal_frame ix fs s ix' fs' :
  RotateWal ix fs = (s, ix', fs') -> map_ ix' = map_ ix /\ opts_ ix' = opts_ ix /\ opened_ ix' = opened_ ix.
Proof.
  unfold RotateWal. destruct (wal_ ix) as [w|]; [|intros; by simplify_eq].
  destruct (WalWriter_Close w fs) as [[? ?] fs1]. destruct (WalWriter_Open _ _ _ _) as [[s1 ?] ?].
  destruct (negb _); intros; by simplify_eq.
Qed.

Lemma Checkpoint_frame ix fs s ix' fs' :
  Checkpoint ix fs = (s, ix', fs') -> map_ ix' = map_ ix /\ opts_ ix' = opts_ ix /\ opened_ ix' = opened_ ix.
Proof.
  unfold Checkpoint. destruct (is_empty _); [intros; by simplify_eq|].
  destruct (DumpSnapshot _ _ _) as [s1 fs1]. destruct (negb _); [intros; by simplify_eq|].
  destruct (sys_rename _ _ _) as [ok fs2]. destruct (negb ok); [intros; by simplify_eq|].
  apply RotateWal_frame.
Qed.

Lemma AppendWal_frame ty k a b ix fs s ix' fs' :
  AppendWal ty k a b ix fs = (s, ix', fs') -> map_ ix' = map_ ix /\ opts_ ix' = opts_ ix.
Proof.
  unfold AppendWal. destruct (wal_ ix) as [w|]; [|intros; by simplify_eq].
  destruct (AppendRecord _ _ _) as [[s1 w1] fs1]. destruct (negb _); [intros; by simplify_eq|].
  destruct (_ && _); [|intros; by simplify_eq].
  destruct (Checkpoint _ _) as [[? ix2] ?] eqn:E. intros; simplify_eq.
  apply Checkpoint_frame in E as (-> & -> & _). done.
Qed.

End frame.

(** ** Operations on the segments *)

Section store.
Context {K : Type} `{!KeyT K} `{!KeyTLaws K} `{!Phmap K} {H W : Type} `{SlotStoreLaws H W}.
Context (iter : nat -> gset Z -> list Z).
Hypothesis iter_ok : forall n X, iter n X ≡ₚ elements X.
Context (c : SegmentConfig).
Implicit Types (e : Env K H W) (m : SegmentManager H) (w : W).

(** The segments are consistent, have configuration [c], and their ids and
    slots fit the fields of an encoded offset. *)
Record store_ok m w : Prop := {
  sk_part : mgr_part m;
  sk_segs : mgr_segs c m w;
  sk_ids : forall id s, segments_ m !! id = Some s -> 0 <= id < 2 ^ 20;
  sk_slots : lay_total_slots (CalculateLayout c) <= 2 ^ 28;
}.

Definition e_view e : stored := mgr_view (e_mgr e) (e_w e).
Definition e_contents e : gmap K (list Z) := contents (e_view e) (map_ (e_ix e)).

(** [e'] has the index and the files of [e]. *)
Definition same_files e e' : Prop := e_ix e' = e_ix e /\ e_fs e' = e_fs e.

Lemma sk_slot_ok m w id s i p :
  store_ok m w -> segments_ m !! id = Some s -> seg_map s w !! i = Some p -> seg_slot_ok id i.
Proof.
  intros [Hp Hs Hids Hsl] Hseg Hi. split; [by eapply Hids|].
  apply seg_map_range in Hi as Hr. destruct (ms_ok _ _ _ Hs _ _ Hseg) as [[Hinv _ _] Hc].
  rewrite (sl_total _ (si_layout _ Hinv)), Hc in Hr. lia.
Qed.

Lemma store_ok_segments m m' w :
  store_ok m w -> segments_ m' = segments_ m -> mgr_part m' -> store_ok m' w.
Proof.
  intros [Hp [Hs1 Hs2] Hids Hsl] E Hp'. split; [done| |by rewrite E|done]. split; by rewrite E.
Qed.

Lemma mgr_view_segments m m' w : segments_ m' = segments_ m -> v_same (mgr_view m w) (mgr_view m' w).
Proof. intros E a i. unfold mgr_view. by rewrite E. Qed.

(** Replacing the segment [id] after an operation on it. *)
Lemma put_segment_store m w id s s' w' :
  store_ok m w -> segments_ m !! id = Some s -> seg_ok s' w' -> seg_same s s' -> seg_frame s w w' ->
  store_ok (put_segment id s' m) w' /\
  forall a j, mgr_view (put_segment id s' m) w' a j =
    if decide (a = id) then seg_map s' w' !! j else mgr_view m w a j.
Proof.
  intros [Hp Hs Hids Hsl] Hseg Hok Hsame Hf. split.
  - split; [|by eapply put_segment_segs| |done].
    + eapply put_segment_part; [done|done|]. apply (proj1 (proj2 (proj2 Hsame))).
    + intros a u. cbn. intros [[<- _]|[_ ?]]%lookup_insert_Some; by eapply Hids.
  - intros a j. by eapply put_segment_view.
Qed.

Lemma put_same m id s : segments_ m !! id = Some s -> segments_ (put_segment id s m) = segments_ m.
Proof. intros E. cbn. by apply insert_id. Qed.

(** Every segment has its bitmap on the medium. *)
Definition synced m w : Prop := forall id s, segments_ m !! id = Some s -> seg_synced s w.

(** As long as no call fails, none fails and the bitmaps stay on the medium. *)
Definition quietly e e' : Prop :=
  st_quiet (e_w e) -> st_quiet (e_w e') /\ (synced (e_mgr e) (e_w e) -> synced (e_mgr e') (e_w e')).

#[export] Instance quietly_preorder : PreOrder quietly.
Proof.
  split; [by intros e|]. intros e1 e2 e3 Q1 Q2 Hq. destruct (Q1 Hq) as [Hq1 Hs1]. destruct (Q2 Hq1) as [Hq2 Hs2].
  split; [done|]. intros Hs. by apply Hs2, Hs1.
Qed.

Lemma quietly_same e e' : segments_ (e_mgr e') = segments_ (e_mgr e) -> e_w e' = e_w e -> quietly e e'.
Proof. intros Es Ew Hq. rewrite Ew. split; [done|]. unfold synced. by rewrite Es. Qed.

Lemma seg_synced_frame s w w' : st_data (seg_handle s) w' = st_data (seg_handle s) w -> seg_synced s w -> seg_synced s w'.
Proof. intros E (d & Hd & Hb). exists d. by rewrite E. Qed.

Lemma put_segment_synced m w id s s' w' :
  store_ok m w -> segments_ m !! id = Some s -> seg_frame s w w' -> seg_synced s' w' ->
  synced m w -> synced (put_segment id s' m) w'.
Proof.
  intros Hst Hseg Hf Hs' Hs a u. cbn. intros [[<- <-]|[Hne Hu]]%lookup_insert_Some; [done|].
  apply (seg_synced_frame u w); [|by eapply Hs]. apply Hf. by eapply (ms_sep _ _ _ (sk_segs _ _ Hst)).
Qed.

(** What one [Insert] into the segment [id] does. *)
Lemma insert_into_spec id (key : K) value e s out e' :
  store_ok (e_mgr e) (e_w e) -> key_size c = Z.of_nat (key_sizeof (K := K)) ->
  Z.of_nat (length value) = SegmentBase.value_size c ->
  insert_into id key value e = Ret (s, out, e') ->
  same_files e e' /\ store_ok (e_mgr e') (e_w e') /\ quietly e e' /\
  ((s = kOk /\ exists slot, out = Some slot /\ seg_slot_ok id slot /\ e_view e id slot = None /\
      v_same (vset (e_view e) id slot (Some (key_raw key, value))) (e_view e')) \/
   (s <> kOk /\ segments_ (e_mgr e') = segments_ (e_mgr e) /\ v_same (e_view e) (e_view e') /\
      idle_set_ (e_mgr e') = idle_set_ (e_mgr e) /\ appending_set_ (e_mgr e') = appending_set_ (e_mgr e) /\
      full_set_ (e_mgr e') = full_set_ (e_mgr e) /\ (st_quiet (e_w e) -> s = kFull))).
Proof.
  intros Hst Hk Hv E. unfold insert_into in E.
  destruct (segments_ (e_mgr e) !! id) as [seg|] eqn:Hseg; [|done].
  destruct (Insert _ _ _ seg (e_w e)) as [[[st o] seg'] w'] eqn:Ei. injection E as <- <- <-.
  destruct (ms_ok _ _ _ (sk_segs _ _ Hst) _ _ Hseg) as [Hok Hc].
  apply Insert_spec in Ei as (Hq & Hcase); [|done| |].
  2: { unfold key_bytes. rewrite Hc, Hk, key_raw_length. lia. }
  2: { unfold value_bytes. rewrite Hc. lia. }
  split; [done|].
  destruct Hcase as [(slot & -> & -> & Hin)|Hfail].
  - destruct Hin as [I1 I2 I3 [I4 I4'] Isy _ _ _ I5 I6].
    destruct (put_segment_store _ _ id seg seg' w' Hst Hseg I1 I2 I3) as [Hst' Hview].
    split; [done|]. split; [intros Hqq; split; [by apply Hq|by eapply put_segment_synced]|]. left. split; [done|]. exists slot. split; [done|]. split.
    { eapply (sk_slot_ok _ _ id seg' _ (key_raw key, value) Hst'); [cbn; apply lookup_insert_eq|].
      cbn. rewrite I6. apply lookup_insert_eq. }
    split; [unfold e_view, mgr_view; by rewrite Hseg|].
    intros a j. unfold e_view at 1. cbn [set_store e_mgr e_w]. rewrite Hview. unfold vset.
    unfold e_view, mgr_view. case_decide as Ha; [subst a|by rewrite decide_False by tauto].
    rewrite I6, Hseg. cbn. destruct (decide (j = slot)) as [->|Hj].
    + rewrite lookup_insert_eq. by rewrite decide_True.
    + rewrite lookup_insert_ne by done. by rewrite decide_False by tauto.
  - assert (st <> kOk /\ seg' = seg /\ seg_ok seg w' /\ seg_frame seg (e_w e) w' /\
      seg_map seg w' = seg_map seg (e_w e) /\ (st_quiet (e_w e) -> st = kFull /\ w' = e_w e)) as (Hne & -> & Hok' & Hf & Hm & Hqq).
    { destruct Hfail as [(-> & _ & _ & -> & ->)|(? & _ & -> & [? ? ? Hnq])]; [done|]. tauto. }
    destruct (put_segment_store _ _ id seg seg w' Hst Hseg Hok' ltac:(done) Hf) as [Hst' Hview].
    split; [done|]. split.
    { intros Hqw. destruct (Hqq Hqw) as [_ ->]. apply quietly_same; [by apply put_same|done|done]. }
    right. split; [done|]. split; [by apply put_same|].
    split; [|split; [done|]; split; [done|]; split; [done|]; intros Hqw; by apply Hqq].
    intros a j. unfold e_view at 1. cbn [set_store e_mgr e_w]. rewrite Hview.
    case_decide as Ha; [subst a|done]. unfold e_view, mgr_view. rewrite Hseg. cbn. by rewrite Hm.
Qed.

Lemma active_segment_spec e :
  store_ok (e_mgr e) (e_w e) ->
  match active_segment iter e with
  | UB => ~ all_free (e_mgr e)
  | Ret (o, e') =>
      same_files e e' /\ e_w e' = e_w e /\ store_ok (e_mgr e') (e_w e') /\
      segments_ (e_mgr e') = segments_ (e_mgr e) /\
      (all_free (e_mgr e) -> all_free (e_mgr e')) /\
      match o with
      | Some id => exists seg, segments_ (e_mgr e') !! id = Some seg
      | None => idle_set_ (e_mgr e) = ∅ /\ appending_set_ (e_mgr e) = ∅
      end
  end.
Proof using Type*.
  intros Hst. unfold active_segment.
  pose proof (GetActiveSegment_spec iter iter_ok c _ _ (sk_part _ _ Hst) (sk_segs _ _ Hst)) as Ha.
  destruct (GetActiveSegment iter (e_mgr e)) as [[o m']|]; cbn [mbind Outcome_bind]; [|done].
  destruct Ha as (Hp & _ & Es & _ & _ & Hf & Ho). split; [done|]. split; [done|].
  split; [by eapply store_ok_segments|]. split; [done|]. split; [done|].
  destruct o as [id|]; [|done]. apply Ho.
Qed.

(** Marking a segment full keeps the store, and a full segment cannot be
    without free slots among the idle and appending ones. *)
Lemma mark_full_spec id m w s m' :
  store_ok m w -> MarkSegmentFull id m = (s, m') ->
  store_ok m' w /\ segments_ m' = segments_ m /\ (all_free m -> all_free m').
Proof.
  intros Hst E. assert (segments_ m' = segments_ m /\ (all_free m -> all_free m')) as [Es Hf].
  { unfold MarkSegmentFull, MarkSegmentFullInternal in E.
    destruct (negb _); [by simplify_eq|]. case_bool_decide; [by simplify_eq|]. injection E as <- <-.
    split; [done|]. intros Hf i sg Hi. apply Hf. cbn in Hi. rewrite !elem_of_difference in Hi. tauto. }
  split; [|done]. eapply store_ok_segments; [done|done|]. eapply MarkSegmentFull_part; [apply Hst|done].
Qed.

(** The written location, or no change of what is stored. *)
Definition written e (key : K) value (s : Status) (enc : Z) e' : Prop :=
  (s = kOk /\ exists sid slot, enc = EncodeSegmentSlot sid slot /\ seg_slot_ok sid slot /\
     e_view e sid slot = None /\ v_same (vset (e_view e) sid slot (Some (key_raw key, value))) (e_view e')) \/
  (s <> kOk /\ v_same (e_view e) (e_view e')).

Lemma written_files e e1 key value s enc e' :
  v_same (e_view e) (e_view e1) -> written e1 key value s enc e' -> written e key value s enc e'.
Proof.
  intros Hv [(-> & sid & slot & -> & Hok & Hn & Hs)|[Hne Hs]]; [left|right].
  - split; [done|]. exists sid, slot. split; [done|]. split; [done|]. split; [by rewrite <- Hv|].
    intros a i. rewrite Hs. unfold vset. case_decide; [done|]. apply Hv.
  - split; [done|]. intros a i. by rewrite Hs.
Qed.

Lemma WriteToSegment_spec (key : K) value e :
  store_ok (e_mgr e) (e_w e) -> key_size c = Z.of_nat (key_sizeof (K := K)) ->
  Z.of_nat (length value) = SegmentBase.value_size c ->
  match WriteToSegment iter key value e with
  | UB => ~ all_free (e_mgr e)
  | Ret (s, enc, e') =>
      same_files e e' /\ store_ok (e_mgr e') (e_w e') /\ written e key value s enc e' /\ quietly e e' /\
      (st_quiet (e_w e) -> s ∈ [kOk; kNoSpace; kFull])
  end.
Proof using Type*.
  intros Hst Hk Hv. unfold WriteToSegment.
  pose proof (active_segment_spec e Hst) as Ha.
  destruct (active_segment iter e) as [[o e1]|]; cbn [mbind Outcome_bind]; [|done].
  destruct Ha as ((Ei & Ef) & Ew & Hst1 & Es1 & Hf1 & Ho).
  assert (v_same (e_view e) (e_view e1)) as Hv1.
  { unfold e_view. rewrite Ew. by apply mgr_view_segments. }
  assert (quietly e e1) as Q1 by (by apply quietly_same).
  destruct o as [id|].
  2: { split; [done|]. split; [done|]. split; [by right|]. split; [done|]. intros _. by right; left. }
  destruct Ho as [seg Hseg].
  assert (exists s o e2, insert_into id key value e1 = Ret (s, o, e2)) as (s & o & e2 & E2).
  { unfold insert_into. rewrite Hseg. destruct (Insert _ _ _ _ _) as [[[? ?] ?] ?]. by do 3 eexists. }
  rewrite E2. cbn [mbind Outcome_bind].
  apply insert_into_spec in E2 as ((Ei2 & Ef2) & Hst2 & Hq2 & Hcase); [|done..].
  assert (forall s enc e', written e1 key value s enc e' -> written e key value s enc e') as Hwr
    by (intros; by eapply written_files).
  assert (same_files e e2) as Hsf2 by (split; congruence).
  assert (quietly e e2) as Q2 by (by etrans).
  case_bool_decide as Hfull.
  - destruct Hcase as [[-> _]|(_ & Es2 & Hv2 & Eid & Eap & Efu & _)]; [done|].
    destruct (MarkSegmentFull id (e_mgr e2)) as [sm m3] eqn:Em.
    apply (mark_full_spec id _ (e_w e2)) in Em as (Hst3 & Es3 & Hf3); [|done].
    assert (all_free (e_mgr e1) -> all_free (e_mgr e2)) as Hf2.
    { intros Hf i sg. rewrite Eid, Eap, Es2. apply Hf. }
    set (e3 := set_store m3 (e_w e2) e2).
    pose proof (active_segment_spec e3 Hst3) as Ha.
    destruct (active_segment iter e3) as [[o' e4]|]; cbn [mbind Outcome_bind]; [|tauto].
    destruct Ha as ((Ei4 & Ef4) & Ew4 & Hst4 & Es4 & Hf4 & Ho').
    assert (v_same (e_view e) (e_view e4)) as Hv4.
    { intros a i. rewrite <- Hv1, <- Hv2. unfold e_view. rewrite Ew4. cbn.
      apply mgr_view_segments. by rewrite Es4. }
    assert (same_files e e4) as Hsf4 by (cbn in Ei4, Ef4; destruct Hsf2; split; congruence).
    assert (quietly e e4) as Q4 by (etrans; [exact Q2|]; apply quietly_same; [by rewrite Es4|done]).
    destruct o' as [id'|].
    2: { split; [done|]. split; [done|]. split; [by right|]. split; [done|]. intros _. by right; left. }
    destruct Ho' as [seg' Hseg'].
    assert (exists s o e5, insert_into id' key value e4 = Ret (s, o, e5)) as (s5 & o5 & e5 & E5).
    { unfold insert_into. rewrite Hseg'. destruct (Insert _ _ _ _ _) as [[[? ?] ?] ?]. by do 3 eexists. }
    rewrite E5. cbn [mbind Outcome_bind].
    apply insert_into_spec in E5 as ((Ei5 & Ef5) & Hst5 & Hq5 & Hcase); [|done..].
    assert (same_files e e5) as Hsf5 by (destruct Hsf4; split; congruence).
    assert (quietly e e5) as Q5 by (by etrans).
    destruct Hcase as [(-> & slot & -> & Hok & Hn & Hvs)|(Hne & _ & Hvs & _ & _ & _ & Hqf)].
    + split; [done|]. split; [done|]. split.
      * eapply (written_files e e4); [done|]. left. split; [done|]. by exists id', slot.
      * split; [done|]. intros _. by left.
    + replace (status_is_ok s5) with false by by destruct s5. cbn [negb].
      split; [done|]. split; [done|]. split; [eapply (written_files e e4); [done|]; by right|].
      split; [done|]. intros Hq. rewrite Hqf by (by apply Q4). by right; right; left.
  - destruct Hcase as [(-> & slot & -> & Hok & Hn & Hvs)|(Hne & _ & Hvs & _ & _ & _ & Hqf)].
    + split; [done|]. split; [done|]. split; [apply Hwr; left; split; [done|]; by exists id, slot|].
      split; [done|]. intros _. by left.
    + replace (status_is_ok s) with false by by destruct s. cbn [negb].
      split; [done|]. split; [done|]. split; [apply Hwr; by right|].
      split; [done|]. intros Hq. destruct (Hfull (Hqf (proj1 (Q1 Hq)))).
Qed.

(** Freeing a slot empties it, or leaves everything stored as it was. *)
Lemma FreeSlot_spec sid slot e :
  segment_manager (e_opts e) = true -> store_ok (e_mgr e) (e_w e) -> seg_slot_ok sid slot ->
  exists s e', FreeSlot (EncodeSegmentSlot sid slot) e = Ret (s, e') /\ same_files e e' /\
    store_ok (e_mgr e') (e_w e') /\
    (v_same (e_view e) (e_view e') \/ v_same (vset (e_view e) sid slot None) (e_view e')) /\ quietly e e' /\
    (st_quiet (e_w e) -> v_same (vset (e_view e) sid slot None) (e_view e')).
Proof.
  intros Hm Hst Hok. unfold FreeSlot. rewrite GetFlag_EncodeSegmentSlot by done.
  rewrite bool_decide_eq_true_2, Hm by done. cbn [negb].
  rewrite GetSegmentId_EncodeSegmentSlot, GetSlotId_EncodeSegmentSlot by done. unfold GetSegment.
  assert (e_view e sid slot = None -> v_same (vset (e_view e) sid slot None) (e_view e)) as Hnone.
  { intros En a i. unfold vset. case_decide as Ha; [|done]. by destruct Ha as [-> ->]. }
  destruct (segments_ (e_mgr e) !! sid) as [seg|] eqn:Hseg.
  2: { do 2 eexists. split; [done|]. split; [done|]. split; [done|]. split; [by left|]. split; [done|]. intros Hq.
       apply Hnone. unfold e_view, mgr_view. by rewrite Hseg. }
  destruct (ms_ok _ _ _ (sk_segs _ _ Hst) _ _ Hseg) as [Hsok Hc].
  destruct (Delete slot seg (e_w e)) as [[s seg'] w'] eqn:Ed.
  apply Delete_spec in Ed as [Hq Hd]; [|done|apply Hok].
  do 2 eexists. split; [done|]. split; [done|]. cbn [e_mgr e_w set_store].
  assert (forall j, e_view e sid j = seg_map seg (e_w e) !! j) as Ev
    by (intros j; unfold e_view, mgr_view; by rewrite Hseg).
  assert (forall sg' w1, seg_ok sg' w1 -> seg_same seg sg' -> seg_frame seg (e_w e) w1 ->
    store_ok (put_segment sid sg' (e_mgr e)) w1 /\
    (seg_map sg' w1 = seg_map seg (e_w e) ->
       v_same (e_view e) (mgr_view (put_segment sid sg' (e_mgr e)) w1)) /\
    (seg_map sg' w1 = delete slot (seg_map seg (e_w e)) ->
       v_same (vset (e_view e) sid slot None) (mgr_view (put_segment sid sg' (e_mgr e)) w1))) as Hput.
  { intros sg' w1 Hok1 Hs1 Hf1.
    destruct (put_segment_store _ _ sid seg sg' w1 Hst Hseg Hok1 Hs1 Hf1) as [Hst1 Hview].
    split; [done|]. split; intros Em a i; rewrite Hview; unfold vset.
    - case_decide as Ha; [subst a|done]. by rewrite Em, Ev.
    - case_decide as Ha; [subst a|by rewrite decide_False by tauto]. rewrite Em, Ev.
      destruct (decide (i = slot)) as [->|].
      + rewrite lookup_delete_eq. by rewrite decide_True.
      + rewrite lookup_delete_ne by done. by rewrite decide_False by tauto. }
  destruct (seg_map seg (e_w e) !! slot) as [p|] eqn:Ep.
  - destruct Hd as [[-> [D1 D2 D3 Dsy _ _ _ D4]]|(Hne & -> & [F1 F2 F3 F4])].
    + destruct (Hput seg' w' D1 D2 D3) as (Hst' & _ & Hv). specialize (Hv D4).
      split; [done|]. split; [by right|]. split; [|done]. intros Hq'. split; [by apply Hq|by eapply put_segment_synced].
    + destruct (Hput seg w' F1 ltac:(done) F2) as (Hst' & Hv & _). specialize (Hv F3).
      split; [done|]. split; [by left|]. by split.
  - destruct Hd as (-> & -> & _).
    destruct (Hput seg (e_w e) Hsok ltac:(done) ltac:(done)) as (Hst' & Hv & _). specialize (Hv eq_refl).
    split; [done|]. split; [by left|]. split; [apply quietly_same; [by apply put_same|done]|].
    intros Hq' a i. unfold e_view at 1.
    cbn [set_store e_mgr e_w]. rewrite Hv. apply Hnone. by rewrite Ev.
Qed.

(** ** The data path *)

(** The index and its store fit together. *)
Record env_ok e : Prop := {
  eo_store : store_ok (e_mgr e) (e_w e);
  eo_index : index_ok (e_view e) (map_ (e_ix e));
  eo_mgr : segment_manager (e_opts e) = true;
  eo_cfg : segment_config (e_opts e) = c;
  eo_key : key_size c = Z.of_nat (key_sizeof (K := K));
}.

(** A new index and file state with the same options and the map [mp]. *)
Lemma env_ok_files e ix fs :
  env_ok e -> opts_ ix = e_opts e -> index_ok (e_view e) (map_ ix) -> env_ok (set_files_of ix fs e).
Proof. intros [] Eo Hi. split; try done; unfold e_opts; cbn; rewrite Eo; done. Qed.

Lemma FreeSlot_unused sid slot e :
  env_ok e -> seg_slot_ok sid slot -> (forall k, map_ (e_ix e) !! k <> Some (EncodeSegmentSlot sid slot)) ->
  exists s e', FreeSlot (EncodeSegmentSlot sid slot) e = Ret (s, e') /\ same_files e e' /\ env_ok e' /\
    e_contents e' = e_contents e /\ quietly e e'.
Proof.
  intros [Hst Hi Hm Hc Hk] Hok Hun.
  destruct (FreeSlot_spec sid slot e Hm Hst Hok) as (s & e' & E & [Ei Ef] & Hst' & Hv & Hq & _).
  exists s, e'. split; [done|]. split; [done|].
  assert (index_ok (e_view e') (map_ (e_ix e)) /\
    contents (e_view e') (map_ (e_ix e)) = contents (e_view e) (map_ (e_ix e))) as [Hi' Hc'].
  { destruct Hv as [Hv|Hv]; [by apply index_ok_same|].
    destruct (index_ok_vset (e_view e) (map_ (e_ix e)) sid slot None Hok Hi (or_intror Hun)) as [H2 H3].
    rewrite <- H3. by apply index_ok_same. }
  split; [split; unfold e_opts; rewrite ?Ei; done|]. split; [unfold e_contents; by rewrite Ei|done].
Qed.

Definition wal_type (old : option Z) : Z := if bool_decide (is_Some old) then kUpdate else kInsert.

(** What [Put] does to a well-formed value.  Either nothing was stored and no
    file touched, or a location was written, the map updated, and the change
    logged; if the logging failed the map is back as it was. *)
Definition put_result e (k : K) value (s : Status) e' : Prop :=
  (s <> kOk /\ same_files e e' /\ e_contents e' = e_contents e /\
     (st_quiet (e_w e) -> s = kNoSpace \/ s = kFull)) \/
  exists enc ix1 fs1, in_u 64 enc /\
    let old := map_ (e_ix e) !! k in
    AppendWal (wal_type old) k enc (default 0 old)
      (set_map (<[k := enc]> (map_ (e_ix e))) (e_ix e)) (e_fs e) = (s, ix1, fs1) /\ e_fs e' = fs1 /\
    ((s = kOk /\ e_ix e' = ix1 /\ e_contents e' = <[k := value]> (e_contents e)) \/
     (s <> kOk /\ e_ix e' = set_map (map_ (e_ix e)) ix1 /\ e_contents e' = e_contents e)).

Lemma Put_spec k value e :
  env_ok e -> key_valid k -> Z.of_nat (length value) = SegmentBase.value_size c ->
  match Put iter k (Some value) (SegmentBase.value_size c) e with
  | UB => ~ all_free (e_mgr e)
  | Ret (s, e') =>
      env_ok e' /\ e_opts e' = e_opts e /\ quietly e e' /\ put_result e k value s e'
  end.
Proof using Type*.
  intros Hok Hk Hv. pose proof Hok as [Hst Hi Hm Hc Hks]. unfold Put.
  rewrite Hc, Z.eqb_refl, Hm. cbn [negb].
  pose proof (WriteToSegment_spec k value e Hst Hks Hv) as Hw.
  destruct (WriteToSegment iter k value e) as [[[s enc] e1]|]; cbn [mbind Outcome_bind]; [|done].
  destruct Hw as ([Ei1 Ef1] & Hst1 & Hwr & Q1 & Hq1).
  destruct Hwr as [(-> & sid & slot & -> & Hso & Hnone & Hvs)|[Hne Hvs]]; cbn [status_is_ok negb].
  2: { replace (status_is_ok s) with false by by destruct s. cbn [negb].
       destruct (index_ok_same _ _ _ Hvs Hi) as [Hi' Hc'].
       split; [split; unfold e_opts; rewrite ?Ei1; done|]. split; [unfold e_opts; by rewrite Ei1|].
       split; [done|]. left. split; [done|]. split; [done|].
       split; [unfold e_contents; by rewrite Ei1|]. intros Hq. pose proof (Hq1 Hq) as Hin.
       rewrite !elem_of_cons, elem_of_nil in Hin. tauto. }
  set (enc := EncodeSegmentSlot sid slot) in *.
  assert (in_u 64 enc) as Henc by (pose proof (EncodeSegmentSlot_range sid slot Hso); unfold in_u; lia).
  set (mp := map_ (e_ix e)) in *. rewrite Ei1. fold mp.
  destruct (index_ok_vset (e_view e) mp sid slot (Some (key_raw k, value)) Hso Hi (or_introl Hnone)) as [Hi0 Hc0].
  destruct (index_ok_same _ _ _ Hvs Hi0) as [Hi1 Hc1]. rewrite Hc0 in Hc1.
  assert (entry_at (e_view e1) k enc value) as Hent.
  { exists sid, slot. split; [done|]. split; [done|]. rewrite Hvs. unfold vset. by rewrite decide_True. }
  assert (env_ok e1) as Hok1 by (split; unfold e_opts; rewrite ?Ei1; done).
  assert (forall k', mp !! k' <> Some enc) as Hfresh.
  { intros k' Hk'. destruct (Hi _ _ Hk') as [_ (val & a & i & E & Ha & Hva)].
    apply EncodeSegmentSlot_inj in E as [-> ->]; [|done|done]. congruence. }
  unfold append_wal. cbn [e_ix e_fs set_ix].
  change (if bool_decide (is_Some (mp !! k)) then kUpdate else kInsert) with (wal_type (mp !! k)).
  rewrite Ef1. destruct (AppendWal _ _ _ _ _ _) as [[ws ix1] fs1] eqn:Ea.
  pose proof (AppendWal_frame _ _ _ _ _ _ _ _ _ Ea) as [Em Eo]. cbn in Em, Eo.
  destruct (index_ok_insert _ _ _ _ _ Hk Hent Hi1) as [Hi2 Hc2].
  destruct (decide (ws = kOk)) as [->|Hws].
  - cbn [status_is_ok negb]. set (e2 := set_files_of ix1 fs1 _).
    assert (env_ok e2) as Hok2.
    { apply (env_ok_files e1 ix1 fs1); [done|unfold e_opts; by rewrite Ei1|]. by rewrite Em. }
    assert (e_contents e2 = <[k := value]> (e_contents e)) as Ec2.
    { unfold e_contents. cbn [e_ix e2 set_files_of]. rewrite Em. change (e_view e2) with (e_view e1).
      rewrite Hc2, Hc1. done. }
    destruct (mp !! k) as [old|] eqn:Eold.
    + destruct (Hi _ _ Eold) as [_ (val & a & i & -> & Ha & Hva)].
      destruct (FreeSlot_unused a i e2 Hok2 Ha) as (s3 & e3 & E3 & [Ei3 Ef3] & Hok3 & Ec3 & Hq3).
      { intros k'. cbn [e_ix e2 set_files_of]. rewrite Em.
        intros [[<- E]|[Hne' Hk']]%lookup_insert_Some.
        - by apply (Hfresh k); rewrite E.
        - apply Hne'. by eapply (index_ok_inj (e_view e) mp). }
      change (mkEnv ix1 fs1 (e_mgr e1) (e_w e1)) with e2. rewrite E3. cbn [mbind Outcome_bind].
      split; [done|]. split; [unfold e_opts; rewrite Ei3; exact Eo|].
      split; [etrans; [exact Q1|exact Hq3]|]. right. exists enc, ix1, fs1. cbv zeta. fold mp. rewrite Eold.
      split; [done|]. split; [done|]. split; [done|]. left. split; [done|]. split; [done|]. by rewrite Ec3.
    + split; [done|]. split; [exact Eo|]. split; [exact Q1|].
      right. exists enc, ix1, fs1. cbv zeta. fold mp. rewrite Eold. split; [done|]. split; [done|].
      split; [done|]. left. done.
  - replace (status_is_ok ws) with false by by destruct ws. cbn [negb].
    assert (match mp !! k with Some old_enc => alter (fun _ => old_enc) k (map_ ix1)
                             | None => delete k (map_ ix1) end = mp) as Eroll.
    { rewrite Em. destruct (mp !! k) as [old|] eqn:Eold.
      - rewrite alter_insert_eq. by apply insert_id.
      - rewrite delete_insert_eq. by apply delete_id. }
    cbn [set_files_of set_ix e_ix e_fs e_mgr e_w]. rewrite Eroll.
    set (e2 := mkEnv (set_map mp ix1) fs1 (e_mgr e1) (e_w e1)).
    assert (env_ok e2) as Hok2.
    { apply (env_ok_files e1 (set_map mp ix1) fs1); [done| |done]. cbn. by rewrite Eo, <- Ei1. }
    destruct (FreeSlot_unused sid slot e2 Hok2 Hso Hfresh) as (s3 & e3 & E3 & [Ei3 Ef3] & Hok3 & Ec3 & Hq3).
    fold enc in E3. change (set_ix _ _) with e2. rewrite E3. cbn [mbind Outcome_bind].
    split; [done|]. split; [unfold e_opts; rewrite Ei3; exact Eo|].
    split; [etrans; [exact Q1|exact Hq3]|]. right. exists enc, ix1, fs1. cbv zeta. fold mp.
    split; [done|]. split; [done|]. split; [done|]. right. split; [done|]. split; [done|]. by rewrite Ec3.
Qed.

(** [Get] returns the stored value, touches nothing, and answers [kNotFound]
    exactly for the keys that are not there. *)
Lemma Get_spec k e :
  env_ok e ->
  exists s out e', Get k true (SegmentBase.value_size c) e = Ret (s, out, e') /\
    env_ok e' /\ same_files e e' /\ e_mgr e' = e_mgr e /\ e_contents e' = e_contents e /\ quietly e e' /\
    match e_contents e !! k with
    | Some value => (s = kOk -> out = Some value) /\ (st_quiet (e_w e) -> s = kOk)
    | None => s = kNotFound /\ out = None
    end.
Proof.
  intros [Hst Hi Hm Hc Hks]. unfold Get. rewrite Hc, Z.eqb_refl. cbn [negb]. unfold Lookup. cbn [negb].
  unfold e_contents at 3. destruct (map_ (e_ix e) !! k) as [enc|] eqn:Ek.
  2: { rewrite (proj1 (index_ok_none _ _ k Hi) Ek). do 3 eexists. split; [done|].
       split; [by split|]. done. }
  destruct (index_ok_lookup _ _ _ _ Hi Ek) as (val & (sid & slot & -> & Hso & Hv) & ->).
  rewrite GetFlag_EncodeSegmentSlot, bool_decide_eq_true_2, Hm by done. cbn [negb].
  rewrite GetSegmentId_EncodeSegmentSlot, GetSlotId_EncodeSegmentSlot by done. unfold GetSegment.
  unfold e_view, mgr_view in Hv. destruct (segments_ (e_mgr e) !! sid) as [seg|] eqn:Hseg; [|done].
  cbn in Hv. destruct (Read slot true true seg (e_w e)) as [[[s kb] vb] w'] eqn:Er.
  destruct (ms_ok _ _ _ (sk_segs _ _ Hst) _ _ Hseg) as [Hsok _].
  apply Read_spec in Er as [[Hw Hq] Hr]; [|done|apply Hso]. rewrite Hv in Hr. destruct Hr as [Hr1 Hr2].
  assert (v_same (e_view e) (mgr_view (e_mgr e) w')) as Hvs.
  { intros a i. unfold e_view, mgr_view. destruct (segments_ (e_mgr e) !! a) as [u|] eqn:Eu; [|done].
    cbn. by rewrite (seg_map_same u (e_w e) w'). }
  assert (store_ok (e_mgr e) w') as Hst'.
  { destruct Hst as [? [Ho ?] ? ?]. split; [done| |done|done]. split; [|done]. intros a u Hu.
    destruct (Ho _ _ Hu). split; [|done]. by apply (seg_ok_same u (e_w e)). }
  destruct (index_ok_same _ _ _ Hvs Hi) as [Hi' Hc'].
  do 3 eexists. split; [done|]. split; [by split|]. split; [done|]. split; [done|]. split; [done|].
  split; [|split; [|done]; intros ->; by destruct (Hr2 eq_refl) as [_ ->]].
  intros Hqw. split; [by apply Hq|]. intros Hsy a u Hu. apply (seg_synced_frame u (e_w e)); [apply Hw|by eapply Hsy].
Qed.

(** What [Delete] does to a key that is there. *)
Definition delete_result e (k : K) (s : Status) e' : Prop :=
  exists old ix1 fs1, map_ (e_ix e) !! k = Some old /\ in_u 64 old /\
    AppendWal kDelete k 0 old (set_map (delete k (map_ (e_ix e))) (e_ix e)) (e_fs e) = (s, ix1, fs1) /\
    e_fs e' = fs1 /\
    ((s = kOk /\ e_ix e' = ix1 /\ e_contents e' = delete k (e_contents e)) \/
     (s <> kOk /\ e_ix e' = set_map (map_ (e_ix e)) ix1 /\ e_contents e' = e_contents e)).

Lemma Delete_index_spec k e :
  env_ok e ->
  exists s e', Index_Delete k e = Ret (s, e') /\ env_ok e' /\ e_opts e' = e_opts e /\
    quietly e e' /\
    match e_contents e !! k with
    | Some _ => delete_result e k s e'
    | None => s = kNotFound /\ e' = e
    end.
Proof.
  intros Hok. pose proof Hok as [Hst Hi Hm Hc Hks]. unfold Index_Delete.
  unfold e_contents at 1. destruct (map_ (e_ix e) !! k) as [old|] eqn:Ek.
  2: { rewrite (proj1 (index_ok_none _ _ k Hi) Ek). by do 2 eexists. }
  destruct (index_ok_lookup _ _ _ _ Hi Ek) as (val & (sid & slot & -> & Hso & Hv) & ->).
  set (old := EncodeSegmentSlot sid slot) in *.
  assert (in_u 64 old) as Henc by (pose proof (EncodeSegmentSlot_range sid slot Hso); unfold in_u; lia).
  set (mp := map_ (e_ix e)) in *. unfold append_wal. cbn [e_ix e_fs set_ix].
  destruct (AppendWal _ _ _ _ _ _) as [[s ix1] fs1] eqn:Ea.
  pose proof (AppendWal_frame _ _ _ _ _ _ _ _ _ Ea) as [Em Eo]. cbn in Em, Eo.
  destruct (index_ok_delete _ _ k Hi) as [Hi1 Hc1].
  destruct (decide (s = kOk)) as [->|Hs].
  - cbn [status_is_ok negb]. set (e2 := set_files_of ix1 fs1 _).
    assert (env_ok e2) as Hok2 by (apply (env_ok_files e ix1 fs1); [done|done|by rewrite Em]).
    destruct (FreeSlot_unused sid slot e2 Hok2 Hso) as (s3 & e3 & E3 & [Ei3 Ef3] & Hok3 & Ec3 & Hq3).
    { intros k'. cbn [e_ix e2 set_files_of]. rewrite Em. by eapply index_ok_unused. }
    fold old in E3. rewrite E3. cbn [mbind Outcome_bind]. do 2 eexists. split; [done|].
    split; [done|]. split; [unfold e_opts; rewrite Ei3; exact Eo|]. split; [exact Hq3|].
    exists old, ix1, fs1. split; [done|]. split; [done|]. split; [done|]. split; [done|].
    left. split; [done|]. split; [done|]. rewrite Ec3. unfold e_contents. cbn [e_ix e2 set_files_of].
    by rewrite Em.
  - replace (status_is_ok s) with false by by destruct s. cbn [negb].
    assert (try_emplace k old (map_ ix1) = mp) as Eroll.
    { rewrite Em. unfold try_emplace. rewrite lookup_delete_eq, insert_delete_eq. by apply insert_id. }
    cbn [set_files_of set_ix e_ix e_fs e_mgr e_w]. rewrite Eroll. do 2 eexists. split; [done|].
    split; [apply (env_ok_files e (set_map mp ix1) fs1); done|]. split; [exact Eo|]. split; [done|].
    exists old, ix1, fs1. split; [done|]. split; [done|]. split; [done|]. split; [done|]. by right.
Qed.

End store.
