(* ===== verification/IndexCompaction.v ===== *)
(** * Compaction under the index

    [RunCompaction] of the segment manager with the callback that
    [AttachToSegmentManager] registers: the map of the index follows every slot
    that moves, so its contents stay the same, whatever fails. *)

From S2P Require Import Prelude Common Sys Key Offset Wal SegmentBase SegmentOps SegmentManager Index IndexData.

Section remap.
Context {K : Type} `{!KeyT K} `{!KeyTLaws K} `{!Phmap K}.
Implicit Types (v : stored) (m : gmap K Z) (k : K).

(** The key the callback reads from the moved bytes. *)
Definition moved_key (p : list Z * list Z) : K := key_of_raw (take (key_sizeof (K := K)) p.1).

(** [RemapIfEquals] on the map. *)
Definition remap k (old new : Z) m : gmap K Z :=
  match m !! k with
  | Some e => if e =? old then <[k := new]> m else m
  | None => m
  end.

Fixpoint remap_all (src tgt cur : Z) (ms : list (Z * (list Z * list Z))) m : gmap K Z :=
  match ms with
  | [] => m
  | (i, p) :: ms =>
      remap_all src tgt (cur + 1) ms
        (remap (moved_key p) (EncodeSegmentSlot src i) (EncodeSegmentSlot tgt cur) m)
  end.

Lemma slot_moved_map key a i b j (ix : Index K) fs ix' fs' :
  slot_moved key a i b j (ix, fs) = (ix', fs') ->
  opts_ ix' = opts_ ix /\
  map_ ix' = remap (key_of_raw (take (key_sizeof (K := K)) key)) (EncodeSegmentSlot a i) (EncodeSegmentSlot b j) (map_ ix).
Proof.
  unfold slot_moved. set (k := key_of_raw _).
  destruct (AppendWal _ _ _ _ _ _) as [[s ix1] fs1] eqn:E. apply AppendWal_frame in E as [Em Eo].
  unfold RemapIfEquals, remap. rewrite Em. destruct (map_ ix !! k) as [e|]; [|intros [= <- <-]; done].
  destruct (e =? _); intros [= <- <-]; by cbn; rewrite ?Em.
Qed.

Lemma run_moves_map src tgt cur ms (ix : Index K) fs ix' fs' :
  run_moves (Some slot_moved) src tgt cur ms (ix, fs) = (ix', fs') ->
  opts_ ix' = opts_ ix /\ map_ ix' = remap_all src tgt cur ms (map_ ix).
Proof.
  revert cur ix fs. induction ms as [|[i p] ms IH]; intros cur ix fs; cbn [run_moves remap_all]; [by intros; simplify_eq|].
  destruct (slot_moved p.1 src i tgt cur (ix, fs)) as [ix1 fs1] eqn:E1.
  apply slot_moved_map in E1 as [Eo1 Em1]. intros [Eo Em]%IH. rewrite Eo, Em, Em1. done.
Qed.

(** Where the moves take the entry of [k] at [enc]. *)
Fixpoint remap_to (src tgt cur : Z) (ms : list (Z * (list Z * list Z))) k (enc : Z) : Z :=
  match ms with
  | [] => enc
  | (i, p) :: ms =>
      if decide (EncodeSegmentSlot src i = enc /\ moved_key p = k) then EncodeSegmentSlot tgt cur
      else remap_to src tgt (cur + 1) ms k enc
  end.

(** It moves along with the first slot that is its own, or stays. *)
Lemma remap_to_spec src tgt cur ms k enc :
  (exists n i p, ms !! n = Some (i, p) /\ EncodeSegmentSlot src i = enc /\
     remap_to src tgt cur ms k enc = EncodeSegmentSlot tgt (cur + Z.of_nat n)) \/
  (remap_to src tgt cur ms k enc = enc /\
   forall i p, (i, p) ∈ ms -> ~ (EncodeSegmentSlot src i = enc /\ moved_key p = k)).
Proof.
  revert cur. induction ms as [|[i p] ms IH]; intros cur; cbn [remap_to].
  { right. split; [done|]. intros i p Hin. by apply elem_of_nil in Hin. }
  case_decide as Hd.
  - left. exists 0%nat, i, p. rewrite Z.add_0_r. split; [done|]. by destruct Hd.
  - destruct (IH (cur + 1)) as [(n & i' & p' & Hn & He & ->)|[-> Hn]].
    + left. exists (S n), i', p'. split; [done|]. split; [done|]. f_equal. lia.
    + right. split; [done|]. intros i' p' [[= -> ->]|Hin]%elem_of_cons; [done|by apply Hn].
Qed.

(** Once an entry is in the target it does not move again. *)
Lemma remap_to_target src tgt cur ms k j :
  src <> tgt -> seg_slot_ok tgt j -> Forall (fun x => seg_slot_ok src x.1) ms ->
  remap_to src tgt cur ms k (EncodeSegmentSlot tgt j) = EncodeSegmentSlot tgt j.
Proof.
  intros Hne Hj Hms. destruct (remap_to_spec src tgt cur ms k (EncodeSegmentSlot tgt j))
    as [(n & i & p & Hn & E & _)|[-> _]]; [|done].
  rewrite Forall_lookup in Hms. specialize (Hms _ _ Hn). apply EncodeSegmentSlot_inj in E as [-> _]; done.
Qed.

Lemma remap_all_lookup src tgt cur ms m k :
  src <> tgt -> Forall (fun x => seg_slot_ok src x.1) ms ->
  (forall j, cur <= j < cur + Z.of_nat (length ms) -> seg_slot_ok tgt j) ->
  remap_all src tgt cur ms m !! k = remap_to src tgt cur ms k <$> m !! k.
Proof.
  intros Hne Hms. revert cur m. induction Hms as [|[i p] ms Hi Hms IH]; intros cur m Ht.
  { cbn. by destruct (m !! k). }
  cbn [remap_all]. rewrite IH by (intros j Hj; apply Ht; cbn [length]; lia).
  unfold remap. destruct (decide (moved_key p = k)) as [Hk|Hk].
  - rewrite Hk. destruct (m !! k) as [enc|] eqn:Em; [|by rewrite Em].
    destruct (Z.eqb_spec enc (EncodeSegmentSlot src i)) as [->|Hd].
    + rewrite lookup_insert_eq. cbn. rewrite decide_True by done.
      f_equal. apply remap_to_target; [done| |done]. apply Ht. cbn [length]. lia.
    + rewrite Em. cbn. by rewrite decide_False by (intros [? _]; congruence).
  - assert (forall enc, remap_to src tgt cur ((i, p) :: ms) k enc = remap_to src tgt (cur + 1) ms k enc) as Ec.
    { intros enc. cbn. by rewrite decide_False by tauto. }
    assert (forall o : option Z, remap_to src tgt (cur + 1) ms k <$> o = remap_to src tgt cur ((i, p) :: ms) k <$> o) as Eo.
    { intros [enc|]; [|done]. cbn [fmap option_fmap option_map]. by rewrite Ec. }
    rewrite <- Eo. f_equal. destruct (m !! moved_key p); [|done]. destruct (_ =? _); [|done].
    by apply lookup_insert_ne.
Qed.

(** After a relocation every entry is where the callbacks put it. *)
Lemma relocated_entry cap v src tgt cur ms all v' k enc val :
  relocated cap v src tgt cur ms all v' -> key_valid k ->
  Forall (fun x => seg_slot_ok src x.1) ms ->
  (forall j, cur <= j < cur + Z.of_nat (length ms) -> seg_slot_ok tgt j) ->
  entry_at v k enc val -> entry_at v' k (remap_to src tgt cur ms k enc) val.
Proof.
  intros Hre Hk Hms Ht (sid & slot & -> & Hso & Hv).
  destruct (remap_to_spec src tgt cur ms k (EncodeSegmentSlot sid slot)) as [(n & i & p & Hn & Ee & ->)|[-> E]].
  - pose proof Hms as Hms'. rewrite Forall_lookup in Hms'.
    apply EncodeSegmentSlot_inj in Ee as [-> ->]; [|by apply (Hms' _ _ Hn)|done].
    apply list_elem_of_lookup_2 in Hn as Hin. rewrite (re_src _ _ _ _ _ _ _ _ Hre _ _ Hin) in Hv.
    injection Hv as ->. apply lookup_lt_Some in Hn as Hl.
    eexists _, _. split; [done|]. split; [apply Ht; lia|].
    rewrite (re_view_tgt _ _ _ _ _ _ _ _ Hre), decide_True by lia.
    replace (Z.to_nat (cur + Z.of_nat n - cur)) with n by lia. by rewrite Hn.
  - exists sid, slot. split; [done|]. split; [done|].
    destruct (decide (sid = src)) as [->|Hns].
    + rewrite (re_view_src _ _ _ _ _ _ _ _ Hre). destruct all; [|done]. exfalso.
      pose proof (re_all _ _ _ _ _ _ _ _ Hre eq_refl _ _ Hv) as Hin.
      apply (E _ _ Hin). split; [done|].
      unfold moved_key. cbn. rewrite take_ge by (rewrite key_raw_length; lia). by apply key_of_raw_raw.
    + destruct (decide (sid = tgt)) as [->|Hnt].
      * rewrite (re_view_tgt _ _ _ _ _ _ _ _ Hre), decide_False; [done|]. intros Hr.
        rewrite (re_fresh _ _ _ _ _ _ _ _ Hre) in Hv by lia. done.
      * by rewrite (re_view_other _ _ _ _ _ _ _ _ Hre).
Qed.

End remap.

Section compaction.
Context {K : Type} `{!KeyT K} `{!KeyTLaws K} `{!Phmap K} {H W : Type} `{SlotStoreLaws H W}.
Context (iter : nat -> gset Z -> list Z).
Hypothesis iter_ok : forall n X, iter n X ≡ₚ elements X.
Context (c : SegmentConfig).
Implicit Types (e : Env K H W).

(** [opts_.segment_manager->RunCompaction()] with the callback attached. *)
Definition compact_index e : Outcome (Status * Env K H W) :=
  '(s, m, w, x) ← RunCompaction iter (AttachToSegmentManager (e_ix e)) (e_mgr e) (e_w e) (e_ix e, e_fs e);
  Ret (s, mkEnv x.1 x.2 m w).

(** Entries stay valid and contents the same through a relocation. *)
Lemma relocated_contents v src tgt cur ms all v' (mp : gmap K Z) :
  lay_total_slots (CalculateLayout c) <= 2 ^ 28 -> 0 <= src < 2 ^ 20 -> 0 <= tgt < 2 ^ 20 ->
  (forall a i p, v a i = Some p -> 0 <= i < lay_total_slots (CalculateLayout c)) ->
  relocated (lay_total_slots (CalculateLayout c)) v src tgt cur ms all v' -> index_ok v mp ->
  index_ok v' (remap_all src tgt cur ms mp) /\ contents v' (remap_all src tgt cur ms mp) = contents v mp.
Proof.
  intros Hcap Hsrc Htgt Hrange Hre Hi. destruct (re_bound _ _ _ _ _ _ _ _ Hre) as [Hb1 Hb2].
  assert (Forall (fun x : Z * (list Z * list Z) => seg_slot_ok src x.1) ms) as Hms.
  { apply Forall_forall. intros [i p] Hin. apply (re_src _ _ _ _ _ _ _ _ Hre), Hrange in Hin. cbn.
    split; lia. }
  assert (forall j, cur <= j < cur + Z.of_nat (length ms) -> seg_slot_ok tgt j) as Ht by (intros j Hj; split; lia).
  pose proof (remap_all_lookup src tgt cur ms mp) as Hl.
  apply (contents_eq v mp); [done|done| |].
  - intros k Hk. rewrite Hl, Hk; [done|apply Hre|done|done].
  - intros k enc val Hk He. rewrite Hl, Hk; [|apply Hre|done|done]. eexists. split; [done|].
    eapply relocated_entry; [done|by apply (Hi k enc)|done|done|done].
Qed.

Lemma mgr_view_range m w a i p :
  mgr_segs c m w -> mgr_view (H := H) m w a i = Some p -> 0 <= i < lay_total_slots (CalculateLayout c).
Proof.
  intros Hs Hv. unfold mgr_view in Hv. destruct (segments_ m !! a) as [s|] eqn:E; [|done]. cbn in Hv.
  apply seg_map_range in Hv. destruct (ms_ok _ _ _ Hs _ _ E) as [[Hi _ _] Hc].
  by rewrite (sl_total _ (si_layout _ Hi)), Hc in Hv.
Qed.

Lemma compact_index_spec e :
  env_ok c e ->
  match compact_index e with
  | UB => ~ (all_free (e_mgr e) /\ 0 < lay_total_slots (CalculateLayout c))
  | Ret (s, e') => env_ok c e' /\ e_opts e' = e_opts e /\ e_contents e' = e_contents e
  end.
Proof using Type*.
  intros [[Hp Hs Hids Hcap] Hi Hm Hc Hk]. unfold compact_index, AttachToSegmentManager.
  change (opts_ (e_ix e)) with (e_opts e). rewrite Hm. set (D := dom (segments_ (e_mgr e))).
  pose (P := fun (v : stored) (x : Index K * FS) => opts_ x.1 = e_opts e /\
    (forall a i p, v a i = Some p -> 0 <= i < lay_total_slots (CalculateLayout c)) /\
    index_ok v (map_ x.1) /\ contents v (map_ x.1) = e_contents e).
  assert (forall v x src tgt cur ms all v', src ∈ D -> tgt ∈ D -> P v x ->
    relocated (lay_total_slots (CalculateLayout c)) v src tgt cur ms all v' ->
    P v' (run_moves (Some slot_moved) src tgt cur ms x)) as Hstep.
  { intros v [ix fs] src tgt cur ms all v' [s1 Hs1]%elem_of_dom [s2 Hs2]%elem_of_dom (Eo & Hr & Hiv & Hcv) Hre.
    destruct (run_moves (Some slot_moved) src tgt cur ms (ix, fs)) as [ix' fs'] eqn:E.
    apply run_moves_map in E as [Eo' Em']. unfold P. cbn [fst] in *. rewrite Eo', Em', <- Hcv.
    split; [done|]. split; [|by eapply relocated_contents; [|eapply Hids|eapply Hids|..]].
    intros a i p Ha. destruct (re_bound _ _ _ _ _ _ _ _ Hre).
    destruct (decide (a = tgt)) as [->|Hat]; [|destruct (decide (a = src)) as [->|Has]].
    - rewrite (re_view_tgt _ _ _ _ _ _ _ _ Hre) in Ha. case_decide; [lia|by eapply Hr].
    - rewrite (re_view_src _ _ _ _ _ _ _ _ Hre) in Ha. destruct all; [done|by eapply Hr].
    - rewrite (re_view_other _ _ _ _ _ _ _ _ Hre) in Ha by done. by eapply Hr. }
  pose proof (RunCompaction_spec iter iter_ok (Some slot_moved) c D P Hstep (e_mgr e) (e_w e) (e_ix e, e_fs e)
    Hp Hs eq_refl) as Hrun.
  destruct (RunCompaction _ _ _ _ _) as [[[[s m'] w'] [ix' fs']]|]; cbn [mbind Outcome_bind].
  - destruct Hrun as (Hp' & Hs' & HD & _ & Eo & _ & Hi' & Hc').
    { split; [done|]. split; [intros a i p; by apply mgr_view_range|]. done. }
    split; [|done]. cbn in Eo. split; cbn; try done; [|unfold e_opts; cbn; by rewrite Eo..].
    split; [done|done| |done]. intros id sg Hsg. apply elem_of_dom_2 in Hsg. rewrite HD in Hsg.
    apply elem_of_dom in Hsg as [? ?]. by eapply Hids.
  - apply Hrun. split; [done|]. split; [intros a i p; by apply mgr_view_range|]. done.
Qed.

End compaction.
