(* ===== verification/IndexRecovery.v ===== *)
(** * Recovery of the index: snapshot plus log

    What a restart rebuilds from the index's files ([Open]: load the snapshot,
    replay the WAL, cut its tail), and the invariant under which that is the
    map in memory.  Logging, checkpoints and log rotation keep it at every
    point where a call fails or the process stops. *)

From S2P Require Import Prelude Common Sys Key Offset Wal SegmentBase SegmentOps SegmentManager Index IndexData.

Section replay_map.
Context {K : Type} `{!KeyT K}.
Implicit Types (m : gmap K Z) (rs : list (WalRecord K)).

Definition replay_all m rs : gmap K Z := apply_all ApplyRecord m rs.

Lemma replay_all_snoc m rs r : replay_all m (rs ++ [r]) = ApplyRecord r (replay_all m rs).
Proof. unfold replay_all, apply_all. by rewrite foldl_app. Qed.

(** Per key, the records fix the result or leave it to the base. *)
Lemma replay_all_lookup rs k :
  (exists o, forall m, replay_all m rs !! k = o) \/ (forall m, replay_all m rs !! k = m !! k).
Proof.
  induction rs as [|r rs IH] using rev_ind; [by right|].
  assert ((exists o, forall m, ApplyRecord r m !! k = o) \/ (forall m, ApplyRecord r m !! k = m !! k)) as [[o Ho]|Hn].
  { unfold ApplyRecord. destruct (decide (rec_key r = k)) as [<-|Hk].
    - destruct (_ || _); [left; eexists; intros m; apply lookup_insert_eq|].
      destruct (_ =? _); [left; eexists; intros m; apply lookup_delete_eq|by right].
    - right. intros m. destruct (_ || _); [by apply lookup_insert_ne|].
      destruct (_ =? _); [by apply lookup_delete_ne|done]. }
  - left. exists o. intros m. by rewrite replay_all_snoc.
  - destruct IH as [[o Ho]|Ho]; [left; exists o|right]; intros m; by rewrite replay_all_snoc, Hn.
Qed.

(** Replaying a log over a map that already has its effects changes nothing:
    a crash between the snapshot's rename and the truncation of the log is
    harmless. *)
Lemma replay_all_idem m rs : replay_all (replay_all m rs) rs = replay_all m rs.
Proof.
  apply map_eq. intros k. destruct (replay_all_lookup rs k) as [[o Ho]|Ho]; by rewrite !Ho.
Qed.

End replay_map.

Section recovery.
Context {K : Type} `{!KeyT K} `{!KeyTLaws K} `{!Phmap K} `{!PhmapLaws K}.
Implicit Types (ix : Index K) (fs : FS) (o : Options) (m : gmap K Z) (rs : list (WalRecord K)).

(** ** What the files hold *)

Definition snapshot_holds o fs m : Prop :=
  if is_empty (snapshot_dir o) then m = ∅ else
  match fs_files fs !! SnapshotPath (snapshot_dir o) with
  | None => m = ∅
  | Some f => phmap_image (f_data f) m
  end.

(** The log: complete records and a tail that does not start with one. *)
Definition log_holds o fs rs : Prop :=
  if is_empty (wal_path o) then rs = [] else
  match fs_files fs !! wal_path o with
  | None => rs = []
  | Some f => exists tail, f_data f = encode_all rs ++ tail /\ Forall rec_ok rs /\
      wal_records (K := K) tail = []
  end.

(** A restart on these files finds the map [m]. *)
Definition recoverable o fs m : Prop :=
  exists base rs, snapshot_holds o fs base /\ log_holds o fs rs /\ replay_all base rs = m.

(** The index has an open log, and its files give back its map. *)
Record logged ix fs (base : gmap K Z) rs (dur : nat) (w : WalWriter) : Prop := {
  lg_wal : wal_ ix = Some w;
  lg_log : log_inv (wal_path (opts_ ix)) rs dur w fs;
  lg_snap : snapshot_holds (opts_ ix) fs base;
}.

Definition durable ix fs : Prop :=
  exists base rs dur w, logged ix fs base rs dur w /\ replay_all base rs = map_ ix.

(** The three files of an index are different, and there is a log. *)
Definition paths_ok o : Prop :=
  wal_path o <> EmptyString /\ wal_path o <> SnapshotPath (snapshot_dir o) /\
  wal_path o <> SnapshotTmpPath (snapshot_dir o).

#[export] Instance paths_ok_dec o : Decision (paths_ok o).
Proof. unfold paths_ok. apply _. Defined.

Lemma is_empty_false s : s <> EmptyString -> is_empty s = false.
Proof. intros. by apply bool_decide_eq_false_2. Qed.

(** ** Frame properties *)

Lemma snapshot_holds_frame o fs fs' m :
  (snapshot_dir o <> EmptyString ->
     fs_files fs' !! SnapshotPath (snapshot_dir o) = fs_files fs !! SnapshotPath (snapshot_dir o)) ->
  snapshot_holds o fs m -> snapshot_holds o fs' m.
Proof.
  unfold snapshot_holds, is_empty. case_bool_decide as Hd; [done|]. intros Hf. by rewrite Hf.
Qed.

Lemma log_inv_frame p rs dur w fs fs' :
  fs_files fs' !! p = fs_files fs !! p -> log_inv p rs dur w fs -> log_inv p rs dur w fs'.
Proof. intros E [? ? ? ? Hf]. split; try done. by rewrite E. Qed.

Lemma log_inv_holds o fs rs dur w :
  wal_path o <> EmptyString -> log_inv (wal_path o) rs dur w fs -> log_holds o fs rs.
Proof.
  intros Hp [_ Hok _ _ (sync & tail & Hf & Hl & _)]. unfold log_holds. rewrite is_empty_false, Hf by done.
  exists tail. cbn. split; [done|]. split; [done|]. by apply wal_records_short.
Qed.

Lemma durable_recoverable ix fs :
  paths_ok (opts_ ix) -> durable ix fs -> recoverable (opts_ ix) fs (map_ ix).
Proof.
  intros [Hp _] (base & rs & dur & w & [_ Hl Hs] & E). exists base, rs. split; [done|].
  split; [by eapply log_inv_holds|done].
Qed.

Lemma log_inv_close p rs dur w fs s w' fs' :
  log_inv p rs dur w fs -> WalWriter_Close w fs = (s, w', fs') ->
  log_inv p rs dur w fs' /\ (forall q, q <> p -> fs_files fs' !! q = fs_files fs !! q) /\
  (no_eio (fs_script fs) -> no_eio (fs_script fs')).
Proof.
  intros Hl E. pose proof Hl as [Hfd Hok Hd Hb (sync & tail & Hf & Ht & Hs)].
  unfold WalWriter_Close in E. rewrite Hfd in E. destruct (sys_fsync p fs) as [ok fs1] eqn:Ef.
  injection E as <- <- <-. pose proof (sys_fsync_no_eio p fs ok fs1) as Hn.
  apply (sys_fsync_spec _ _ _ _ _ Hf) in Ef as Hc.
  destruct Hc as [[-> Efs]|(-> & Efs & _)]; rewrite Efs.
  - split; [|split; [intros q Hq; by rewrite lookup_insert_ne|tauto]].
    split; try done. exists (encode_all rs ++ tail), tail. rewrite Efs, lookup_insert_eq. cbn.
    split; [done|]. split; [done|]. exists (encode_all (drop dur rs) ++ tail).
    by rewrite app_assoc, <- encode_all_app, take_drop.
  - split; [|split; [done|tauto]]. eapply log_inv_frame; [|done]. by rewrite Efs.
Qed.

(** ** Rotation and checkpoints *)

(** After a snapshot of the map is in place, rotating the log keeps the files
    recoverable at every step. *)
Lemma RotateWal_spec ix fs rs dur w s ix' fs' :
  paths_ok (opts_ ix) -> wal_ ix = Some w -> log_inv (wal_path (opts_ ix)) rs dur w fs ->
  snapshot_holds (opts_ ix) fs (map_ ix) -> replay_all (map_ ix) rs = map_ ix ->
  RotateWal ix fs = (s, ix', fs') ->
  recoverable (opts_ ix) fs' (map_ ix) /\ (durable ix' fs' \/ wal_ ix' = None) /\
  (s = kOk -> durable ix' fs' /\ wal_bytes_ ix' = 0) /\
  (no_eio (fs_script fs) -> s = kOk /\ no_eio (fs_script fs')).
Proof.
  intros [Hp [Hps Hpt]] Hw Hl Hs Hr E. unfold RotateWal in E. rewrite Hw in E.
  destruct (WalWriter_Close w fs) as [[s1 w1] fs1] eqn:Ec.
  apply (log_inv_close _ _ _ _ _ _ _ _ Hl) in Ec as (Hl1 & Hf1 & Hn1).
  set (p := wal_path (opts_ ix)) in *.
  assert (forall fs2, (forall q, q <> p -> fs_files fs2 !! q = fs_files fs !! q) ->
    snapshot_holds (opts_ ix) fs2 (map_ ix)) as Hsnap.
  { intros fs2 Hf. apply (snapshot_holds_frame _ fs); [|done]. intros _. by apply Hf, not_eq_sym. }
  cbn [opts_ set_wal] in E. unfold WalWriter_Open, WalWriter_new in E. cbn [ww_fd] in E.
  fold p in E. destruct (sys_open p true true fs1) as [ok fs2] eqn:Eo.
  assert (no_eio (fs_script fs) -> ok = true /\ no_eio (fs_script fs2)) as Hn2.
  { intros Hn. destruct (sys_open_no_eio _ _ _ _ _ _ (Hn1 Hn) Eo) as [? Hok]. split; [|done]. apply Hok. by left. }
  assert (forall q, q <> p -> fs_files fs2 !! q = fs_files fs !! q) as Hf2.
  { intros q Hq. rewrite <- Hf1 by done. eapply sys_open_other; [|done]. by apply not_eq_sym. }
  destruct ok; cbn [negb] in E.
  2: { injection E as <- <- <-. assert (fs_files fs2 = fs_files fs1) as Ef.
       { unfold sys_open in Eo. destruct (sys_call fs1) as [b fs3] eqn:Ec. apply sys_call_files in Ec.
         destruct b; cbn [negb] in Eo; [|by simplify_eq]. by destruct (fs_files fs3 !! p); simplify_eq. }
       split; [|split; [by right|split; [done|intros Hn; by destruct (Hn2 Hn)]]].
       exists (map_ ix), rs. split; [by apply Hsnap|]. split; [|done].
       eapply (log_inv_holds _ _ _ dur w); [done|]. eapply log_inv_frame; [|done]. by rewrite Ef. }
  destruct (sys_open_trunc _ _ _ Eo) as [y Hy].
  destruct (sys_call fs2) as [st fs3] eqn:Es. pose proof (sys_call_files _ _ _ Es) as Ef3.
  assert (log_holds (opts_ ix) fs3 []) as Hlog.
  { unfold log_holds. rewrite is_empty_false by done. fold p. rewrite Ef3, Hy. exists [].
    split; [done|]. split; [constructor|]. apply wal_records_short, kEncodedSize_pos. }
  assert (snapshot_holds (opts_ ix) fs3 (map_ ix)) as Hs3.
  { apply Hsnap. intros q Hq. rewrite Ef3. by apply Hf2. }
  assert (recoverable (opts_ ix) fs3 (map_ ix)) as Hrec by (by exists (map_ ix), []).
  destruct st; cbn [negb status_is_ok] in E; injection E as <- <- <-.
  - split; [done|]. set (ix' := set_wal_bytes 0 _).
    assert (durable ix' fs3) as Hdur.
    { exists (map_ ix), [], 0%nat, (mkWriter (Some p) p (file_size p fs3)). split; [|done]. split; [done| |done].
      split; cbn; try (done || lia || by constructor).
      - unfold file_size. by rewrite Ef3, Hy.
      - exists y, []. rewrite Ef3. fold p. rewrite Hy. split; [done|]. split; [cbn; apply kEncodedSize_pos|apply prefix_nil]. }
    split; [by left|]. split; [done|]. intros Hn. destruct (Hn2 Hn) as [_ Hn3].
    split; [done|]. by apply (sys_call_no_eio _ _ _ Hn3) in Es as [_ ?].
  - split; [done|]. split; [by right|]. split; [done|]. intros Hn. destruct (Hn2 Hn) as [_ Hn3].
    by apply (sys_call_no_eio _ _ _ Hn3) in Es as [? _].
Qed.

Lemma SnapshotTmpPath_ne dir : SnapshotTmpPath dir <> SnapshotPath dir.
Proof. apply tmp_path_ne. Qed.

(** Whatever fails, and wherever the process stops, a checkpoint leaves files
    that give back the same map. *)
Lemma Checkpoint_spec ix fs s ix' fs' :
  paths_ok (opts_ ix) -> durable ix fs -> Checkpoint ix fs = (s, ix', fs') ->
  recoverable (opts_ ix) fs' (map_ ix) /\ (durable ix' fs' \/ wal_ ix' = None) /\
  (s = kOk -> durable ix' fs' /\ wal_bytes_ ix' = 0) /\
  (no_eio (fs_script fs) -> no_eio (fs_script fs') /\ durable ix' fs' /\
     (snapshot_dir (opts_ ix) <> EmptyString -> s = kOk)).
Proof.
  intros Hpo Hdur E. pose proof (durable_recoverable _ _ Hpo Hdur) as Hrec.
  pose proof Hpo as [Hp [Hps Hpt]]. unfold Checkpoint in E.
  destruct (is_empty (snapshot_dir (opts_ ix))) eqn:Ed.
  { injection E as <- <- <-. apply bool_decide_eq_true in Ed.
    split; [done|]. split; [by left|]. split; [done|]. done. }
  pose proof Ed as Hd. apply bool_decide_eq_false in Hd.
  destruct Hdur as (base & rs & dur & w & Hlg & Hr). pose proof Hlg as [Hw Hl Hs].
  set (final := SnapshotPath (snapshot_dir (opts_ ix))) in *.
  set (tmp := SnapshotTmpPath (snapshot_dir (opts_ ix))) in *.
  unfold DumpSnapshot in E. destruct (phmap_dump (map_ ix) tmp fs) as [ok fs1] eqn:Edump.
  apply phmap_dump_spec in Edump as (Hf1 & Himg & Hn1).
  assert (forall fs2, (forall q, q <> tmp -> fs_files fs2 !! q = fs_files fs !! q) -> durable ix fs2) as Hkeep.
  { intros fs2 Hf. exists base, rs, dur, w. split; [|done]. split; [done| |].
    - eapply log_inv_frame; [|done]. by apply Hf.
    - apply (snapshot_holds_frame _ fs); [|done]. intros _. apply Hf. apply not_eq_sym, SnapshotTmpPath_ne. }
  destruct ok; cbn [status_is_ok negb] in E.
  2: { injection E as <- <- <-. pose proof (Hkeep _ Hf1) as Hk.
       split; [by apply durable_recoverable|]. split; [by left|]. split; [done|].
       intros Hn. by destruct (Hn1 Hn). }
  destruct (Himg eq_refl) as (f & Hf & Hi).
  destruct (sys_rename tmp final fs1) as [ok fs2] eqn:Er.
  apply (sys_rename_spec _ _ _ _ _ _ Hf) in Er as [Hcase Hn2].
  destruct Hcase as [[-> Ef2]|[-> Ef2]]; cbn [negb] in E.
  2: { injection E as <- <- <-. assert (durable ix fs2) as Hk.
       { apply Hkeep. intros q Hq. rewrite Ef2. by apply Hf1. }
       split; [by apply durable_recoverable|]. split; [by left|]. split; [done|].
       intros Hn. destruct (Hn1 Hn) as [_ Hn']. by destruct (Hn2 Hn'). }
  assert (log_inv (wal_path (opts_ ix)) rs dur w fs2) as Hl2.
  { eapply log_inv_frame; [|done]. rewrite Ef2, lookup_insert_ne, lookup_delete_ne by done. by apply Hf1. }
  assert (snapshot_holds (opts_ ix) fs2 (map_ ix)) as Hs2.
  { unfold snapshot_holds. rewrite Ed. fold final. by rewrite Ef2, lookup_insert_eq. }
  apply (RotateWal_spec _ _ rs dur w) in E as (Hrec' & Hd' & Hok & Hn3); try done.
  2: { rewrite <- Hr. apply replay_all_idem. }
  split; [done|]. split; [done|]. split; [done|]. intros Hn. destruct (Hn1 Hn) as [_ Hn'].
  destruct (Hn2 Hn') as [_ Hn'']. destruct (Hn3 Hn'') as [-> ?]. split; [done|]. split; [by apply Hok|done].
Qed.

(** ** Logging a change *)

(** The change of the map is already made when it is logged.  A success means
    that the files give back the changed map; a failure leaves the log with the
    old records, or, after a failed fsync, with the new one as well. *)
Lemma AppendWal_spec ty k a b ix fs base rs dur w s ix' fs' :
  let r := mkRec ty k a b in
  paths_ok (opts_ ix) -> logged ix fs base rs dur w -> rec_ok r ->
  bytes_written_ w + Z.of_nat (kEncodedSize K) < 2 ^ 64 ->
  ApplyRecord r (replay_all base rs) = map_ ix ->
  AppendWal ty k a b ix fs = (s, ix', fs') ->
  ((s = kOk /\ recoverable (opts_ ix) fs' (map_ ix) /\ (durable ix' fs' \/ wal_ ix' = None)) \/
   (s <> kOk /\ exists w', logged ix' fs' base rs dur w' \/ logged ix' fs' base (rs ++ [r]) dur w')) /\
  (no_eio (fs_script fs) -> s = kOk /\ durable ix' fs' /\ no_eio (fs_script fs')).
Proof.
  cbv zeta. set (r := mkRec ty k a b). intros Hpo [Hw Hl Hs] Hr Hroom Hm E.
  pose proof Hpo as [Hp [Hps Hpt]]. unfold AppendWal in E. rewrite Hw in E. fold r in E.
  destruct (AppendRecord r w fs) as [[s1 w1] fs1] eqn:Ea.
  apply (AppendRecord_spec _ _ _ _ _ _ _ _ _ Hl Hr) in Ea as (Hf1 & Hn1 & Hcase).
  2: { rewrite encode_all_app, length_app, encode_all_single, length_Encode.
       rewrite <- (length_Encode r), length_Encode. pose proof (log_bytes _ _ _ _ _ Hl). lia. }
  assert (snapshot_holds (opts_ ix) fs1 base) as Hs1.
  { apply (snapshot_holds_frame _ fs); [|done]. intros _. by apply Hf1, not_eq_sym. }
  destruct (decide (s1 = kOk)) as [->|Hne].
  2: { replace (status_is_ok s1) with false in E by by destruct s1. cbn [negb] in E. injection E as <- <- <-.
       split; [|intros Hn; by destruct (Hn1 Hn)]. right. split; [done|]. exists w1.
       destruct Hcase as [[? _]|[(_ & -> & ?)|[_ ?]]]; [done|left|right]; by split. }
  destruct Hcase as [[_ Hl1]|[[? _]|[? _]]]; [|done|done].
  cbn [status_is_ok negb] in E.
  set (ix1 := set_wal_bytes (bytes_written_ w1) (set_wal (Some w1) ix)) in *.
  assert (durable ix1 fs1) as Hd1.
  { exists base, (rs ++ [r]), (length (rs ++ [r])), w1. split; [by split|]. by rewrite replay_all_snoc. }
  destruct (_ && _).
  - destruct (Checkpoint ix1 fs1) as [[sc ix2] fs2] eqn:Ec. injection E as <- <- <-.
    apply Checkpoint_spec in Ec as (Hrec & Hd2 & _ & Hn2); [|done|done].
    split; [by left|]. intros Hn. destruct (Hn1 Hn) as [_ Hn']. destruct (Hn2 Hn') as (? & ? & _). done.
  - injection E as <- <- <-. split.
    + left. split; [done|]. split; [by apply (durable_recoverable ix1)|by left].
    + intros Hn. by destruct (Hn1 Hn).
Qed.

(** The size of the log, as the writer counts it. *)
Definition log_size ix : Z := match wal_ ix with Some w => bytes_written_ w | None => 0 end.

Lemma Checkpoint_size ix fs s ix' fs' :
  Checkpoint ix fs = (s, ix', fs') -> log_size ix' = log_size ix \/ log_size ix' = 0.
Proof.
  unfold Checkpoint. destruct (is_empty _); [intros [= <- <- <-]; by left|].
  destruct (DumpSnapshot _ _ _) as [s1 fs1]. destruct (negb _); [intros [= <- <- <-]; by left|].
  destruct (sys_rename _ _ _) as [ok fs2]. destruct (negb ok); [intros [= <- <- <-]; by left|].
  unfold RotateWal. destruct (wal_ ix) as [w|] eqn:Ew; [|intros [= <- <- <-]; by left].
  destruct (WalWriter_Close w fs2) as [[? ?] fs3]. cbn [opts_ set_wal].
  unfold WalWriter_Open, WalWriter_new. cbn [ww_fd].
  destruct (sys_open _ true true fs3) as [b fs4] eqn:Eo. destruct b; cbn [negb status_is_ok]; [|intros [= <- <- <-]; by right].
  destruct (sys_call fs4) as [b fs5] eqn:Ec. apply sys_call_files in Ec.
  destruct b; cbn [negb status_is_ok]; intros [= <- <- <-]; right; [|done].
  unfold log_size, file_size. cbn. apply sys_open_trunc in Eo as [y Hy]. by rewrite Ec, Hy.
Qed.

(** One logged change adds at most one record. *)
Lemma AppendWal_size ty k a b ix fs rs dur w s ix' fs' :
  wal_ ix = Some w -> log_inv (wal_path (opts_ ix)) rs dur w fs ->
  AppendWal ty k a b ix fs = (s, ix', fs') ->
  log_size ix' <= bytes_written_ w + Z.of_nat (kEncodedSize K).
Proof.
  intros Hw Hl E. unfold AppendWal in E. rewrite Hw in E.
  pose proof (log_bytes _ _ _ _ _ Hl) as Hb.
  destruct (AppendRecord _ w fs) as [[s1 w1] fs1] eqn:Ea.
  assert (bytes_written_ w1 <= bytes_written_ w + Z.of_nat (kEncodedSize K)) as Hw1.
  { unfold AppendRecord, WalWriter_Append, WriteLocked, sync_writer in Ea. rewrite (log_fd _ _ _ _ _ Hl) in Ea.
    pose proof (kEncodedSize_pos (K := K)). rewrite (proj2 (Nat.eqb_neq _ _)) in Ea by lia.
    destruct (fs_pwrite _ _ _ _) as [s2 fs2]. destruct (negb (status_is_ok s2)) eqn:Es2; cbn [status_is_ok negb] in Ea.
    - rewrite Es2 in Ea. injection Ea as <- <- <-. lia.
    - cbn [ww_fd] in Ea. destruct (sys_fsync _ _). injection Ea as <- <- <-. cbn [bytes_written_].
      rewrite take_ge by (rewrite length_Encode; lia). rewrite length_Encode.
      unfold u64. apply Z.mod_le; lia. }
  destruct (negb _); [injection E as <- <- <-; exact Hw1|].
  destruct (_ && _); [|injection E as <- <- <-; exact Hw1].
  destruct (Checkpoint _ fs1) as [[sc ix2] fs2] eqn:Ec. injection E as <- <- <-.
  apply Checkpoint_size in Ec as [->| ->]; [exact Hw1|]. lia.
Qed.

(** ** Opening *)

Lemma set_map_same ix : set_map (map_ ix) ix = ix.
Proof. by destruct ix. Qed.

Lemma open_snapshot_spec ix fs base :
  map_ ix = ∅ -> snapshot_holds (opts_ ix) fs base -> no_eio (fs_script fs) ->
  exists fs', open_snapshot ix fs = (kOk, set_map base ix, fs') /\
    fs_files fs' = fs_files fs /\ no_eio (fs_script fs').
Proof.
  intros Hm Hs Hn. unfold open_snapshot, snapshot_holds in *.
  destruct (is_empty (snapshot_dir (opts_ ix))).
  { subst base. rewrite <- Hm, set_map_same. by eexists. }
  unfold FileExists. destruct (sys_stat _ fs) as [there fs1] eqn:Est.
  apply sys_stat_spec in Est as (Ef & Hin & Hn1). destruct (Hn1 Hn) as [Hn' Hout].
  destruct there.
  - destruct (Hin eq_refl) as [f Hf]. rewrite Hf in Hs. unfold LoadSnapshot.
    destruct (phmap_load _ fs1) as [o fs2] eqn:El.
    eapply phmap_load_spec in El as (Ef2 & _ & Hn2); [|by rewrite Ef|exact Hs].
    destruct (Hn2 Hn') as [-> ?]. eexists. split; [done|]. split; [congruence|done].
  - rewrite Hout in Hs by done. subst base. rewrite <- Hm, set_map_same. by eexists.
Qed.

(** The log after replay: the complete records, and nothing else. *)
Lemma open_replay_spec ix fs rs :
  wal_path (opts_ ix) <> EmptyString -> log_holds (opts_ ix) fs rs -> no_eio (fs_script fs) ->
  file_size (wal_path (opts_ ix)) fs < 2 ^ 63 ->
  exists fs', open_replay ix fs = Some (kOk, set_map (replay_all (map_ ix) rs) ix, fs') /\
    no_eio (fs_script fs') /\
    (forall q, q <> wal_path (opts_ ix) -> fs_files fs' !! q = fs_files fs !! q) /\
    Forall rec_ok rs /\
    match fs_files fs' !! wal_path (opts_ ix) with
    | None => rs = []
    | Some f => f_data f = encode_all rs
    end.
Proof.
  intros Hp Hl Hn Hsz. unfold open_replay, log_holds in *. set (p := wal_path (opts_ ix)) in *.
  rewrite is_empty_false in * by done. unfold FileExists.
  destruct (sys_stat p fs) as [there fs1] eqn:Est.
  apply sys_stat_spec in Est as (Ef1 & Hin & Hn1). destruct (Hn1 Hn) as [Hn1' Hout].
  destruct there; cbn [negb].
  2: { rewrite Hout in Hl by done. subst rs. exists fs1. cbn. rewrite set_map_same, Ef1, Hout by done. done. }
  destruct (Hin eq_refl) as [f Hf]. rewrite Hf in Hl. destruct Hl as (tail & Ed & Hok & Ht).
  unfold WalReader_Open, WalReader_new. cbn [wr_fd].
  destruct (sys_open p false false fs1) as [ok fs2] eqn:Eo.
  pose proof (sys_open_existing p false fs1 ok fs2) as Ef2. rewrite Ef1, Hf in Ef2.
  specialize (Ef2 ltac:(done) Eo).
  destruct (sys_open_no_eio _ _ _ _ _ _ Hn1' Eo) as [Hn2 Hok2].
  rewrite Hok2 by (right; rewrite Ef1, Hf; done). cbn [negb].
  destruct (sys_call fs2) as [b fs3] eqn:Ec. pose proof (sys_call_files _ _ _ Ec) as Ef3.
  apply sys_call_no_eio in Ec as [-> Hn3]; [|done]. cbn [negb status_is_ok].
  unfold ReplayRecords, Replay. cbn [wr_fd wr_pos last_good_offset_].
  pose proof (kEncodedSize_pos (K := K)) as Hpos. rewrite (proj2 (Nat.eqb_neq _ _)) by lia.
  rewrite Ef3, Ef2, Hf.
  destruct (replay_loop_spec ApplyRecord (S (length (f_data f))) (f_data f) (fs_script fs3) 0 0 (map_ ix))
    as (s & acc' & pos' & good' & sc' & -> & Hsuf & Hcase); [lia|unfold in_u; lia|].
  destruct Hcase as [(-> & -> & ->)|(_ & Hno & _)]; [|done].
  assert (wal_records (drop 0 (f_data f)) = rs) as Erec.
  { rewrite drop_0, Ed, wal_records_encode, Ht by done. apply app_nil_r. }
  rewrite Erec. cbn [status_is_ok negb last_good_offset_].
  assert (Z.to_nat (u64 (0 + Z.of_nat (length rs * kEncodedSize K))) = length (encode_all rs)) as Eg.
  { rewrite length_encode_all, u64_small; [lia|]. unfold file_size in Hsz. rewrite Hf, Ed in Hsz.
    rewrite length_app, length_encode_all in Hsz. unfold in_u. lia. }
  rewrite Eg. destruct (sys_truncate p _ (set_script sc' fs3)) as [okt fs4] eqn:Et.
  apply (sys_truncate_spec _ _ _ _ _ f) in Et as [Hcase Hn4]; [|cbn; by rewrite Ef3, Ef2].
  destruct Hn4 as [-> Hn4]; [by apply (no_eio_suffix (fs_script fs3))|].
  destruct Hcase as [[_ Ef4]|[? _]]; [|done]. cbn in Ef4. exists fs4. split; [done|]. split; [done|].
  rewrite Ef4, Ef3, Ef2. split; [intros q Hq; by rewrite lookup_insert_ne|]. split; [done|].
  rewrite lookup_insert_eq. cbn. rewrite Ed. rewrite resize_le by (rewrite length_app; lia). apply take_app_length.
Qed.

(** Opening rebuilds the map the files hold, and continues the log. *)
Lemma Index_Open_spec o fs m :
  paths_ok o -> key_size (segment_config o) = Z.of_nat (key_sizeof (K := K)) ->
  recoverable o fs m -> no_eio (fs_script fs) -> file_size (wal_path o) fs < 2 ^ 63 ->
  exists ix fs', Index_Open (Index_new o) fs = Some (kOk, ix, fs') /\ opts_ ix = o /\
    map_ ix = m /\ opened_ ix = true /\ wal_bytes_ ix = file_size (wal_path o) fs' /\
    durable ix fs' /\ no_eio (fs_script fs') /\ log_size ix <= file_size (wal_path o) fs /\
    (forall q, q <> wal_path o -> fs_files fs' !! q = fs_files fs !! q).
Proof.
  intros Hpo Hk (base & rs & Hs & Hl & <-) Hn Hsz. pose proof Hpo as [Hp [Hps Hpt]].
  unfold Index_Open. cbn [opened_ Index_new set_opened opts_]. rewrite Hk, Z.eqb_refl. cbn [negb].
  set (ix0 := mkIndex (K := K) o ∅ None 0 true).
  destruct (open_snapshot_spec ix0 fs base eq_refl Hs Hn) as (fs1 & E1 & Ef1 & Hn1).
  change (set_opened true (Index_new o)) with ix0. rewrite E1. cbn [status_is_ok negb].
  destruct (open_replay_spec (set_map base ix0) fs1 rs) as (fs2 & E2 & Hn2 & Hf2 & Hok & Hw); try done.
  { unfold log_holds. by rewrite Ef1. }
  { unfold file_size. by rewrite Ef1. }
  rewrite E2. cbn [mbind option_bind status_is_ok negb].
  set (ix1 := set_map (replay_all base rs) ix0). change (set_map _ (set_map base ix0)) with ix1.
  unfold open_wal. cbn [opts_ ix1 set_map]. rewrite is_empty_false by done.
  unfold WalWriter_Open, WalWriter_new. cbn [ww_fd opts_ ix0] in *.
  destruct (sys_open (wal_path o) true false fs2) as [ok fs3] eqn:Eo.
  destruct (sys_open_no_eio _ _ _ _ _ _ Hn2 Eo) as [Hn3 Hok3]. rewrite Hok3 in * by (by left). cbn [negb].
  destruct (sys_call fs3) as [b fs4] eqn:Ec. pose proof (sys_call_files _ _ _ Ec) as Ef4.
  apply sys_call_no_eio in Ec as [-> Hn4]; [|done]. cbn [negb status_is_ok].
  assert (exists y, fs_files fs4 !! wal_path o = Some (mkFile (encode_all rs) y)) as [y Hy].
  { rewrite Ef4. unfold sys_open in Eo. destruct (sys_call fs2) as [b fs5] eqn:Ec. apply sys_call_files in Ec.
    destruct b; cbn [negb] in Eo; [|done]. rewrite Ec in Eo. change (opts_ (set_map base ix0)) with o in Hw.
    destruct (fs_files fs2 !! wal_path o) as [f|] eqn:Ef.
    - simplify_eq. rewrite Ec, Ef. exists (f_sync f). destruct f. cbn in *. by subst.
    - injection Eo as <-. cbn. rewrite lookup_insert_eq. subst rs. by exists []. }
  do 2 eexists. split; [done|]. split; [done|]. split; [done|]. split; [done|]. split; [done|].
  assert (forall q, q <> wal_path o -> fs_files fs4 !! q = fs_files fs !! q) as Hq4.
  { intros q Hq. rewrite Ef4, <- Ef1, <- Hf2 by done. eapply sys_open_other; [|done]. by apply not_eq_sym. }
  split.
  2: { split; [done|]. split; [|exact Hq4]. unfold log_size, file_size. cbn. rewrite Hy. cbn.
       unfold log_holds in Hl. rewrite is_empty_false in Hl by done. destruct (fs_files fs !! wal_path o) as [f|].
       - destruct Hl as (tail & -> & _). rewrite length_app. lia.
       - by subst rs. }
  eexists base, rs, 0%nat, _. split; [|done]. split; [done| |].
  - change (wal_path (opts_ _)) with (wal_path o). split; [done|done|lia| |].
    { cbn [bytes_written_]. unfold file_size. change (wal_path _) with (wal_path o). by rewrite Hy. }
    exists y, []. rewrite Hy, app_nil_r.
    split; [done|]. split; [apply kEncodedSize_pos|apply prefix_nil].
  - change (opts_ _) with o. apply (snapshot_holds_frame _ fs); [|done]. intros _.
    apply Hq4. by apply not_eq_sym.
Qed.

End recovery.
