(* ===== verification/IndexTheorems.v ===== *)
(** * Theorems on the index

    The index as a map from keys to values (a refinement of an abstract map,
    reads of what was written), its behaviour across restarts, and compaction.
    The closing sections have a concrete snapshot format and concrete runs:
    witnesses of the theorems, and runs in which the code loses or brings back
    data. *)

From S2P Require Import Prelude Common Sys Key Offset Wal SegmentBase SegmentOps SegmentFile.
From S2P Require Import SegmentManager ManagerState ManagerTheorems Index IndexData IndexCompaction IndexRecovery.

(** ** The abstract map *)

Inductive ix_op (K : Type) :=
  | OpPut (k : K) (value : list Z)
  | OpGet (k : K)
  | OpDelete (k : K)
  | OpContains (k : K)
  | OpCheckpoint
  | OpCompact.
Arguments OpPut {K} _ _.
Arguments OpGet {K} _.
Arguments OpDelete {K} _.
Arguments OpContains {K} _.
Arguments OpCheckpoint {K}.
Arguments OpCompact {K}.

Inductive ix_result :=
  | RStatus (s : Status)
  | RValue (s : Status) (out : option (list Z))
  | RBool (b : bool).

(** What a call may answer and do on an abstract map.  A change succeeds and
    has its effect, or reports an error and has none; a read returns the value
    of the key, or an error other than success. *)
Inductive kv_step {K} `{!KeyT K} : ix_op K -> ix_result -> gmap K (list Z) -> gmap K (list Z) -> Prop :=
  | kv_put k v m : kv_step (OpPut k v) (RStatus kOk) m (<[k := v]> m)
  | kv_put_err k v s m : s <> kOk -> kv_step (OpPut k v) (RStatus s) m m
  | kv_get k v m : m !! k = Some v -> kv_step (OpGet k) (RValue kOk (Some v)) m m
  | kv_get_none k m : m !! k = None -> kv_step (OpGet k) (RValue kNotFound None) m m
  | kv_get_err k v s out m : m !! k = Some v -> s <> kOk -> kv_step (OpGet k) (RValue s out) m m
  | kv_delete k v m : m !! k = Some v -> kv_step (OpDelete k) (RStatus kOk) m (delete k m)
  | kv_delete_none k m : m !! k = None -> kv_step (OpDelete k) (RStatus kNotFound) m m
  | kv_delete_err k v s m : m !! k = Some v -> s <> kOk -> kv_step (OpDelete k) (RStatus s) m m
  | kv_contains k m : kv_step (OpContains k) (RBool (bool_decide (is_Some (m !! k)))) m m
  | kv_checkpoint s m : kv_step OpCheckpoint (RStatus s) m m
  | kv_compact s m : kv_step OpCompact (RStatus s) m m.

Inductive kv_run {K} `{!KeyT K} : list (ix_op K) -> list ix_result -> gmap K (list Z) -> gmap K (list Z) -> Prop :=
  | kv_run_nil m : kv_run [] [] m m
  | kv_run_cons o os r rs m1 m2 m3 :
      kv_step o r m1 m2 -> kv_run os rs m2 m3 -> kv_run (o :: os) (r :: rs) m1 m3.

Section runs.
Context {K : Type} `{!KeyT K} `{!KeyTLaws K} `{!Phmap K} {H W : Type} `{SlotStoreLaws H W}.
Context (iter : nat -> gset Z -> list Z).
Hypothesis iter_ok : forall n X, iter n X ≡ₚ elements X.
Context (c : SegmentConfig).
Implicit Types (e : Env K H W).

(** The calls on the index. *)
Definition ix_step (o : ix_op K) e : Outcome (ix_result * Env K H W) :=
  let vs := SegmentBase.value_size (segment_config (e_opts e)) in
  match o with
  | OpPut k v => '(s, e) ← Put iter k (Some v) vs e; Ret (RStatus s, e)
  | OpGet k => '(s, out, e) ← Get k true vs e; Ret (RValue s out, e)
  | OpDelete k => '(s, e) ← Index_Delete k e; Ret (RStatus s, e)
  | OpContains k => Ret (RBool (Contains k (e_ix e)), e)
  | OpCheckpoint =>
      let '(s, ix, fs) := Checkpoint (e_ix e) (e_fs e) in Ret (RStatus s, set_files_of ix fs e)
  | OpCompact => '(s, e) ← compact_index iter e; Ret (RStatus s, e)
  end.

Fixpoint ix_run (os : list (ix_op K)) e : Outcome (list ix_result * Env K H W) :=
  match os with
  | [] => Ret ([], e)
  | o :: os => '(r, e) ← ix_step o e; '(rs, e) ← ix_run os e; Ret (r :: rs, e)
  end.

(** Arguments as the callers pass them: keys of the key type, values of the
    configured size. *)
Definition ix_op_ok (o : ix_op K) : Prop :=
  match o with
  | OpPut k v => key_valid k /\ Z.of_nat (length v) = SegmentBase.value_size c
  | _ => True
  end.

Lemma ix_step_refines o e r e' :
  env_ok c e -> ix_op_ok o -> ix_step o e = Ret (r, e') ->
  env_ok c e' /\ kv_step o r (e_contents e) (e_contents e').
Proof using Type*.
  intros Hok Ho E. unfold ix_step in E. rewrite (eo_cfg _ _ Hok) in E.
  destruct o as [k v|k|k|k| |].
  - destruct Ho as [Hk Hv]. pose proof (Put_spec iter iter_ok c k v e Hok Hk Hv) as Hp.
    destruct (Put _ _ _ _ e) as [[s e1]|]; [|done]. cbn in E. injection E as <- <-.
    destruct Hp as (Hok' & _ & _ & Hr). split; [done|].
    destruct Hr as [(Hs & _ & -> & _)|(enc & ix1 & fs1 & _ & _ & _ & [(-> & _ & ->)|(Hs & _ & ->)])];
      by constructor.
  - destruct (Get_spec c k e Hok) as (s & out & e1 & Eg & Hok' & _ & _ & Ec & _ & Hr).
    rewrite Eg in E. cbn in E. injection E as <- <-. split; [done|]. rewrite Ec.
    destruct (e_contents e !! k) as [val|] eqn:Ek.
    + destruct Hr as [Hr _]. destruct (decide (s = kOk)) as [->|Hs].
      * rewrite Hr by done. by constructor.
      * by econstructor.
    + destruct Hr as [-> ->]. by constructor.
  - destruct (Delete_index_spec c k e Hok) as (s & e1 & Ed & Hok' & _ & _ & Hr).
    rewrite Ed in E. cbn in E. injection E as <- <-. split; [done|].
    destruct (e_contents e !! k) as [val|] eqn:Ek.
    + destruct Hr as (old & ix1 & fs1 & _ & _ & _ & _ & [(-> & _ & ->)|(Hs & _ & ->)]); by econstructor.
    + destruct Hr as [-> ->]. by constructor.
  - injection E as <- <-. split; [done|].
    assert (Contains k (e_ix e) = bool_decide (is_Some (e_contents e !! k))) as ->; [|constructor].
    apply bool_decide_ext. pose proof (index_ok_none _ _ k (eo_index _ _ Hok)) as Hn.
    rewrite <- !not_eq_None_Some. unfold e_contents. tauto.
  - destruct (Checkpoint (e_ix e) (e_fs e)) as [[s ix] fs] eqn:Ec. injection E as <- <-.
    apply Checkpoint_frame in Ec as (Em & Eo & _).
    assert (e_contents (set_files_of ix fs e) = e_contents e) as ->.
    { unfold e_contents. cbn [e_ix set_files_of]. by rewrite Em. }
    split; [|constructor]. apply env_ok_files; [done|done|]. rewrite Em. apply Hok.
  - pose proof (compact_index_spec iter iter_ok c e Hok) as Hp.
    destruct (compact_index iter e) as [[s e1]|]; [|done]. cbn in E. injection E as <- <-.
    destruct Hp as (Hok' & _ & ->). split; [done|constructor].
Qed.

(** C6: the index is a map.  Every run of calls ([Put], [Get], [Delete],
    [Contains], [Checkpoint], compaction with the index's callback) that has a
    defined result answers what an abstract map answers and ends with the
    contents of that map, for every order in which containers iterate and
    every pattern of I/O failures: a change that reports an error has no
    effect, a read that succeeds returns the value last written. *)
Theorem Index_refines_map (os : list (ix_op K)) e rs e' :
  env_ok c e -> Forall ix_op_ok os -> ix_run os e = Ret (rs, e') ->
  kv_run os rs (e_contents e) (e_contents e') /\ env_ok c e'.
Proof using Type*.
  intros Hok Hos. revert e rs Hok. induction Hos as [|o os Ho Hos IH]; intros e rs Hok E; cbn [ix_run] in E.
  { injection E as <- <-. split; [constructor|done]. }
  destruct (ix_step o e) as [[r e1]|] eqn:E1; [|done]. cbn [mbind Outcome_bind] in E.
  destruct (ix_run os e1) as [[rs2 e2]|] eqn:E2; [|done]. cbn in E. injection E as <- <-.
  apply ix_step_refines in E1 as [Hok1 Hs1]; [|done|done].
  destruct (IH _ _ Hok1 E2) as [Hr Hok2]. split; [|done]. by econstructor.
Qed.

(** [Put] is defined whenever every idle or appending segment has a free
    slot.  It stores the value or reports an error and changes nothing; it
    fails for lack of space only, if no segment I/O and no logging fails. *)
Theorem Put_contract (k : K) (value : list Z) e :
  env_ok c e -> all_free (e_mgr e) -> key_valid k ->
  Z.of_nat (length value) = SegmentBase.value_size c ->
  exists s e', Put iter k (Some value) (SegmentBase.value_size c) e = Ret (s, e') /\ env_ok c e' /\
    (if decide (s = kOk) then e_contents e' = <[k := value]> (e_contents e)
     else e_contents e' = e_contents e /\ map_ (e_ix e') = map_ (e_ix e)) /\
    (st_quiet (e_w e) -> wal_ (e_ix e) = None -> s = kOk \/ s = kNoSpace \/ s = kFull).
Proof using Type*.
  intros Hok Hfree Hk Hv. pose proof (Put_spec iter iter_ok c k value e Hok Hk Hv) as Hp.
  destruct (Put _ _ _ _ e) as [[s e']|]; [|done]. exists s, e'. split; [done|].
  destruct Hp as (Hok' & _ & _ & Hr). split; [done|].
  destruct Hr as [(Hs & [Ei _] & Ec & Hq)|(enc & ix1 & fs1 & _ & Ea & _ & Hr)].
  - split; [rewrite decide_False by done; by rewrite Ei|]. intros Hq' _. right. by apply Hq.
  - split.
    + destruct Hr as [(-> & _ & ?)|(Hs & -> & ?)]; [by rewrite decide_True|].
      rewrite decide_False by done. done.
    + intros _ Hw. left. unfold AppendWal in Ea. cbn [wal_ set_map] in Ea. rewrite Hw in Ea. congruence.
Qed.

(** reads see the writes.  In a store whose I/O does not fail, after a
    [Put] that succeeded, [Get] returns the value just written, [Get] of every
    other key what it returned before, and after a [Delete] that succeeded the
    key is gone. *)
Theorem Put_Get_Delete (k : K) (value : list Z) e e1 :
  env_ok c e -> st_quiet (e_w e) -> key_valid k -> Z.of_nat (length value) = SegmentBase.value_size c ->
  Put iter k (Some value) (SegmentBase.value_size c) e = Ret (kOk, e1) ->
  (exists e2, Get k true (SegmentBase.value_size c) e1 = Ret (kOk, Some value, e2)) /\
  (forall k', k' <> k -> exists s out e2 e2',
     Get k' true (SegmentBase.value_size c) e1 = Ret (s, out, e2) /\
     Get k' true (SegmentBase.value_size c) e = Ret (s, out, e2')) /\
  (forall e3, Index_Delete k e1 = Ret (kOk, e3) ->
     exists e4, Get k true (SegmentBase.value_size c) e3 = Ret (kNotFound, None, e4)).
Proof using Type*.
  intros Hok Hq Hk Hv E. pose proof (Put_spec iter iter_ok c k value e Hok Hk Hv) as Hp.
  rewrite E in Hp. destruct Hp as (Hok1 & _ & Hq1 & Hr). destruct (Hq1 Hq) as [Hqe _].
  assert (e_contents e1 = <[k := value]> (e_contents e)) as Ec.
  { destruct Hr as [(? & _)|(enc & ix1 & fs1 & _ & _ & _ & [(_ & _ & ?)|(? & _)])]; done. }
  split; [|split].
  - destruct (Get_spec c k e1 Hok1) as (s & out & e2 & Eg & _ & _ & _ & _ & _ & Hg).
    rewrite Ec, lookup_insert_eq in Hg. destruct Hg as [Hg1 Hg2].
    rewrite (Hg2 Hqe) in *. rewrite Hg1 in Eg by done. by exists e2.
  - intros k' Hne.
    destruct (Get_spec c k' e1 Hok1) as (s & out & e2 & Eg & _ & _ & _ & _ & _ & Hg).
    destruct (Get_spec c k' e Hok) as (s' & out' & e2' & Eg' & _ & _ & _ & _ & _ & Hg').
    rewrite Ec, lookup_insert_ne in Hg by done.
    assert (s = s' /\ out = out') as [-> ->].
    { destruct (e_contents e !! k').
      - destruct Hg as [Ho Hs], Hg' as [Ho' Hs']. rewrite Hs, Hs' by done. by rewrite Ho, Ho' by auto.
      - destruct Hg as [-> ->], Hg' as [-> ->]. done. }
    by exists s', out', e2, e2'.
  - intros e3 Ed. destruct (Delete_index_spec c k e1 Hok1) as (s & e3' & Ed' & Hok3 & _ & _ & Hd).
    rewrite Ed in Ed'. injection Ed' as <- <-. rewrite Ec, lookup_insert_eq in Hd.
    destruct Hd as (old & ix1 & fs1 & _ & _ & _ & _ & [(_ & _ & Ec3)|(? & _)]); [|done].
    destruct (Get_spec c k e3 Hok3) as (s & out & e4 & Eg & _ & _ & _ & _ & _ & Hg).
    rewrite Ec3, lookup_delete_eq in Hg. destruct Hg as [-> ->]. by exists e4.
Qed.

(** C10: compaction under the index loses nothing.  If every idle or appending
    segment has a free slot, [RunCompaction] with the callback the index
    registers has a defined result, and every key has the same value as
    before, also when reads, writes or the logging of moves fail in the middle,
    and when the compaction reports an error. *)
Theorem compaction_keeps_index e :
  env_ok c e -> all_free (e_mgr e) -> 0 < lay_total_slots (CalculateLayout c) ->
  exists s e', compact_index iter e = Ret (s, e') /\ env_ok c e' /\ e_contents e' = e_contents e.
Proof using Type*.
  intros Hok Hf Hcap. pose proof (compact_index_spec iter iter_ok c e Hok) as Hc.
  destruct (compact_index iter e) as [[s e']|]; [|tauto]. exists s, e'. by destruct Hc as (? & _ & ?).
Qed.

End runs.

(** ** Restarts *)

Section restart.
Context {K : Type} `{!KeyT K} `{!KeyTLaws K} `{!Phmap K} `{!PhmapLaws K} {H W : Type} `{SlotStoreLaws H W}.
Context (iter : nat -> gset Z -> list Z).
Hypothesis iter_ok : forall n X, iter n X ≡ₚ elements X.
Context (c : SegmentConfig).
Implicit Types (e : Env K H W) (ix : Index K).

(** The index a restart builds from files, when no call fails. *)
Definition reopens_with (o : Options) (fs : FS) (m : gmap K Z) : Prop :=
  exists ix fs', Index_Open (Index_new o) (set_script [] fs) = Some (kOk, ix, fs') /\ map_ ix = m /\
    durable ix fs'.

Lemma recoverable_reopens o fs m :
  paths_ok o -> key_size (segment_config o) = Z.of_nat (key_sizeof (K := K)) ->
  recoverable o fs m -> file_size (wal_path o) fs < 2 ^ 63 -> reopens_with o fs m.
Proof.
  intros Hp Hk Hr Hsz. destruct (Index_Open_spec o (set_script [] fs) m) as (ix & fs' & E & _ & Em & _ & _ & Hd & _);
    try done; [by constructor|]. by exists ix, fs'.
Qed.

Lemma env_ok_paths e : env_ok c e -> key_size (segment_config (e_opts e)) = Z.of_nat (key_sizeof (K := K)).
Proof. intros Hok. rewrite (eo_cfg _ _ Hok). apply Hok. Qed.

(** Logging the change of a key, in the state [Put] and [Delete] do it. *)
Lemma logged_change ty k a b mp e s ix1 fs1 :
  paths_ok (e_opts e) -> durable (e_ix e) (e_fs e) ->
  log_size (e_ix e) + Z.of_nat (kEncodedSize K) < 2 ^ 64 ->
  rec_ok (mkRec ty k a b) -> ApplyRecord (mkRec ty k a b) (map_ (e_ix e)) = mp ->
  AppendWal ty k a b (set_map mp (e_ix e)) (e_fs e) = (s, ix1, fs1) ->
  (if decide (s = kOk) then recoverable (e_opts e) fs1 mp /\ (durable ix1 fs1 \/ wal_ ix1 = None)
   else recoverable (e_opts e) fs1 (map_ (e_ix e)) \/ recoverable (e_opts e) fs1 mp) /\
  (no_eio (fs_script (e_fs e)) -> s = kOk /\ durable ix1 fs1 /\ no_eio (fs_script fs1)) /\
  log_size ix1 <= log_size (e_ix e) + Z.of_nat (kEncodedSize K).
Proof.
  intros Hp (base & rs & dur & w & [Hw Hl Hs] & Hm) Hroom Hr Ha E.
  assert (log_size (e_ix e) = bytes_written_ w) as Els by (unfold log_size; by rewrite Hw).
  rewrite Els in *. pose proof (AppendWal_frame _ _ _ _ _ _ _ _ _ E) as [_ Eo].
  pose proof (AppendWal_size ty k a b (set_map mp (e_ix e)) (e_fs e) rs dur w s ix1 fs1 Hw Hl E) as Hsize.
  apply (AppendWal_spec ty k a b _ _ base rs dur w) in E as [Hcase Hn]; try done; [|by rewrite Hm].
  split; [|done]. cbn in Eo. destruct Hp as [Hp _]. destruct Hcase as [(-> & Hrec & Hd)|(Hne & w' & Hlg)].
  - by rewrite decide_True.
  - rewrite decide_False by done. destruct Hlg as [[_ Hl' Hs']|[_ Hl' Hs']]; rewrite Eo in *.
    + left. exists base, rs. split; [done|]. split; [by eapply log_inv_holds|done].
    + right. exists base, (rs ++ [mkRec ty k a b]). split; [done|]. split; [by eapply log_inv_holds|].
      by rewrite replay_all_snoc, Hm.
Qed.

Lemma put_record_ok e k enc :
  env_ok c e -> key_valid k -> in_u 64 enc ->
  let old := map_ (e_ix e) !! k in
  rec_ok (mkRec (wal_type old) k enc (default 0 old)) /\
  ApplyRecord (mkRec (wal_type old) k enc (default 0 old)) (map_ (e_ix e)) = <[k := enc]> (map_ (e_ix e)).
Proof.
  intros Hok Hk Henc. cbv zeta. destruct (map_ (e_ix e) !! k) as [old|] eqn:Eold.
  - destruct (eo_index _ _ Hok _ _ Eold) as [_ (val & sid & slot & -> & Hso & _)].
    pose proof (EncodeSegmentSlot_range sid slot Hso). change (wal_type (Some _)) with kUpdate. split; [|done].
    split; [done|]. split; [done|]. split; [done|]. cbn [old_disk_addr default]. unfold in_u. cbn. lia.
  - change (wal_type None) with kInsert. split; [|done]. split; [done|]. done.
Qed.

(** What [Put] and [Delete] leave in the index's files. *)
Lemma Put_files k value e s e' :
  env_ok c e -> paths_ok (e_opts e) -> durable (e_ix e) (e_fs e) ->
  log_size (e_ix e) + Z.of_nat (kEncodedSize K) < 2 ^ 64 ->
  key_valid k -> Z.of_nat (length value) = SegmentBase.value_size c ->
  Put iter k (Some value) (SegmentBase.value_size c) e = Ret (s, e') ->
  (if decide (s = kOk)
   then recoverable (e_opts e) (e_fs e') (map_ (e_ix e')) /\ e_contents e' = <[k := value]> (e_contents e)
   else map_ (e_ix e') = map_ (e_ix e) /\ exists enc,
     recoverable (e_opts e) (e_fs e') (map_ (e_ix e)) \/
     recoverable (e_opts e) (e_fs e') (<[k := enc]> (map_ (e_ix e)))) /\
  (no_eio (fs_script (e_fs e)) -> durable (e_ix e') (e_fs e') /\ no_eio (fs_script (e_fs e'))) /\
  log_size (e_ix e') <= log_size (e_ix e) + Z.of_nat (kEncodedSize K).
Proof using Type*.
  intros Hok Hp Hd Hroom Hk Hv E. pose proof (Put_spec iter iter_ok c k value e Hok Hk Hv) as Hs.
  rewrite E in Hs. destruct Hs as (Hok' & Eo & _ & Hr).
  pose proof (kEncodedSize_pos (K := K)).
  destruct Hr as [(Hne & [Ei Ef] & Ec & _)|(enc & ix1 & fs1 & Henc & Ea & Efs & Hr)].
  { rewrite decide_False by done. rewrite Ei, Ef. split; [split; [done|]|split; [done|lia]].
    exists 0. left. by apply durable_recoverable. }
  destruct (put_record_ok e k enc Hok Hk Henc) as [Hrec Happ].
  pose proof (AppendWal_frame _ _ _ _ _ _ _ _ _ Ea) as [Em _]. cbn in Em.
  destruct (logged_change _ _ _ _ _ e s ix1 fs1 Hp Hd Hroom Hrec Happ Ea) as (Hc & Hn & Hsz).
  destruct Hr as [(-> & Ei & Ec)|(Hne & Ei & Ec)].
  - rewrite decide_True in * by done. rewrite Ei, Efs, Em. split; [by destruct Hc|]. split; [|done].
    intros Hno. by destruct (Hn Hno).
  - rewrite decide_False in * by done. rewrite Ei, Efs. split; [split; [done|]; by exists enc|].
    split; [|done]. intros Hno. by destruct (Hn Hno).
Qed.

Lemma Delete_files k e s e' :
  env_ok c e -> paths_ok (e_opts e) -> durable (e_ix e) (e_fs e) ->
  log_size (e_ix e) + Z.of_nat (kEncodedSize K) < 2 ^ 64 ->
  Index_Delete k e = Ret (s, e') ->
  (if decide (s = kOk)
   then recoverable (e_opts e) (e_fs e') (map_ (e_ix e')) /\ e_contents e' = delete k (e_contents e)
   else map_ (e_ix e') = map_ (e_ix e) /\
     (recoverable (e_opts e) (e_fs e') (map_ (e_ix e)) \/
      recoverable (e_opts e) (e_fs e') (delete k (map_ (e_ix e))))) /\
  (no_eio (fs_script (e_fs e)) -> durable (e_ix e') (e_fs e') /\ no_eio (fs_script (e_fs e'))) /\
  log_size (e_ix e') <= log_size (e_ix e) + Z.of_nat (kEncodedSize K).
Proof.
  intros Hok Hp Hd Hroom E. destruct (Delete_index_spec c k e Hok) as (s0 & e0 & E0 & Hok' & Eo & _ & Hr).
  rewrite E in E0. injection E0 as <- <-. pose proof (kEncodedSize_pos (K := K)).
  destruct (e_contents e !! k) eqn:Ek.
  2: { destruct Hr as [-> ->]. rewrite decide_False by done. split; [|split; [done|lia]]. split; [done|].
       left. by apply durable_recoverable. }
  destruct Hr as (old & ix1 & fs1 & Eold & Hold & Ea & Efs & Hr).
  pose proof (AppendWal_frame _ _ _ _ _ _ _ _ _ Ea) as [Em _]. cbn in Em.
  assert (rec_ok (mkRec kDelete k 0 old)) as Hrec.
  { split; [done|]. split; [by apply (eo_index _ _ Hok k old)|]. done. }
  destruct (logged_change kDelete k 0 old _ e s ix1 fs1 Hp Hd Hroom Hrec eq_refl Ea) as (Hc & Hn & Hsz).
  destruct Hr as [(-> & Ei & Ec)|(Hne & Ei & Ec)].
  - rewrite decide_True in * by done. rewrite Ei, Efs, Em. split; [by destruct Hc|]. split; [|done].
    intros Hno. by destruct (Hn Hno).
  - rewrite decide_False in * by done. rewrite Ei, Efs. split; [by split|].
    split; [|done]. intros Hno. by destruct (Hn Hno).
Qed.

Lemma durable_file_size ix fs :
  durable ix fs -> file_size (wal_path (opts_ ix)) fs < log_size ix + Z.of_nat (kEncodedSize K).
Proof.
  intros (base & rs & dur & w & [Hw Hl _] & _). unfold log_size. rewrite Hw, (log_bytes _ _ _ _ _ Hl).
  destruct (log_file _ _ _ _ _ Hl) as (sync & tail & Hf & Ht & _). unfold file_size. rewrite Hf. cbn.
  rewrite length_app. lia.
Qed.

(** One call other than compaction keeps the files in step with the map, when
    no call on them fails. *)
Lemma ix_step_durable o e r e' :
  env_ok c e -> ix_op_ok c o -> o <> OpCompact -> paths_ok (e_opts e) ->
  durable (e_ix e) (e_fs e) -> no_eio (fs_script (e_fs e)) ->
  log_size (e_ix e) + Z.of_nat (kEncodedSize K) < 2 ^ 64 ->
  ix_step iter o e = Ret (r, e') ->
  durable (e_ix e') (e_fs e') /\ no_eio (fs_script (e_fs e')) /\ e_opts e' = e_opts e /\
  log_size (e_ix e') <= log_size (e_ix e) + Z.of_nat (kEncodedSize K).
Proof using Type*.
  intros Hok Ho Hnc Hp Hd Hn Hroom E. pose proof (kEncodedSize_pos (K := K)).
  unfold ix_step in E. rewrite (eo_cfg _ _ Hok) in E. destruct o as [k v|k|k|k| |]; [..|done].
  - destruct Ho as [Hk Hv]. destruct (Put _ _ _ _ e) as [[s e1]|] eqn:E1; [|done]. cbn in E. injection E as <- <-.
    pose proof (Put_spec iter iter_ok c k v e Hok Hk Hv) as Hs. rewrite E1 in Hs.
    apply Put_files in E1 as (_ & Hn' & Hsz); try done. destruct (Hn' Hn). by destruct Hs as (_ & ? & _).
  - destruct (Get_spec c k e Hok) as (s & out & e1 & Eg & _ & [Ei Ef] & _). rewrite Eg in E. cbn in E.
    injection E as <- <-. unfold e_opts. rewrite Ei, Ef. split; [done|]. split; [done|]. split; [done|lia].
  - destruct (Index_Delete k e) as [[s e1]|] eqn:E1; [|done]. cbn in E. injection E as <- <-.
    destruct (Delete_index_spec c k e Hok) as (s0 & e0 & E0 & _ & Eo & _).
    rewrite E1 in E0. injection E0 as <- <-.
    apply Delete_files in E1 as (_ & Hn' & Hsz); try done. by destruct (Hn' Hn).
  - injection E as <- <-. split; [done|]. split; [done|]. split; [done|lia].
  - destruct (Checkpoint (e_ix e) (e_fs e)) as [[s ix] fs] eqn:Ec. injection E as <- <-.
    pose proof (Checkpoint_frame _ _ _ _ _ Ec) as (_ & Eo & _). pose proof (Checkpoint_size _ _ _ _ _ Ec) as Hsz.
    apply Checkpoint_spec in Ec as (_ & _ & _ & Hn'); [|done|done]. destruct (Hn' Hn) as (? & ? & _).
    split; [done|]. split; [done|]. split; [done|]. cbn [e_ix set_files_of].
    assert (0 <= log_size (e_ix e)).
    { destruct Hd as (base & rs & dur & w & [Hw Hl _] & _). unfold log_size. rewrite Hw, (log_bytes _ _ _ _ _ Hl). lia. }
    destruct Hsz as [->| ->]; lia.
Qed.

(** C7: a restart after any run of [Put], [Get], [Delete], [Contains] and
    [Checkpoint] finds exactly the map the index had, however the log was rotated
    by automatic and explicit checkpoints on the way.  There is no compaction
    among the calls (the log may fall behind the map then, see
    [compaction_checkpoint_loses_key]), no call on the files of the index fails
    (those on the segments may), and the log has room for one record for every
    call. *)
Theorem run_survives_restart (os : list (ix_op K)) e rs e' :
  env_ok c e -> Forall (ix_op_ok c) os -> OpCompact ∉ os -> paths_ok (e_opts e) ->
  durable (e_ix e) (e_fs e) -> no_eio (fs_script (e_fs e)) ->
  log_size (e_ix e) + Z.of_nat (S (length os)) * Z.of_nat (kEncodedSize K) < 2 ^ 63 ->
  ix_run iter os e = Ret (rs, e') ->
  reopens_with (e_opts e) (e_fs e') (map_ (e_ix e')).
Proof using Type*.
  intros Hok Hos. revert e rs Hok. pose proof (kEncodedSize_pos (K := K)) as Hpos.
  induction Hos as [|o os Ho Hos IH]; intros e rs Hok Hnc Hp Hd Hn Hroom E; cbn [ix_run] in E.
  { injection E as <- <-. apply recoverable_reopens; [done|by apply env_ok_paths| |].
    - by apply durable_recoverable.
    - pose proof (durable_file_size _ _ Hd). unfold e_opts. cbn [length] in Hroom. lia. }
  apply not_elem_of_cons in Hnc as [Hno Hnc].
  destruct (ix_step iter o e) as [[r e1]|] eqn:E1; [|done]. cbn [mbind Outcome_bind] in E.
  destruct (ix_run iter os e1) as [[rs2 e2]|] eqn:E2; [|done]. cbn in E. injection E as <- <-.
  pose proof (ix_step_refines iter iter_ok c o e r e1 Hok Ho E1) as [Hok1 _]. cbn [length] in Hroom.
  apply ix_step_durable in E1 as (Hd1 & Hn1 & Eo1 & Hsz1); try done; [|nia].
  rewrite <- Eo1. apply (IH e1 rs2); try done; [by rewrite Eo1|]. nia.
Qed.

(** C9: an acknowledged [Put] survives a restart, whatever else failed: after
    [Put] returned [kOk], for every script of failures of the log, of the
    checkpoint it may have triggered and of the segments, a new index opened on
    the files has the same map, and the value is stored where the map says.
    After an error the restart finds the old map, or the old map with the new
    location of the key. *)
Theorem Put_survives_restart (k : K) (value : list Z) e s e' :
  env_ok c e -> paths_ok (e_opts e) -> durable (e_ix e) (e_fs e) ->
  log_size (e_ix e) + Z.of_nat (kEncodedSize K) < 2 ^ 64 ->
  key_valid k -> Z.of_nat (length value) = SegmentBase.value_size c ->
  Put iter k (Some value) (SegmentBase.value_size c) e = Ret (s, e') ->
  file_size (wal_path (e_opts e)) (e_fs e') < 2 ^ 63 ->
  if decide (s = kOk)
  then reopens_with (e_opts e) (e_fs e') (map_ (e_ix e')) /\
       contents (e_view e') (map_ (e_ix e')) = <[k := value]> (e_contents e)
  else exists enc, reopens_with (e_opts e) (e_fs e') (map_ (e_ix e)) \/
         reopens_with (e_opts e) (e_fs e') (<[k := enc]> (map_ (e_ix e))).
Proof using Type*.
  intros Hok Hp Hd Hroom Hk Hv E Hsz. pose proof (env_ok_paths _ Hok).
  apply Put_files in E as (Hc & _ & _); try done. case_decide.
  - destruct Hc as [Hr Ec]. split; [by apply recoverable_reopens|done].
  - destruct Hc as (_ & enc & [Hr|Hr]); exists enc; [left|right]; by apply recoverable_reopens.
Qed.

(** C21: An acknowledged [Delete] survives a restart: [Delete] always has a result,
    and after [kOk], for every script of failures of the log, of the checkpoint it
    may have triggered and of the segments, a new index opened on the files has
    the same map, without the key; after an error it finds the map with the key
    as it was, or without it.  (The log is smaller than [2^63] bytes.) *)
Theorem Delete_survives_restart (k : K) e :
  env_ok c e -> paths_ok (e_opts e) -> durable (e_ix e) (e_fs e) ->
  log_size (e_ix e) + Z.of_nat (kEncodedSize K) < 2 ^ 64 ->
  exists s e', Index_Delete k e = Ret (s, e') /\
    (file_size (wal_path (e_opts e)) (e_fs e') < 2 ^ 63 ->
     if decide (s = kOk)
     then reopens_with (e_opts e) (e_fs e') (map_ (e_ix e')) /\ map_ (e_ix e') !! k = None /\
          e_contents e' = delete k (e_contents e)
     else reopens_with (e_opts e) (e_fs e') (map_ (e_ix e)) \/
          reopens_with (e_opts e) (e_fs e') (delete k (map_ (e_ix e)))).
Proof.
  intros Hok Hp Hd Hroom. pose proof (env_ok_paths _ Hok).
  destruct (Delete_index_spec c k e Hok) as (s & e' & E & Hok' & _). exists s, e'. split; [done|]. intros Hsz.
  apply Delete_files in E as (Hc & _ & _); try done. case_decide.
  - destruct Hc as [Hr Ec]. split; [by apply recoverable_reopens|]. split; [|done].
    apply (index_ok_none (e_view e')); [apply Hok'|]. change (contents _ _) with (e_contents e').
    rewrite Ec. apply lookup_delete_eq.
  - destruct Hc as (_ & [Hr|Hr]); [left|right]; by apply recoverable_reopens.
Qed.

(** C26: a checkpoint may stop anywhere.  Whatever call of it fails (the dump,
    the rename, closing, truncating or reopening the log), a restart finds the
    map the index had; if it reports success the log is open and empty. *)
Theorem Checkpoint_survives_restart ix fs s ix' fs' :
  paths_ok (opts_ ix) -> key_size (segment_config (opts_ ix)) = Z.of_nat (key_sizeof (K := K)) ->
  durable ix fs -> Checkpoint ix fs = (s, ix', fs') -> file_size (wal_path (opts_ ix)) fs' < 2 ^ 63 ->
  reopens_with (opts_ ix) fs' (map_ ix) /\ map_ ix' = map_ ix /\
  (s = kOk -> durable ix' fs' /\ WalBytes ix' = 0).
Proof.
  intros Hp Hk Hd E Hsz. pose proof (Checkpoint_frame _ _ _ _ _ E) as (Em & _).
  apply Checkpoint_spec in E as (Hr & _ & Hok & _); [|done|done].
  split; [by apply recoverable_reopens|]. done.
Qed.

(** C25: [Open] on the files of an index (a snapshot or none, a log of complete
    records with a torn or corrupt tail, or none) terminates, returns [kOk],
    rebuilds exactly the map of the snapshot with the records applied in order,
    and continues the log after the last complete record. *)
Theorem Index_Open_recovers (o : Options) (fs : FS) (base : gmap K Z) (rs : list (WalRecord K)) :
  paths_ok o -> key_size (segment_config o) = Z.of_nat (key_sizeof (K := K)) ->
  snapshot_holds o fs base -> log_holds o fs rs -> no_eio (fs_script fs) ->
  file_size (wal_path o) fs < 2 ^ 63 ->
  exists ix fs', Index_Open (Index_new o) fs = Some (kOk, ix, fs') /\
    map_ ix = foldl (fun m r => ApplyRecord r m) base rs /\ opened_ ix = true /\
    WalBytes ix = file_size (wal_path o) fs' /\ durable ix fs'.
Proof.
  intros Hp Hk Hs Hl Hn Hsz.
  destruct (Index_Open_spec o fs (replay_all base rs)) as (ix & fs' & E & _ & Em & Ho & Hb & Hd & _); try done.
  { by exists base, rs. }
  exists ix, fs'. done.
Qed.

(** a move of a live slot keeps the index and its log in step: when the
    callback of compaction is told that the slot of a key moved, and the log
    neither fails nor reaches the checkpoint threshold, the map has the new
    location and a restart finds it. *)
Theorem slot_moved_durable ix fs (k : K) a i b j ix' fs' :
  paths_ok (opts_ ix) -> durable ix fs -> no_eio (fs_script fs) -> key_valid k ->
  log_size ix + Z.of_nat (kEncodedSize K) < 2 ^ 64 -> wal_checkpoint_bytes (opts_ ix) = 0 ->
  seg_slot_ok a i -> seg_slot_ok b j -> map_ ix !! k = Some (EncodeSegmentSlot a i) ->
  slot_moved (key_raw k) a i b j (ix, fs) = (ix', fs') ->
  durable ix' fs' /\ map_ ix' = <[k := EncodeSegmentSlot b j]> (map_ ix).
Proof.
  intros Hp Hd Hn Hk Hroom Hcp Ha Hb Hm E. unfold slot_moved in E.
  rewrite take_ge, key_of_raw_raw in E by (done || rewrite key_raw_length; lia).
  destruct Hd as (base & rs & dur & w & [Hw Hl Hs] & Hr). unfold log_size in Hroom. rewrite Hw in Hroom.
  set (r := mkRec kUpdate k (EncodeSegmentSlot b j) (EncodeSegmentSlot a i)).
  pose proof (EncodeSegmentSlot_range a i Ha). pose proof (EncodeSegmentSlot_range b j Hb).
  assert (rec_ok r) as Hrok by (split; [done|]; split; [done|]; unfold in_u; cbn; lia).
  unfold AppendWal in E. rewrite Hw in E. fold r in E.
  destruct (AppendRecord r w fs) as [[s1 w1] fs1] eqn:Ea.
  apply (AppendRecord_spec _ _ _ _ _ _ _ _ _ Hl Hrok) in Ea as (Hf1 & Hn1 & Hcase).
  2: { rewrite encode_all_app, length_app, encode_all_single, length_Encode.
       pose proof (log_bytes _ _ _ _ _ Hl). lia. }
  destruct (Hn1 Hn) as [-> Hn1']. destruct Hcase as [[_ Hl1]|[[? _]|[? _]]]; [|done|done].
  cbn [status_is_ok negb opts_ set_wal_bytes set_wal] in E. rewrite Hcp in E. cbn [Z.gtb Z.compare andb] in E.
  unfold RemapIfEquals in E. cbn [map_ set_wal_bytes set_wal] in E. rewrite Hm, Z.eqb_refl in E.
  injection E as <- <-. split; [|done].
  exists base, (rs ++ [r]), (length (rs ++ [r])), w1. split; [|by rewrite replay_all_snoc, Hr].
  split; [done|done|]. cbn. apply (snapshot_holds_frame _ fs); [|done]. intros _. apply Hf1.
  apply not_eq_sym, Hp.
Qed.

End restart.
