(* ===== verification/IndexExamples.v ===== *)
(** * Concrete runs of the index

    A concrete snapshot format that keeps the contract of [Phmap], a store of
    two small file segments, and runs on them: the witnesses of the theorems
    on the index, and runs in which the code loses data, brings deleted data
    back or reads another key's value. *)

From S2P Require Import Prelude Common Sys Key Offset Wal SegmentBase SegmentOps SegmentFile.
From S2P Require Import SegmentManager ManagerState ManagerTheorems Index IndexData IndexCompaction IndexRecovery IndexTheorems.

(** ** A snapshot format *)

(** The bits of a number, one per byte. *)
Fixpoint pos_bytes (p : positive) : list Z :=
  match p with
  | xH => [2]
  | xO p => 0 :: pos_bytes p
  | xI p => 1 :: pos_bytes p
  end.

Fixpoint bytes_pos (l : list Z) : option positive :=
  match l with
  | [] => None
  | b :: l =>
      if b =? 2 then Some xH
      else p ← bytes_pos l; if b =? 0 then Some (xO p) else if b =? 1 then Some (xI p) else None
  end.

Lemma bytes_pos_bytes p : bytes_pos (pos_bytes p) = Some p.
Proof. induction p as [p IH|p IH|]; cbn; rewrite ?IH; done. Qed.

Lemma pos_bytes_nonempty p : pos_bytes p <> [].
Proof. by destruct p. Qed.

Section format.
Context {K : Type} `{!KeyT K}.

Definition bits_dump (m : gmap K Z) (path : string) (fs : FS) : bool * FS :=
  let '(ok, fs) := sys_open path true true fs in
  if negb ok then (false, fs) else
  let '(s, fs) := fs_pwrite path (pos_bytes (encode m)) 0 fs in
  (status_is_ok s, fs).

Definition bits_load (path : string) (fs : FS) : option (gmap K Z) * FS :=
  let '(ok, fs) := sys_open path false false fs in
  if negb ok then (None, fs) else
  (f ← fs_files fs !! path; p ← bytes_pos (f_data f); decode p, fs).

#[export] Instance bits_phmap : Phmap K := {| phmap_dump := bits_dump; phmap_load := bits_load |}.

#[export] Instance bits_phmap_laws : PhmapLaws K.
Proof.
  refine {| phmap_image := fun d m => (p ← bytes_pos d; decode p) = Some m |}.
  - intros m p fs ok fs' E. cbn in E. unfold bits_dump in E.
    destruct (sys_open p true true fs) as [b fs1] eqn:Eo.
    assert (no_eio (fs_script fs) -> b = true /\ no_eio (fs_script fs1)) as Hn1.
    { intros Hn. destruct (sys_open_no_eio _ _ _ _ _ _ Hn Eo) as [? Hb]. split; [|done]. apply Hb. by left. }
    assert (forall q, q <> p -> fs_files fs1 !! q = fs_files fs !! q) as Hf1.
    { intros q Hq. eapply sys_open_other; [by apply not_eq_sym|done]. }
    destruct b; cbn [negb] in E.
    2: { injection E as <- <-. split; [done|]. split; [done|]. intros Hn. by destruct (Hn1 Hn). }
    apply sys_open_trunc in Eo as [y Hy]. destruct (fs_pwrite _ _ _ fs1) as [s fs2] eqn:Ew.
    injection E as <- <-. apply (fs_pwrite_spec _ _ _ _ _ _ _ Hy) in Ew as (k & Hk & Ef & Hs & Hn2).
    split; [|split].
    + intros q Hq. rewrite Ef, lookup_insert_ne by (by apply not_eq_sym). by apply Hf1.
    + intros Hok. destruct Hs as [[-> ->]|[-> _]]; [|done]. eexists.
      rewrite Ef, lookup_insert_eq. split; [done|]. cbn [f_data]. rewrite take_ge by done.
      rewrite pwritten_nonempty by apply pos_bytes_nonempty. unfold splice. cbn.
      rewrite drop_nil, app_nil_r, bytes_pos_bytes. cbn. apply decode_encode.
    + intros Hn. destruct (Hn1 Hn) as [_ Hn']. by destruct (Hn2 Hn') as [-> ?].
  - intros p f m fs o fs' Hf Hi E. cbn in E. unfold bits_load in E.
    destruct (sys_open p false false fs) as [b fs1] eqn:Eo.
    pose proof (sys_open_existing _ _ _ _ _ (ex_intro _ f Hf) Eo) as Ef.
    destruct b; cbn [negb] in E; injection E as <- <-.
    + rewrite Ef, Hf. cbn [mbind option_bind]. rewrite Hi. split; [done|]. split; [by right|].
      intros Hn. split; [done|]. eapply sys_open_no_eio; [done|exact Eo].
    + split; [done|]. split; [by left|]. intros Hn.
      destruct (sys_open_no_eio _ _ _ _ _ _ Hn Eo) as [_ Hb]. discriminate Hb. right. by rewrite Hf.
Defined.

End format.

(** ** A small store *)

(** Two segments of three slots with 8-byte keys and 1-byte values; every full
    segment needs compaction. *)
Definition ex_config : SegmentConfig := mkConfig true 8 1 32 f32_zero 4.

Definition ex_opts (checkpoint_bytes : Z) : Options :=
  mkOpts true "wal" ex_config checkpoint_bytes "d" "ns".

Definition ex_open (id : Z) (p : string) (fs : FS) : SegmentFile * FS :=
  let '(_, s, fs) := SegmentFile_Open (SegmentFile_new id ex_config p) fs in (s, fs).

(** The segments, opened and registered. *)
Definition ex_store (fs : FS) : SegmentManager string * FS :=
  let '(s1, fs) := ex_open 1 "a" fs in
  let '(s2, fs) := ex_open 2 "b" fs in
  ((AddSegment (Some s2) (AddSegment (Some s1) SegmentManager_new).2).2, fs).

Definition Ex : Type := Env Key64 string FS.

(** A process start on the files of the index and of the segments. *)
Definition ex_start (o : Options) (fs segs : FS) : Status * Ex :=
  let '(m, w) := ex_store segs in
  match Index_Open (Index_new o) fs with
  | Some (s, ix, fs) => (s, mkEnv ix fs m w)
  | None => (kIOError, mkEnv (Index_new o) fs m w)
  end.

Definition ex_fs0 : FS := mkFS ∅ [].
Definition ex_env (o : Options) : Ex := (ex_start o ex_fs0 ex_fs0).2.

(** The process stops and starts again: files stay, memory is lost. *)
Definition ex_restart (e : Ex) : Status * Ex :=
  ex_start (e_opts e) (set_script [] (e_fs e)) (set_script [] (e_w e)).

(** The state after a run, and the answers. *)
Definition after (os : list (ix_op Key64)) (e : Ex) : Ex :=
  match ix_run plain_iter os e with Ret (_, e') => e' | UB => e end.
Definition answers (os : list (ix_op Key64)) (e : Ex) : list ix_result :=
  match ix_run plain_iter os e with Ret (rs, _) => rs | UB => [] end.

Lemma run_after os e : defined (ix_run plain_iter os e) = true -> ix_run plain_iter os e = Ret (answers os e, after os e).
Proof. unfold answers, after. by destruct (ix_run plain_iter os e) as [[rs e']|]. Qed.

Lemma surjective_pairing_3 {A B C} (x : A * B * C) : x = (x.1.1, x.1.2, x.2).
Proof. by destruct x as [[? ?] ?]. Qed.

Lemma step_after o e r : answers [o] e = [r] -> ix_step plain_iter o e = Ret (r, after [o] e).
Proof. unfold answers, after. cbn [ix_run]. destruct (ix_step plain_iter o e) as [[r' e']|]; [|done]. by intros [= ->]. Qed.

(** Failures to come, of the index's files and of the segments'. *)
Definition fails (ix_script seg_script : script) (e : Ex) : Ex :=
  mkEnv (e_ix e) (set_script ix_script (e_fs e)) (e_mgr e) (set_script seg_script (e_w e)).

(** ** The store satisfies the hypotheses of the theorems *)

Lemma ex_open_ok id p fs :
  fs_files fs !! p = None -> no_eio (fs_script fs) ->
  let r := ex_open id p fs in
  seg_ok r.1 r.2 /\ config_ (seg_base r.1) = ex_config /\ seg_handle r.1 = p /\ GetSegmentId r.1 = id /\
  (forall p', p' <> p -> file_data p' r.2 = file_data p' fs).
Proof.
  intros Hp Hn. unfold ex_open. destruct (SegmentFile_Open _ fs) as [[st s] fs'] eqn:E.
  apply SegmentFile_Open_new in E as (_ & Hok & _ & _ & Hn' & Eb & Eh & Hf);
    [|apply (bool_decide_unpack _); vm_compute; exact I|done|done].
  cbn. unfold GetSegmentId. rewrite Eb. done.
Qed.

Definition ex_s1 : SegmentFile := (ex_open 1 "a" ex_fs0).1.
Definition ex_fs1 : FS := (ex_open 1 "a" ex_fs0).2.
Definition ex_s2 : SegmentFile := (ex_open 2 "b" ex_fs1).1.
Definition ex_fs2 : FS := (ex_open 2 "b" ex_fs1).2.
Definition ex_mgr : SegmentManager string := (ex_store ex_fs0).1.

Lemma ex_mgr_segments : segments_ ex_mgr = <[2 := ex_s2]> (<[1 := ex_s1]> ∅).
Proof. vm_compute. reflexivity. Qed.

Lemma add_part (o : option SegmentFile) m : mgr_part m -> mgr_part (AddSegment o m).2.
Proof. intros Hp. destruct (AddSegment o m) as [s m'] eqn:E. by eapply AddSegment_part. Qed.

Lemma ex_store_ok : store_ok ex_config ex_mgr ex_fs2.
Proof.
  destruct (ex_open_ok 1 "a" ex_fs0 ltac:(vm_compute; reflexivity) ltac:(constructor)) as (Hok1 & Hc1 & Hh1 & _ & _).
  destruct (ex_open_ok 2 "b" ex_fs1 ltac:(vm_compute; reflexivity)
    ltac:(apply (bool_decide_unpack _); vm_compute; exact I)) as (Hok2 & Hc2 & Hh2 & _ & Hf2).
  fold ex_s1 ex_fs1 in Hok1, Hc1, Hh1. fold ex_s2 ex_fs2 in Hok2, Hc2, Hh2, Hf2.
  assert (seg_ok ex_s1 ex_fs2) as Hok1'.
  { eapply seg_ok_frame; [|exact Hok1]. cbn. rewrite Hh1. by apply Hf2. }
  assert (forall id s, segments_ ex_mgr !! id = Some s -> (id = 1 /\ s = ex_s1) \/ (id = 2 /\ s = ex_s2)) as Hin.
  { intros id s. rewrite ex_mgr_segments. intros [[<- <-]|[_ [[<- <-]|[_ E]]%lookup_insert_Some]]%lookup_insert_Some; auto.
    by rewrite lookup_empty in E. }
  split.
  - assert (ex_mgr = (AddSegment (Some ex_s2) (AddSegment (Some ex_s1) SegmentManager_new).2).2) as ->
      by (vm_compute; reflexivity).
    apply add_part, add_part, SegmentManager_new_part.
  - split.
    + intros id s [[-> ->]|[-> ->]]%Hin; [exact (conj Hok1' Hc1)|exact (conj Hok2 Hc2)].
    + assert (seg_handle ex_s1 <> seg_handle ex_s2) as Hne by (rewrite Hh1, Hh2; discriminate).
      intros i j s t [[-> ->]|[-> ->]]%Hin [[-> ->]|[-> ->]]%Hin Hij;
        [by destruct Hij|exact Hne|exact (not_eq_sym Hne)|by destruct Hij].
  - intros id s [[-> _]|[-> _]]%Hin; lia.
  - vm_compute. discriminate.
Qed.

Lemma ex_env_ok n : env_ok ex_config (ex_env (ex_opts n)).
Proof.
  assert (e_mgr (ex_env (ex_opts n)) = ex_mgr /\ e_w (ex_env (ex_opts n)) = ex_fs2 /\
    map_ (e_ix (ex_env (ex_opts n))) = ∅ /\ e_opts (ex_env (ex_opts n)) = ex_opts n) as (Em & Ew & Ei & Eo)
    by (vm_compute; auto).
  split; rewrite ?Em, ?Ew, ?Ei, ?Eo; [exact ex_store_ok| |done|done|done].
  intros k enc Hk. by rewrite lookup_empty in Hk.
Qed.

Lemma ex_free n : all_free (e_mgr (ex_env (ex_opts n))).
Proof.
  change (e_mgr (ex_env (ex_opts n))) with ex_mgr. intros id seg _. rewrite ex_mgr_segments.
  intros [[<- <-]|[_ [[<- <-]|[_ E]]%lookup_insert_Some]]%lookup_insert_Some;
    [vm_compute; reflexivity..|by rewrite lookup_empty in E].
Qed.

Lemma ex_paths n : paths_ok (ex_opts n).
Proof. apply (bool_decide_unpack _). vm_compute. exact I. Qed.

Lemma ex_durable n : durable (e_ix (ex_env (ex_opts n))) (e_fs (ex_env (ex_opts n))).
Proof.
  destruct (Index_Open_spec (K := Key64) (ex_opts n) ex_fs0 ∅) as (ix & fs' & E & _ & _ & _ & _ & Hd & _);
    [apply ex_paths|done| |by constructor|done|].
  { by exists ∅, []. }
  assert (e_ix (ex_env (ex_opts n)) = ix /\ e_fs (ex_env (ex_opts n)) = fs') as [-> ->]; [|done].
  unfold ex_env, ex_start. destruct (ex_store ex_fs0). rewrite E. done.
Qed.

(** Arguments of the right sizes, as a test. *)
Definition ex_sized (o : ix_op Key64) : bool :=
  match o with
  | OpPut k v => (0 <=? k) && (k <? 2 ^ 64) && (length v =? 1)%nat
  | _ => true
  end.

Lemma ex_op_ok os : forallb ex_sized os = true -> Forall (ix_op_ok (K := Key64) ex_config) os.
Proof.
  intros Hs. apply Forall_forall. intros o Hin%list_elem_of_In. rewrite forallb_forall in Hs. specialize (Hs _ Hin).
  destruct o as [k v| | | | |]; try done. cbn in Hs. apply andb_prop in Hs as [[H1 H2]%andb_prop H3].
  apply Nat.eqb_eq in H3. split; [cbn; unfold in_u; lia|]. cbn. lia.
Qed.

(** ** Witnesses *)

Definition ex_ops : list (ix_op Key64) :=
  [OpPut 5 [7]; OpGet 5; OpPut 6 [8]; OpDelete 5; OpGet 5; OpCheckpoint; OpPut 9 [1]; OpPut 10 [2]; OpContains 6].
Definition ex_ops_compact : list (ix_op Key64) := ex_ops ++ [OpCompact; OpGet 6].

Lemma Index_refines_map_witness :
  let e := ex_env (ex_opts 0) in
  answers ex_ops_compact e =
    [RStatus kOk; RValue kOk (Some [7]); RStatus kOk; RStatus kOk; RValue kNotFound None; RStatus kOk;
     RStatus kOk; RStatus kOk; RBool true; RStatus kOk; RValue kOk (Some [8])] /\
  kv_run ex_ops_compact (answers ex_ops_compact e) (e_contents e) (e_contents (after ex_ops_compact e)).
Proof.
  cbv zeta. split; [vm_compute; reflexivity|].
  refine (proj1 (Index_refines_map plain_iter plain_iter_ok ex_config ex_ops_compact _ _ _ (ex_env_ok 0) _ _)).
  - apply ex_op_ok. vm_compute. reflexivity.
  - apply run_after. vm_compute. reflexivity.
Defined.

Lemma ex_key_ok (k : Z) : (0 <=? k) && (k <? 2 ^ 64) = true -> key_valid (K := Key64) k.
Proof. intros [? ?]%andb_prop. cbn. unfold in_u. lia. Qed.

(** [Put] as the run of one operation. *)
Lemma put_after (k : Key64) v (e : Ex) :
  SegmentBase.value_size (segment_config (e_opts e)) = 1 ->
  forall s, answers [OpPut k v] e = [RStatus s] ->
  Put plain_iter k (Some v) 1 e = Ret (s, after [OpPut k v] e).
Proof.
  intros Hv s. assert (ix_run plain_iter [OpPut k v] e =
    '(s, e') ← Put plain_iter k (Some v) 1 e; Ret ([RStatus s], e')) as E.
  { cbn [ix_run ix_step]. rewrite Hv. by destruct (Put plain_iter k (Some v) 1 e) as [[s' e']|]. }
  unfold answers, after. rewrite E. destruct (Put plain_iter k (Some v) 1 e) as [[s' e']|]; [|done].
  by intros [= ->].
Qed.

Lemma Put_contract_witness :
  let e := ex_env (ex_opts 0) in
  exists s e', Put (K := Key64) plain_iter 5 (Some [7]) 1 e = Ret (s, e') /\ env_ok ex_config e' /\ s = kOk.
Proof.
  cbv zeta. destruct (Put_contract (K := Key64) plain_iter plain_iter_ok ex_config 5 [7] (ex_env (ex_opts 0))
    (ex_env_ok 0) (ex_free 0)) as (s & e' & E & Hok & _).
  - apply ex_key_ok. reflexivity.
  - reflexivity.
  - exists s, e'. split; [exact E|]. split; [exact Hok|].
    assert (answers [OpPut 5 [7]] (ex_env (ex_opts 0)) = [RStatus kOk]) as Ha by (vm_compute; reflexivity).
    apply put_after in Ha; [|reflexivity]. change (SegmentBase.value_size ex_config) with 1 in E.
    rewrite E in Ha. congruence.
Defined.

Lemma Put_Get_Delete_witness :
  let e := ex_env (ex_opts 0) in let e1 := after [OpPut 5 [7]] e in
  exists e2, Get (K := Key64) 5 true 1 e1 = Ret (kOk, Some [7], e2).
Proof.
  cbv zeta. refine (proj1 (Put_Get_Delete (K := Key64) plain_iter plain_iter_ok ex_config 5 [7] (ex_env (ex_opts 0)) _
    (ex_env_ok 0) _ _ _ _)).
  - change (no_eio (fs_script (e_w (ex_env (ex_opts 0))))). apply (bool_decide_unpack _). vm_compute. exact I.
  - apply ex_key_ok. reflexivity.
  - reflexivity.
  - apply put_after; [reflexivity|]. vm_compute. reflexivity.
Defined.

(** A store with a full segment: one of its slots was deleted. *)
Definition ex_full_ops : list (ix_op Key64) :=
  [OpPut 1 [11]; OpPut 2 [12]; OpPut 3 [13]; OpDelete 2; OpPut 4 [14]].

Lemma after_ok os e : env_ok ex_config e -> Forall (ix_op_ok ex_config) os -> env_ok ex_config (after os e).
Proof.
  revert e. induction os as [|o os IH]; intros e Hok Hos; [exact Hok|].
  apply Forall_cons in Hos as [Ho Hos]. unfold after. cbn [ix_run].
  destruct (ix_step plain_iter o e) as [[r e1]|] eqn:E1; cbn [mbind Outcome_bind]; [|exact Hok].
  apply (ix_step_refines plain_iter plain_iter_ok ex_config) in E1 as [Hok1 _]; [|done|done].
  specialize (IH e1 Hok1 Hos). unfold after in IH.
  destruct (ix_run plain_iter os e1) as [[rs2 e2]|]; [exact IH|exact Hok].
Qed.

Lemma ex_full_ok n : env_ok ex_config (after ex_full_ops (ex_env (ex_opts n))).
Proof. apply after_ok; [apply ex_env_ok|]. apply ex_op_ok. reflexivity. Qed.

Lemma ex_full_free : all_free (e_mgr (after ex_full_ops (ex_env (ex_opts 0)))).
Proof.
  set (m := e_mgr _).
  assert (idle_set_ m = ∅) as E1 by (vm_compute; reflexivity).
  assert (appending_set_ m = {[1]}) as E2 by (vm_compute; reflexivity).
  assert ((GetFreeSlots <$> (seg_base <$> segments_ m !! 1)) = Some 2) as E3 by (vm_compute; reflexivity).
  intros id seg Hid Hl. rewrite E1, E2, elem_of_singleton, elem_of_empty in Hid. destruct Hid as [[]| ->].
  rewrite Hl in E3. cbn [fmap option_fmap option_map] in E3. injection E3 as E3. lia.
Qed.

(** Compaction moves the two remaining keys of segment 2 to segment 1. *)
Lemma compaction_keeps_index_witness :
  let e := after ex_full_ops (ex_env (ex_opts 0)) in
  exists s e', compact_index plain_iter e = Ret (s, e') /\ e_contents e' = e_contents e /\
    e_contents e !! 3 = Some [13] /\ map_ (e_ix e) !! 3 = Some (EncodeSegmentSlot 2 2) /\
    map_ (e_ix (after [OpCompact] e)) !! 3 = Some (EncodeSegmentSlot 1 2).
Proof.
  cbv zeta. destruct (compaction_keeps_index plain_iter plain_iter_ok ex_config _
    (ex_full_ok 0) ex_full_free) as (s & e' & E & _ & Ec).
  - reflexivity.
  - exists s, e'. split; [exact E|]. split; [exact Ec|]. split; [vm_compute; reflexivity|].
    split; vm_compute; reflexivity.
Defined.

Lemma ex_no_eio n : no_eio (fs_script (e_fs (ex_env (ex_opts n)))).
Proof. apply (bool_decide_unpack _). vm_compute. exact I. Qed.

(** A run with an automatic checkpoint after every second record. *)
Lemma run_survives_restart_witness :
  let e := after ex_ops (ex_env (ex_opts 64)) in
  reopens_with (ex_opts 64) (e_fs e) (map_ (e_ix e)) /\ size (map_ (e_ix e)) = 3%nat /\ WalBytes (e_ix e) = 0.
Proof.
  cbv zeta. split; [|split; vm_compute; reflexivity].
  refine (run_survives_restart plain_iter plain_iter_ok ex_config ex_ops (ex_env (ex_opts 64)) (answers ex_ops (ex_env (ex_opts 64))) _
    (ex_env_ok 64) _ _ (ex_paths 64) (ex_durable 64) (ex_no_eio 64) _ _).
  - apply ex_op_ok. reflexivity.
  - intros Hin. unfold ex_ops in Hin. rewrite !elem_of_cons, elem_of_nil in Hin. intuition discriminate.
  - vm_compute. reflexivity.
  - apply run_after. vm_compute. reflexivity.
Defined.

(** Failures to come change neither the store nor the files. *)
Lemma fails_durable sc1 sc2 (e : Ex) : durable (e_ix e) (e_fs e) -> durable (e_ix (fails sc1 sc2 e)) (e_fs (fails sc1 sc2 e)).
Proof.
  intros (base & rs & dur & w & [Hw [L1 L2 L3 L4 L5] Hs] & Hr).
  exists base, rs, dur, w. split; [|exact Hr].
  split; [exact Hw|split; [exact L1|exact L2|exact L3|exact L4|exact L5]|exact Hs].
Qed.

Lemma fails_ok sc1 sc2 n : env_ok ex_config (fails sc1 sc2 (ex_env (ex_opts n))).
Proof.
  destruct (ex_env_ok n) as [[H1 [H2 H3] H4 H5] H6 H7 H8 H9].
  split; [split; [exact H1|split; [|exact H3]|exact H4|exact H5]|exact H6|exact H7|exact H8|exact H9].
  intros id s Hs. destruct (H2 id s Hs) as [Hok Hc]. split; [|exact Hc].
  eapply seg_ok_frame; [|exact Hok]. reflexivity.
Qed.

(** The automatic checkpoint of this [Put] fails when it reopens the log: the
    log stays, and the restart replays it over the new snapshot. *)
Lemma Put_survives_restart_witness :
  let e := fails [Short 40; Short 0; Short 0; Short 1000; Short 0; Short 0; Eio] [] (ex_env (ex_opts 32)) in
  let e' := after [OpPut 5 [7]] e in
  answers [OpPut 5 [7]] e = [RStatus kOk] /\ wal_ (e_ix e') = None /\
  reopens_with (ex_opts 32) (e_fs e') (map_ (e_ix e')).
Proof.
  cbv zeta. set (e := fails _ _ _). split; [vm_compute; reflexivity|]. split; [vm_compute; reflexivity|].
  pose proof (Put_survives_restart (K := Key64) plain_iter plain_iter_ok ex_config 5 [7] e kOk (after [OpPut 5 [7]] e)
    (fails_ok _ _ 32) (ex_paths 32) (fails_durable _ _ _ (ex_durable 32))) as Hp.
  rewrite decide_True in Hp by reflexivity. apply Hp.
  - vm_compute. reflexivity.
  - apply ex_key_ok. reflexivity.
  - reflexivity.
  - apply put_after; [reflexivity|]. vm_compute. reflexivity.
  - vm_compute. reflexivity.
Defined.

(** One key. *)
Definition ex_one : Ex := after [OpPut 5 [7]] (ex_env (ex_opts 0)).

Lemma ex_one_durable : durable (e_ix ex_one) (e_fs ex_one).
Proof.
  assert (answers [OpPut 5 [7]] (ex_env (ex_opts 0)) = [RStatus kOk]) as E%step_after by (vm_compute; reflexivity).
  refine (proj1 (ix_step_durable plain_iter plain_iter_ok ex_config _ _ _ _ (ex_env_ok 0) _ _ (ex_paths 0)
    (ex_durable 0) (ex_no_eio 0) _ E)).
  - apply (proj1 (Forall_singleton _ _)), ex_op_ok. reflexivity.
  - discriminate.
  - vm_compute. reflexivity.
Qed.

Lemma ex_one_ok : env_ok ex_config ex_one.
Proof. apply after_ok; [apply ex_env_ok|]. apply ex_op_ok. reflexivity. Qed.

Lemma Delete_survives_restart_witness :
  answers [OpDelete 5] ex_one = [RStatus kOk] /\
  exists s e', Index_Delete 5 ex_one = Ret (s, e') /\
    (file_size (wal_path (ex_opts 0)) (e_fs e') < 2 ^ 63 ->
     if decide (s = kOk)
     then reopens_with (ex_opts 0) (e_fs e') (map_ (e_ix e')) /\ map_ (e_ix e') !! 5 = None /\
          e_contents e' = delete 5 (e_contents ex_one)
     else reopens_with (ex_opts 0) (e_fs e') (map_ (e_ix ex_one)) \/
          reopens_with (ex_opts 0) (e_fs e') (delete 5 (map_ (e_ix ex_one)))).
Proof.
  split; [vm_compute; reflexivity|].
  pose proof (Delete_survives_restart (K := Key64) ex_config 5 ex_one ex_one_ok (ex_paths 0) ex_one_durable) as Hp.
  apply Hp. vm_compute. reflexivity.
Defined.

(** The checkpoint fails after the rename, when it reopens the log. *)
Definition ex_ckpt_fail : Ex := fails [Short 0; Short 1000; Short 0; Short 0; Eio] [] (ex_env (ex_opts 0)).

Lemma Checkpoint_survives_restart_witness :
  let r := Checkpoint (e_ix ex_ckpt_fail) (e_fs ex_ckpt_fail) in
  r.1.1 = kIOError /\ reopens_with (ex_opts 0) r.2 (map_ (e_ix ex_ckpt_fail)).
Proof.
  cbv zeta. split; [vm_compute; reflexivity|].
  refine (proj1 (Checkpoint_survives_restart (K := Key64) (e_ix ex_ckpt_fail) (e_fs ex_ckpt_fail) _ _ _ (ex_paths 0) _
    (fails_durable _ _ _ (ex_durable 0)) (surjective_pairing_3 _) _)).
  - reflexivity.
  - vm_compute. reflexivity.
Defined.

(** The log of two calls and half a record, no snapshot. *)
Definition ex_log : list (WalRecord Key64) := [mkRec kInsert 5 32 0; mkRec kDelete 5 0 32].
Definition ex_tail : list Z := take 10 (Encode (mkRec (K := Key64) kInsert 5 32 0)).
Definition ex_crashed : FS := mkFS {["wal" := mkFile (encode_all ex_log ++ ex_tail) []]} [Short 3; Eintr].

Lemma Index_Open_recovers_witness :
  exists ix fs', Index_Open (Index_new (K := Key64) (ex_opts 0)) ex_crashed = Some (kOk, ix, fs') /\
    map_ (K := Key64) ix = ∅ /\ WalBytes (K := Key64) ix = 64.
Proof.
  destruct (Index_Open_recovers (K := Key64) (ex_opts 0) ex_crashed ∅ ex_log) as (ix & fs' & E & Em & _ & Hb & _).
  - apply ex_paths.
  - reflexivity.
  - vm_compute. reflexivity.
  - change (exists tail, encode_all ex_log ++ ex_tail = encode_all ex_log ++ tail /\ Forall rec_ok ex_log /\
      wal_records (K := Key64) tail = []).
    exists ex_tail. split; [exact eq_refl|]. split; [|vm_compute; reflexivity].
    repeat constructor; vm_compute; (reflexivity || discriminate).
  - apply (bool_decide_unpack _). vm_compute. exact I.
  - vm_compute. reflexivity.
  - exists ix, fs'. split; [exact E|]. split; [rewrite Em; vm_compute; reflexivity|].
    assert (match Index_Open (K := Key64) (Index_new (ex_opts 0)) ex_crashed with
            | Some (_, ix, _) => WalBytes ix | None => 0 end = 64) as Ew by (vm_compute; reflexivity).
    rewrite E in Ew. exact Ew.
Defined.

(** Compaction moves the slot of the key to slot 1 of segment 1. *)
Lemma slot_moved_durable_witness :
  let '(ix', fs') := slot_moved (key_raw (K := Key64) 5) 2 0 1 1 (e_ix ex_one, e_fs ex_one) in
  durable ix' fs' /\ map_ ix' = <[5 := EncodeSegmentSlot 1 1]> (map_ (e_ix ex_one)).
Proof.
  destruct (slot_moved _ _ _ _ _ _) as [ix' fs'] eqn:E.
  refine (slot_moved_durable (K := Key64) (e_ix ex_one) (e_fs ex_one) 5 2 0 1 1 ix' fs' (ex_paths 0) ex_one_durable
    _ _ _ _ _ _ _ E).
  - apply (bool_decide_unpack _). vm_compute. exact I.
  - apply ex_key_ok. reflexivity.
  - vm_compute. reflexivity.
  - reflexivity.
  - apply (bool_decide_unpack _). vm_compute. exact I.
  - apply (bool_decide_unpack _). vm_compute. exact I.
  - vm_compute. reflexivity.
Defined.

(** ** Runs in which data is lost, comes back or is mixed up *)

(** A failed [Put] can come back as another key's value.  The record of the
    log is written and its fsync fails; [Put] reports the error, takes the
    location out of the map and frees the slot, but the record stays in the
    log: after a restart the key is there, and as soon as the slot is used
    again it reads the value of the other key, because [Get] does not compare
    the stored key. *)
Example failed_Put_comes_back :
  let e := fails [Short 31; Eio] [] (ex_env (ex_opts 0)) in
  let r := ex_restart (after [OpPut 5 [7]] e) in
  answers [OpPut 5 [7]] e = [RStatus kIOError] /\ r.1 = kOk /\
  answers [OpContains 5; OpPut 6 [8]; OpGet 5] r.2 = [RBool true; RStatus kOk; RValue kOk (Some [8])].
Proof. vm_compute. auto. Qed.

(** A deleted key can come back.  [Delete] ignores a failure to free the
    slot, so the slot stays visible; when compaction moves it, the callback
    logs an update of the key before it looks whether the map still refers to
    the slot, and the replay of that record after a restart puts the key
    back. *)
Example deleted_key_comes_back :
  let e := fails [] [Eio] (after [OpPut 1 [11]] (ex_env (ex_opts 0))) in
  let later := [OpGet 1; OpPut 2 [12]; OpPut 3 [13]; OpDelete 2; OpPut 4 [14]; OpCompact; OpGet 1] in
  let e' := after [OpDelete 1] e in
  answers [OpDelete 1] e = [RStatus kOk] /\
  answers later e' = [RValue kNotFound None; RStatus kOk; RStatus kOk; RStatus kOk; RStatus kOk; RStatus kOk;
    RValue kNotFound None] /\
  answers [OpGet 1] (ex_restart (after later e')).2 = [RValue kOk (Some [11])].
Proof. vm_compute. auto. Qed.

(** Compaction can lose a key without any failure.  The callback's append
    to the log passes the threshold and takes a checkpoint: the snapshot still
    has the old location and the record of the move is dropped with the old
    log; the map is changed only afterwards.  All calls succeed and the key is
    readable, but after a restart its entry points to the freed slot. *)
Example compaction_checkpoint_loses_key :
  let e := ex_env (ex_opts 192) in
  let ops := [OpPut 1 [11]; OpPut 2 [12]; OpPut 3 [13]; OpDelete 2; OpPut 4 [14]; OpCompact; OpGet 1] in
  answers ops e = [RStatus kOk; RStatus kOk; RStatus kOk; RStatus kOk; RStatus kOk; RStatus kOk;
    RValue kOk (Some [11])] /\
  answers [OpGet 1; OpGet 3; OpGet 4] (ex_restart (after ops e)).2 =
    [RValue kNotFound None; RValue kOk (Some [13]); RValue kOk (Some [14])].
Proof. vm_compute. auto. Qed.

(** The same with a third segment. *)
Definition ex3_start (o : Options) (fs segs : FS) : Status * Ex :=
  let '(m, w) := ex_store segs in
  let '(s3, w) := ex_open 3 "c" w in
  match Index_Open (Index_new o) fs with
  | Some (s, ix, fs) => (s, mkEnv ix fs (AddSegment (Some s3) m).2 w)
  | None => (kIOError, mkEnv (Index_new o) fs m w)
  end.
Definition ex3_env (o : Options) : Ex := (ex3_start o ex_fs0 ex_fs0).2.
Definition ex3_restart (e : Ex) : Status * Ex :=
  ex3_start (e_opts e) (set_script [] (e_fs e)) (set_script [] (e_w e)).

(** A compaction that stops half-way can bring an old value back without any
    failure.  The target has room for one of the two values: [Compact] copies
    the first, its callback changes the map, and the second insertion answers
    kFull.  The source keeps both slots, the copied one too.  The key is
    overwritten; the next round copies the source's old value once more, and
    its callback logs an update of the key although the map refers to
    another slot.  The key reads its new value until the process stops; the
    replay of the log then makes the old value the key's. *)
Example retried_compaction_brings_back_old_value :
  let e := ex3_env (ex_opts 0) in
  let ops := [OpPut 1 [11]; OpPut 2 [12]; OpPut 3 [13]; OpDelete 3; OpPut 4 [14]; OpPut 5 [15]; OpDelete 4;
    OpCompact; OpPut 1 [99]; OpCompact; OpGet 1; OpGet 2] in
  answers ops e = [RStatus kOk; RStatus kOk; RStatus kOk; RStatus kOk; RStatus kOk; RStatus kOk; RStatus kOk;
    RStatus kFull; RStatus kOk; RStatus kOk; RValue kOk (Some [99]); RValue kOk (Some [12])] /\
  answers [OpGet 1; OpGet 2] (ex3_restart (after ops e)).2 = [RValue kOk (Some [11]); RValue kOk (Some [12])].
Proof. vm_compute. auto. Qed.

(** After a checkpoint that could not reopen the log the index has no log:
    the next [Put] is acknowledged but not recorded, and a restart loses it. *)
Example Put_after_failed_rotation_is_lost :
  let e := fails [Short 0; Short 1000; Short 0; Short 0; Eio] [] (after [OpPut 1 [11]] (ex_env (ex_opts 0))) in
  answers [OpCheckpoint; OpPut 2 [12]; OpGet 2] e = [RStatus kIOError; RStatus kOk; RValue kOk (Some [12])] /\
  answers [OpGet 1; OpGet 2] (ex_restart (after [OpCheckpoint; OpPut 2 [12]] e)).2 =
    [RValue kOk (Some [11]); RValue kNotFound None].
Proof. vm_compute. auto. Qed.

(** The process starts with a failing call, and the index is destroyed. *)
Definition ex_failed_start (sc : script) (e : Ex) : option Status * Ex :=
  match Index_Open (Index_new (e_opts e)) (set_script sc (e_fs e)) with
  | Some (s, ix, fs) => (Some s, mkEnv ix (Index_destroy ix fs) (e_mgr e) (e_w e))
  | None => (None, e)
  end.

(** A failed [Open] can destroy the snapshot.  [Open] fails to read the
    snapshot once; the destructor still takes a checkpoint and writes the empty
    map over the snapshot, so that every key of the index is lost. *)
Example failed_Open_erases_snapshot :
  let e := after [OpPut 1 [11]; OpCheckpoint] (ex_env (ex_opts 0)) in
  answers [OpGet 1] (ex_restart e).2 = [RValue kOk (Some [11])] /\
  (ex_failed_start [Short 0; Eio] e).1 = Some kCorruption /\
  answers [OpGet 1] (ex_restart (ex_failed_start [Short 0; Eio] e).2).2 = [RValue kNotFound None].
Proof. vm_compute. auto. Qed.
