(* ===== verification/Lfuda.v ===== *)
(** * The LFU cache with dynamic aging

    [core/cache/lfuda_cache.h] and [core/cache/allow.h].  The elements live in
    the nodes of a [std::list] of fixed length: the nodes up to
    [m_open_list_end] are in use, in the order in which they age, and the rest
    are free.  A hash map takes a key to its node and a multimap orders the
    nodes by their use counts.  A node is a number, an iterator is a node or
    [None] for [end()], and [splice] moves a node within the list.

    The clock is an argument: each public operation reads it once and passes
    [now] (nanoseconds) on.  The eviction callback is an argument that changes
    a state of its own. *)

From S2P Require Import Prelude Common SegmentBase.
From Stdlib Require Import SpecFloat Sorted.

(** ** [allow] *)

Inductive allow := allow_insert | allow_update | insert_or_update.

Definition allow_bits (a : allow) : Z :=
  match a with allow_insert => 1 | allow_update => 2 | insert_or_update => Z.lor 1 2 end.

Definition insert_allowed (a : allow) : bool := negb (Z.land (allow_bits a) (allow_bits allow_insert) =? 0).
Definition update_allowed (a : allow) : bool := negb (Z.land (allow_bits a) (allow_bits allow_update) =? 0).

(** ** The multimap

    [phmap::btree_multimap]: where an entry goes among entries with the same
    use count is up to the library. *)

Class Btree := bt_emplace : Z -> nat -> list (Z * nat) -> list (Z * nat).

Definition lfu_le (x y : Z * nat) : Prop := fst x <= fst y.

Class BtreeLaws `{Btree} := {
  bt_emplace_perm c n l : bt_emplace c n l ≡ₚ (c, n) :: l;
  bt_emplace_sorted c n l : StronglySorted lfu_le l -> StronglySorted lfu_le (bt_emplace c n l);
}.

(** ** Iterators of the list *)

Fixpoint insert_before (pos : option nat) (it : nat) (l : list nat) : list nat :=
  match l with
  | [] => [it]
  | x :: l => if bool_decide (pos = Some x) then it :: x :: l else x :: insert_before pos it l
  end.

(** [list.splice(pos, list, it)]. *)
Definition list_splice (pos : option nat) (it : nat) (l : list nat) : list nat :=
  if bool_decide (pos = Some it) then l else insert_before pos it (filter (fun x => x <> it) l).

(** [std::prev], [None] before the first node. *)
Fixpoint list_prev (pos : option nat) (l : list nat) : option nat :=
  match l with
  | [] => None
  | x :: l =>
      if bool_decide (pos = Some x) then None
      else if bool_decide (pos = head l) then Some x else list_prev pos l
  end.

(** [++it]. *)
Fixpoint list_next (it : nat) (l : list nat) : option nat :=
  match l with
  | [] => None
  | x :: l => if bool_decide (x = it) then head l else list_next it l
  end.

(** ** Use counts *)

(** [(size_t)(f)]: truncation, undefined when the result does not fit. *)
Definition to_size_t (x : spec_float) : option Z :=
  match x with
  | S754_zero _ => Some 0
  | S754_finite s m e =>
      let z := Z.shiftl (Zpos m) e in
      if s then (if z =? 0 then Some 0 else None) else (if z <? 2 ^ 64 then Some z else None)
  | _ => None
  end.

(** [(size_t)(m_use_count * m_dynamic_age_ratio)]. *)
Definition age_count (ratio : spec_float) (use_count : Z) : option Z :=
  to_size_t (SFmul 24 128 (f32_of_Z use_count) ratio).

(** ** State *)

Record element (K V : Type) := mkElement {
  m_key : K;
  m_use_count : Z;
  m_dynamic_age : Z;
  m_value : V;
}.
Arguments mkElement {K V} _ _ _ _.
Arguments m_key {K V} _.
Arguments m_use_count {K V} _.
Arguments m_dynamic_age {K V} _.
Arguments m_value {K V} _.

#[export] Instance element_inhabited {K V} `{Inhabited K, Inhabited V} : Inhabited (element K V) :=
  populate (mkElement inhabitant 0 0 inhabitant).

(** [m_nodes] are the elements of the nodes of [m_dynamic_age_list]. *)
Record lfuda_cache (K V : Type) `{Countable K} := mkCache {
  m_used_size : nat;
  m_dynamic_age_tick : Z;
  m_dynamic_age_ratio : spec_float;
  m_keyed_elements : gmap K nat;
  m_lfu_list : list (Z * nat);
  m_dynamic_age_list : list nat;
  m_open_list_end : option nat;
  m_nodes : list (element K V);
}.
Arguments mkCache {K V _ _} _ _ _ _ _ _ _ _.
Arguments m_used_size {K V _ _} _.
Arguments m_dynamic_age_tick {K V _ _} _.
Arguments m_dynamic_age_ratio {K V _ _} _.
Arguments m_keyed_elements {K V _ _} _.
Arguments m_lfu_list {K V _ _} _.
Arguments m_dynamic_age_list {K V _ _} _.
Arguments m_open_list_end {K V _ _} _.
Arguments m_nodes {K V _ _} _.

Section cache.
Context {K V X : Type} `{Countable K} `{!Inhabited K, !Inhabited V} `{!Btree}.
Implicit Types (c : lfuda_cache K V) (e : element K V).

(** The eviction callback: it gets the value by reference. *)
Context (on_evict : option (K -> V -> X -> Outcome (V * X))).

Definition lfuda_new (capacity : nat) (dynamic_age_tick : Z) (dynamic_age_ratio : spec_float)
    : lfuda_cache K V :=
  mkCache 0 dynamic_age_tick dynamic_age_ratio ∅ [] (seq 0 capacity) (head (seq 0 capacity))
    (replicate capacity inhabitant).

Definition set_keyed m c : lfuda_cache K V :=
  mkCache (m_used_size c) (m_dynamic_age_tick c) (m_dynamic_age_ratio c) m (m_lfu_list c)
    (m_dynamic_age_list c) (m_open_list_end c) (m_nodes c).
Definition set_lfu l c : lfuda_cache K V :=
  mkCache (m_used_size c) (m_dynamic_age_tick c) (m_dynamic_age_ratio c) (m_keyed_elements c) l
    (m_dynamic_age_list c) (m_open_list_end c) (m_nodes c).
Definition set_age_list l c : lfuda_cache K V :=
  mkCache (m_used_size c) (m_dynamic_age_tick c) (m_dynamic_age_ratio c) (m_keyed_elements c) (m_lfu_list c)
    l (m_open_list_end c) (m_nodes c).
Definition set_open n it c : lfuda_cache K V :=
  mkCache n (m_dynamic_age_tick c) (m_dynamic_age_ratio c) (m_keyed_elements c) (m_lfu_list c)
    (m_dynamic_age_list c) it (m_nodes c).
(** [*it = e]. *)
Definition set_node (it : nat) e c : lfuda_cache K V :=
  mkCache (m_used_size c) (m_dynamic_age_tick c) (m_dynamic_age_ratio c) (m_keyed_elements c) (m_lfu_list c)
    (m_dynamic_age_list c) (m_open_list_end c) (<[it := e]> (m_nodes c)).

(** [*it]. *)
Definition deref (it : nat) c : Outcome (element K V) :=
  match m_nodes c !! it with Some e => Ret e | None => UB end.

Fixpoint erase_first (x : Z * nat) (l : list (Z * nat)) : list (Z * nat) :=
  match l with
  | [] => []
  | y :: l => if bool_decide (y = x) then l else y :: erase_first x l
  end.

Definition erase_lfu_entry (use_count : Z) (target : nat) c : lfuda_cache K V :=
  set_lfu (erase_first (use_count, target) (m_lfu_list c)) c.

Definition lfu_emplace (use_count : Z) (it : nat) c : lfuda_cache K V :=
  set_lfu (bt_emplace use_count it (m_lfu_list c)) c.

(** ** Operations *)

Definition do_access (age_it : nat) (now : Z) c : Outcome (lfuda_cache K V) :=
  e ← deref age_it c;
  let c := erase_lfu_entry (m_use_count e) age_it c in
  let e := mkElement (m_key e) (u64 (m_use_count e + 1)) (m_dynamic_age e) (m_value e) in
  let c := lfu_emplace (m_use_count e) age_it c in
  match list_prev (m_open_list_end c) (m_dynamic_age_list c) with
  | None => UB
  | Some last_aged_item =>
      let c := if negb (bool_decide (age_it = last_aged_item))
               then set_age_list (list_splice (Some last_aged_item) age_it (m_dynamic_age_list c)) c
               else c in
      Ret (set_node age_it (mkElement (m_key e) (m_use_count e) now (m_value e)) c)
  end.

Definition do_update (pos : nat) (value : V) (now : Z) c : Outcome (lfuda_cache K V) :=
  e ← deref pos c;
  do_access pos now (set_node pos (mkElement (m_key e) (m_use_count e) (m_dynamic_age e) value) c).

Definition do_erase (age_it : nat) c : Outcome (lfuda_cache K V) :=
  e ← deref age_it c;
  match list_prev (m_open_list_end c) (m_dynamic_age_list c) with
  | None => UB
  | Some last =>
      let c := if negb (bool_decide (age_it = last))
               then set_age_list (list_splice (m_open_list_end c) age_it (m_dynamic_age_list c)) c
               else c in
      match list_prev (m_open_list_end c) (m_dynamic_age_list c) with
      | None => UB
      | Some it =>
          let c := set_open (m_used_size c) (Some it) c in
          let c := set_keyed (delete (m_key e) (m_keyed_elements c)) c in
          let c := erase_lfu_entry (m_use_count e) age_it c in
          Ret (set_open (pred (m_used_size c)) (m_open_list_end c) c)
      end
  end.

(** The loop of [do_dynamic_age]; it has no result when the fuel is used up. *)
Fixpoint dynamic_age_loop (fuel : nat) (da_last : option nat) (now : Z) (aged : Z) c
    : Outcome (Z * lfuda_cache K V) :=
  match fuel with
  | O => UB
  | S fuel =>
      let da_start := head (m_dynamic_age_list c) in
      match da_start with
      | None => Ret (aged, c)
      | Some it =>
          if bool_decide (da_start = m_open_list_end c) then Ret (aged, c) else
          e ← deref it c;
          if negb (m_dynamic_age e + m_dynamic_age_tick c * 1000000 <? now) then Ret (aged, c) else
          let c := if negb (bool_decide (da_start = da_last))
                   then set_age_list (list_splice da_last it (m_dynamic_age_list c)) c else c in
          let c := erase_lfu_entry (m_use_count e) it c in
          match age_count (m_dynamic_age_ratio c) (m_use_count e) with
          | None => UB
          | Some n =>
              let c := set_node it (mkElement (m_key e) n now (m_value e)) c in
              dynamic_age_loop fuel (Some it) now (aged + 1) (lfu_emplace n it c)
          end
      end
  end.

(** Each round moves an element that is due behind one that is not: one round
    per node and one to stop. *)
Definition do_dynamic_age (now : Z) c : Outcome (Z * lfuda_cache K V) :=
  dynamic_age_loop (S (length (m_dynamic_age_list c))) (m_open_list_end c) now 0 c.

Definition do_prune (now : Z) c (x : X) : Outcome (lfuda_cache K V * X) :=
  if (m_used_size c =? 0)%nat then Ret (c, x) else
  '(_, c) ← do_dynamic_age now c;
  match m_lfu_list c with
  | [] => UB
  | (_, victim) :: _ =>
      '(c, x) ← match on_evict with
                | None => Ret (c, x)
                | Some f =>
                    e ← deref victim c;
                    '(v, x) ← f (m_key e) (m_value e) x;
                    Ret (set_node victim (mkElement (m_key e) (m_use_count e) (m_dynamic_age e) v) c, x)
                end;
      c ← do_erase victim c;
      Ret (c, x)
  end.

(** [do_insert] after the pruning: the first free node takes the element. *)
Definition fill_open (key : K) (value : V) (now : Z) c : Outcome (lfuda_cache K V) :=
  match m_open_list_end c with
  | None => UB
  | Some it =>
      let m := m_keyed_elements c in
      let c := set_keyed (if bool_decide (is_Some (m !! key)) then m else <[key := it]> m) c in
      let c := lfu_emplace 1 it c in
      let c := set_node it (mkElement key 1 now value) c in
      let c := set_open (m_used_size c) (list_next it (m_dynamic_age_list c)) c in
      Ret (set_open (S (m_used_size c)) (m_open_list_end c) c)
  end.

Definition do_insert (key : K) (value : V) (now : Z) c (x : X) : Outcome (lfuda_cache K V * X) :=
  '(c, x) ← (if (length (m_dynamic_age_list c) <=? m_used_size c)%nat then do_prune now c x else Ret (c, x));
  c ← fill_open key value now c;
  Ret (c, x).

Definition do_insert_update (key : K) (value : V) (now : Z) (a : allow) c (x : X)
    : Outcome (bool * lfuda_cache K V * X) :=
  match m_keyed_elements c !! key with
  | Some pos =>
      if update_allowed a then c ← do_update pos value now c; Ret (true, c, x) else Ret (false, c, x)
  | None =>
      if insert_allowed a then '(c, x) ← do_insert key value now c x; Ret (true, c, x) else Ret (false, c, x)
  end.

Definition do_find (key : K) (peek : bool) (now : Z) c : Outcome (option V * lfuda_cache K V) :=
  match m_keyed_elements c !! key with
  | Some age_it =>
      c ← (if negb peek then do_access age_it now c else Ret c);
      e ← deref age_it c;
      Ret (Some (m_value e), c)
  | None => Ret (None, c)
  end.

Definition do_find_with_use_count (key : K) (peek : bool) (now : Z) c
    : Outcome (option (V * Z) * lfuda_cache K V) :=
  match m_keyed_elements c !! key with
  | Some age_it =>
      c ← (if negb peek then do_access age_it now c else Ret c);
      e ← deref age_it c;
      Ret (Some (m_value e, m_use_count e), c)
  | None => Ret (None, c)
  end.

(** ** The public operations *)

Definition lfu_insert (key : K) (value : V) (a : allow) (now : Z) c (x : X)
    : Outcome (bool * lfuda_cache K V * X) := do_insert_update key value now a c x.

Fixpoint insert_range (key_value_range : list (K * V)) (a : allow) (now : Z) (inserted : Z) c (x : X)
    : Outcome (Z * lfuda_cache K V * X) :=
  match key_value_range with
  | [] => Ret (inserted, c, x)
  | (key, value) :: rest =>
      '(b, c, x) ← do_insert_update key value now a c x;
      insert_range rest a now (if (b : bool) then inserted + 1 else inserted) c x
  end.

Definition lfu_erase (key : K) c : Outcome (bool * lfuda_cache K V) :=
  match m_keyed_elements c !! key with
  | Some pos => c ← do_erase pos c; Ret (true, c)
  | None => Ret (false, c)
  end.

Fixpoint erase_range (key_range : list K) (deleted_elements : Z) c : Outcome (Z * lfuda_cache K V) :=
  match key_range with
  | [] => Ret (deleted_elements, c)
  | key :: rest =>
      match m_keyed_elements c !! key with
      | Some pos => c ← do_erase pos c; erase_range rest (deleted_elements + 1) c
      | None => erase_range rest deleted_elements c
      end
  end.

Definition lfu_find (key : K) (peek : bool) (now : Z) c : Outcome (option V * lfuda_cache K V) :=
  do_find key peek now c.

Definition find_with_use_count (key : K) (peek : bool) (now : Z) c
    : Outcome (option (V * Z) * lfuda_cache K V) := do_find_with_use_count key peek now c.

Fixpoint find_range (key_range : list K) (peek : bool) (now : Z) c
    : Outcome (list (K * option V) * lfuda_cache K V) :=
  match key_range with
  | [] => Ret ([], c)
  | key :: rest =>
      '(v, c) ← do_find key peek now c;
      '(output, c) ← find_range rest peek now c;
      Ret ((key, v) :: output, c)
  end.

(** The range of keys and optional values, with the values overwritten. *)
Fixpoint find_range_fill (key_optional_value_range : list (K * option V)) (peek : bool) (now : Z) c
    : Outcome (list (K * option V) * lfuda_cache K V) :=
  match key_optional_value_range with
  | [] => Ret ([], c)
  | (key, optional_value) :: rest =>
      '(v, c) ← do_find key peek now c;
      '(rest, c) ← find_range_fill rest peek now c;
      Ret ((key, v) :: rest, c)
  end.

Definition dynamically_age (now : Z) c : Outcome (Z * lfuda_cache K V) := do_dynamic_age now c.

Definition lfu_empty c : bool := (m_used_size c =? 0)%nat.
Definition lfu_size c : nat := m_used_size c.
Definition lfu_capacity c : nat := length (m_dynamic_age_list c).

End cache.
