(* ===== verification/AgeCount.v ===== *)
(** * Halving a use count in binary32

    The cache ages a use count with [(size_t)(count * ratio)], where the count
    is a [size_t] and the ratio a [float]: the count is rounded to 24 bits,
    multiplied and truncated.  For the ratio one half this is defined for every
    count, never increases it, and is exact below [2^24]. *)

From S2P Require Import Prelude SegmentBase Lfuda.
From Stdlib Require Import SpecFloat.

(** ** Shifts of a mantissa *)

Lemma digits2_log2 p : Zpos (digits2_pos p) = Z.log2 (Zpos p) + 1.
Proof.
  induction p as [p IH|p IH|]; cbn [digits2_pos]; [| |done]; rewrite Pos2Z.inj_succ, IH.
  - rewrite Pos2Z.inj_xI, Z.log2_succ_double by lia. lia.
  - rewrite Pos2Z.inj_xO, Z.log2_double by lia. lia.
Qed.

Lemma shr_1_m mrs : 0 <= shr_m mrs -> shr_m (shr_1 mrs) = shr_m mrs / 2 /\ 0 <= shr_m (shr_1 mrs).
Proof.
  destruct mrs as [m r s]. cbn [shr_m]. intros Hm. rewrite <- Z.div2_div.
  destruct m as [|[p|p|]|p]; cbn; lia.
Qed.

Lemma shr_iter_m k : forall mrs, 0 <= shr_m mrs ->
  shr_m (iter_pos shr_1 k mrs) = shr_m mrs / 2 ^ Zpos k /\ 0 <= shr_m (iter_pos shr_1 k mrs).
Proof.
  induction k as [k IH|k IH|]; intros mrs Hm; cbn [iter_pos].
  - destruct (shr_1_m mrs Hm) as [E1 H1]. destruct (IH _ H1) as [E2 H2]. destruct (IH _ H2) as [E3 H3].
    split; [|done]. rewrite E3, E2, E1, (Pos2Z.inj_xI k), !Z.div_div by lia. f_equal.
    rewrite <- Z.pow_add_r, <- (Z.pow_1_r 2) at 1 by lia. rewrite <- Z.pow_add_r by lia. f_equal. lia.
  - destruct (IH _ Hm) as [E2 H2]. destruct (IH _ H2) as [E3 H3].
    split; [|done]. rewrite E3, E2, (Pos2Z.inj_xO k), !Z.div_div by lia. f_equal.
    rewrite <- Z.pow_add_r by lia. f_equal. lia.
  - rewrite Z.pow_1_r. by apply shr_1_m.
Qed.

Lemma shr_iter_exact k : forall q, 0 <= q ->
  iter_pos shr_1 k {| shr_m := q * 2 ^ Zpos k; shr_r := false; shr_s := false |} =
    {| shr_m := q; shr_r := false; shr_s := false |}.
Proof.
  assert (forall q, 0 <= q -> shr_1 {| shr_m := q * 2; shr_r := false; shr_s := false |} =
    {| shr_m := q; shr_r := false; shr_s := false |}) as H1.
  { intros q Hq. destruct q as [|p|p]; [done| |lia]. rewrite Z.mul_comm. done. }
  induction k as [k IH|k IH|]; intros q Hq; cbn [iter_pos].
  - rewrite (Pos2Z.inj_xI k). replace (q * 2 ^ (2 * Zpos k + 1)) with (q * 2 ^ Zpos k * 2 ^ Zpos k * 2).
    2: { rewrite <- !Z.mul_assoc. f_equal. rewrite Z.pow_add_r, Z.pow_1_r, <- Z.add_diag, Z.pow_add_r by lia. lia. }
    pose proof (Z.pow_pos_nonneg 2 (Zpos k)). rewrite (H1 (q * 2 ^ Zpos k * 2 ^ Zpos k)) by nia.
    rewrite (IH (q * 2 ^ Zpos k)) by nia. by rewrite IH.
  - rewrite (Pos2Z.inj_xO k). replace (q * 2 ^ (2 * Zpos k)) with (q * 2 ^ Zpos k * 2 ^ Zpos k).
    2: { rewrite <- !Z.mul_assoc. f_equal. rewrite <- Z.add_diag, Z.pow_add_r by lia. lia. }
    pose proof (Z.pow_pos_nonneg 2 (Zpos k)). rewrite (IH (q * 2 ^ Zpos k)) by nia. by rewrite IH.
  - rewrite Z.pow_1_r. by apply H1.
Qed.

(** ** Rounding a mantissa of at least 24 bits *)

Lemma shr_zero mrs e n : n <= 0 -> shr mrs e n = (mrs, e).
Proof. destruct n; [done|lia|done]. Qed.

Lemma fexp_24 e : -125 <= e -> fexp 24 128 e = e - 24.
Proof. unfold fexp, emin. lia. Qed.

(** An exact mantissa with 24 bits stays as it is. *)
Lemma round_aux_normal m e :
  2 ^ 23 <= Zpos m < 2 ^ 24 -> -149 <= e <= 104 ->
  binary_round_aux 24 128 false (Zpos m) e loc_Exact = S754_finite false m e.
Proof.
  intros Hm He. assert (Z.log2 (Zpos m) = 23) as El by (by apply Z.log2_unique; lia).
  assert (shr_fexp 24 128 (Zpos m) e loc_Exact = ({| shr_m := Zpos m; shr_r := false; shr_s := false |}, e)) as Es.
  { unfold shr_fexp. cbn [shr_record_of_loc Zdigits2]. rewrite digits2_log2, El, fexp_24 by lia. by rewrite shr_zero by lia. }
  unfold binary_round_aux. rewrite Es. cbn [loc_of_shr_record round_nearest_even shr_m]. rewrite Es. cbn [shr_m].
  by rewrite (proj2 (Z.leb_le _ _)) by lia.
Qed.

(** A longer mantissa is shifted to 24 bits and rounded up at most once. *)
Lemma round_aux_long p k :
  Z.log2 (Zpos p) = 23 + Zpos k -> Zpos k <= 80 ->
  exists m e, binary_round_aux 24 128 false (Zpos p) 0 loc_Exact = S754_finite false m e /\
    2 ^ 23 <= Zpos m < 2 ^ 24 /\
    ((e = Zpos k /\ Zpos m <= Zpos p / 2 ^ Zpos k + 1) \/ (e = Zpos k + 1 /\ Zpos m = 2 ^ 23)).
Proof.
  intros Hl Hk. unfold binary_round_aux at 1. unfold shr_fexp at 1. cbn [Zdigits2].
  rewrite digits2_log2, Hl, fexp_24 by lia.
  replace (23 + Zpos k + 1 + 0 - 24 - 0) with (Zpos k) by lia. cbn [shr shr_record_of_loc].
  destruct (shr_iter_m k {| shr_m := Zpos p; shr_r := false; shr_s := false |}) as [Em _]; [cbn; lia|].
  set (mrs := iter_pos shr_1 k _) in *. cbn [shr_m] in Em.
  assert (2 ^ 23 <= Zpos p / 2 ^ Zpos k < 2 ^ 24) as Hq.
  { destruct (Z.log2_spec (Zpos p)) as [H1 H2]; [lia|]. rewrite Hl in H1, H2.
    pose proof (Z.pow_pos_nonneg 2 (Zpos k)). split.
    - apply Z.div_le_lower_bound; [lia|]. rewrite <- Z.pow_add_r by lia. by rewrite Z.add_comm.
    - apply Z.div_lt_upper_bound; [lia|]. rewrite <- Z.pow_add_r by lia. replace (Zpos k + 24) with (Z.succ (23 + Zpos k)) by lia. done. }
  set (r := round_nearest_even _ _).
  assert (Zpos p / 2 ^ Zpos k <= r <= Zpos p / 2 ^ Zpos k + 1) as Hr.
  { subst r. rewrite Em. unfold round_nearest_even.
    destruct (loc_of_shr_record mrs) as [|[]]; [lia| |lia|lia]. destruct (Z.even _); lia. }
  destruct r as [|r|r]; [lia| |lia].
  destruct (Z.eq_dec (Zpos r) (2 ^ 24)) as [Er|Hne].
  - exists (2 ^ 23)%positive, (Zpos k + 1). unfold shr_fexp. cbn [Zdigits2]. rewrite digits2_log2, Er.
    replace (Z.log2 (2 ^ 24)) with 24 by done. rewrite fexp_24 by lia.
    replace (24 + 1 + (0 + Zpos k) - 24 - (0 + Zpos k)) with 1 by lia. cbn -[Z.add Z.leb].
    rewrite (proj2 (Z.leb_le _ _)) by lia. split; [f_equal; lia|]. split; [done|]. right. done.
  - exists r, (Zpos k). pose proof (round_aux_normal r (0 + Zpos k) ltac:(lia) ltac:(lia)) as En.
    unfold binary_round_aux in En. unfold shr_fexp at 1 in En. cbn [Zdigits2] in En. rewrite digits2_log2 in En.
    assert (Z.log2 (Zpos r) = 23) as Elr by (apply Z.log2_unique; lia).
    rewrite Elr, fexp_24, shr_zero in En by lia. cbn [shr_record_of_loc shr_m loc_of_shr_record round_nearest_even] in En.
    rewrite En. split; [f_equal; lia|]. split; [lia|]. left. lia.
Qed.

Lemma iter_xO p d : Zpos (Pos.iter xO p d) = Zpos p * 2 ^ Zpos d.
Proof.
  induction d as [|d IH] using Pos.peano_ind; [cbn; lia|]. rewrite Pos.iter_succ, Pos2Z.inj_xO, IH.
  rewrite Pos2Z.inj_succ, Z.pow_succ_r by lia. lia.
Qed.

(** The count as a [float]. *)
Lemma f32_of_count n :
  0 < n < 2 ^ 64 ->
  exists m e, f32_of_Z n = S754_finite false m e /\ 2 ^ 23 <= Zpos m < 2 ^ 24 /\ -23 <= e <= 41 /\
    Z.shiftl (Zpos m) (e - 1) <= n /\ (n < 2 ^ 24 -> Z.shiftl (Zpos m) (e - 1) = n / 2).
Proof.
  intros Hn. destruct n as [|p|p]; [lia| |lia]. unfold f32_of_Z, binary_normalize, binary_round.
  pose proof (Z.log2_spec (Zpos p) ltac:(lia)) as [Hl1 Hl2]. pose proof (Z.log2_nonneg (Zpos p)).
  assert (Z.log2 (Zpos p) < 64) by (by apply Z.log2_lt_pow2; lia).
  rewrite digits2_log2, fexp_24 by lia. set (d := Z.log2 (Zpos p)) in *. unfold shl_align.
  destruct (d + 1 + 0 - 24 - 0) as [|k|k] eqn:Ed.
  - assert (d = 23) as E by lia. rewrite E in *. exists p, 0. rewrite round_aux_normal by lia.
    split; [done|]. split; [lia|]. split; [lia|]. change (0 - 1) with (-1). rewrite Z.shiftl_div_pow2, Z.pow_1_r by lia.
    split; [|done]. apply Z.div_le_upper_bound; lia.
  - destruct (round_aux_long p k) as (m & e & E & Hm & He); [lia|lia|]. exists m, e. rewrite E. split; [done|].
    split; [done|]. split; [lia|]. assert (2 ^ 24 <= Zpos p) by (pose proof (Z.pow_le_mono_r 2 24 d); lia).
    split; [|lia]. rewrite Z.shiftl_mul_pow2 by lia.
    assert (2 ^ d = 2 ^ (Zpos k - 1) * 2 ^ 24) as Epow by (rewrite <- Z.pow_add_r by lia; f_equal; lia).
    pose proof (Z.pow_pos_nonneg 2 (Zpos k - 1)).
    destruct He as [[-> Hle]|[-> ->]].
    + assert (2 ^ Zpos k = 2 ^ (Zpos k - 1) * 2) as Ek.
      { rewrite <- (Z.pow_1_r 2) at 3. rewrite <- Z.pow_add_r by lia. f_equal. lia. }
      pose proof (Z.mul_div_le (Zpos p) (2 ^ Zpos k) ltac:(lia)). nia.
    + replace (Zpos k + 1 - 1) with (Zpos k - 1 + 1) by lia. rewrite Z.pow_add_r, Z.pow_1_r by lia. nia.
  - assert (Zpos (Pos.iter xO p k) = Zpos p * 2 ^ Zpos k) as Ei by apply iter_xO.
    assert (2 ^ 23 = 2 ^ d * 2 ^ Zpos k /\ 2 ^ 24 = 2 ^ Z.succ d * 2 ^ Zpos k) as [E1 E2].
    { split; rewrite <- Z.pow_add_r by lia; f_equal; lia. }
    pose proof (Z.pow_pos_nonneg 2 (Zpos k)).
    exists (Pos.iter xO p k), (d + 1 + 0 - 24). rewrite round_aux_normal by (rewrite ?Ei; nia).
    split; [done|]. rewrite Ei. split; [nia|]. split; [lia|].
    replace (d + 1 + 0 - 24 - 1) with (- (Zpos k + 1)) by lia. rewrite Z.shiftl_div_pow2 by lia.
    replace (Zpos p * 2 ^ Zpos k / 2 ^ (- (- (Zpos k + 1)))) with (Zpos p / 2).
    2: { rewrite Z.opp_involutive, Z.pow_add_r, Z.pow_1_r, (Z.mul_comm (2 ^ Zpos k)) by lia. by rewrite Z.div_mul_cancel_r by lia. }
    split; [|done]. apply Z.div_le_upper_bound; lia.
Qed.

(** Multiplying a count by one half is exact. *)
Lemma f32_mul_half m e :
  2 ^ 23 <= Zpos m < 2 ^ 24 -> -100 <= e <= 104 ->
  SFmul 24 128 (S754_finite false m e) f32_half = S754_finite false m (e - 1).
Proof.
  intros Hm He. unfold f32_half, SFmul. cbn [xorb].
  assert (Z.log2 (Zpos m) = 23) as El by (by apply Z.log2_unique; lia).
  assert (Zpos (m * 8388608) = Zpos m * 2 ^ 23) as E by lia.
  assert (Z.log2 (Zpos (m * 8388608)) = 46) as El2.
  { rewrite E. rewrite Z.log2_mul_pow2 by lia. lia. }
  unfold binary_round_aux. unfold shr_fexp at 1. cbn [Zdigits2]. rewrite digits2_log2, El2, fexp_24 by lia.
  replace (46 + 1 + (e + -24) - 24 - (e + -24)) with 23 by lia. cbn [shr shr_record_of_loc]. rewrite E.
  rewrite (shr_iter_exact 23) by lia. cbn [loc_of_shr_record round_nearest_even shr_m].
  pose proof (round_aux_normal m (e + -24 + 23) Hm ltac:(lia)) as En. unfold binary_round_aux in En.
  unfold shr_fexp at 1 in En. cbn [Zdigits2] in En. rewrite digits2_log2, El, fexp_24, shr_zero in En by lia.
  cbn [shr_record_of_loc shr_m loc_of_shr_record round_nearest_even] in En. rewrite En. f_equal. lia.
Qed.

(** Halving a use count is defined for every 64-bit count, never increases
    it, and is the integer quotient below [2^24]. *)
Lemma age_count_half (n : Z) :
  in_u 64 n -> exists m, age_count f32_half n = Some m /\ 0 <= m <= n /\ (n < 2 ^ 24 -> m = n / 2).
Proof.
  intros Hn. unfold in_u in Hn. destruct (Z.eq_dec n 0) as [->|Hne]; [by exists 0|].
  destruct (f32_of_count n) as (m & e & E & Hm & He & Hle & Heq); [lia|].
  unfold age_count. rewrite E, f32_mul_half by lia. cbn [to_size_t].
  exists (Z.shiftl (Zpos m) (e - 1)). rewrite (proj2 (Z.ltb_lt _ _)) by lia.
  split; [done|]. split; [|done]. split; [|done]. by apply Z.shiftl_nonneg.
Qed.
