(* ===== verification/LfudaTheorems.v ===== *)
(** * What the LFU cache does

    The nodes, iterators, hash map and multimap of [Lfuda] implement a list of
    elements in the order in which they age.  The invariant [cache_inv] ties
    the four structures together; every operation keeps it and acts on the
    list of elements as the functions [touch], [age] and [forget] below do. *)

From S2P Require Import Prelude Common SegmentBase Lfuda AgeCount.
From Stdlib Require Import SpecFloat Sorted.

(** ** Lists of nodes *)

Lemma head_app_ne {A} (x : A) (B : list A) : x ∉ B -> head B <> Some x.
Proof. intros Hx. destruct B; [done|]. intros [= ->]. apply Hx. by left. Qed.

Lemma list_prev_last (A B : list nat) : NoDup (A ++ B) -> list_prev (head B) (A ++ B) = last A.
Proof.
  induction A as [|x A IH]; intros Hnd.
  - destruct B; [done|]. cbn. by rewrite bool_decide_true.
  - apply NoDup_cons in Hnd as [Hx Hnd]. cbn [app list_prev].
    rewrite bool_decide_false by (apply head_app_ne; intros ?; apply Hx, elem_of_app; auto).
    destruct A as [|y A]; [by rewrite bool_decide_true|].
    rewrite bool_decide_false, IH; [done|done|].
    apply head_app_ne. cbn in Hnd. apply NoDup_cons in Hnd as [Hy _]. intros ?. apply Hy, elem_of_app; auto.
Qed.

Lemma list_next_head (A B : list nat) x : NoDup (A ++ x :: B) -> list_next x (A ++ x :: B) = head B.
Proof.
  induction A as [|y A IH]; cbn; intros Hnd; [by rewrite bool_decide_true|].
  apply NoDup_cons in Hnd as [Hy Hnd]. rewrite bool_decide_false; [by apply IH|].
  intros ->. apply Hy, elem_of_app. right. by left.
Qed.

Lemma insert_before_head (A B : list nat) x :
  NoDup (A ++ B) -> insert_before (head B) x (A ++ B) = A ++ x :: B.
Proof.
  induction A as [|y A IH]; intros Hnd.
  - destruct B; [done|]. cbn. by rewrite bool_decide_true.
  - apply NoDup_cons in Hnd as [Hy Hnd]. cbn [app insert_before].
    rewrite bool_decide_false by (apply head_app_ne; intros ?; apply Hy, elem_of_app; auto).
    by rewrite IH.
Qed.

Lemma filter_ne_id (l : list nat) x : x ∉ l -> filter (fun y => y <> x) l = l.
Proof.
  intros Hx. induction l as [|y l IH]; [done|]. apply not_elem_of_cons in Hx as [? ?].
  rewrite filter_cons_True by done. by rewrite IH.
Qed.

Lemma list_splice_before (A1 A2 B : list nat) x :
  NoDup (A1 ++ x :: A2 ++ B) ->
  list_splice (head B) x (A1 ++ x :: A2 ++ B) = A1 ++ A2 ++ x :: B.
Proof.
  intros Hnd. rewrite <- Permutation_middle in Hnd. apply NoDup_cons in Hnd as [Hx Hnd].
  rewrite !elem_of_app in Hx. unfold list_splice.
  rewrite bool_decide_false by (apply head_app_ne; tauto).
  rewrite filter_app, filter_cons_False, !filter_ne_id by (rewrite ?elem_of_app; tauto).
  rewrite app_assoc, insert_before_head, <- app_assoc; [done|]. by rewrite <- app_assoc.
Qed.

Lemma erase_first_perm x l : x ∈ l -> x :: erase_first x l ≡ₚ l.
Proof.
  induction l as [|y l IH]; [by intros ?%elem_of_nil|]. cbn. case_bool_decide as E.
  - by rewrite E.
  - intros [->|Hx]%elem_of_cons; [done|]. by rewrite Permutation_swap, (IH Hx).
Qed.

Lemma erase_first_sorted x l : StronglySorted lfu_le l -> StronglySorted lfu_le (erase_first x l).
Proof.
  induction 1 as [|y l Hs IH Hy]; cbn; [constructor|]. case_bool_decide; [done|]. constructor; [done|].
  rewrite List.Forall_forall in Hy |- *. intros z Hz. apply Hy.
  clear -Hz. induction l as [|w l IH]; [done|]. cbn in Hz. case_bool_decide; [by right|].
  destruct Hz as [->|Hz]; [by left|right; auto].
Qed.

(** [x] put in front of the last entry. *)
Definition before_last {A} (x : A) (l : list A) : list A :=
  match last l with None => [x] | Some y => removelast l ++ [x; y] end.

Lemma before_last_snoc {A} (x y : A) l : before_last x (l ++ [y]) = l ++ [x; y].
Proof. unfold before_last. by rewrite last_snoc, removelast_last. Qed.

Lemma before_last_fmap {A B} (f : A -> B) x l : f <$> before_last x l = before_last (f x) (f <$> l).
Proof.
  destruct l as [|y l _] using rev_ind; [done|].
  rewrite before_last_snoc, !fmap_app. change (f <$> [y]) with [f y]. by rewrite before_last_snoc.
Qed.

Lemma before_last_perm {A} (x : A) l : before_last x l ≡ₚ x :: l.
Proof.
  destruct l as [|y l _] using rev_ind; [done|]. rewrite before_last_snoc.
  by rewrite <- Permutation_middle.
Qed.

(** ** The list of elements *)

Section spec.
Context {K V : Type} `{EqDecision K}.
Implicit Types (e : element K V) (l : list (element K V)).

(** An access at time [now] counts one use. *)
Definition accessed (now : Z) e : element K V := mkElement (m_key e) (u64 (m_use_count e + 1)) now (m_value e).
Definition updated (value : V) (now : Z) e : element K V := mkElement (m_key e) (u64 (m_use_count e + 1)) now value.

(** The element of the key changes and goes in front of the last one. *)
Fixpoint touch (k : K) (f : element K V -> element K V) l : list (element K V) :=
  match l with
  | [] => []
  | e :: l => if bool_decide (m_key e = k) then before_last (f e) l else e :: touch k f l
  end.

Definition forget (k : K) l : list (element K V) := filter (fun e => m_key e <> k) l.

Definition find_key (k : K) l : option (element K V) := head (filter (fun e => m_key e = k) l).

(** The elements that are due at the front age, and go to the back. *)
Definition due (tick now : Z) e : bool := m_dynamic_age e + tick * 1000000 <? now.
Definition aged (ratio : spec_float) (now : Z) e : element K V :=
  mkElement (m_key e) (default 0 (age_count ratio (m_use_count e))) now (m_value e).

Fixpoint age (tick : Z) (ratio : spec_float) (now : Z) l : list (element K V) * Z :=
  match l with
  | e :: rest =>
      if due tick now e
      then let '(r, n) := age tick ratio now rest in (r ++ [aged ratio now e], n + 1) else (l, 0)
  | [] => ([], 0)
  end.

(** The element evicted has the least use count. *)
Definition victim_of e l : Prop := e ∈ l /\ Forall (fun e' => m_use_count e <= m_use_count e') l.

Lemma touch_middle k f l1 e l2 :
  m_key e = k -> k ∉ (m_key <$> l1) -> touch k f (l1 ++ e :: l2) = l1 ++ before_last (f e) l2.
Proof.
  intros He. induction l1 as [|e1 l1 IH]; cbn; intros Hk; [by rewrite bool_decide_true|].
  apply not_elem_of_cons in Hk as [? ?]. rewrite bool_decide_false by congruence. by rewrite IH.
Qed.

Lemma forget_id k l : k ∉ (m_key <$> l) -> forget k l = l.
Proof.
  induction l as [|e l IH]; [done|]. intros [? ?]%not_elem_of_cons. unfold forget.
  rewrite filter_cons_True by congruence. f_equal. by apply IH.
Qed.

Lemma forget_middle k l1 e l2 :
  m_key e = k -> k ∉ (m_key <$> l1) -> k ∉ (m_key <$> l2) -> forget k (l1 ++ e :: l2) = l1 ++ l2.
Proof.
  intros He H1 H2. apply forget_id in H1, H2. unfold forget in *.
  rewrite filter_app, filter_cons_False by auto. by rewrite H1, H2.
Qed.

Lemma find_key_middle k l1 e l2 :
  m_key e = k -> k ∉ (m_key <$> l1) -> find_key k (l1 ++ e :: l2) = Some e.
Proof.
  intros He. unfold find_key. induction l1 as [|e1 l1 IH]; intros Hk; cbn [app].
  - by rewrite filter_cons_True.
  - apply not_elem_of_cons in Hk as [? ?]. rewrite filter_cons_False by congruence. by apply IH.
Qed.

Lemma find_key_none k l : k ∉ (m_key <$> l) -> find_key k l = None.
Proof.
  unfold find_key. induction l as [|e l IH]; [done|]. intros [? ?]%not_elem_of_cons.
  rewrite filter_cons_False by congruence. by apply IH.
Qed.

Lemma touch_none k f l : k ∉ (m_key <$> l) -> touch k f l = l.
Proof.
  induction l as [|e l IH]; [done|]. intros [? ?]%not_elem_of_cons. cbn. rewrite bool_decide_false by congruence.
  by rewrite IH.
Qed.

Lemma age_length tick ratio now l : length (age tick ratio now l).1 = length l.
Proof.
  induction l as [|e l IH]; [done|]. cbn. destruct (due tick now e); [|done].
  destruct (age tick ratio now l) as [r n]. cbn in *. rewrite length_app, IH. cbn. lia.
Qed.

Lemma age_keys tick ratio now l : m_key <$> (age tick ratio now l).1 ≡ₚ m_key <$> l.
Proof.
  induction l as [|e l IH]; [done|]. cbn [age]. destruct (due tick now e); [|done].
  destruct (age tick ratio now l) as [r n]. cbn [fst] in *. rewrite fmap_app, IH, fmap_cons.
  by rewrite <- Permutation_cons_append.
Qed.

Lemma find_key_elem k l : find_key k l = None -> k ∉ (m_key <$> l).
Proof.
  unfold find_key. induction l as [|e l IH]; [intros _ ?%elem_of_nil; done|].
  destruct (decide (m_key e = k)) as [E|E]; [by rewrite filter_cons_True|].
  rewrite filter_cons_False by done. intros Hf. apply not_elem_of_cons. auto.
Qed.

Lemma touch_keys k f l : (forall e, m_key (f e) = m_key e) -> m_key <$> touch k f l ≡ₚ m_key <$> l.
Proof.
  intros Hf. induction l as [|e l IH]; [done|]. cbn [touch]. case_bool_decide.
  - rewrite before_last_fmap, before_last_perm, Hf. done.
  - by rewrite !fmap_cons, IH.
Qed.

Lemma forget_keys k l k' : k' ∈ (m_key <$> forget k l) <-> k' ∈ (m_key <$> l) /\ k' <> k.
Proof.
  unfold forget. rewrite !list_elem_of_fmap. setoid_rewrite list_elem_of_filter. split.
  - intros (e & -> & ? & ?). eauto.
  - intros [(e & -> & ?) ?]. eauto.
Qed.

Lemma forget_keys_nodup k l : NoDup (m_key <$> l) -> NoDup (m_key <$> forget k l).
Proof.
  induction l as [|e l IH]; [done|]. intros [He Hl]%NoDup_cons. unfold forget.
  destruct (decide (m_key e <> k)); [rewrite filter_cons_True by done|rewrite filter_cons_False by done; by apply IH].
  apply NoDup_cons. split; [|by apply IH]. intros (e' & E & [_ Hin]%list_elem_of_filter)%list_elem_of_fmap.
  apply He. rewrite E. apply list_elem_of_fmap. eauto.
Qed.

End spec.

(** ** The invariant *)

Section inv.
Context {K V : Type} `{Countable K} `{!Inhabited K, !Inhabited V} `{!Btree, !BtreeLaws}.
Implicit Types (c : lfuda_cache K V) (e : element K V) (A B : list nat).

Definition node c (n : nat) : element K V := m_nodes c !!! n.

(** The nodes [A] are in use, the nodes [B] are free. *)
Record cache_inv c A B : Prop := {
  ci_list : m_dynamic_age_list c = A ++ B;
  ci_nodup : NoDup (A ++ B);
  ci_nodes : Forall (fun n => (n < length (m_nodes c))%nat) (A ++ B);
  ci_size : m_used_size c = length A;
  ci_open : m_open_list_end c = head B;
  ci_keyed k n : m_keyed_elements c !! k = Some n <-> n ∈ A /\ m_key (node c n) = k;
  ci_lfu : m_lfu_list c ≡ₚ (fun n => (m_use_count (node c n), n)) <$> A;
  ci_sorted : StronglySorted lfu_le (m_lfu_list c);
  ci_counts : Forall (fun n => in_u 64 (m_use_count (node c n))) A;
}.

(** The elements in use, in the order of the list. *)
Definition entries c : list (element K V) := node c <$> take (m_used_size c) (m_dynamic_age_list c).

Definition cache_ok c : Prop := exists A B, cache_inv c A B.

(** What no operation changes. *)
Definition same_shape c c' : Prop :=
  lfu_capacity c' = lfu_capacity c /\ m_dynamic_age_tick c' = m_dynamic_age_tick c /\
  m_dynamic_age_ratio c' = m_dynamic_age_ratio c.

Lemma same_shape_trans c1 c2 c3 : same_shape c1 c2 -> same_shape c2 c3 -> same_shape c1 c3.
Proof. unfold same_shape. intuition congruence. Qed.

Lemma entries_inv c A B : cache_inv c A B -> entries c = node c <$> A.
Proof. intros Hc. unfold entries. by rewrite (ci_list _ _ _ Hc), (ci_size _ _ _ Hc), take_app_length. Qed.

Lemma entries_length c : cache_ok c -> length (entries c) = m_used_size c.
Proof. intros (A & B & Hc). by rewrite (entries_inv _ _ _ Hc), length_fmap, (ci_size _ _ _ Hc). Qed.

Lemma deref_node c A B n : cache_inv c A B -> n ∈ A ++ B -> deref n c = Ret (node c n).
Proof.
  intros Hc Hn. pose proof (ci_nodes _ _ _ Hc) as Hf. rewrite Forall_forall in Hf. apply Hf in Hn.
  unfold deref, node. apply lookup_lt_is_Some in Hn as [e Hn]. by rewrite Hn, (list_lookup_total_correct _ _ _ Hn).
Qed.

Lemma keys_nodup c A B : cache_inv c A B -> NoDup (m_key <$> (node c <$> A)).
Proof.
  intros Hc. pose proof (ci_nodup _ _ _ Hc) as [Hnd _]%NoDup_app. pose proof (ci_keyed _ _ _ Hc) as Hk.
  assert (forall n, n ∈ A -> m_keyed_elements c !! m_key (node c n) = Some n) as Hin by (intros n ?; by apply Hk).
  clear Hc Hk. induction A as [|n A IH]; [by constructor|]. apply NoDup_cons in Hnd as [Hn Hnd].
  cbn. apply NoDup_cons. split; [|apply IH; [done|intros; apply Hin; by right]].
  intros (e & E & (m & -> & Hm)%list_elem_of_fmap)%list_elem_of_fmap. apply Hn.
  assert (Some n = Some m) as [= ->]; [|done].
  rewrite <- (Hin n), <- (Hin m), E by (rewrite ?elem_of_cons; auto). done.
Qed.

(** A node in use, with what is before and after it. *)
Lemma keyed_split c A B k n :
  cache_inv c A B -> m_keyed_elements c !! k = Some n ->
  exists A1 A2, A = A1 ++ n :: A2 /\ m_key (node c n) = k /\
    (k ∉ (m_key <$> (node c <$> A1))) /\ (k ∉ (m_key <$> (node c <$> A2))) /\ (n ∉ A1) /\ n ∉ A2.
Proof.
  intros Hc Hk. pose proof (keys_nodup _ _ _ Hc) as Hnd. pose proof (ci_nodup _ _ _ Hc) as [Hnn _]%NoDup_app.
  apply (ci_keyed _ _ _ Hc) in Hk as [(A1 & A2 & ->)%list_elem_of_split E]. exists A1, A2. split; [done|].
  rewrite !fmap_app, !fmap_cons, <- Permutation_middle, E in Hnd. apply NoDup_cons in Hnd as [Hnk _].
  rewrite <- Permutation_middle in Hnn. apply NoDup_cons in Hnn as [Hnn _].
  rewrite elem_of_app in Hnk. rewrite elem_of_app in Hnn. tauto.
Qed.

Lemma node_insert_ne c n m e : n <> m -> (<[n := e]> (m_nodes c)) !!! m = node c m.
Proof. intros. by rewrite list_lookup_total_insert_ne. Qed.

Lemma node_insert_eq c A B n e : cache_inv c A B -> n ∈ A ++ B -> (<[n := e]> (m_nodes c)) !!! n = e.
Proof.
  intros Hc Hn. pose proof (ci_nodes _ _ _ Hc) as Hf. rewrite Forall_forall in Hf.
  by apply list_lookup_total_insert_eq, Hf.
Qed.

Lemma nodes_insert_other c n e (A : list nat) :
  n ∉ A -> (fun m => (<[n := e]> (m_nodes c)) !!! m) <$> A = node c <$> A.
Proof. intros Hn. apply list_fmap_ext. intros i m Hm%list_elem_of_lookup_2. apply node_insert_ne. by intros ->. Qed.

(** A node in use gets a new place among the nodes in use, and a new element
    with the same key. *)
Definition repositioned c (l : list nat) n e : lfuda_cache K V :=
  mkCache (m_used_size c) (m_dynamic_age_tick c) (m_dynamic_age_ratio c) (m_keyed_elements c)
    (bt_emplace (m_use_count e) n (erase_first (m_use_count (node c n), n) (m_lfu_list c)))
    l (m_open_list_end c) (<[n := e]> (m_nodes c)).

Lemma repositioned_inv c A B A' n e :
  cache_inv c A B -> n ∈ A -> A' ≡ₚ A -> m_key e = m_key (node c n) -> in_u 64 (m_use_count e) ->
  cache_inv (repositioned c (A' ++ B) n e) A' B.
Proof.
  intros Hc Hn HA Ek Hu. pose proof (node_insert_eq c A B n e Hc ltac:(apply elem_of_app; auto)) as En.
  assert (forall m, m_key (node (repositioned c (A' ++ B) n e) m) = m_key (node c m)) as Hkey.
  { intros m. destruct (decide (n = m)) as [<-|Hne]; unfold node; cbn; [by rewrite En|].
    by rewrite node_insert_ne. }
  split; cbn.
  - done.
  - rewrite HA. apply Hc.
  - rewrite HA, length_insert. apply Hc.
  - rewrite HA. apply Hc.
  - apply Hc.
  - intros k m. rewrite Hkey, HA. apply Hc.
  - rewrite bt_emplace_perm, HA. destruct (list_elem_of_split _ _ Hn) as (A1 & A2 & ->).
    pose proof (ci_nodup _ _ _ Hc) as [Hnd _]%NoDup_app. rewrite <- Permutation_middle in Hnd.
    apply NoDup_cons in Hnd as [Hn1 _]. rewrite elem_of_app in Hn1.
    assert (forall D : list nat, n ∉ D -> (fun m => (m_use_count (node (repositioned c (A' ++ B) n e) m), m)) <$> D =
      (fun m => (m_use_count (node c m), m)) <$> D) as Ho.
    { intros D HD. apply list_fmap_ext. intros i m Hm%list_elem_of_lookup_2. unfold node at 1. cbn.
      rewrite node_insert_ne; [done|]. by intros ->. }
    rewrite <- Permutation_middle, fmap_cons, fmap_app, !Ho by tauto.
    change (node (repositioned c (A' ++ B) n e) n) with (<[n := e]> (m_nodes c) !!! n). rewrite En.
    apply perm_skip. apply (Permutation_cons_inv (a := (m_use_count (node c n), n))).
    rewrite erase_first_perm.
    + rewrite (ci_lfu _ _ _ Hc), fmap_app, fmap_cons. by rewrite <- Permutation_middle.
    + rewrite (ci_lfu _ _ _ Hc). apply list_elem_of_fmap. eauto.
  - apply bt_emplace_sorted, erase_first_sorted, Hc.
  - rewrite HA. apply Forall_forall. intros m Hm. unfold node. cbn. destruct (decide (n = m)) as [<-|Hne].
    + by rewrite En.
    + rewrite node_insert_ne by done. pose proof (ci_counts _ _ _ Hc) as Hf. rewrite Forall_forall in Hf. auto.
Qed.

(** A node in use becomes the first free one. *)
Definition removed c (l : list nat) n : lfuda_cache K V :=
  mkCache (pred (m_used_size c)) (m_dynamic_age_tick c) (m_dynamic_age_ratio c)
    (delete (m_key (node c n)) (m_keyed_elements c))
    (erase_first (m_use_count (node c n), n) (m_lfu_list c)) l (Some n) (m_nodes c).

Lemma removed_inv c A1 n A2 B :
  cache_inv c (A1 ++ n :: A2) B -> cache_inv (removed c (A1 ++ A2 ++ n :: B) n) (A1 ++ A2) (n :: B).
Proof.
  intros Hc. pose proof (keys_nodup _ _ _ Hc) as Hkn. pose proof (ci_nodup _ _ _ Hc) as Hnd.
  assert (A1 ++ A2 ++ n :: B ≡ₚ (A1 ++ n :: A2) ++ B) as HP.
  { rewrite <- app_assoc. apply Permutation_app_head. cbn. by rewrite <- Permutation_middle. }
  rewrite !fmap_app, !fmap_cons, <- Permutation_middle, <- fmap_app, <- fmap_app in Hkn.
  apply NoDup_cons in Hkn as [Hk _].
  split; cbn; rewrite <- ?app_assoc.
  - done.
  - rewrite HP. apply Hc.
  - rewrite HP. apply Hc.
  - rewrite (ci_size _ _ _ Hc), !length_app. cbn. lia.
  - done.
  - intros k m. unfold node. cbn. rewrite lookup_delete_Some, (ci_keyed _ _ _ Hc). fold (node c m) (node c n).
    rewrite !elem_of_app, elem_of_cons. split.
    + intros (Hne & [?|[->|?]] & <-); [by auto|done|by auto].
    + intros [Hm <-]. split; [|by intuition]. intros E. apply Hk. rewrite E. do 2 apply list_elem_of_fmap_2.
      by apply elem_of_app.
  - apply (Permutation_cons_inv (a := (m_use_count (node c n), n))). rewrite erase_first_perm.
    + rewrite (ci_lfu _ _ _ Hc), !fmap_app, fmap_cons. by rewrite <- Permutation_middle.
    + rewrite (ci_lfu _ _ _ Hc), fmap_app. apply elem_of_app. right. by left.
  - apply erase_first_sorted, Hc.
  - pose proof (ci_counts _ _ _ Hc) as Hf. rewrite !Forall_app, !Forall_cons in *. tauto.
Qed.

(** The first free node is filled. *)
Definition filled c n e : lfuda_cache K V :=
  mkCache (S (m_used_size c)) (m_dynamic_age_tick c) (m_dynamic_age_ratio c)
    (<[m_key e := n]> (m_keyed_elements c)) (bt_emplace (m_use_count e) n (m_lfu_list c))
    (m_dynamic_age_list c) (list_next n (m_dynamic_age_list c)) (<[n := e]> (m_nodes c)).

Lemma filled_inv c A n B e :
  cache_inv c A (n :: B) -> m_keyed_elements c !! m_key e = None -> in_u 64 (m_use_count e) ->
  cache_inv (filled c n e) (A ++ [n]) B.
Proof.
  intros Hc Hk Hu. pose proof (ci_nodup _ _ _ Hc) as Hnd.
  pose proof (node_insert_eq c A (n :: B) n e Hc ltac:(apply elem_of_app; right; by left)) as En.
  assert (n ∉ A) as Hn.
  { rewrite <- Permutation_middle in Hnd. apply NoDup_cons in Hnd as [Hn _]. intros ?. by apply Hn, elem_of_app; left. }
  split; cbn; rewrite <- ?app_assoc.
  - apply Hc.
  - done.
  - rewrite length_insert. apply Hc.
  - rewrite (ci_size _ _ _ Hc), length_app. cbn. lia.
  - rewrite (ci_list _ _ _ Hc). by apply list_next_head.
  - intros k m. rewrite elem_of_app, list_elem_of_singleton. unfold node. cbn. destruct (decide (n = m)) as [<-|Hne].
    + rewrite En. split; [|intros [_ <-]; by rewrite lookup_insert_eq].
      intros [[-> _]|[_ [? _]%(ci_keyed _ _ _ Hc)]]%lookup_insert_Some; [auto|done].
    + rewrite node_insert_ne by done. rewrite lookup_insert_Some, (ci_keyed _ _ _ Hc). split.
      { intros [[_ ?]|(_ & ? & ?)]; [done|by auto]. }
      intros [[Hm|?] E]; [|congruence]. right. split; [|done]. intros Ek.
      assert (m_keyed_elements c !! m_key e = Some m) as E' by (apply (ci_keyed _ _ _ Hc); split; congruence).
      congruence.
  - rewrite bt_emplace_perm, (ci_lfu _ _ _ Hc), fmap_app. cbn [fmap list_fmap]. rewrite <- Permutation_cons_append.
    change (node (filled c n e) n) with (<[n := e]> (m_nodes c) !!! n). rewrite En. apply perm_skip.
    apply Permutation_refl', list_fmap_ext. intros i m Hm%list_elem_of_lookup_2. unfold node at 2. cbn.
    rewrite node_insert_ne; [done|]. by intros ->.
  - apply bt_emplace_sorted, Hc.
  - apply Forall_app. split.
    + pose proof (ci_counts _ _ _ Hc) as Hf. rewrite Forall_forall in Hf |- *.
      intros m Hm. unfold node. cbn. rewrite node_insert_ne; [by apply Hf|]. by intros ->.
    + apply Forall_singleton. unfold node. cbn. by rewrite En.
Qed.

(** The value of a node in use changes. *)
Lemma revalued_inv c A B n v :
  cache_inv c A B -> n ∈ A ->
  cache_inv (set_node n (mkElement (m_key (node c n)) (m_use_count (node c n)) (m_dynamic_age (node c n)) v) c) A B.
Proof.
  intros Hc Hn. set (e := mkElement _ _ _ v).
  pose proof (node_insert_eq c A B n e Hc ltac:(apply elem_of_app; auto)) as En.
  assert (forall m, m_key (node (set_node n e c) m) = m_key (node c m) /\
    m_use_count (node (set_node n e c) m) = m_use_count (node c m)) as Hm.
  { intros m. unfold node at 1 3. cbn. destruct (decide (n = m)) as [<-|?]; [by rewrite En|].
    by rewrite node_insert_ne. }
  split; cbn; try apply Hc.
  - rewrite length_insert. apply Hc.
  - intros k m. rewrite (proj1 (Hm m)). apply Hc.
  - rewrite (ci_lfu _ _ _ Hc). apply Permutation_refl', list_fmap_ext. intros i m _. by rewrite (proj2 (Hm m)).
  - eapply Forall_impl; [apply Hc|]. intros m. by rewrite (proj2 (Hm m)).
Qed.

(** ** Accesses *)

Lemma do_access_node c A1 n A2 B now :
  cache_inv c (A1 ++ n :: A2) B ->
  do_access n now c = Ret (repositioned c ((A1 ++ before_last n A2) ++ B) n (accessed now (node c n))).
Proof.
  intros Hc. unfold do_access. rewrite (deref_node _ _ _ n Hc) by (rewrite !elem_of_app; left; right; by left).
  cbn [mbind Outcome_bind erase_lfu_entry lfu_emplace set_lfu m_open_list_end m_dynamic_age_list].
  pose proof (ci_nodup _ _ _ Hc) as Hnd. rewrite (ci_open _ _ _ Hc), (ci_list _ _ _ Hc), list_prev_last by done.
  destruct A2 as [|x A2 _] using rev_ind.
  - rewrite last_snoc, bool_decide_true by done. unfold repositioned, set_node, lfu_emplace, erase_lfu_entry, set_lfu. cbn.
    by rewrite (ci_list _ _ _ Hc), (ci_open _ _ _ Hc).
  - replace (last (A1 ++ n :: A2 ++ [x])) with (Some x).
    2: { rewrite app_comm_cons, app_assoc, last_snoc. done. }
    assert (A1 ++ n :: (A2 ++ [x]) ++ B = A1 ++ n :: A2 ++ x :: B) as EA by (by rewrite <- app_assoc).
    rewrite <- app_assoc in Hnd |- *. cbn [app] in Hnd |- *. rewrite EA in Hnd |- *.
    rewrite bool_decide_false.
    2: { intros ->. rewrite <- Permutation_middle in Hnd. apply NoDup_cons in Hnd as [Hn _]. apply Hn.
         rewrite !elem_of_app. right. right. by left. }
    cbn [negb]. unfold repositioned, set_age_list, set_node, lfu_emplace, erase_lfu_entry, set_lfu. cbn.
    rewrite (list_splice_before A1 A2 (x :: B)) by done.
    rewrite before_last_snoc, (ci_open _ _ _ Hc), <- !app_assoc. done.
Qed.

Lemma repositioned_entries c A B l A' n e :
  cache_inv c A B -> cache_inv (repositioned c l n e) A' B ->
  entries (repositioned c l n e) = (fun m => if bool_decide (m = n) then e else node c m) <$> A'.
Proof.
  intros Hc Hc'. rewrite (entries_inv _ _ _ Hc'). apply list_fmap_ext. intros i m Hm%list_elem_of_lookup_2.
  unfold node at 1. cbn. case_bool_decide as E; [subst m|by rewrite node_insert_ne].
  eapply list_lookup_total_insert_eq. pose proof (ci_nodes _ _ _ Hc') as Hf. rewrite Forall_forall in Hf.
  specialize (Hf n). cbn in Hf. rewrite length_insert in Hf. apply Hf. rewrite elem_of_app. auto.
Qed.

Lemma fmap_other {T} (f : nat -> T) (n : nat) x (A : list nat) :
  n ∉ A -> (fun m => if bool_decide (m = n) then x else f m) <$> A = f <$> A.
Proof.
  intros Hn. apply list_fmap_ext. intros i m Hm%list_elem_of_lookup_2. rewrite bool_decide_false; [done|].
  by intros ->.
Qed.

(** What an operation leaves: the invariant, the shape and the elements. *)
Definition becomes c c' (l : list (element K V)) : Prop := cache_ok c' /\ same_shape c c' /\ entries c' = l.

Lemma do_access_spec c k n now :
  cache_ok c -> m_keyed_elements c !! k = Some n ->
  exists c', do_access n now c = Ret c' /\ becomes c c' (touch k (accessed now) (entries c)) /\
    m_keyed_elements c' = m_keyed_elements c /\ node c' n = accessed now (node c n).
Proof.
  intros (A & B & Hc) Hk. destruct (keyed_split _ _ _ _ _ Hc Hk) as (A1 & A2 & -> & Ek & Hk1 & Hk2 & Hn1 & Hn2).
  eexists. split; [by apply do_access_node|].
  assert (cache_inv (repositioned c ((A1 ++ before_last n A2) ++ B) n (accessed now (node c n))) (A1 ++ before_last n A2) B) as Hc'.
  { apply (repositioned_inv _ (A1 ++ n :: A2)); [done| | |done|].
    - rewrite elem_of_app. right. by left.
    - by rewrite before_last_perm.
    - cbn. unfold in_u. apply u64_range. }
  split; [split; [by eexists _, _|split]|split; [done|]].
  - split; [|done]. unfold lfu_capacity. cbn. rewrite (ci_list _ _ _ Hc), !length_app, before_last_perm. done.
  - rewrite (repositioned_entries _ _ _ _ _ _ _ Hc Hc'), (entries_inv _ _ _ Hc), !fmap_app, fmap_cons.
    rewrite touch_middle by done. rewrite before_last_fmap, !fmap_other by done. by rewrite bool_decide_true.
  - unfold node at 1. cbn. apply (node_insert_eq c _ B _ _ Hc). rewrite !elem_of_app. left. right. by left.
Qed.

Lemma revalued_entries c A1 n A2 B v :
  cache_inv c (A1 ++ n :: A2) B -> n ∉ A1 -> n ∉ A2 ->
  let e := mkElement (m_key (node c n)) (m_use_count (node c n)) (m_dynamic_age (node c n)) v in
  entries (set_node n e c) = (node c <$> A1) ++ e :: (node c <$> A2) /\ node (set_node n e c) n = e.
Proof.
  intros Hc Hn1 Hn2 e. rewrite (entries_inv _ (A1 ++ n :: A2) B).
  2: { apply revalued_inv; [done|]. rewrite elem_of_app. right. by left. }
  assert (node (set_node n e c) n = e) as En.
  { apply (node_insert_eq c _ B _ _ Hc). rewrite !elem_of_app. left. right. by left. }
  split; [|done]. rewrite fmap_app, fmap_cons, En. by rewrite !(nodes_insert_other c n e) by done.
Qed.

Lemma do_update_spec c k n v now :
  cache_ok c -> m_keyed_elements c !! k = Some n ->
  exists c', do_update n v now c = Ret c' /\ becomes c c' (touch k (updated v now) (entries c)) /\
    m_keyed_elements c' = m_keyed_elements c.
Proof.
  intros (A & B & Hc) Hk. destruct (keyed_split _ _ _ _ _ Hc Hk) as (A1 & A2 & -> & Ek & Hk1 & Hk2 & Hn1 & Hn2).
  assert (n ∈ A1 ++ n :: A2) as Hin by (rewrite elem_of_app; right; by left).
  unfold do_update. rewrite (deref_node _ _ _ n Hc) by (rewrite elem_of_app; by left). cbn [mbind Outcome_bind].
  destruct (revalued_entries c A1 n A2 B v Hc Hn1 Hn2) as [Ee _].
  destruct (do_access_spec (set_node n (mkElement (m_key (node c n)) (m_use_count (node c n))
    (m_dynamic_age (node c n)) v) c) k n now) as (c' & E & (Hok & Hs & Ec) & Em & _).
  { eexists _, B. by apply revalued_inv. }
  { done. }
  exists c'. split; [done|]. split; [|done]. split; [done|]. split; [done|].
  rewrite Ec, Ee, (entries_inv _ _ _ Hc), fmap_app, fmap_cons, !touch_middle by done. done.
Qed.

(** ** Erasing *)

Lemma do_erase_node c A1 n A2 B :
  cache_inv c (A1 ++ n :: A2) B -> do_erase n c = Ret (removed c (A1 ++ A2 ++ n :: B) n).
Proof.
  intros Hc. unfold do_erase. rewrite (deref_node _ _ _ n Hc) by (rewrite !elem_of_app; left; right; by left).
  cbn [mbind Outcome_bind]. pose proof (ci_nodup _ _ _ Hc) as Hnd.
  rewrite (ci_open _ _ _ Hc), (ci_list _ _ _ Hc), list_prev_last by done.
  set (l := last _).
  assert (exists x, l = Some x /\ (if negb (bool_decide (n = x))
    then list_splice (head B) n ((A1 ++ n :: A2) ++ B) else (A1 ++ n :: A2) ++ B) = A1 ++ A2 ++ n :: B) as (x & -> & El).
  { subst l. rewrite <- app_assoc in Hnd |- *. cbn [app] in Hnd |- *. destruct A2 as [|x A2 _] using rev_ind.
    - exists n. rewrite last_snoc, bool_decide_true by done. done.
    - exists x. split; [by rewrite app_comm_cons, app_assoc, last_snoc|].
      rewrite bool_decide_false; [cbn [negb]; by rewrite list_splice_before by done|]. intros ->.
      rewrite <- Permutation_middle in Hnd. apply NoDup_cons in Hnd as [Hn _]. apply Hn.
      rewrite !elem_of_app. right. left. right. by left. }
  assert (list_prev (head B) (A1 ++ A2 ++ n :: B) = Some n) as Hp.
  { rewrite !app_assoc, cons_middle, app_assoc, list_prev_last, last_snoc; [done|].
    rewrite <- !app_assoc. cbn [app]. revert Hnd. rewrite <- app_assoc. cbn [app].
    by rewrite <- !Permutation_middle. }
  destruct (negb (bool_decide (n = x))); unfold removed, set_age_list, set_open, set_keyed, erase_lfu_entry, set_lfu; cbn;
    rewrite ?(ci_open _ _ _ Hc), ?(ci_list _ _ _ Hc), ?El, Hp; done.
Qed.

Lemma removed_entries c A1 n A2 B :
  cache_inv c (A1 ++ n :: A2) B ->
  becomes c (removed c (A1 ++ A2 ++ n :: B) n) (forget (m_key (node c n)) (entries c)).
Proof.
  intros Hc. pose proof (removed_inv _ _ _ _ _ Hc) as Hc'. split; [by eexists _, _|]. split.
  - split; [|done]. unfold lfu_capacity. cbn. rewrite (ci_list _ _ _ Hc), !length_app. cbn. lia.
  - rewrite (entries_inv _ _ _ Hc'), (entries_inv _ _ _ Hc), !fmap_app, fmap_cons.
    assert (m_keyed_elements c !! m_key (node c n) = Some n) as Hk.
    { apply (ci_keyed _ _ _ Hc). split; [|done]. rewrite elem_of_app. right. by left. }
    pose proof (keys_nodup _ _ _ Hc) as Hnd. rewrite !fmap_app, !fmap_cons, <- Permutation_middle in Hnd.
    apply NoDup_cons in Hnd as [Hnk _]. rewrite elem_of_app in Hnk. by rewrite forget_middle by tauto.
Qed.

Lemma do_erase_spec c k n :
  cache_ok c -> m_keyed_elements c !! k = Some n ->
  exists c', do_erase n c = Ret c' /\ becomes c c' (forget k (entries c)) /\
    m_keyed_elements c' = delete k (m_keyed_elements c).
Proof.
  intros (A & B & Hc) Hk. destruct (keyed_split _ _ _ _ _ Hc Hk) as (A1 & A2 & -> & Ek & _).
  eexists. split; [by apply do_erase_node|]. rewrite <- Ek. split; [by apply removed_entries|done].
Qed.

(** ** Aging *)

(** Use counts can be aged. *)
Definition ratio_ok (ratio : spec_float) : Prop :=
  forall n, in_u 64 n -> exists m, age_count ratio n = Some m /\ in_u 64 m.

Lemma dynamic_age_loop_spec fuel c C D B now a :
  cache_inv c (C ++ D) B -> 0 <= m_dynamic_age_tick c -> ratio_ok (m_dynamic_age_ratio c) ->
  Forall (fun n => m_dynamic_age (node c n) = now) D -> (length C < fuel)%nat ->
  exists c', dynamic_age_loop fuel (head (D ++ B)) now a c =
      Ret (a + (age (m_dynamic_age_tick c) (m_dynamic_age_ratio c) now (node c <$> C)).2, c') /\
    becomes c c' ((age (m_dynamic_age_tick c) (m_dynamic_age_ratio c) now (node c <$> C)).1 ++ (node c <$> D)) /\
    m_keyed_elements c' = m_keyed_elements c.
Proof.
  revert c C D a. induction fuel as [|fuel IH]; intros c C D a Hc Ht Hr HD Hf; [lia|].
  assert (forall r, r = a + 0 -> (node c <$> C) = [] -> exists c', Ret (r, c) = Ret (a + 0, c') /\
    becomes c c' (([] : list (element K V)) ++ (node c <$> D)) /\ m_keyed_elements c' = m_keyed_elements c) as Hstop.
  { intros r -> E. exists c. split; [done|]. split; [|done]. split; [by eexists _, _|]. split; [done|].
    rewrite (entries_inv _ _ _ Hc), fmap_app, E. done. }
  cbn [dynamic_age_loop]. rewrite (ci_list _ _ _ Hc), (ci_open _ _ _ Hc).
  destruct C as [|n C].
  - cbn [fmap list_fmap age fst snd app].
    destruct D as [|d D]; cbn [app].
    + destruct B as [|b B]; cbn [head]; [apply Hstop; [lia|done]|]. rewrite bool_decide_true by done. apply Hstop; [lia|done].
    + cbn [head]. case_bool_decide; [apply Hstop; [lia|done]|].
      rewrite (deref_node _ _ _ d Hc) by (by left). cbn [mbind Outcome_bind].
      apply Forall_cons in HD as [-> _]. rewrite (proj2 (Z.ltb_ge _ _)) by lia. apply Hstop; [lia|done].
  - pose proof (ci_nodup _ _ _ Hc) as Hnd. rewrite <- !app_assoc in Hnd |- *. cbn [app] in Hnd |- *.
    assert (n ∉ C ++ D ++ B) as Hn by (by apply NoDup_cons in Hnd as [? _]). rewrite !elem_of_app in Hn.
    cbn [head]. rewrite bool_decide_false by (apply not_eq_sym, head_app_ne; tauto).
    rewrite (deref_node _ _ _ n Hc) by (by left). cbn [mbind Outcome_bind].
    rewrite fmap_cons. cbn [age]. change (m_dynamic_age (node c n) + m_dynamic_age_tick c * 1000000 <? now)
      with (due (m_dynamic_age_tick c) now (node c n)).
    destruct (due (m_dynamic_age_tick c) now (node c n)) eqn:Edue; cbn [negb].
    2: { cbn [fst snd]. exists c. rewrite Z.add_0_r. split; [done|]. split; [|done]. split; [by eexists _, _|].
         split; [done|]. by rewrite (entries_inv _ _ _ Hc), fmap_app, fmap_cons. }
    rewrite bool_decide_false by (apply not_eq_sym, head_app_ne; rewrite elem_of_app; tauto). cbn [negb].
    pose proof (list_splice_before [] C (D ++ B) n Hnd) as Esp. cbn [app] in Esp. rewrite Esp.
    assert (in_u 64 (m_use_count (node c n))) as Hu.
    { pose proof (ci_counts _ _ _ Hc) as Hcs. by apply Forall_cons in Hcs as [? _]. }
    destruct (Hr _ Hu) as (m & Em & Hm).
    cbn [m_dynamic_age_ratio erase_lfu_entry set_lfu set_age_list]. rewrite Em.
    set (e' := mkElement (m_key (node c n)) m now (m_value (node c n))).
    change (lfu_emplace m n _) with (repositioned c (C ++ n :: D ++ B) n e').
    assert (cache_inv (repositioned c (C ++ n :: D ++ B) n e') (C ++ n :: D) B) as Hc1.
    { replace (C ++ n :: D ++ B) with ((C ++ n :: D) ++ B) by (by rewrite <- app_assoc).
      apply (repositioned_inv _ (n :: C ++ D)); [done|by left| |done|done]. by rewrite Permutation_middle. }
    assert (forall L : list nat, n ∉ L -> node (repositioned c (C ++ n :: D ++ B) n e') <$> L = node c <$> L) as Ho
      by (intros L ?; by apply (nodes_insert_other c n e')).
    assert (node (repositioned c (C ++ n :: D ++ B) n e') n = e') as En.
    { apply (node_insert_eq c _ B _ _ Hc). by left. }
    destruct (IH (repositioned c (C ++ n :: D ++ B) n e') C (n :: D) (a + 1)) as (c' & E & (Hok & Hs & Ee) & Ek).
    + done.
    + done.
    + done.
    + apply Forall_cons. split; [by rewrite En|]. apply Forall_forall. intros d Hd.
      rewrite Forall_forall in HD. rewrite <- (HD d Hd). unfold node at 1. cbn. rewrite node_insert_ne; [done|].
      intros ->. tauto.
    + cbn [length] in Hf. lia.
    + cbn [m_dynamic_age_tick m_dynamic_age_ratio repositioned] in E, Ee. rewrite fmap_cons, En, !Ho in Ee by tauto.
      rewrite Ho in E by tauto. cbn [app head] in E. exists c'. rewrite E.
      destruct (age _ _ now (node c <$> C)) as [r k] eqn:Ea. cbn [fst snd] in *. split; [f_equal; f_equal; lia|].
      split; [|done]. split; [done|]. split.
      * eapply same_shape_trans; [|done]. split; [|done]. unfold lfu_capacity. cbn.
        rewrite (ci_list _ _ _ Hc), <- !app_assoc. cbn. rewrite !length_app. cbn. rewrite !length_app. lia.
      * rewrite Ee, <- app_assoc. unfold aged. by rewrite Em.
Qed.

Lemma do_dynamic_age_spec c now :
  cache_ok c -> 0 <= m_dynamic_age_tick c -> ratio_ok (m_dynamic_age_ratio c) ->
  let '(l, n) := age (m_dynamic_age_tick c) (m_dynamic_age_ratio c) now (entries c) in
  exists c', do_dynamic_age now c = Ret (n, c') /\ becomes c c' l /\ m_keyed_elements c' = m_keyed_elements c.
Proof.
  intros (A & B & Hc) Ht Hr. unfold do_dynamic_age. rewrite (ci_open _ _ _ Hc), (entries_inv _ _ _ Hc).
  destruct (dynamic_age_loop_spec (S (length (m_dynamic_age_list c))) c A [] B now 0) as (c' & E & Hb & Ek).
  - by rewrite app_nil_r.
  - done.
  - done.
  - constructor.
  - rewrite (ci_list _ _ _ Hc), length_app. lia.
  - cbn [app] in E. destruct (age _ _ now (node c <$> A)) as [l n]. exists c'. cbn in E, Hb.
    rewrite app_nil_r in Hb. done.
Qed.

End inv.

(** ** Insertion and eviction *)

Section ops.
Context {K V X : Type} `{Countable K} `{!Inhabited K, !Inhabited V} `{!Btree, !BtreeLaws}.
Context (on_evict : option (K -> V -> X -> Outcome (V * X))).
Implicit Types (c : lfuda_cache K V) (e : element K V) (A B : list nat) (l : list (element K V)).

(** The call of the callback for an element. *)
Definition evict_call e (x : X) : Outcome X :=
  match on_evict with
  | None => Ret x
  | Some f => '(_, x) ← f (m_key e) (m_value e) x; Ret x
  end.

Lemma lfu_head_min c A B u n rest :
  cache_inv c A B -> m_lfu_list c = (u, n) :: rest -> n ∈ A /\ victim_of (node c n) (node c <$> A).
Proof.
  intros Hc E. pose proof (ci_lfu _ _ _ Hc) as HP. pose proof (ci_sorted _ _ _ Hc) as Hs. rewrite E in HP, Hs.
  assert ((u, n) ∈ (fun n => (m_use_count (node c n), n)) <$> A) as (m & [= -> <-] & Hm)%list_elem_of_fmap
    by (rewrite <- HP; by left).
  split; [done|]. split; [by apply list_elem_of_fmap_2|]. apply Forall_forall.
  intros e' (m & -> & Hm')%list_elem_of_fmap.
  assert ((m_use_count (node c m), m) ∈ (m_use_count (node c n), n) :: rest) as Hin.
  { rewrite HP. apply list_elem_of_fmap. eauto. }
  apply elem_of_cons in Hin as [[= -> ->]|Hin]; [done|]. apply StronglySorted_inv in Hs as [_ Hs].
  rewrite List.Forall_forall in Hs. apply list_elem_of_In, Hs in Hin. exact Hin.
Qed.

Lemma do_prune_spec now c x :
  cache_ok c -> 0 <= m_dynamic_age_tick c -> ratio_ok (m_dynamic_age_ratio c) -> (0 < m_used_size c)%nat ->
  let l := (age (m_dynamic_age_tick c) (m_dynamic_age_ratio c) now (entries c)).1 in
  exists e, victim_of e l /\
  match evict_call e x with
  | Ret x' => exists c', do_prune on_evict now c x = Ret (c', x') /\ becomes c c' (forget (m_key e) l) /\
      m_keyed_elements c' = delete (m_key e) (m_keyed_elements c) /\ is_Some (m_open_list_end c')
  | UB => do_prune on_evict now c x = UB
  end.
Proof.
  intros Hok Ht Hr Hu. pose proof (do_dynamic_age_spec c now Hok Ht Hr) as Ha.
  pose proof (age_length (m_dynamic_age_tick c) (m_dynamic_age_ratio c) now (entries c)) as Hlen.
  destruct (age _ _ now (entries c)) as [l k]. destruct Ha as (c1 & E1 & (Hok1 & Hs1 & El) & Ek1). cbn [fst] in *.
  unfold do_prune. rewrite (proj2 (Nat.eqb_neq _ _)) by lia. rewrite E1. cbn [mbind Outcome_bind].
  rewrite (entries_length _ Hok), <- El, (entries_length _ Hok1) in Hlen. destruct Hok1 as (A & B & Hc1).
  pose proof (Permutation_length (ci_lfu _ _ _ Hc1)) as Hl. rewrite length_fmap, <- (ci_size _ _ _ Hc1) in Hl.
  destruct (m_lfu_list c1) as [|[u n] rest] eqn:Elfu; [cbn in Hl; lia|].
  destruct (lfu_head_min _ _ _ _ _ _ Hc1 Elfu) as [Hn Hv]. exists (node c1 n).
  rewrite (entries_inv _ _ _ Hc1) in El. subst l. split; [done|].
  assert (forall c2, cache_inv c2 A B -> m_keyed_elements c2 = m_keyed_elements c1 -> same_shape c1 c2 ->
    node c2 n = mkElement (m_key (node c1 n)) (m_use_count (node c1 n)) (m_dynamic_age (node c1 n)) (m_value (node c2 n)) ->
    forget (m_key (node c1 n)) (entries c2) = forget (m_key (node c1 n)) (node c1 <$> A) ->
    exists c', do_erase n c2 = Ret c' /\ becomes c c' (forget (m_key (node c1 n)) (node c1 <$> A)) /\
      m_keyed_elements c' = delete (m_key (node c1 n)) (m_keyed_elements c) /\ is_Some (m_open_list_end c')) as Herase.
  { intros c2 Hc2 Ekey Hs2 Enode Ef. destruct (list_elem_of_split _ _ Hn) as (A1 & A2 & ->).
    exists (removed c2 (A1 ++ A2 ++ n :: B) n). split; [by apply do_erase_node|].
    pose proof (removed_entries _ _ _ _ _ Hc2) as (Hok2 & Hs & Ee). rewrite Enode in Ee. cbn [m_key] in Ee.
    split; [split; [done|split]|split; [|by eexists]].
    - eapply same_shape_trans; [|done]. by eapply same_shape_trans.
    - by rewrite Ee.
    - cbn. rewrite Ekey, Ek1, Enode. done. }
  unfold evict_call. destruct on_evict as [f|].
  - rewrite (deref_node _ _ _ n Hc1) by (rewrite elem_of_app; auto). cbn [mbind Outcome_bind].
    destruct (f _ _ x) as [[v x']|]; cbn [mbind Outcome_bind]; [|done].
    assert (n ∈ A) as Hn' by done. apply list_elem_of_split in Hn' as (A1 & A2 & EA).
    pose proof (keyed_split c1 A B (m_key (node c1 n)) n Hc1) as Hsp.
    destruct Hsp as (A1' & A2' & EA' & _ & Hk1 & Hk2 & Hn1 & Hn2); [by apply (ci_keyed _ _ _ Hc1)|]. clear A1 A2 EA.
    pose proof Hc1 as Hc1'. rewrite EA' in Hc1'. destruct (revalued_entries c1 A1' n A2' B v Hc1' Hn1 Hn2) as [Ee En].
    destruct (Herase (set_node n (mkElement (m_key (node c1 n)) (m_use_count (node c1 n)) (m_dynamic_age (node c1 n)) v) c1))
      as (c' & E & Hc').
    + by apply revalued_inv.
    + done.
    + done.
    + by rewrite En.
    + rewrite Ee, EA', fmap_app, fmap_cons. by rewrite !forget_middle by done.
    + exists c'. by rewrite E.
  - cbn [mbind Outcome_bind]. destruct (Herase c1) as (c' & E & Hc'); [done|done|done|by destruct (node c1 n)| |].
    + by rewrite (entries_inv _ _ _ Hc1).
    + exists c'. by rewrite E.
Qed.

(** The element an insertion makes. *)
Definition fresh (k : K) (v : V) (now : Z) : element K V := mkElement k 1 now v.

Lemma filled_entries c A n B e :
  cache_inv c A (n :: B) -> m_keyed_elements c !! m_key e = None -> in_u 64 (m_use_count e) ->
  becomes c (filled c n e) (entries c ++ [e]).
Proof.
  intros Hc Hk Hu. pose proof (filled_inv _ _ _ _ _ Hc Hk Hu) as Hc'. split; [by eexists _, _|]. split; [done|].
  rewrite (entries_inv _ _ _ Hc'), (entries_inv _ _ _ Hc), fmap_app.
  assert (n ∉ A) as Hn.
  { pose proof (ci_nodup _ _ _ Hc) as Hnd. rewrite <- Permutation_middle in Hnd. apply NoDup_cons in Hnd as [Hn _].
    intros ?. by apply Hn, elem_of_app; left. }
  f_equal; [by apply (nodes_insert_other c n e)|]. cbn. f_equal.
  apply (node_insert_eq c _ _ _ _ Hc). rewrite elem_of_app. right. by left.
Qed.

Lemma fill_open_spec k v now c :
  cache_ok c -> m_keyed_elements c !! k = None -> is_Some (m_open_list_end c) ->
  exists c', fill_open k v now c = Ret c' /\ becomes c c' (entries c ++ [fresh k v now]).
Proof.
  intros (A & B & Hc) Hk [n Ho]. unfold fill_open. rewrite Ho. cbn [mbind].
  rewrite bool_decide_false by (rewrite Hk; by intros [? ?]).
  eexists. split; [done|]. rewrite (ci_open _ _ _ Hc) in Ho. destruct B as [|b B]; [done|].
  cbn in Ho. injection Ho as ->. by apply (filled_entries c A n B (fresh k v now)).
Qed.

Lemma do_insert_spec k v now c x :
  cache_ok c -> 0 <= m_dynamic_age_tick c -> ratio_ok (m_dynamic_age_ratio c) -> (0 < lfu_capacity c)%nat ->
  m_keyed_elements c !! k = None ->
  let l := (age (m_dynamic_age_tick c) (m_dynamic_age_ratio c) now (entries c)).1 in
  if decide (length (entries c) < lfu_capacity c)%nat
  then exists c', do_insert on_evict k v now c x = Ret (c', x) /\ becomes c c' (entries c ++ [fresh k v now])
  else exists e, victim_of e l /\
    match evict_call e x with
    | Ret x' => exists c', do_insert on_evict k v now c x = Ret (c', x') /\
        becomes c c' (forget (m_key e) l ++ [fresh k v now])
    | UB => do_insert on_evict k v now c x = UB
    end.
Proof.
  intros Hok Ht Hr Hcap Hk. pose proof (entries_length c Hok) as Hlen. unfold do_insert.
  fold (lfu_capacity c). cbv zeta. case_decide as Hroom.
  - rewrite (proj2 (Nat.leb_gt _ _)) by lia. cbn [mbind Outcome_bind].
    destruct (fill_open_spec k v now c Hok Hk) as (c' & E & Hb).
    { destruct Hok as (A & B & Hc). unfold lfu_capacity in Hroom.
      rewrite (ci_list _ _ _ Hc), (entries_inv _ _ _ Hc), length_app, length_fmap in Hroom.
      rewrite (ci_open _ _ _ Hc). destruct B; [cbn in Hroom; lia|by eexists]. }
    exists c'. by rewrite E.
  - rewrite (proj2 (Nat.leb_le _ _)) by lia.
    destruct (do_prune_spec now c x Hok Ht Hr) as (e & Hv & He); [lia|]. exists e. split; [done|].
    destruct (evict_call e x) as [x'|]; [|by rewrite He].
    destruct He as (c1 & E1 & (Hok1 & Hs1 & El) & Ek1 & Ho1). rewrite E1. cbn [mbind Outcome_bind].
    destruct (fill_open_spec k v now c1 Hok1) as (c' & E & Hok' & Hs' & El').
    { rewrite Ek1, lookup_delete_None. auto. }
    { done. }
    exists c'. rewrite E. split; [done|]. split; [done|]. split; [by eapply same_shape_trans|]. by rewrite El', El.
Qed.

(** ** Runs *)

Inductive lfu_op :=
  | LInsert (k : K) (v : V) (a : allow) (now : Z)
  | LErase (k : K)
  | LFind (k : K) (peek : bool) (now : Z)
  | LFindCount (k : K) (peek : bool) (now : Z)
  | LAge (now : Z).

Inductive lfu_result :=
  | LBool (b : bool)
  | LValue (v : option V)
  | LCount (v : option (V * Z))
  | LNum (n : Z).

Definition lfu_step (o : lfu_op) c (x : X) : Outcome (lfu_result * lfuda_cache K V * X) :=
  match o with
  | LInsert k v a now => '(b, c, x) ← lfu_insert on_evict k v a now c x; Ret (LBool b, c, x)
  | LErase k => '(b, c) ← lfu_erase k c; Ret (LBool b, c, x)
  | LFind k peek now => '(v, c) ← lfu_find k peek now c; Ret (LValue v, c, x)
  | LFindCount k peek now => '(v, c) ← find_with_use_count k peek now c; Ret (LCount v, c, x)
  | LAge now => '(n, c) ← dynamically_age now c; Ret (LNum n, c, x)
  end.

Fixpoint lfu_run (os : list lfu_op) c (x : X) : Outcome (list lfu_result * lfuda_cache K V * X) :=
  match os with
  | [] => Ret ([], c, x)
  | o :: os =>
      '(r, c, x) ← lfu_step o c x;
      '(rs, c, x) ← lfu_run os c x;
      Ret (r :: rs, c, x)
  end.

(** The same on the list of elements. *)
Definition list_step (cap : nat) (tick : Z) (ratio : spec_float) (o : lfu_op) l x (r : lfu_result) l' x' : Prop :=
  match o with
  | LInsert k v a now =>
      match find_key k l with
      | Some _ => x' = x /\
          if update_allowed a then r = LBool true /\ l' = touch k (updated v now) l else r = LBool false /\ l' = l
      | None =>
          if insert_allowed a then r = LBool true /\
            if decide (length l < cap)%nat then x' = x /\ l' = l ++ [fresh k v now]
            else exists e, victim_of e (age tick ratio now l).1 /\ evict_call e x = Ret x' /\
              l' = forget (m_key e) (age tick ratio now l).1 ++ [fresh k v now]
          else r = LBool false /\ x' = x /\ l' = l
      end
  | LErase k => r = LBool (bool_decide (is_Some (find_key k l))) /\ x' = x /\ l' = forget k l
  | LFind k peek now =>
      r = LValue (m_value <$> find_key k l) /\ x' = x /\ l' = if peek then l else touch k (accessed now) l
  | LFindCount k peek now =>
      let seen e := if peek then e else accessed now e in
      r = LCount ((fun e => (m_value e, m_use_count (seen e))) <$> find_key k l) /\ x' = x /\
      l' = if peek then l else touch k (accessed now) l
  | LAge now => r = LNum (age tick ratio now l).2 /\ x' = x /\ l' = (age tick ratio now l).1
  end.

Fixpoint list_run (cap : nat) (tick : Z) (ratio : spec_float) (os : list lfu_op) l x (rs : list lfu_result) l' x' : Prop :=
  match os, rs with
  | [], [] => l' = l /\ x' = x
  | o :: os, r :: rs => exists l1 x1,
      list_step cap tick ratio o l x r l1 x1 /\ list_run cap tick ratio os l1 x1 rs l' x'
  | _, _ => False
  end.

Lemma keyed_find c k :
  cache_ok c ->
  match m_keyed_elements c !! k with
  | Some n => find_key k (entries c) = Some (node c n) /\ exists B A, cache_inv c A B /\ n ∈ A
  | None => find_key k (entries c) = None /\ k ∉ (m_key <$> entries c)
  end.
Proof.
  intros (A & B & Hc). rewrite (entries_inv _ _ _ Hc). destruct (m_keyed_elements c !! k) as [n|] eqn:E.
  - pose proof E as [Hn _]%(ci_keyed _ _ _ Hc).
    destruct (keyed_split _ _ _ _ _ Hc E) as (A1 & A2 & EA & Ek & H1' & _). split; [|eauto].
    rewrite EA, fmap_app, fmap_cons. by apply find_key_middle.
  - assert (k ∉ (m_key <$> (node c <$> A))) as Hk; [|by split; [apply find_key_none|]].
    intros (e & Ek & (n & -> & Hn)%list_elem_of_fmap)%list_elem_of_fmap.
    assert (m_keyed_elements c !! k = Some n) by (by apply (ci_keyed _ _ _ Hc)). congruence.
Qed.

(** The two [find]s, for what they return of the element. *)
Lemma find_spec {T} (g : element K V -> T) k (peek : bool) now c :
  cache_ok c ->
  exists c', (match m_keyed_elements c !! k with
      | Some age_it =>
          c ← (if negb peek then do_access age_it now c else Ret c);
          e ← deref age_it c;
          Ret (Some (g e), c)
      | None => Ret (None, c)
      end) = Ret ((fun e => g (if peek then e else accessed now e)) <$> find_key k (entries c), c') /\
    becomes c c' (if peek then entries c else touch k (accessed now) (entries c)).
Proof.
  intros Hok. pose proof (keyed_find c k Hok) as Hk. destruct (m_keyed_elements c !! k) as [n|] eqn:E.
  - destruct Hk as (Hf & B & A & Hc & Hn). rewrite Hf. destruct peek; cbn [negb mbind Outcome_bind fmap option_fmap option_map].
    + rewrite (deref_node _ _ _ n Hc) by (rewrite elem_of_app; auto). eexists. split; [done|]. done.
    + destruct (do_access_spec c k n now Hok E) as (c' & -> & (Hok' & Hs & Ee) & Em & En). cbn.
      destruct Hok' as (A' & B' & Hc'). rewrite (deref_node _ _ _ n Hc'), En.
      2: { rewrite elem_of_app. left. rewrite <- Em in E. by apply (ci_keyed _ _ _ Hc') in E as [? _]. }
      eexists. split; [done|]. split; [by eexists _, _|done].
  - destruct Hk as [Hf Hk]. rewrite Hf. eexists. split; [done|]. split; [done|]. split; [done|].
    rewrite touch_none by done. by destruct peek.
Qed.

(** A result and the cache it leaves. *)
Definition step_ok o c x r c' x' : Prop :=
  cache_ok c' /\ same_shape c c' /\
  list_step (lfu_capacity c) (m_dynamic_age_tick c) (m_dynamic_age_ratio c) o (entries c) x r (entries c') x'.

(** The operations other than insertion do not call the callback. *)
Lemma lfu_step_quiet o c x :
  cache_ok c -> 0 <= m_dynamic_age_tick c -> ratio_ok (m_dynamic_age_ratio c) ->
  (forall k v a now, o <> LInsert k v a now) ->
  exists r c', lfu_step o c x = Ret (r, c', x) /\ step_ok o c x r c' x.
Proof.
  intros Hok Ht Hr Hno. unfold step_ok.
  destruct o as [k v a now|k|k peek now|k peek now|now]; [by edestruct Hno| | | |]; cbn [lfu_step list_step].
  - unfold lfu_erase. pose proof (keyed_find c k Hok) as Hk. destruct (m_keyed_elements c !! k) as [n|] eqn:E.
    + destruct (do_erase_spec c k n Hok E) as (c' & E' & (Hok' & Hs & Ee) & _). rewrite E'. cbn.
      eexists _, _. split; [done|]. destruct Hk as [-> _]. by rewrite bool_decide_true by eauto.
    + destruct Hk as [Hf Hk]. eexists _, _. split; [done|].
      rewrite Hf, bool_decide_false by (by intros [? ?]). by rewrite forget_id.
  - destruct (find_spec m_value k peek now c Hok) as (c' & E & Hok' & Hs & Ee).
    unfold lfu_find, do_find. rewrite E. cbn. eexists _, _. split; [done|]. split; [done|]. split; [done|].
    split; [|done]. by destruct peek, (find_key k (entries c)).
  - destruct (find_spec (fun e => (m_value e, m_use_count e)) k peek now c Hok) as (c' & E & Hok' & Hs & Ee).
    unfold find_with_use_count, do_find_with_use_count. rewrite E. cbn. eexists _, _. split; [done|].
    split; [done|]. split; [done|]. split; [|done]. by destruct peek, (find_key k (entries c)).
  - unfold dynamically_age. pose proof (do_dynamic_age_spec c now Hok Ht Hr) as Ha.
    destruct (age _ _ now (entries c)) as [l n] eqn:Ea. destruct Ha as (c' & -> & (Hok' & Hs & Ee) & _). cbn.
    eexists _, _. split; [done|]. by rewrite Ee.
Qed.

(** Insertion, when the callback has a result. *)
Lemma lfu_insert_spec k v a now c x :
  cache_ok c -> 0 <= m_dynamic_age_tick c -> ratio_ok (m_dynamic_age_ratio c) -> (0 < lfu_capacity c)%nat ->
  (forall e, victim_of e (age (m_dynamic_age_tick c) (m_dynamic_age_ratio c) now (entries c)).1 ->
     exists x', evict_call e x = Ret x') ->
  exists b c' x', lfu_insert on_evict k v a now c x = Ret (b, c', x') /\
    step_ok (LInsert k v a now) c x (LBool b) c' x'.
Proof.
  intros Hok Ht Hr Hcap Hcall. unfold lfu_insert, do_insert_update, step_ok. cbn [list_step].
  pose proof (keyed_find c k Hok) as Hk. destruct (m_keyed_elements c !! k) as [n|] eqn:E; destruct Hk as [Hf Hk]; rewrite Hf.
  - destruct (update_allowed a); [|by eexists _, _, _].
    destruct (do_update_spec c k n v now Hok E) as (c' & -> & (Hok' & Hs & Ee) & _). by eexists _, _, _.
  - destruct (insert_allowed a); [|by eexists _, _, _].
    pose proof (do_insert_spec k v now c x Hok Ht Hr Hcap E) as Hi. cbv zeta in Hi. case_decide.
    + destruct Hi as (c' & -> & Hok' & Hs & Ee). by eexists _, _, _.
    + destruct Hi as (e & Hv & Hi). destruct (Hcall e Hv) as [x' Ex]. rewrite Ex in Hi.
      destruct Hi as (c' & -> & Hok' & Hs & Ee). eexists _, _, _. split; [done|]. split; [done|]. split; [done|].
      split; [done|]. by exists e.
Qed.

Lemma lfu_step_spec o c x :
  cache_ok c -> 0 <= m_dynamic_age_tick c -> ratio_ok (m_dynamic_age_ratio c) -> (0 < lfu_capacity c)%nat ->
  (forall e x, exists x', evict_call e x = Ret x') ->
  exists r c' x', lfu_step o c x = Ret (r, c', x') /\ step_ok o c x r c' x'.
Proof.
  intros Hok Ht Hr Hcap Hcall. destruct o as [k v a now| | | |].
  2-5: edestruct lfu_step_quiet as (r & c' & E & Hs); [exact Hok|exact Ht|exact Hr| |by exists r, c', x]; intros; discriminate.
  destruct (lfu_insert_spec k v a now c x Hok Ht Hr Hcap) as (b & c' & x' & E & Hs); [by intros; apply Hcall|].
  cbn [lfu_step]. rewrite E. by eexists _, _, _.
Qed.

Lemma lfuda_new_ok capacity tick ratio : cache_ok (lfuda_new (K := K) (V := V) capacity tick ratio).
Proof.
  exists [], (seq 0 capacity). split; cbn; try done.
  - apply NoDup_ListNoDup, seq_NoDup.
  - apply Forall_forall. intros n Hn%list_elem_of_In%in_seq. rewrite length_replicate. lia.
  - intros k n. rewrite lookup_empty. split; [done|]. intros [Hn%elem_of_nil _]. done.
  - constructor.
Qed.

Lemma lfu_size_bound c : cache_ok c -> (lfu_size c <= lfu_capacity c)%nat.
Proof.
  intros (A & B & Hc). unfold lfu_size, lfu_capacity. rewrite (ci_size _ _ _ Hc), (ci_list _ _ _ Hc), length_app. lia.
Qed.

Lemma lfu_run_spec os : forall c x,
  cache_ok c -> 0 <= m_dynamic_age_tick c -> ratio_ok (m_dynamic_age_ratio c) -> (0 < lfu_capacity c)%nat ->
  (forall e x, exists x', evict_call e x = Ret x') ->
  exists rs c' x', lfu_run os c x = Ret (rs, c', x') /\ cache_ok c' /\ same_shape c c' /\
    list_run (lfu_capacity c) (m_dynamic_age_tick c) (m_dynamic_age_ratio c) os (entries c) x rs (entries c') x'.
Proof.
  induction os as [|o os IH]; intros c x Hok Ht Hr Hcap Hcall; [by exists [], c, x|]. cbn [lfu_run].
  destruct (lfu_step_spec o c x Hok Ht Hr Hcap Hcall) as (r & c1 & x1 & -> & Hok1 & Hs1 & Hl1). cbn [mbind Outcome_bind].
  pose proof Hs1 as (Ec & Et & Er).
  destruct (IH c1 x1) as (rs & c' & x' & -> & Hok' & Hs' & Hl'); [done|by rewrite Et|by rewrite Er|by rewrite Ec|done|].
  rewrite Ec, Et, Er in Hl'. cbn. exists (r :: rs), c', x'. split; [done|]. split; [done|].
  split; [by eapply same_shape_trans|]. by exists (entries c1), x1.
Qed.

Lemma list_run_length cap tick ratio os : forall l x rs l' x',
  list_run cap tick ratio os l x rs l' x' -> length rs = length os.
Proof.
  induction os as [|o os IH]; intros l x [|r rs] l' x'; cbn; try done; [by intros []..|].
  intros (l1 & x1 & _ & Hl). by rewrite (IH _ _ _ _ _ Hl).
Qed.

Lemma age_bound tick ratio now l : 0 <= (age (K := K) (V := V) tick ratio now l).2 <= Z.of_nat (length l).
Proof.
  induction l as [|e l IH]; cbn [age length]; [cbn; lia|]. destruct (due tick now e); cbn [snd]; [|lia].
  destruct (age tick ratio now l). cbn in *. lia.
Qed.

(** Two results of the loop are the same, whatever the fuel. *)
Lemma dynamic_age_loop_mono fuel1 : forall fuel2 d now a c r1 r2,
  dynamic_age_loop fuel1 d now a c = Ret r1 -> dynamic_age_loop fuel2 d now a c = Ret r2 -> r1 = r2.
Proof.
  induction fuel1 as [|fuel1 IH]; intros [|fuel2] d now a c r1 r2; cbn [dynamic_age_loop]; try done.
  destruct (head _) as [it|]; [|congruence].
  case_bool_decide; [congruence|].
  destruct (deref it c) as [e|]; cbn [mbind Outcome_bind]; [|done].
  destruct (negb (_ <? now)); [congruence|]. destruct (age_count _ _); [apply IH|done].
Qed.

Lemma dynamic_age_loop_fuel fuel now c :
  cache_ok c -> 0 <= m_dynamic_age_tick c -> ratio_ok (m_dynamic_age_ratio c) -> (lfu_size c < fuel)%nat ->
  exists c', dynamic_age_loop fuel (m_open_list_end c) now 0 c =
    Ret ((age (m_dynamic_age_tick c) (m_dynamic_age_ratio c) now (entries c)).2, c').
Proof.
  intros (A & B & Hc) Ht Hr Hf. rewrite (ci_open _ _ _ Hc), (entries_inv _ _ _ Hc).
  unfold lfu_size in Hf. rewrite (ci_size _ _ _ Hc) in Hf.
  destruct (dynamic_age_loop_spec fuel c A [] B now 0) as (c' & E & _); [by rewrite app_nil_r|done..|].
  exists c'. exact E.
Qed.

(** ** Theorems *)

(** C13: the cache is a bounded list of elements.  From a new cache with room
    for at least one element, a tick that is not negative, a ratio by which
    counts can be aged and a callback with a result, every run of insertions
    and updates, erasures, lookups and aging terminates without undefined
    behaviour; it answers as the list of elements does, in which a new element
    goes to the end, one that is used goes in front of the last one, and an
    insertion into a full cache first ages the elements that are due at the front and
    then evicts, through the callback, an element with the least use count.
    The cache never holds more elements than its capacity, nor two with the
    same key. *)
Theorem lfuda_refines_list (capacity : nat) (tick : Z) (ratio : spec_float) (os : list lfu_op) (x : X) :
  (0 < capacity)%nat -> 0 <= tick -> ratio_ok ratio -> (forall e x, exists x', evict_call e x = Ret x') ->
  exists rs c x', lfu_run os (lfuda_new capacity tick ratio) x = Ret (rs, c, x') /\
    list_run capacity tick ratio os [] x rs (entries c) x' /\
    NoDup (m_key <$> entries c) /\ lfu_size c = length (entries c) /\ (lfu_size c <= capacity)%nat.
Proof.
  intros Hcap Ht Hr Hcall. pose proof (lfuda_new_ok capacity tick ratio) as Hok.
  assert (lfu_capacity (lfuda_new (K := K) (V := V) capacity tick ratio) = capacity) as Ec by apply length_seq.
  destruct (lfu_run_spec os (lfuda_new capacity tick ratio) x Hok) as (rs & c & x' & E & Hok' & (Ec' & _) & Hl);
    [done|done|by rewrite Ec|done|].
  exists rs, c, x'. split; [done|]. rewrite Ec in Hl, Ec'. split; [exact Hl|].
  pose proof (lfu_size_bound c Hok') as Hb. rewrite Ec' in Hb. split; [|by rewrite entries_length].
  destruct Hok' as (A & B & Hc). rewrite (entries_inv _ _ _ Hc). by eapply keys_nodup.
Qed.

(** C14: The structures of the cache stay tied together.  From every well-formed
    cache with room for an element, every run of operations is defined and ends
    in a well-formed cache of the same capacity, tick and ratio: each node is
    in the age list once, the nodes before the first free one are those the
    hash map refers to, by the key they hold, and those the multimap holds, in
    the order of their use counts, which fit in 64 bits. *)
Theorem lfuda_well_formed (os : list lfu_op) c x :
  cache_ok c -> 0 <= m_dynamic_age_tick c -> ratio_ok (m_dynamic_age_ratio c) -> (0 < lfu_capacity c)%nat ->
  (forall e x, exists x', evict_call e x = Ret x') ->
  exists rs c' x', lfu_run os c x = Ret (rs, c', x') /\ length rs = length os /\ cache_ok c' /\ same_shape c c'.
Proof.
  intros Hok Ht Hr Hcap Hcall. destruct (lfu_run_spec os c x Hok Ht Hr Hcap Hcall) as (rs & c' & x' & E & Hok' & Hs & Hl).
  exists rs, c', x'. split; [done|]. split; [by eapply list_run_length|done].
Qed.

(** C15: The loop that ages elements terminates: with a tick that is not negative
    it needs at most one round for each element in use and one to stop, so
    that every larger bound on its rounds gives the result that
    [do_dynamic_age] has; it ages no element twice. *)
Theorem dynamic_age_terminates (fuel : nat) (now : Z) c :
  cache_ok c -> 0 <= m_dynamic_age_tick c -> ratio_ok (m_dynamic_age_ratio c) -> (lfu_size c < fuel)%nat ->
  exists n c', dynamic_age_loop fuel (m_open_list_end c) now 0 c = Ret (n, c') /\ do_dynamic_age now c = Ret (n, c') /\
    0 <= n <= Z.of_nat (lfu_size c).
Proof.
  intros Hok Ht Hr Hf. destruct (dynamic_age_loop_fuel fuel now c Hok Ht Hr Hf) as (c' & E).
  destruct (dynamic_age_loop_fuel (S (length (m_dynamic_age_list c))) now c Hok Ht Hr) as (c2 & E2).
  { pose proof (lfu_size_bound c Hok) as Hb. unfold lfu_capacity in Hb. lia. }
  unfold do_dynamic_age. rewrite E2.
  pose proof (dynamic_age_loop_mono fuel (S (length (m_dynamic_age_list c))) (m_open_list_end c) now 0 c _ _ E E2) as [= <-].
  eexists _, c'. split; [done|]. split; [done|].
  rewrite <- (entries_length c Hok : _ = lfu_size c). apply age_bound.
Qed.

(** The number of answers [true]. *)
Fixpoint trues (rs : list lfu_result) : Z :=
  match rs with
  | [] => 0
  | LBool true :: rs => trues rs + 1
  | _ :: rs => trues rs
  end.

(** The results of a run in the form of the range operations. *)
Definition counted (n : Z) (o : Outcome (list lfu_result * lfuda_cache K V * X)) : Outcome (Z * lfuda_cache K V * X) :=
  match o with Ret (rs, c, x) => Ret (n + trues rs, c, x) | UB => UB end.
Definition with_state {T} (x : X) (o : Outcome (T * lfuda_cache K V)) : Outcome (T * lfuda_cache K V * X) :=
  match o with Ret (t, c) => Ret (t, c, x) | UB => UB end.
Definition as_results (o : Outcome (list (K * option V) * lfuda_cache K V))
    : Outcome (list lfu_result * lfuda_cache K V) :=
  match o with Ret (out, c) => Ret (map (fun kv => LValue (snd kv)) out, c) | UB => UB end.

Lemma insert_range_counted kvs a now : forall n c x,
  insert_range on_evict kvs a now n c x = counted n (lfu_run (map (fun kv => LInsert (fst kv) (snd kv) a now) kvs) c x).
Proof.
  induction kvs as [|[k v] kvs IH]; intros n c x; [cbn; by rewrite Z.add_0_r|].
  cbn [insert_range map lfu_run lfu_step fst snd]. unfold lfu_insert.
  destruct (do_insert_update on_evict k v now a c x) as [[[b c1] x1]|]; cbn [mbind Outcome_bind]; [|done].
  rewrite IH. destruct (lfu_run _ c1 x1) as [[[rs c2] x2]|]; cbn [mbind Outcome_bind counted]; [|done].
  do 3 f_equal. destruct b; cbn; lia.
Qed.

Lemma erase_range_counted ks x : forall n c,
  with_state x (erase_range ks n c) = counted n (lfu_run (map LErase ks) c x).
Proof.
  induction ks as [|k ks IH]; intros n c; [cbn; by rewrite Z.add_0_r|].
  cbn [erase_range map lfu_run lfu_step]. unfold lfu_erase. destruct (m_keyed_elements c !! k) as [pos|].
  - destruct (do_erase pos c) as [c1|]; cbn [mbind Outcome_bind]; [|done]. rewrite IH.
    destruct (lfu_run _ c1 x) as [[[rs c2] x2]|]; cbn [mbind Outcome_bind counted]; [|done].
    do 3 f_equal. cbn. lia.
  - cbn [mbind Outcome_bind]. rewrite IH. by destruct (lfu_run _ c x) as [[[rs c2] x2]|].
Qed.

(** the range operations are the single operations one after the other:
    they return the number of keys that were inserted or erased, and the
    values in the order of the keys ([find_range_fill] into the range it is
    given). *)
Theorem lfuda_ranges (kvs : list (K * V)) (ks : list K) (a : allow) (peek : bool) (now : Z) c x :
  insert_range on_evict kvs a now 0 c x =
    counted 0 (lfu_run (map (fun kv => LInsert (fst kv) (snd kv) a now) kvs) c x) /\
  with_state x (erase_range ks 0 c) = counted 0 (lfu_run (map LErase ks) c x) /\
  with_state x (as_results (find_range ks peek now c)) = lfu_run (map (fun k => LFind k peek now) ks) c x /\
  forall kos, map fst kos = ks -> find_range_fill kos peek now c = find_range ks peek now c.
Proof.
  split; [apply insert_range_counted|]. split; [apply erase_range_counted|]. split; revert c.
  2: { induction ks as [|k ks IH]; intros c [|[k' ov] kos] Hk; try done. injection Hk as -> Hk. cbn.
       destruct (do_find k peek now c) as [[v c1]|]; cbn [mbind Outcome_bind]; [|done]. by rewrite (IH c1 kos Hk). }
   induction ks as [|k ks IH]; intros c; [done|]. cbn [find_range map lfu_run lfu_step].
  unfold lfu_find. destruct (do_find k peek now c) as [[v c1]|]; cbn [mbind Outcome_bind]; [|done].
  rewrite <- IH. by destruct (find_range ks peek now c1) as [[out c2]|].
Qed.

End ops.

(** ** A multimap, and concrete runs *)

(** New entries go behind the entries with the same count. *)
Fixpoint sorted_emplace (c : Z) (n : nat) (l : list (Z * nat)) : list (Z * nat) :=
  match l with
  | [] => [(c, n)]
  | y :: l => if fst y <=? c then y :: sorted_emplace c n l else (c, n) :: y :: l
  end.

#[export] Instance sorted_btree : Btree := sorted_emplace.

#[export] Instance sorted_btree_laws : BtreeLaws.
Proof.
  assert (forall c n l, sorted_emplace c n l ≡ₚ (c, n) :: l) as Hp.
  { intros c n l. induction l as [|y l IH]; [done|]. cbn. destruct (fst y <=? c); [|done].
    rewrite IH. apply Permutation_swap. }
  split; [exact Hp|]. unfold bt_emplace, sorted_btree. intros c n l.
  induction 1 as [|y l Hs IH Hy]; cbn; [repeat constructor|]. destruct (Z.leb_spec (fst y) c) as [Hle|Hlt].
  - constructor; [done|]. rewrite Hp. by constructor.
  - constructor; [by constructor|]. constructor; [unfold lfu_le; cbn; lia|].
    eapply List.Forall_impl; [|exact Hy]. unfold lfu_le. cbn. lia.
Qed.

Lemma ratio_half : ratio_ok f32_half.
Proof.
  intros n Hn. destruct (age_count_half n Hn) as (m & E & Hm & _). exists m. unfold in_u in *. split; [done|]. lia.
Qed.

(** An LFU cache of numbers; the callback records what it is called with. *)
Definition record_evict : option (Z -> Z -> list (Z * Z) -> Outcome (Z * list (Z * Z))) :=
  Some (fun k v x => Ret (v, x ++ [(k, v)])).

Definition lfu_ex (os : list (lfu_op (K := Z) (V := Z))) : Outcome (list (lfu_result (V := Z)) * lfuda_cache Z Z * list (Z * Z)) :=
  lfu_run record_evict os (lfuda_new 2 1 f32_half) [].

(** Key 1 is used twice and key 2 once: key 2 is evicted; then key 1 ages. *)
Definition lfu_ops : list (lfu_op (K := Z) (V := Z)) :=
  [LInsert 1 10 insert_or_update 0; LInsert 2 20 insert_or_update 100; LFind 1 false 200; LInsert 3 30 allow_update 300;
   LInsert 3 30 allow_insert 400; LFind 2 true 500; LAge 5000000; LFindCount 1 true 5000001; LErase 3; LErase 3].

Lemma lfuda_refines_list_witness :
  exists rs c x, lfu_ex lfu_ops = Ret (rs, c, x) /\ list_run record_evict 2 1 f32_half lfu_ops [] [] rs (entries c) x /\
    rs = [LBool true; LBool true; LValue (Some 10); LBool false; LBool true; LValue None; LNum 2; LCount (Some (10, 1));
          LBool true; LBool false] /\ x = [(2, 20)] /\ m_key <$> entries c = [1].
Proof.
  destruct (lfuda_refines_list record_evict 2 1 f32_half lfu_ops []) as (rs & c & x & E & Hl & _).
  - lia.
  - lia.
  - exact ratio_half.
  - intros e x. eexists. reflexivity.
  - exists rs, c, x. split; [exact E|]. split; [exact Hl|]. vm_compute in E. injection E as <- <- <-.
    vm_compute. auto.
Defined.

(** A cache of two used elements, one of them used twice. *)
Definition lfu_two : lfuda_cache Z Z :=
  match lfu_ex [LInsert 1 10 insert_or_update 0; LInsert 2 20 insert_or_update 100; LFind 1 false 200] with
  | Ret (_, c, _) => c
  | UB => lfuda_new 2 1 f32_half
  end.

Lemma lfu_two_ok : cache_ok lfu_two.
Proof.
  destruct (lfu_run_spec record_evict
    [LInsert 1 10 insert_or_update 0; LInsert 2 20 insert_or_update 100; LFind 1 false 200]
    (lfuda_new 2 1 f32_half) [] (lfuda_new_ok 2 1 f32_half)) as (rs & c & x & E & Hok & _).
  - cbn. lia.
  - exact ratio_half.
  - vm_compute. lia.
  - intros e x. eexists. reflexivity.
  - unfold lfu_two, lfu_ex. rewrite E. exact Hok.
Qed.

Lemma lfuda_well_formed_witness :
  exists rs c x, lfu_run record_evict lfu_ops lfu_two [] = Ret (rs, c, x) /\ cache_ok c.
Proof.
  destruct (lfuda_well_formed record_evict lfu_ops lfu_two [] lfu_two_ok) as (rs & c & x & E & _ & Hok & _).
  - vm_compute. discriminate.
  - exact ratio_half.
  - vm_compute. lia.
  - intros e x. eexists. reflexivity.
  - exists rs, c, x. split; [exact E|exact Hok].
Defined.

Lemma dynamic_age_terminates_witness :
  exists c, dynamic_age_loop 7 (m_open_list_end lfu_two) 5000000 0 lfu_two = Ret (2, c).
Proof.
  destruct (dynamic_age_terminates 7 5000000 lfu_two lfu_two_ok) as (n & c & E & _).
  - vm_compute. discriminate.
  - exact ratio_half.
  - vm_compute. lia.
  - exists c. rewrite E. vm_compute in E. injection E as <- _. reflexivity.
Defined.

(** An access does not keep the list in the order of age: the accessed element
    goes in front of the last one, so an element that is due can stand behind
    one that is not, and aging stops in front of it. *)
Example access_blocks_aging :
  match lfu_ex [LInsert 1 10 insert_or_update 0; LInsert 2 20 insert_or_update 100; LFind 1 false 5000000;
                LAge 5500000] with
  | Ret (rs, c, _) =>
      rs = [LBool true; LBool true; LValue (Some 10); LNum 0] /\
      m_key <$> entries c = [1; 2] /\ due 1 5500000 <$> entries c = [false; true]
  | UB => False
  end.
Proof. vm_compute. auto. Qed.

(** An insertion into a cache of capacity zero is undefined. *)
Example zero_capacity_undefined :
  lfu_insert record_evict 1 10 insert_or_update 0 (lfuda_new 0 1 f32_half) [] = UB.
Proof. vm_compute. reflexivity. Qed.
