(* ===== verification/Lock.v ===== *)
(** * The lock of the LFU cache ([parakv/core/cache/lock.h])

    [mutex<thread_safe_type>] and what it gives the methods of [lfuda_cache]:
    each method takes the lock, does its work in any number of steps between
    which other threads can run, and releases the lock.  With [thread_safe::yes]
    the methods have the effect and the results they have one after the other;
    with [thread_safe::no], the policy that does not lock, two threads can break
    the cache. *)

From S2P Require Import Prelude Common SegmentBase Lfuda AgeCount LfudaTheorems.
From Stdlib Require Import SpecFloat.

Inductive thread_safe := ts_no | ts_yes.

(** [m]: whether the [std::mutex] inside is held; [None]: the caller waits. *)
Definition mutex_lock (ts : thread_safe) (m : bool) : option bool :=
  match ts with
  | ts_yes => if m then None else Some true
  | ts_no => Some m
  end.

Definition mutex_unlock (ts : thread_safe) (m : bool) : bool :=
  match ts with
  | ts_yes => false
  | ts_no => m
  end.

(** ** Methods that hold the lock *)

Section guard.
Context {S L : Type}.

(** The steps of a method on the shared state [S] and its own variables [L]. *)
Record body := mkBody { b_init : L; b_cuts : list (S -> L -> Outcome (S * L)) }.

Fixpoint run_cuts (fs : list (S -> L -> Outcome (S * L))) (s : S) (l : L) : Outcome (S * L) :=
  match fs with
  | [] => Ret (s, l)
  | f :: fs => '(s, l) ← f s l; run_cuts fs s l
  end.

(** Before [std::lock_guard], behind it with the steps left, returned. *)
Inductive gpc :=
| Waiting (b : body)
| Inside (fs : list (S -> L -> Outcome (S * L))) (l : L)
| Left (l : L).

Record Guarded := mkGuarded { g_locked : bool; g_state : S; g_calls : list gpc }.

Definition guard_step (ts : thread_safe) (p : gpc) (m : bool) (s : S) : Outcome (gpc * bool * S) :=
  match p with
  | Waiting b =>
      match mutex_lock ts m with
      | None => Ret (p, m, s)
      | Some m => Ret (Inside (b_cuts b) (b_init b), m, s)
      end
  | Inside [] l => Ret (Left l, mutex_unlock ts m, s)
  | Inside (f :: fs) l => '(s, l) ← f s l; Ret (Inside fs l, m, s)
  | Left _ => Ret (p, m, s)
  end.

(** The call [i] moves. *)
Definition guard_move (ts : thread_safe) (i : nat) (g : Guarded) : Outcome Guarded :=
  match g_calls g !! i with
  | None => Ret g
  | Some p =>
      '(p, m, s) ← guard_step ts p (g_locked g) (g_state g);
      Ret (mkGuarded m s (<[i := p]> (g_calls g)))
  end.

Fixpoint guard_run (ts : thread_safe) (is_ : list nat) (g : Guarded) : Outcome Guarded :=
  match is_ with
  | [] => Ret g
  | i :: is_ => g ← guard_move ts i g; guard_run ts is_ g
  end.

(** The calls [order], one after the other. *)
Fixpoint seq_run (bs : list body) (order : list nat) (s : S) : Outcome (S * list L) :=
  match order with
  | [] => Ret (s, [])
  | i :: order =>
      match bs !! i with
      | None => seq_run bs order s
      | Some b =>
          '(s, l) ← run_cuts (b_cuts b) s (b_init b);
          '(s, ls) ← seq_run bs order s;
          Ret (s, l :: ls)
      end
  end.

Lemma run_cuts_app fs gs s l : run_cuts (fs ++ gs) s l = '(s, l) ← run_cuts fs s l; run_cuts gs s l.
Proof.
  revert s l. induction fs as [|f fs IH]; intros s l; [done|]. cbn [run_cuts app].
  destruct (f s l) as [[s1 l1]|]; [|done]. apply IH.
Qed.

Lemma seq_run_snoc bs order i b s s1 ls :
  seq_run bs order s = Ret (s1, ls) -> bs !! i = Some b ->
  seq_run bs (order ++ [i]) s = '(s2, l) ← run_cuts (b_cuts b) s1 (b_init b); Ret (s2, ls ++ [l]).
Proof.
  revert s ls. induction order as [|j order IH]; intros s ls E Hi; cbn [seq_run app] in *.
  - injection E as <- <-. rewrite Hi. by destruct (run_cuts _ _ _) as [[? ?]|].
  - destruct (bs !! j) as [bj|]; [|by apply IH]. destruct (run_cuts (b_cuts bj) s _) as [[s2 l2]|]; [|done].
    cbn [mbind Outcome_bind] in *. destruct (seq_run bs order s2) as [[s3 ls3]|] eqn:E3; [|done]. injection E as <- <-.
    rewrite (IH s2 ls3 E3 Hi). by destruct (run_cuts (b_cuts b) s3 _) as [[? ?]|].
Qed.

Lemma seq_run_length bs order s s' ls :
  (forall i, i ∈ order -> is_Some (bs !! i)) -> seq_run bs order s = Ret (s', ls) -> length ls = length order.
Proof.
  revert s ls. induction order as [|j order IH]; intros s ls Hin E; cbn [seq_run] in E; [by injection E as <- <-|].
  destruct (Hin j) as [b Hb]; [by left|]. rewrite Hb in E. destruct (run_cuts _ _ _) as [[s2 l2]|]; [|done]. cbn in E.
  destruct (seq_run bs order s2) as [[s3 ls3]|] eqn:E3; [|done]. injection E as <- <-. cbn. f_equal.
  apply (IH s2); [|done]. intros i Hi. apply Hin. by right.
Qed.

(** The calls that returned did so one after the other; one more may be
    inside. *)
Record serial (bs : list body) (s0 : S) (g : Guarded) (order : list nat) (ls : list L) (s1 : S) : Prop := {
  se_run : seq_run bs order s0 = Ret (s1, ls);
  se_nodup : NoDup order;
  se_known : forall i, i ∈ order -> is_Some (bs !! i);
  se_length : length (g_calls g) = length bs;
  se_calls : forall i b, bs !! i = Some b ->
    ((i ∉ order) /\ g_calls g !! i = Some (Waiting b)) \/
    (exists n l, order !! n = Some i /\ ls !! n = Some l /\ g_calls g !! i = Some (Left l)) \/
    (g_locked g = true /\ (i ∉ order) /\ exists pre fs l, g_calls g !! i = Some (Inside fs l) /\ b_cuts b = pre ++ fs /\
       run_cuts pre s1 (b_init b) = Ret (g_state g, l));
  se_alone : forall i j fs gs l k, g_calls g !! i = Some (Inside fs l) -> g_calls g !! j = Some (Inside gs k) -> i = j;
  se_free : g_locked g = false -> g_state g = s1;
  se_held : g_locked g = true -> exists i fs l, g_calls g !! i = Some (Inside fs l);
}.

Lemma serial_start bs s0 : serial bs s0 (mkGuarded false s0 (Waiting <$> bs)) [] [] s0.
Proof.
  split; cbn; try done; [constructor|by intros i ?%elem_of_nil|by rewrite length_fmap| |].
  - intros i b Hi. left. split; [apply not_elem_of_nil|]. by rewrite list_lookup_fmap, Hi.
  - intros i j fs gs l k Hi. rewrite list_lookup_fmap in Hi. by destruct (bs !! i).
Qed.

(** A call takes the free lock. *)
Lemma serial_enter bs s0 g order ls s1 i b :
  serial bs s0 g order ls s1 -> g_calls g !! i = Some (Waiting b) -> g_locked g = false ->
  serial bs s0 (mkGuarded true (g_state g) (<[i := Inside (b_cuts b) (b_init b)]> (g_calls g))) order ls s1.
Proof.
  intros Hs Hi Hf. pose proof Hs as [Hr Hnd Hk Hl Hc Ha Hfr Hh]. pose proof (lookup_lt_Some _ _ _ Hi) as Hlt.
  assert (forall j fs l, g_calls g !! j <> Some (Inside fs l)) as Hno.
  { intros j fs l Hj. destruct (lookup_lt_is_Some_2 bs j) as [bj Hbj]; [rewrite <- Hl; by eapply lookup_lt_Some|].
    destruct (Hc j bj Hbj) as [[_ E]|[(n & k & _ & _ & E)|[E _]]]; congruence. }
  split; cbn [g_locked g_state g_calls]; try done.
  - by rewrite length_insert.
  - intros j bj Hj. destruct (decide (i = j)) as [<-|Hne].
    + right. right. split; [done|]. destruct (Hc i bj Hj) as [[Hn E]|[(n & k & _ & _ & E)|[E _]]]; [|congruence|congruence].
      split; [done|]. rewrite Hi in E. injection E as <-. exists [], (b_cuts b), (b_init b).
      rewrite list_lookup_insert_eq by done. split; [done|]. split; [done|]. cbn. by rewrite Hfr.
    + rewrite list_lookup_insert_ne by done. destruct (Hc j bj Hj) as [?|[?|[? _]]]; [by left|by right; left|congruence].
  - intros j j' fs gs l k Hj Hj'. apply list_lookup_insert_Some in Hj as [(<- & _)|[_ Hj]]; [|by destruct (Hno j fs l)].
    apply list_lookup_insert_Some in Hj' as [(<- & _)|[_ Hj']]; [done|by destruct (Hno j' gs k)].
  - intros _. exists i. do 2 eexists. by rewrite list_lookup_insert_eq.
Qed.

(** The call that holds the lock does a step. *)
Lemma serial_inside bs s0 g order ls s1 i fs l :
  serial bs s0 g order ls s1 -> g_calls g !! i = Some (Inside fs l) ->
  g_locked g = true /\ exists b pre, bs !! i = Some b /\ (i ∉ order) /\ b_cuts b = pre ++ fs /\
    run_cuts pre s1 (b_init b) = Ret (g_state g, l).
Proof.
  intros [Hr Hnd Hk Hl Hc Ha Hfr Hh] Hi.
  destruct (lookup_lt_is_Some_2 bs i) as [b Hb]; [rewrite <- Hl; by eapply lookup_lt_Some|].
  destruct (Hc i b Hb) as [[_ E]|[(n & k & _ & _ & E)|(El & Hn & pre & fs' & l' & E & Hp & Hrun)]]; [congruence|congruence|].
  rewrite Hi in E. injection E as <- <-. split; [done|]. exists b, pre. done.
Qed.

Lemma serial_cut bs s0 g order ls s1 i f fs l s' l' :
  serial bs s0 g order ls s1 -> g_calls g !! i = Some (Inside (f :: fs) l) -> f (g_state g) l = Ret (s', l') ->
  serial bs s0 (mkGuarded true s' (<[i := Inside fs l']> (g_calls g))) order ls s1.
Proof.
  intros Hs Hi Ef. destruct (serial_inside _ _ _ _ _ _ _ _ _ Hs Hi) as (Hlk & b & pre & Hb & Hn & Hp & Hrun).
  pose proof Hs as [Hr Hnd Hk Hl Hc Ha Hfr Hh]. pose proof (lookup_lt_Some _ _ _ Hi) as Hlt.
  split; cbn [g_locked g_state g_calls]; try done.
  - by rewrite length_insert.
  - intros j bj Hj. destruct (decide (i = j)) as [<-|Hne].
    + right. right. split; [done|]. split; [done|]. exists (pre ++ [f]), fs, l'. rewrite list_lookup_insert_eq by done.
      split; [done|]. rewrite Hb in Hj. injection Hj as <-. split; [by rewrite <- app_assoc|]. rewrite run_cuts_app, Hrun. cbn. by rewrite Ef.
    + rewrite list_lookup_insert_ne by done. destruct (Hc j bj Hj) as [?|[?|(_ & _ & p & fj & lj & Ej & _)]]; [by left|by right; left|].
      destruct Hne. by eapply Ha.
  - intros j j' fj fj' lj lj' Hj Hj'. apply list_lookup_insert_Some in Hj as [(<- & _)|[Hne Hj]].
    + apply list_lookup_insert_Some in Hj' as [(<- & _)|[_ Hj']]; [done|]. by eapply Ha.
    + by destruct (Hne (Ha _ _ _ _ _ _ Hi Hj)).
  - intros _. exists i. do 2 eexists. by rewrite list_lookup_insert_eq.
Qed.

(** It releases the lock. *)
Lemma serial_leave bs s0 g order ls s1 i l :
  serial bs s0 g order ls s1 -> g_calls g !! i = Some (Inside [] l) ->
  serial bs s0 (mkGuarded false (g_state g) (<[i := Left l]> (g_calls g))) (order ++ [i]) (ls ++ [l]) (g_state g).
Proof.
  intros Hs Hi. destruct (serial_inside _ _ _ _ _ _ _ _ _ Hs Hi) as (Hlk & b & pre & Hb & Hn & Hp & Hrun).
  pose proof Hs as [Hr Hnd Hk Hl Hc Ha Hfr Hh]. pose proof (lookup_lt_Some _ _ _ Hi) as Hlt.
  pose proof (seq_run_length _ _ _ _ _ Hk Hr) as Hlen.
  assert (forall j fs k, i <> j -> g_calls g !! j <> Some (Inside fs k)) as Hno.
  { intros j fs k Hne Hj. by destruct (Hne (Ha _ _ _ _ _ _ Hi Hj)). }
  split; cbn [g_locked g_state g_calls]; try done.
  - rewrite (seq_run_snoc _ _ _ _ _ _ _ Hr Hb), Hp, app_nil_r, Hrun. done.
  - apply NoDup_app. split; [done|]. split; [|apply NoDup_singleton]. intros j Hj ->%list_elem_of_singleton. done.
  - intros j [Hj|Hj%list_elem_of_singleton]%elem_of_app; [by apply Hk|]. subst j. by exists b.
  - by rewrite length_insert.
  - intros j bj Hj. destruct (decide (i = j)) as [<-|Hne].
    + right. left. exists (length order), l. rewrite list_lookup_middle, list_lookup_middle, list_lookup_insert_eq by done. done.
    + rewrite list_lookup_insert_ne by done. destruct (Hc j bj Hj) as [[Hnj E]|[(n & k & En & Ek & E)|(_ & _ & p & fj & lj & Ej & _)]].
      * left. split; [|done]. rewrite not_elem_of_app, list_elem_of_singleton. auto.
      * right. left. exists n, k. rewrite !lookup_app_l by (by eapply lookup_lt_Some). done.
      * by destruct (Hno j fj lj Hne).
  - intros j j' fj fj' lj lj' Hj Hj'. apply list_lookup_insert_Some in Hj as [(_ & ? & _)|[Hne Hj]]; [done|].
    by destruct (Hno j fj lj Hne).
Qed.

Lemma guard_move_serial bs s0 g order ls s1 i :
  serial bs s0 g order ls s1 ->
  match guard_move ts_yes i g with
  | UB => exists order', NoDup order' /\ seq_run bs order' s0 = UB
  | Ret g' => exists order' ls' s1', serial bs s0 g' order' ls' s1'
  end.
Proof.
  intros Hs. unfold guard_move. destruct (g_calls g !! i) as [p|] eqn:Ei; [|by exists order, ls, s1].
  assert (mkGuarded (g_locked g) (g_state g) (<[i := p]> (g_calls g)) = g) as Eid
    by (rewrite list_insert_id by done; by destruct g).
  destruct p as [b|[|f fs] l|l]; cbn [guard_step].
  - unfold mutex_lock. destruct (g_locked g) eqn:El; cbn [mbind Outcome_bind].
    + rewrite Eid. by exists order, ls, s1.
    + exists order, ls, s1. by apply serial_enter.
  - cbn [mbind Outcome_bind mutex_unlock]. do 3 eexists. by apply (serial_leave _ _ _ order ls s1).
  - destruct (f (g_state g) l) as [[s' l']|] eqn:Ef; cbn [mbind Outcome_bind].
    + destruct (serial_inside _ _ _ _ _ _ _ _ _ Hs Ei) as [-> _]. exists order, ls, s1. by eapply serial_cut.
    + destruct (serial_inside _ _ _ _ _ _ _ _ _ Hs Ei) as (_ & b & pre & Hb & Hn & Hp & Hrun).
      exists (order ++ [i]). split.
      * apply NoDup_app. split; [apply Hs|]. split; [|apply NoDup_singleton]. by intros j Hj ->%list_elem_of_singleton.
      * rewrite (seq_run_snoc _ _ _ _ _ _ _ (se_run _ _ _ _ _ _ Hs) Hb), Hp, run_cuts_app, Hrun. cbn. by rewrite Ef.
  - cbn [mbind Outcome_bind]. rewrite Eid. by exists order, ls, s1.
Qed.

Lemma guard_run_serial bs s0 is_ g order ls s1 :
  serial bs s0 g order ls s1 ->
  match guard_run ts_yes is_ g with
  | UB => exists order', NoDup order' /\ seq_run bs order' s0 = UB
  | Ret g' => exists order' ls' s1', serial bs s0 g' order' ls' s1'
  end.
Proof.
  revert g order ls s1. induction is_ as [|i is_ IH]; intros g order ls s1 Hs; cbn [guard_run]; [by exists order, ls, s1|].
  pose proof (guard_move_serial bs s0 g order ls s1 i Hs) as Hm. destruct (guard_move ts_yes i g) as [g1|]; [|done].
  destruct Hm as (o & l & s2 & Hs1). by apply (IH g1 o l s2).
Qed.

(** The mutex serializes the methods it guards.  However threads take turns,
    with [thread_safe::yes] at most one call is between its lock and its
    unlock; whenever the lock is free, the state is the one the calls that
    returned leave when they run one after the other, in some order, and each
    returned what it returns there.  If a step has no result then neither has
    such a run. *)
Lemma mutex_serial (bs : list body) (s0 : S) (is_ : list nat) :
  match guard_run ts_yes is_ (mkGuarded false s0 (Waiting <$> bs)) with
  | UB => exists order, NoDup order /\ seq_run bs order s0 = UB
  | Ret g =>
      (forall i j fs gs l k, g_calls g !! i = Some (Inside fs l) -> g_calls g !! j = Some (Inside gs k) -> i = j) /\
      (g_locked g = false -> exists order ls,
         NoDup order /\ length ls = length order /\ (forall i, i ∈ order <-> exists l, g_calls g !! i = Some (Left l)) /\
         seq_run bs order s0 = Ret (g_state g, ls) /\
         forall n i l, order !! n = Some i -> ls !! n = Some l -> g_calls g !! i = Some (Left l))
  end.
Proof.
  pose proof (guard_run_serial bs s0 is_ _ _ _ _ (serial_start bs s0)) as Hr.
  destruct (guard_run ts_yes is_ _) as [g|]; [|done]. destruct Hr as (order & ls & s1 & Hs).
  pose proof Hs as [Hrun Hnd Hk Hl Hc Ha Hfr Hh]. split; [exact Ha|]. intros El. rewrite (Hfr El).
  assert (forall n i l, order !! n = Some i -> ls !! n = Some l -> g_calls g !! i = Some (Left l)) as Hleft.
  { intros n i l Hn Hls. destruct (Hk i) as [b Hb]; [by eapply list_elem_of_lookup_2|].
    destruct (Hc i b Hb) as [[Hni _]|[(n' & l' & Hn' & Hl' & E)|[? _]]]; [|by rewrite E; pose proof (NoDup_lookup _ _ _ _ Hnd Hn Hn'); congruence|congruence].
    destruct Hni. by eapply list_elem_of_lookup_2. }
  exists order, ls. split; [done|]. split; [by eapply seq_run_length|]. split; [|done]. intros i. split.
  - intros [n Hn]%list_elem_of_lookup. destruct (lookup_lt_is_Some_2 ls n) as [l Hln].
    { rewrite (seq_run_length _ _ _ _ _ Hk Hrun). by eapply lookup_lt_Some. }
    exists l. by eapply Hleft.
  - intros [l Hi]. destruct (lookup_lt_is_Some_2 bs i) as [b Hb]; [rewrite <- Hl; by eapply lookup_lt_Some|].
    destruct (Hc i b Hb) as [[_ E]|[(n & l' & Hn & _)|[? _]]]; [congruence|by eapply list_elem_of_lookup_2|congruence].
Qed.

End guard.
Arguments body S L : clear implicits.
Arguments gpc S L : clear implicits.
Arguments Guarded S L : clear implicits.

(** ** The methods of the LFU cache *)

Section lfu.
Context {K V X : Type} `{Countable K} `{!Inhabited K, !Inhabited V} `{!Btree, !BtreeLaws}.
Context (on_evict : option (K -> V -> X -> Outcome (V * X))).
Implicit Types (c : lfuda_cache K V) (o : lfu_op (K := K) (V := V)).

(** [keyed_position] and what the method returns. *)
Record locals := mkLocals { keyed_position : option nat; l_result : option (lfu_result (V := V)) }.

Definition lfu_cut : Type := lfuda_cache K V * X -> locals -> Outcome ((lfuda_cache K V * X) * locals).

Definition find_cut (k : K) : lfu_cut := fun '(c, x) l => Ret ((c, x), mkLocals (m_keyed_elements c !! k) (l_result l)).

(** The method returns [r]. *)
Definition returning (l : locals) (r : lfu_result (V := V)) : locals := mkLocals (keyed_position l) (Some r).

(** The work of a method in the steps between which it looks at its variables:
    the search for the key, then the rest. *)
Definition lfu_cuts o : list lfu_cut :=
  match o with
  | LInsert k v a now =>
      [find_cut k; fun '(c, x) l =>
         match keyed_position l with
         | Some pos =>
             if update_allowed a then c ← do_update pos v now c; Ret ((c, x), returning l (LBool true))
             else Ret ((c, x), returning l (LBool false))
         | None =>
             if insert_allowed a then '(c, x) ← do_insert on_evict k v now c x; Ret ((c, x), returning l (LBool true))
             else Ret ((c, x), returning l (LBool false))
         end]
  | LErase k =>
      [find_cut k; fun '(c, x) l =>
         match keyed_position l with
         | Some pos => c ← do_erase pos c; Ret ((c, x), returning l (LBool true))
         | None => Ret ((c, x), returning l (LBool false))
         end]
  | LFind k peek now =>
      [find_cut k; fun '(c, x) l =>
         match keyed_position l with
         | Some age_it =>
             c ← (if negb peek then do_access age_it now c else Ret c);
             e ← deref age_it c;
             Ret ((c, x), returning l (LValue (Some (m_value e))))
         | None => Ret ((c, x), returning l (LValue None))
         end]
  | LFindCount k peek now =>
      [find_cut k; fun '(c, x) l =>
         match keyed_position l with
         | Some age_it =>
             c ← (if negb peek then do_access age_it now c else Ret c);
             e ← deref age_it c;
             Ret ((c, x), returning l (LCount (Some (m_value e, m_use_count e))))
         | None => Ret ((c, x), returning l (LCount None))
         end]
  | LAge now => [fun '(c, x) l => '(n, c) ← dynamically_age now c; Ret ((c, x), returning l (LNum n))]
  end.

Definition lfu_body o : body (lfuda_cache K V * X) locals := mkBody (mkLocals None None) (lfu_cuts o).

#[local] Ltac ret_tac := cbn [mbind Outcome_bind]; first [reflexivity | eexists; split; reflexivity].

(** The steps make up the method. *)
Lemma lfu_body_step o c x :
  match lfu_step on_evict o c x with
  | UB => run_cuts (lfu_cuts o) (c, x) (mkLocals None None) = UB
  | Ret (r, c', x') => exists l, run_cuts (lfu_cuts o) (c, x) (mkLocals None None) = Ret ((c', x'), l) /\ l_result l = Some r
  end.
Proof.
  destruct o as [k v a now|k|k peek now|k peek now|now]; cbn [lfu_step lfu_cuts run_cuts find_cut].
  - unfold lfu_insert, do_insert_update. cbn [mbind Outcome_bind keyed_position]. destruct (m_keyed_elements c !! k) as [pos|].
    + destruct (update_allowed a); [|cbn; ret_tac]. destruct (do_update pos v now c); cbn; ret_tac.
    + destruct (insert_allowed a); [|cbn; ret_tac]. destruct (do_insert _ k v now c x) as [[? ?]|]; cbn; ret_tac.
  - unfold lfu_erase. cbn [mbind Outcome_bind keyed_position]. destruct (m_keyed_elements c !! k) as [pos|]; [|cbn; ret_tac].
    destruct (do_erase pos c); cbn; ret_tac.
  - unfold lfu_find, do_find. cbn [mbind Outcome_bind keyed_position]. destruct (m_keyed_elements c !! k) as [pos|]; [|cbn; ret_tac].
    destruct (if negb peek then _ else _) as [c1|]; [|done]. cbn. destruct (deref pos c1); cbn; ret_tac.
  - unfold find_with_use_count, do_find_with_use_count. cbn [mbind Outcome_bind keyed_position].
    destruct (m_keyed_elements c !! k) as [pos|]; [|cbn; ret_tac].
    destruct (if negb peek then _ else _) as [c1|]; [|done]. cbn. destruct (deref pos c1); cbn; ret_tac.
  - destruct (dynamically_age now c) as [[? ?]|]; ret_tac.
Qed.

(** One after the other they are a run. *)
Lemma lfu_bodies_run os order c x :
  match lfu_run on_evict (omap (fun i => os !! i) order) c x with
  | UB => seq_run (lfu_body <$> os) order (c, x) = UB
  | Ret (rs, c', x') => exists ls, seq_run (lfu_body <$> os) order (c, x) = Ret ((c', x'), ls) /\ l_result <$> ls = Some <$> rs
  end.
Proof.
  revert c x. induction order as [|i order IH]; intros c x; [cbn; by exists []|]. cbn [seq_run omap list_omap].
  rewrite list_lookup_fmap. destruct (os !! i) as [o|]; cbn [fmap option_fmap option_map]; [|apply IH]. cbn [lfu_run b_cuts b_init lfu_body].
  pose proof (lfu_body_step o c x) as Ho. destruct (lfu_step on_evict o c x) as [[[r c1] x1]|]; cbn [mbind Outcome_bind].
  - destruct Ho as (l & -> & Hl). cbn [mbind Outcome_bind]. specialize (IH c1 x1).
    destruct (lfu_run on_evict _ c1 x1) as [[[rs c2] x2]|]; cbn [mbind Outcome_bind].
    + destruct IH as (ls & -> & Hls). exists (l :: ls). split; [done|]. cbn. by rewrite Hl, Hls.
    + by rewrite IH.
  - by rewrite Ho.
Qed.

(** C16: The LFU cache behind its lock.  Threads call its methods in any
    interleaving of their steps.  With [thread_safe::yes] no step is undefined,
    and whenever the lock is free the methods that returned did so in some
    order one after the other: their results and the elements are those of the
    bounded list in the order of age. *)
Theorem lfuda_concurrent (capacity : nat) (tick : Z) (ratio : spec_float) (os : list (lfu_op (K := K) (V := V))) (x : X)
    (is_ : list nat) :
  (0 < capacity)%nat -> 0 <= tick -> ratio_ok ratio -> (forall e x, exists x', evict_call on_evict e x = Ret x') ->
  exists g, guard_run ts_yes is_ (mkGuarded false (lfuda_new capacity tick ratio, x) (Waiting <$> (lfu_body <$> os))) = Ret g /\
    (g_locked g = false -> exists order rs,
       NoDup order /\ (forall i, i ∈ order <-> exists l, g_calls g !! i = Some (Left l)) /\
       list_run on_evict capacity tick ratio (omap (fun i => os !! i) order) [] x rs (entries (g_state g).1) (g_state g).2 /\
       forall n i, order !! n = Some i -> exists l r, g_calls g !! i = Some (Left l) /\ l_result l = Some r /\ rs !! n = Some r).
Proof.
  intros Hcap Ht Hr Hcall. set (c0 := lfuda_new capacity tick ratio).
  assert (forall order, exists rs c x' ls, seq_run (lfu_body <$> os) order (c0, x) = Ret ((c, x'), ls) /\
    l_result <$> ls = Some <$> rs /\ list_run on_evict capacity tick ratio (omap (fun i => os !! i) order) [] x rs (entries c) x') as Hrun.
  { intros order. assert (lfu_capacity c0 = capacity) as Ec by apply length_seq.
    destruct (lfu_run_spec on_evict (omap (fun i => os !! i) order) c0 x (lfuda_new_ok capacity tick ratio))
      as (rs & c & x' & E & _ & _ & Hl); [done|done|by rewrite Ec|done|]. rewrite Ec in Hl.
    pose proof (lfu_bodies_run os order c0 x) as Hb. rewrite E in Hb. destruct Hb as (ls & Es & Hls). by exists rs, c, x', ls. }
  pose proof (mutex_serial (lfu_body <$> os) (c0, x) is_) as Hm.
  destruct (guard_run ts_yes is_ _) as [g|].
  2: { destruct Hm as (order & _ & E). destruct (Hrun order) as (? & ? & ? & ? & E' & _). congruence. }
  exists g. split; [done|]. intros El. destruct (proj2 Hm El) as (order & ls & Hnd & Hlen & Hin & E & Hleft).
  destruct (Hrun order) as (rs & c & x' & ls' & E' & Hls & Hl). rewrite E in E'. injection E' as Eg <-.
  rewrite Eg. exists order, rs. split; [done|]. split; [done|]. split; [done|]. intros n i Hn.
  destruct (lookup_lt_is_Some_2 ls n) as [l Hl']; [rewrite Hlen; by eapply lookup_lt_Some|].
  assert ((l_result <$> ls) !! n = Some <$> (rs !! n)) as Hres by (by rewrite Hls, list_lookup_fmap).
  rewrite list_lookup_fmap, Hl' in Hres. cbn in Hres. destruct (rs !! n) as [r|] eqn:Er; [|done]. injection Hres as Hres.
  exists l, r. split; [by eapply Hleft|done].
Qed.

End lfu.

(** ** Concrete runs *)

(** Two threads insert the same key; one searches, then the other does. *)
Definition same_key : list (lfu_op (K := Z) (V := Z)) := [LInsert 1 10 insert_or_update 0; LInsert 1 20 insert_or_update 0].
Definition in_turn : list nat := [0; 1; 0; 1; 0; 1; 0; 1; 1; 1; 1]%nat.

Definition lfu_threads (ts : thread_safe) : Outcome (Guarded (lfuda_cache Z Z * list (Z * Z)) locals) :=
  guard_run ts in_turn (mkGuarded false (lfuda_new 2 1 f32_half, []) (Waiting <$> (lfu_body record_evict <$> same_key))).

(** What the calls returned, and the keys in the cache. *)
Definition seen_by (r : Outcome (Guarded (lfuda_cache Z Z * list (Z * Z)) locals)) : option (list (option (lfu_result (V := Z))) * list Z) :=
  match r with
  | UB => None
  | Ret g => Some ((fun p => match p with Left l => l_result l | _ => None end) <$> g_calls g, m_key <$> entries (g_state g).1)
  end.

Lemma lfuda_concurrent_witness :
  exists g, lfu_threads ts_yes = Ret g /\ g_locked g = false /\ m_key <$> entries (g_state g).1 = [1] /\
    exists order rs, NoDup order /\
      list_run record_evict 2 1 f32_half (omap (fun i => same_key !! i) order) [] [] rs (entries (g_state g).1) (g_state g).2.
Proof.
  destruct (lfuda_concurrent record_evict 2 1 f32_half same_key [] in_turn) as (g & E & Hg).
  - lia.
  - lia.
  - exact ratio_half.
  - intros e x. eexists. reflexivity.
  - exists g. split; [exact E|].
    assert (g_locked g = false /\ m_key <$> entries (g_state g).1 = [1]) as [El Ek].
    { assert (match lfu_threads ts_yes with Ret g => (g_locked g, m_key <$> entries (g_state g).1) | UB => (true, []) end = (false, [1])) as Ev
        by (vm_compute; reflexivity).
      unfold lfu_threads in Ev. rewrite E in Ev. by injection Ev as -> ->. }
    split; [exact El|]. split; [exact Ek|]. destruct (Hg El) as (order & rs & Hnd & _ & Hl & _).
    exists order, rs. split; [exact Hnd|exact Hl].
Defined.

(** Without the lock both threads find no element and both add one: the cache
    holds the key twice.  With it the second updates the element of the first. *)
Example unlocked_insert_duplicates_key :
  seen_by (lfu_threads ts_no) = Some ([Some (LBool true); Some (LBool true)], [1; 1]) /\
  seen_by (lfu_threads ts_yes) = Some ([Some (LBool true); Some (LBool true)], [1]).
Proof. vm_compute. auto. Qed.
