(* ===== verification/Backend.v ===== *)
(** * The storage backend interface

    [core/kvcache_storage/kvcache_storage_backend.h]: the codes, options and
    results, and the interface the layers above program against.  Keys, values
    and metadata are byte strings (lists of byte values); messages are strings.

    A call may read the steady clock several times: [clock i] is the [i]-th
    reading, in nanoseconds. *)

From S2P Require Import Prelude.

Inductive BackendCode :=
  | BkOk
  | BkNotFound
  | BkAlreadyExists
  | BkValueTooLarge
  | BkStorageFull
  | BkIOError
  | BkUnavailable
  | BkCorrupted
  | BkInvalidArgument.

#[export] Instance BackendCode_eq_dec : EqDecision BackendCode.
Proof. solve_decision. Defined.

Definition backend_code_value (c : BackendCode) : Z :=
  match c with
  | BkOk => 0 | BkNotFound => 1 | BkAlreadyExists => 2 | BkValueTooLarge => 3 | BkStorageFull => 5
  | BkIOError => 6 | BkUnavailable => 7 | BkCorrupted => 8 | BkInvalidArgument => 9
  end.

Definition code_is_ok (c : BackendCode) : bool := bool_decide (c = BkOk).

Record WriteOptions := mkWriteOptions { wo_overwrite : bool; wo_durable : bool; wo_ttl_ms : Z }.
Record ReadOptions := mkReadOptions { ro_include_value : bool; ro_touch_on_hit : bool }.

Record WriteResult := mkWriteResult { wr_code : BackendCode; wr_message : string }.
Record ReadResult := mkReadResult {
  rr_code : BackendCode;
  rr_message : string;
  rr_value : list Z;
  rr_metadata : list Z;
  rr_expiration_ms : Z;
}.

(** A backend with the states [S]; the virtual functions of the base class. *)
Class KVCacheStorageBackend (S : Type) := {
  backend_Put : list Z -> list Z -> list Z -> WriteOptions -> (nat -> Z) -> S -> Outcome (WriteResult * S);
  backend_Get : list Z -> ReadOptions -> (nat -> Z) -> S -> Outcome (ReadResult * S);
  backend_Delete : list Z -> S -> Outcome (WriteResult * S);
  backend_Close : S -> S;
}.

(** ** What a backend promises

    The abstract state takes a key to its value and metadata.  A backend may
    drop entries at any time (eviction, expiry), but it never returns anything
    but what was last written under the key, and a deleted key stays away. *)

Definition kv_view : Type := list Z -> option (list Z * list Z).

(** Entries of [m'] other than [key]'s are entries of [m]. *)
Definition keeps_others (key : list Z) (m m' : kv_view) : Prop :=
  forall key' x, bytes_ok key' -> key' <> key -> m' key' = Some x -> m key' = Some x.
Definition shrinks (m m' : kv_view) : Prop :=
  forall key' x, bytes_ok key' -> m' key' = Some x -> m key' = Some x.

Lemma shrinks_refl m : shrinks m m.
Proof. by intros ? ?. Qed.

Lemma shrinks_trans m1 m2 m3 : shrinks m1 m2 -> shrinks m2 m3 -> shrinks m1 m3.
Proof. intros H1 H2 k x Hk Hx. by apply H1, H2. Qed.

Definition put_promise (key value metadata : list Z) (r : WriteResult) (m m' : kv_view) : Prop :=
  if decide (wr_code r = BkOk)
  then m' key = Some (value, metadata) /\ keeps_others key m m' else shrinks m m'.

Definition get_promise (key : list Z) (opts : ReadOptions) (r : ReadResult) (m m' : kv_view) : Prop :=
  shrinks m m' /\
  if decide (rr_code r = BkOk)
  then exists value, m key = Some (value, rr_metadata r) /\ rr_value r = if ro_include_value opts then value else []
  else rr_value r = [] /\ rr_metadata r = [].

Definition delete_promise (key : list Z) (r : WriteResult) (m m' : kv_view) : Prop :=
  shrinks m m' /\ (wr_code r = BkOk -> m' key = None).

(** [bk_ready]: the states in which a [Put] is defined; reads and deletions are
    defined in every state of the backend. *)
Class BackendLaws (S : Type) `{!KVCacheStorageBackend S} := {
  bk_inv : S -> Prop;
  bk_view : S -> kv_view;
  bk_ready : S -> Prop;
  bk_Put_defined key value metadata opts clock s :
    bk_inv s -> bk_ready s -> bytes_ok key -> Z.of_nat (length value) + Z.of_nat (length metadata) < 2 ^ 64 ->
    exists r s', backend_Put key value metadata opts clock s = Ret (r, s');
  bk_Get_defined key opts clock s :
    bk_inv s -> bytes_ok key -> exists r s', backend_Get key opts clock s = Ret (r, s');
  bk_Delete_defined key s :
    bk_inv s -> bytes_ok key -> exists r s', backend_Delete key s = Ret (r, s');
  bk_Put_law key value metadata opts clock s r s' :
    bk_inv s -> bytes_ok key -> Z.of_nat (length value) + Z.of_nat (length metadata) < 2 ^ 64 ->
    backend_Put key value metadata opts clock s = Ret (r, s') ->
    bk_inv s' /\ put_promise key value metadata r (bk_view s) (bk_view s');
  bk_Get_law key opts clock s r s' :
    bk_inv s -> bytes_ok key -> backend_Get key opts clock s = Ret (r, s') ->
    bk_inv s' /\ get_promise key opts r (bk_view s) (bk_view s');
  bk_Delete_law key s r s' :
    bk_inv s -> bytes_ok key -> backend_Delete key s = Ret (r, s') ->
    bk_inv s' /\ delete_promise key r (bk_view s) (bk_view s');
}.

(** ** Two kinds of backends

    A pointer to the base class may point to either; calls are dispatched. *)

Section either.
Context {S1 S2 : Type} `{!KVCacheStorageBackend S1, !KVCacheStorageBackend S2}.

#[export] Instance either_backend : KVCacheStorageBackend (S1 + S2) := {|
  backend_Put key value metadata opts clock s :=
    match s with
    | inl s => '(r, s) ← backend_Put key value metadata opts clock s; Ret (r, inl s)
    | inr s => '(r, s) ← backend_Put key value metadata opts clock s; Ret (r, inr s)
    end;
  backend_Get key opts clock s :=
    match s with
    | inl s => '(r, s) ← backend_Get key opts clock s; Ret (r, inl s)
    | inr s => '(r, s) ← backend_Get key opts clock s; Ret (r, inr s)
    end;
  backend_Delete key s :=
    match s with
    | inl s => '(r, s) ← backend_Delete key s; Ret (r, inl s)
    | inr s => '(r, s) ← backend_Delete key s; Ret (r, inr s)
    end;
  backend_Close s := match s with inl s => inl (backend_Close s) | inr s => inr (backend_Close s) end;
|}.

#[export] Instance either_laws `{!BackendLaws S1, !BackendLaws S2} : BackendLaws (S1 + S2).
Proof.
  refine {| bk_inv s := match s with inl s => bk_inv s | inr s => bk_inv s end;
            bk_view s := match s with inl s => bk_view s | inr s => bk_view s end;
            bk_ready s := match s with inl s => bk_ready s | inr s => bk_ready s end |}.
  - intros key v md opts clock [s|s] Hi Hr Hk Hl;
      destruct (bk_Put_defined key v md opts clock s Hi Hr Hk Hl) as (r & s' & E); cbn; rewrite E; by do 2 eexists.
  - intros key opts clock [s|s] Hi Hk;
      destruct (bk_Get_defined key opts clock s Hi Hk) as (r & s' & E); cbn; rewrite E; by do 2 eexists.
  - intros key [s|s] Hi Hk;
      destruct (bk_Delete_defined key s Hi Hk) as (r & s' & E); cbn; rewrite E; by do 2 eexists.
  - intros key v md opts clock [s|s] r s' Hi Hk Hl; cbn;
      (destruct (backend_Put key v md opts clock s) as [[r0 s0]|] eqn:E; [|done]); intros [= <- <-];
      by apply (bk_Put_law _ _ _ _ _ _ _ _ Hi Hk Hl E).
  - intros key opts clock [s|s] r s' Hi Hk; cbn;
      (destruct (backend_Get key opts clock s) as [[r0 s0]|] eqn:E; [|done]); intros [= <- <-];
      by apply (bk_Get_law _ _ _ _ _ _ Hi Hk E).
  - intros key [s|s] r s' Hi Hk; cbn;
      (destruct (backend_Delete key s) as [[r0 s0]|] eqn:E; [|done]); intros [= <- <-];
      by apply (bk_Delete_law _ _ _ _ Hi Hk E).
Defined.

End either.
