(* ===== verification/IndexBackend.v ===== *)
(** * The index-backed storage backend

    [core/kvcache_storage/index_kvcache_storage_backend.cc]: payloads in slots,
    the context (segments, manager, index, LFU cache) and the operations.  The
    files of the index ([b_fs]) and the segment files ([b_w]) are two file
    systems; directories are a set of paths.  The statistics thread is the
    operation [StatsTick], one round of its loop. *)

From stdpp Require Import pretty.
From S2P Require Import Prelude Common Sys Key Wal SegmentBase SegmentOps SegmentFile SegmentManager.
From S2P Require Import Index IndexData IndexCompaction Lfuda Backend.
From Stdlib Require Import SpecFloat Ascii.

(** ** Payloads *)

Definition kHeaderBytes : Z := 8.

Definition ReadU32LE (p : list Z) : Z :=
  Z.lor (Z.lor (Z.lor (nth 0 p 0) (Z.shiftl (nth 1 p 0) 8)) (Z.shiftl (nth 2 p 0) 16)) (Z.shiftl (nth 3 p 0) 24).

Definition WriteU32LE (v : Z) : list Z :=
  [u8 (Z.land v 0xFF); u8 (Z.land (Z.shiftr v 8) 0xFF); u8 (Z.land (Z.shiftr v 16) 0xFF); u8 (Z.land (Z.shiftr v 24) 0xFF)].

Record BOptions := mkBOptions {
  root_dir : string;
  bo_namespace : string;
  bo_segment_size : Z;
  slot_value_size : Z;
  segment_count : Z;
  bo_wal_checkpoint_bytes : Z;
  stats_interval_sec : Z;
  lfu_capacity_ratio : spec_float;
  lfu_age_tick_sec : Z;
}.

Definition EnsureValidOptions (o : BOptions) : BackendCode :=
  if slot_value_size o <=? kHeaderBytes then BkInvalidArgument else
  if segment_count o =? 0 then BkInvalidArgument else BkOk.

(** The payload, or the code and the message. *)
Definition EncodePayload (o : BOptions) (value metadata : list Z) : (BackendCode * string) + list Z :=
  let max_payload := u32 (slot_value_size o - kHeaderBytes) in
  let total := u64 (Z.of_nat (length value) + Z.of_nat (length metadata)) in
  if total >? max_payload then inl (BkValueTooLarge, "value+metadata exceeds slot_value_size"%string) else
  let payload := replicate (Z.to_nat (slot_value_size o)) 0 in
  let payload := splice 0 (WriteU32LE (u32 (Z.of_nat (length value)))) payload in
  let payload := splice 4 (WriteU32LE (u32 (Z.of_nat (length metadata)))) payload in
  let payload := if negb (bool_decide (value = [])) then splice 8 value payload else payload in
  let payload := if negb (bool_decide (metadata = []))
                 then splice (8 + length value) metadata payload else payload in
  inr payload.

Definition DecodePayload (payload : list Z) : (BackendCode * string) + (list Z * list Z) :=
  if Z.of_nat (length payload) <? kHeaderBytes then inl (BkCorrupted, EmptyString) else
  let value_len := ReadU32LE payload in
  let metadata_len := ReadU32LE (drop 4 payload) in
  let total := value_len + metadata_len in
  if kHeaderBytes + total >? Z.of_nat (length payload) then inl (BkCorrupted, "corrupted payload header"%string) else
  inr (slice 8 (Z.to_nat value_len) payload, slice (8 + Z.to_nat value_len) (Z.to_nat metadata_len) payload).

Definition ToBackendCode (s : Status) : BackendCode :=
  match s with
  | kOk => BkOk
  | kNotFound => BkNotFound
  | kFull | kNoSpace => BkStorageFull
  | kIOError => BkIOError
  | kInvalidArgument => BkInvalidArgument
  | kCorruption => BkCorrupted
  end.

(** ** Directories *)

(** [access(dir, F_OK)]; [mkdir] that accepts [EEXIST].  Failures come from the
    script of the file system. *)
Definition sys_access (p : string) (dirs : gset string) (fs : FS) : bool * FS :=
  let '(ok, fs) := sys_call fs in (ok && bool_decide (p ∈ dirs), fs).
Definition sys_mkdir (p : string) (dirs : gset string) (fs : FS) : bool * gset string * FS :=
  let '(ok, fs) := sys_call fs in
  if ok then (true, {[p]} ∪ dirs, fs) else (false, dirs, fs).

(** The parts of a path between slashes, in order. *)
Fixpoint split_on (sep : Ascii.ascii) (cur : string) (s : string) : list string :=
  match s with
  | EmptyString => [cur]
  | String a s => if Ascii.eqb a sep then cur :: split_on sep EmptyString s else split_on sep (cur +:+ String a EmptyString) s
  end.

(** [!current.empty() && current.back() != '/']. *)
Definition needs_slash (current : string) : bool :=
  negb (is_empty current) && negb (ends_in_slash current).

Fixpoint make_dirs (parts : list string) (current : string) (dirs : gset string) (fs : FS) : bool * gset string * FS :=
  match parts with
  | [] => (true, dirs, fs)
  | part :: parts =>
      if is_empty part then make_dirs parts current dirs fs else
      let current := if needs_slash current then current +:+ "/" else current in
      let current := current +:+ part in
      let '(ok, dirs, fs) := sys_mkdir current dirs fs in
      if negb ok then (false, dirs, fs) else make_dirs parts current dirs fs
  end.

Definition starts_with_slash (s : string) : bool :=
  match s with String a _ => Ascii.eqb a "/"%char | EmptyString => false end.

Definition EnsureDir (dir : string) (dirs : gset string) (fs : FS) : bool * gset string * FS :=
  if is_empty dir then (false, dirs, fs) else
  let '(there, fs) := sys_access dir dirs fs in
  if there then (true, dirs, fs) else
  make_dirs (split_on "/"%char EmptyString dir) (if starts_with_slash dir then "/"%string else EmptyString) dirs fs.

(** ** The context *)

(** [segment_manager], [index] and [lfu]; [segments] are the segments of the
    manager. *)
Record Context := mkContext {
  c_mgr : SegmentManager string;
  c_ix : Index Key128;
  c_lfu : option (lfuda_cache Key128 bool);
}.

Record IndexBackend := mkIndexBackend {
  options_ : BOptions;
  context_ : option Context;
  b_dirs : gset string;
  b_fs : FS;
  b_w : FS;
}.

#[export] Instance Key128_inhabited : Inhabited Key128 := populate (mkKey128 0 0).

Section backend.
Context `{!Phmap Key128} `{!Btree}.
Context (iter : nat -> gset Z -> list Z).
(** The order in which phmap visits the keys of the index. *)
Context (key_order : @gmap Key128 key_eq_dec key_countable Z -> list Key128).

Definition seg_cfg (o : BOptions) : SegmentConfig :=
  mkConfig (is_need_compaction default_config) 16 (slot_value_size o) (bo_segment_size o)
    (compaction_threshold default_config) (bitmap_alignment default_config).

Definition segment_path (o : BOptions) (i : Z) : string := root_dir o +:+ "/segment_" +:+ pretty i +:+ ".dat".
Definition state_path (o : BOptions) : string := root_dir o +:+ "/segment_manager.state".

Definition idx_opts (o : BOptions) : Index.Options :=
  mkOpts true (root_dir o +:+ "/index.wal") (seg_cfg o) (bo_wal_checkpoint_bytes o) (root_dir o) (bo_namespace o).

(** The destructor of the manager closes the segments. *)
Definition destroy_segments (m : SegmentManager string) (w : FS) : FS :=
  foldr (fun p w => (SegmentFile_Close p.2 w).2) w (map_to_list (segments_ m)).

(** The loop over [i < segment_count]: [n] segments from number [i] on. *)
Fixpoint open_segments (o : BOptions) (n : nat) (i : Z) (m : SegmentManager string) (w : FS)
    : BackendCode * SegmentManager string * FS :=
  match n with
  | O => (BkOk, m, w)
  | S n =>
      let '(s, seg, w) := SegmentFile_Open (SegmentFile_new i (seg_cfg o) (segment_path o i)) w in
      if negb (status_is_ok s) then (ToBackendCode s, m, w) else
      let '(s, m) := AddSegment (Some seg) m in
      if negb (status_is_ok s) then (ToBackendCode s, m, w) else
      open_segments o n (i + 1) m w
  end.

(** [double] arithmetic for the capacity of the cache. *)
Definition f64_of_Z (z : Z) : spec_float := binary_normalize 53 1024 z 0 false.
Definition total_slots (m : SegmentManager string) : Z :=
  foldr (fun p t => u64 (t + total_slots_ (seg_base p.2))) 0 (map_to_list (segments_ m)).
Definition lfu_capacity_of (o : BOptions) (m : SegmentManager string) : option Z :=
  lfu_capacity ← to_size_t (SFmul 53 1024 (f64_of_Z (total_slots m)) (lfu_capacity_ratio o));
  Some (if lfu_capacity =? 0 then 1 else lfu_capacity).

(** The eviction callback: the key is deleted from the index. *)
Definition on_evict : option (Key128 -> bool -> Env Key128 string FS -> Outcome (bool * Env Key128 string FS)) :=
  Some (fun key v e => '(_, e) ← Index_Delete key e; Ret (v, e)).

(** [ForEachKey] holds a lock of the map while it calls back, and an eviction
    would take it again. *)
Definition on_evict_rebuild : option (Key128 -> bool -> unit -> Outcome (bool * unit)) := Some (fun _ _ _ => UB).

(** The cache is filled with the keys of the index. *)
Fixpoint rebuild_lfu (keys : list Key128) (clock : nat -> Z) (i : nat) (lfu : lfuda_cache Key128 bool)
    : Outcome (lfuda_cache Key128 bool) :=
  match keys with
  | [] => Ret lfu
  | key :: keys =>
      '(_, lfu, _) ← lfu_insert on_evict_rebuild key true allow_insert (clock i) lfu tt;
      rebuild_lfu keys clock (S i) lfu
  end.

Definition create_lfu (o : BOptions) (clock : nat -> Z) (m : SegmentManager string) (ix : Index Key128)
    : Outcome (option (lfuda_cache Key128 bool)) :=
  if negb (SFltb (S754_zero false) (lfu_capacity_ratio o)) then Ret None else
  match lfu_capacity_of o m with
  | None => UB
  | Some lfu_capacity =>
      let age_tick := lfu_age_tick_sec o * 1000 in
      lfu ← rebuild_lfu (ForEachKey key_order (fun k l => l ++ [k]) ix []) clock 0
              (lfuda_new (Z.to_nat lfu_capacity) age_tick f32_half);
      Ret (Some lfu)
  end.

(** The objects made so far are destroyed on every error path: the manager with
    its segments, and the index, whose destructor takes a checkpoint.  [None]
    in the result of [Index_Open] is a log that cannot be replayed with the
    fuel given (see [Index_Open_recovers]). *)
Definition CreateContext (clock : nat -> Z) (b : IndexBackend) : Outcome (BackendCode * IndexBackend) :=
  let o := options_ b in
  match context_ b with
  | Some _ => Ret (BkOk, b)
  | None =>
    let valid := EnsureValidOptions o in
    if negb (code_is_ok valid) then Ret (valid, b) else
    let '(ok, dirs, fs) := EnsureDir (root_dir o) (b_dirs b) (b_fs b) in
    if negb ok then Ret (BkIOError, mkIndexBackend o None dirs fs (b_w b)) else
    let '(code, m, w) := open_segments o (Z.to_nat (segment_count o)) 0 SegmentManager_new (b_w b) in
    if negb (code_is_ok code) then Ret (code, mkIndexBackend o None dirs fs (destroy_segments m w)) else
    let '(_, m, fs) := LoadState iter (state_path o) m fs in
    match Index_Open (Index_new (idx_opts o)) fs with
    | None => UB
    | Some (s, ix, fs) =>
      if negb (status_is_ok s)
      then Ret (ToBackendCode s, mkIndexBackend o None dirs (Index_destroy ix fs) (destroy_segments m w))
      else
        lfu ← create_lfu o clock m ix;
        Ret (BkOk, mkIndexBackend o (Some (mkContext m ix lfu)) dirs fs w)
    end
  end.

(** ** Operations *)

Definition env_of (c : Context) (b : IndexBackend) : Env Key128 string FS := mkEnv (c_ix c) (b_fs b) (c_mgr c) (b_w b).

(** The backend with the index, manager and files of [e]. *)
Definition with_env (e : Env Key128 string FS) (lfu : option (lfuda_cache Key128 bool)) (b : IndexBackend) : IndexBackend :=
  mkIndexBackend (options_ b) (Some (mkContext (e_mgr e) (e_ix e) lfu)) (b_dirs b) (e_fs e) (e_w e).

Definition key_message : string := "key must be exactly 16 bytes (Key128)".
Definition context_message : string := "context not initialized".

(** [!opts.overwrite]: the key must not be there. *)
Definition probe (k : Key128) (b : IndexBackend) (e : Env Key128 string FS)
    : Outcome (option WriteResult * Env Key128 string FS) :=
  '(s, _, e) ← Get k true (slot_value_size (options_ b)) e;
  if status_is_ok s then Ret (Some (mkWriteResult BkAlreadyExists "key already exists"), e) else
  if negb (bool_decide (s = kNotFound))
  then Ret (Some (mkWriteResult (ToBackendCode s) "failed to probe existing key"), e)
  else Ret (None, e).

Definition IndexBackend_Put (key value metadata : list Z) (opts : WriteOptions) (clock : nat -> Z) (b : IndexBackend)
    : Outcome (WriteResult * IndexBackend) :=
  match Key128_FromString key with
  | None => Ret (mkWriteResult BkInvalidArgument key_message, b)
  | Some k =>
    match context_ b with
    | None => Ret (mkWriteResult BkUnavailable context_message, b)
    | Some ctx =>
      '(found, e) ← (if negb (wo_overwrite opts) then probe k b (env_of ctx b) else Ret (None, env_of ctx b));
      match found with
      | Some r => Ret (r, with_env e (c_lfu ctx) b)
      | None =>
        match EncodePayload (options_ b) value metadata with
        | inl (c, err) => Ret (mkWriteResult c err, with_env e (c_lfu ctx) b)
        | inr payload =>
          '(s, e) ← Put iter k (Some payload) (Z.of_nat (length payload)) e;
          if negb (status_is_ok s)
          then Ret (mkWriteResult (ToBackendCode s) "index put failed", with_env e (c_lfu ctx) b) else
          match c_lfu ctx with
          | None => Ret (mkWriteResult BkOk EmptyString, with_env e None b)
          | Some lfu =>
              '(_, lfu, e) ← lfu_insert on_evict k true insert_or_update (clock 0%nat) lfu e;
              Ret (mkWriteResult BkOk EmptyString, with_env e (Some lfu) b)
          end
        end
      end
    end
  end.

Definition IndexBackend_Get (key : list Z) (opts : ReadOptions) (clock : nat -> Z) (b : IndexBackend)
    : Outcome (ReadResult * IndexBackend) :=
  match Key128_FromString key with
  | None => Ret (mkReadResult BkInvalidArgument key_message [] [] 0, b)
  | Some k =>
    match context_ b with
    | None => Ret (mkReadResult BkUnavailable context_message [] [] 0, b)
    | Some ctx =>
      let vs := slot_value_size (options_ b) in
      '(s, out, e) ← Get k true vs (env_of ctx b);
      let payload := default (replicate (Z.to_nat vs) 0) out in
      if negb (status_is_ok s)
      then Ret (mkReadResult (ToBackendCode s)
                  (if bool_decide (s = kNotFound) then "miss" else "index get failed") [] [] 0,
                with_env e (c_lfu ctx) b)
      else
        match DecodePayload payload with
        | inl (c, err) => Ret (mkReadResult c err [] [] 0, with_env e (c_lfu ctx) b)
        | inr (val, meta) =>
          lfu ← match c_lfu ctx with
                | None => Ret None
                | Some lfu => '(_, lfu) ← lfu_find k false (clock 0%nat) lfu; Ret (Some lfu)
                end;
          Ret (mkReadResult BkOk EmptyString (if ro_include_value opts then val else []) meta 0, with_env e lfu b)
        end
    end
  end.

Definition IndexBackend_Delete (key : list Z) (b : IndexBackend) : Outcome (WriteResult * IndexBackend) :=
  match Key128_FromString key with
  | None => Ret (mkWriteResult BkInvalidArgument key_message, b)
  | Some k =>
    match context_ b with
    | None => Ret (mkWriteResult BkUnavailable context_message, b)
    | Some ctx =>
      '(s, e) ← Index_Delete k (env_of ctx b);
      if negb (status_is_ok s)
      then Ret (mkWriteResult (ToBackendCode s)
                  (if bool_decide (s = kNotFound) then "key not found" else "index delete failed"),
                with_env e (c_lfu ctx) b)
      else
        lfu ← match c_lfu ctx with
              | None => Ret None
              | Some lfu => '(_, lfu) ← lfu_erase k lfu; Ret (Some lfu)
              end;
        Ret (mkWriteResult BkOk EmptyString, with_env e lfu b)
    end
  end.

(** [Close]: checkpoint, manager state, log; then the context goes out of scope
    and the destructors run. *)
Definition IndexBackend_Close (b : IndexBackend) : IndexBackend :=
  match context_ b with
  | None => b
  | Some ctx =>
      let o := options_ b in
      let '(_, ix, fs) := Checkpoint (c_ix ctx) (b_fs b) in
      let '(_, m, fs) := SaveState iter (state_path o) (c_mgr ctx) fs in
      let '(_, ix, fs) := Index_Close ix fs in
      let fs := Index_destroy ix fs in
      mkIndexBackend o None (b_dirs b) fs (destroy_segments m (b_w b))
  end.

(** One round of [StatsLoop] after the wait: compaction. *)
Definition StatsTick (b : IndexBackend) : Outcome IndexBackend :=
  match context_ b with
  | None => Ret b
  | Some ctx => '(_, e) ← compact_index iter (env_of ctx b); Ret (with_env e (c_lfu ctx) b)
  end.

#[export] Instance IndexBackend_instance : KVCacheStorageBackend IndexBackend := {|
  backend_Put := IndexBackend_Put;
  backend_Get := IndexBackend_Get;
  backend_Delete := IndexBackend_Delete;
  backend_Close := IndexBackend_Close;
|}.

End backend.
