(* ===== verification/IndexBackendTheorems.v ===== *)
(** * The index-backed backend is a cache of values and metadata

    The payload format reads back, and every run of calls on a backend, with
    rounds of the statistics thread between them, answers as a map of keys to
    values and metadata from which a write may evict one other key. *)

From S2P Require Import Prelude Common Sys Key Offset Wal SegmentBase SegmentOps SegmentFile SegmentManager.
From S2P Require Import Index IndexData IndexCompaction Lfuda AgeCount LfudaTheorems Backend IndexBackend.
From Stdlib Require Import SpecFloat.

(** ** Payloads *)

Lemma length_WriteU32LE v : length (WriteU32LE v) = 4%nat.
Proof. done. Qed.

Lemma WriteU32LE_le v : in_u 32 v -> WriteU32LE v = le_bytes 4 v.
Proof.
  intros Hv. unfold WriteU32LE, in_u in *. cbn [le_bytes]. unfold u8.
  change 0xFF with (Z.ones 8). rewrite !Z.land_ones, !Z.mod_mod, !Z.shiftr_shiftr by lia. done.
Qed.

Lemma ReadU32LE_le a b c d l : bytes_ok [a; b; c; d] -> ReadU32LE (a :: b :: c :: d :: l) = le_val [a; b; c; d].
Proof.
  intros Hb. unfold ReadU32LE. cbn [nth le_val]. rewrite Z.shiftl_0_l, Z.lor_0_r.
  rewrite !Z.shiftl_lor, !Z.shiftl_shiftl by lia. rewrite <- !Z.lor_assoc. done.
Qed.

(** Reading back a length that was written. *)
Lemma read_written v l : in_u 32 v -> ReadU32LE (WriteU32LE v ++ l) = v.
Proof.
  intros Hv. rewrite WriteU32LE_le by done. pose proof (le_bytes_ok 4 v) as Hb. cbn [le_bytes app] in *.
  rewrite ReadU32LE_le by done.
  change [u8 v; u8 (Z.shiftr v 8); u8 (Z.shiftr (Z.shiftr v 8) 8); u8 (Z.shiftr (Z.shiftr (Z.shiftr v 8) 8) 8)]
    with (le_bytes 4 v). rewrite le_val_bytes. by apply Z.mod_small.
Qed.

(** What fits into a slot. *)
Definition fits (o : BOptions) (value metadata : list Z) : Prop :=
  Z.of_nat (length value) + Z.of_nat (length metadata) <= slot_value_size o - kHeaderBytes.

#[export] Instance fits_dec o v m : Decision (fits o v m).
Proof. unfold fits. apply _. Defined.

Definition slot_ok (o : BOptions) : Prop := kHeaderBytes < slot_value_size o < 2 ^ 32.

(** The buffer after the writes. *)
Lemma EncodePayload_layout o v m :
  slot_ok o -> fits o v m ->
  EncodePayload o v m = inr (WriteU32LE (Z.of_nat (length v)) ++ WriteU32LE (Z.of_nat (length m)) ++ v ++ m ++
    replicate (Z.to_nat (slot_value_size o) - 8 - length v - length m) 0).
Proof.
  unfold slot_ok, fits, kHeaderBytes, EncodePayload. intros Ho Hf.
  unfold kHeaderBytes. rewrite u32_small by lia. rewrite u64_small by lia. rewrite !u32_small by lia.
  rewrite Z.gtb_ltb, (proj2 (Z.ltb_ge _ _)) by lia. f_equal.
  set (n := Z.to_nat (slot_value_size o)). assert (8 + length v + length m <= n)%nat as Hn by lia.
  set (a := WriteU32LE (Z.of_nat (length v))). set (b := WriteU32LE (Z.of_nat (length m))).
  assert (length a = 4%nat /\ length b = 4%nat) as [Ha Hb] by done.
  assert (splice 4 b (splice 0 a (replicate n 0)) = (a ++ b) ++ replicate (n - 8) 0) as ->.
  { pose proof (splice_fill [] a n 0) as E0. cbn [app] in E0. rewrite E0 by len. rewrite (splice_fill a b (n - length a) 4), <- app_assoc by len.
    do 3 f_equal. lia. }
  assert (forall p l m k, p = length l -> (length m <= k)%nat ->
    (if negb (bool_decide (m = [])) then splice p m (l ++ replicate k 0) else l ++ replicate k 0) =
    (l ++ m) ++ replicate (k - length m) 0) as Hput.
  { intros p l m' k -> Hk. case_bool_decide as E; cbn [negb].
    - subst m'. by rewrite app_nil_r, Nat.sub_0_r.
    - by rewrite splice_fill, <- app_assoc. }
  rewrite (Hput 8%nat) by len. rewrite Hput by len. by rewrite <- !app_assoc.
Qed.

Lemma slice_app_exact (a b l : list Z) : slice (length a) (length b) (a ++ b ++ l) = b.
Proof. unfold slice. by rewrite drop_app_length, take_app_length. Qed.

Lemma EncodePayload_decodes o v m :
  slot_ok o -> fits o v m ->
  exists p, EncodePayload o v m = inr p /\ Z.of_nat (length p) = slot_value_size o /\ DecodePayload p = inr (v, m).
Proof.
  intros Ho Hf. pose proof (EncodePayload_layout o v m Ho Hf) as E. unfold slot_ok, fits, kHeaderBytes in *.
  set (a := WriteU32LE (Z.of_nat (length v))) in E. set (b := WriteU32LE (Z.of_nat (length m))) in E.
  set (z := replicate _ 0) in E. eexists. split; [exact E|].
  assert (Z.of_nat (length (a ++ b ++ v ++ m ++ z)) = slot_value_size o) as Hl.
  { rewrite !length_app. unfold a, b, z. rewrite !length_WriteU32LE, length_replicate. lia. }
  split; [exact Hl|]. unfold DecodePayload, kHeaderBytes. rewrite Hl.
  rewrite (proj2 (Z.ltb_ge _ _)) by lia. unfold a. rewrite read_written by (unfold in_u; lia). fold a.
  rewrite (drop_app_length' a) by done. unfold b. rewrite read_written by (unfold in_u; lia). fold b.
  rewrite Z.gtb_ltb, (proj2 (Z.ltb_ge _ _)) by lia. rewrite !Nat2Z.id. do 2 f_equal.
  - rewrite app_assoc. apply (slice_app_exact (a ++ b)).
  - rewrite !app_assoc, <- (app_assoc _ m).
    replace (8 + length v)%nat with (length ((a ++ b) ++ v)) by (rewrite !length_app; done). apply slice_app_exact.
Qed.

Lemma EncodePayload_too_large o v m :
  slot_ok o -> ~ fits o v m -> Z.of_nat (length v) + Z.of_nat (length m) < 2 ^ 64 ->
  EncodePayload o v m = inl (BkValueTooLarge, "value+metadata exceeds slot_value_size"%string).
Proof.
  unfold slot_ok, fits, kHeaderBytes, EncodePayload, kHeaderBytes. intros Ho Hf Hl.
  rewrite u32_small, u64_small by lia. by rewrite Z.gtb_ltb, (proj2 (Z.ltb_lt _ _)) by lia.
Qed.

(** a payload reads back.  Value and metadata that fit into a slot are
    encoded to exactly [slot_value_size] bytes, and decoding gives them back;
    what does not fit is refused with [kValueTooLarge]. *)
Theorem payload_roundtrip (o : BOptions) (value metadata : list Z) :
  slot_ok o -> Z.of_nat (length value) + Z.of_nat (length metadata) < 2 ^ 64 ->
  match EncodePayload o value metadata with
  | inr p => fits o value metadata /\ Z.of_nat (length p) = slot_value_size o /\ DecodePayload p = inr (value, metadata)
  | inl (code, _) => ~ fits o value metadata /\ code = BkValueTooLarge
  end.
Proof.
  intros Ho Hl. destruct (decide (fits o value metadata)) as [Hf|Hf].
  - destruct (EncodePayload_decodes o value metadata Ho Hf) as (p & -> & ? & ?). done.
  - by rewrite EncodePayload_too_large.
Qed.

Definition demo_bopts : BOptions :=
  mkBOptions "root" "ns" 65536 24 2 0 0 (S754_finite false 8106479329266893 (-53)) 60.

Lemma payload_roundtrip_witness :
  match EncodePayload demo_bopts [1; 2; 3] [9] with
  | inr p => length p = 24%nat /\ DecodePayload p = inr ([1; 2; 3], [9])
  | inl _ => False
  end.
Proof.
  pose proof (payload_roundtrip demo_bopts [1; 2; 3] [9]) as Hp.
  destruct (EncodePayload demo_bopts [1; 2; 3] [9]) as [[code msg]|p] eqn:E; [vm_compute in E; discriminate E|].
  destruct Hp as (_ & Hl & Hd); [vm_compute; auto|vm_compute; reflexivity|]. split; [|exact Hd].
  apply Nat2Z.inj. rewrite Hl. reflexivity.
Defined.

(** ** The cache *)

(** What a payload stands for. *)
Definition decoded (p : list Z) : option (list Z * list Z) :=
  match DecodePayload p with inr x => Some x | inl _ => None end.

Definition lfu_ok (l : option (lfuda_cache Key128 bool)) : Prop :=
  match l with
  | None => True
  | Some c => cache_ok (V := bool) c /\ 0 <= m_dynamic_age_tick c /\ m_dynamic_age_ratio c = f32_half /\
      (0 < lfu_capacity c)%nat
  end.

Record ctx_ok (b : IndexBackend) (ctx : Context) : Prop := {
  xo_ctx : context_ b = Some ctx;
  xo_env : env_ok (seg_cfg (options_ b)) (env_of ctx b);
  xo_lfu : lfu_ok (c_lfu ctx);
  xo_slot : slot_ok (options_ b);
  xo_payloads : map_Forall (fun _ p => is_Some (decoded p)) (e_contents (env_of ctx b));
}.

Definition bk_ok (b : IndexBackend) : Prop := exists ctx, ctx_ok b ctx.

(** The values and metadata stored under the keys. *)
Definition view (b : IndexBackend) : @gmap Key128 key_eq_dec key_countable (list Z * list Z) :=
  match context_ b with
  | None => ∅
  | Some ctx => omap decoded (e_contents (env_of ctx b))
  end.

Section cache.
Context `{!Phmap Key128} `{!Btree, !BtreeLaws}.
Context (iter : nat -> gset Z -> list Z).
Hypothesis iter_ok : forall n X, iter n X ≡ₚ elements X.
Implicit Types (b : IndexBackend) (e : Env Key128 string FS).

Lemma view_ctx b ctx : context_ b = Some ctx -> view b = omap decoded (e_contents (env_of ctx b)).
Proof. intros E. unfold view. by rewrite E. Qed.

(** Keys of 16 bytes are keys of the index. *)
Lemma FromString_valid key k : bytes_ok key -> Key128_FromString key = Some k -> key_valid k /\ key_raw k = key.
Proof.
  intros Hb. unfold Key128_FromString, Key128_FromRaw. destruct (Nat.eqb_spec (length key) 16) as [Hl|]; [|done].
  intros [= <-].
  split; [exact (key_of_raw_valid (K := Key128) key Hb Hl)|exact (key_raw_of_raw (K := Key128) key Hb Hl)].
Qed.

(** The eviction callback has a result and removes at most its key. *)
Lemma evict_call_spec c el e :
  env_ok c e ->
  exists e', evict_call on_evict el e = Ret e' /\ env_ok c e' /\ e_opts e' = e_opts e /\
    (e_contents e' = e_contents e \/ e_contents e' = delete (m_key el) (e_contents e)).
Proof.
  intros Hok. destruct (Delete_index_spec c (m_key el) e Hok) as (s & e' & E & Hok' & Eo & _ & Hr).
  exists e'. unfold evict_call, on_evict. rewrite E. split; [done|]. split; [done|]. split; [done|].
  destruct (e_contents e !! m_key el).
  - destruct Hr as (old & ix1 & fs1 & _ & _ & _ & _ & [(_ & _ & ->)|(_ & _ & ->)]); auto.
  - destruct Hr as [_ ->]. auto.
Qed.

(** A use of the key is counted, and at most one other key evicted. *)
Lemma lfu_insert_env c k now l e :
  lfu_ok (Some l) -> env_ok c e ->
  exists r l' e', lfu_insert on_evict k true insert_or_update now l e = Ret (r, l', e') /\
    lfu_ok (Some l') /\ env_ok c e' /\ e_opts e' = e_opts e /\
    (e_contents e' = e_contents e \/ exists k', k' <> k /\ e_contents e' = delete k' (e_contents e)).
Proof.
  intros (Hc & Ht & Er & Hcap) Hok.
  destruct (lfu_insert_spec on_evict k true insert_or_update now l e Hc Ht) as (r & l' & e' & E & Hok' & (Ec & Et & Er') & Hs).
  - rewrite Er. apply ratio_half.
  - done.
  - intros el _. destruct (evict_call_spec c el e Hok) as (e' & ? & _). eauto.
  - exists r, l', e'. split; [done|]. split; [split; [done|]; by rewrite Et, Er', Ec|].
    cbn [list_step] in Hs. change (insert_allowed insert_or_update) with true in Hs.
    destruct (find_key k (entries l)) eqn:Ef; [destruct Hs as [-> _]; auto|].
    destruct Hs as [_ Hs]. case_decide; [destruct Hs as [-> _]; auto|].
    destruct Hs as (el & [Hel _] & Ee & _). destruct (evict_call_spec c el e Hok) as (e'' & Ee' & ? & ? & Hcase).
    rewrite Ee in Ee'. injection Ee' as <-. split; [done|]. split; [done|].
    destruct Hcase as [?|?]; [by left|]. right. exists (m_key el). split; [|done].
    intros <-. apply find_key_elem in Ef. apply Ef. rewrite <- age_keys. by apply list_elem_of_fmap_2.
Qed.

Definition payloads_ok e : Prop := map_Forall (fun _ p => is_Some (decoded p)) (e_contents e).

Lemma with_env_ok b e l :
  slot_ok (options_ b) -> env_ok (seg_cfg (options_ b)) e -> lfu_ok l -> payloads_ok e ->
  bk_ok (with_env e l b) /\ view (with_env e l b) = omap decoded (e_contents e).
Proof.
  intros Hs He Hl Hp. assert (env_of (mkContext (e_mgr e) (e_ix e) l) (with_env e l b) = e) as E by (by destruct e).
  split; [|unfold view; cbn [context_ with_env]; by rewrite E].
  eexists. split; [done| |done|done|]; rewrite E; done.
Qed.

(** What a call does to the map [m], by its code. *)
Definition put_effect (o : BOptions) (k : Key128) (v md : list Z) (opts : WriteOptions) (code : BackendCode)
    (m m' : @gmap Key128 key_eq_dec key_countable (list Z * list Z)) : Prop :=
  match code with
  | BkOk => (wo_overwrite opts = true \/ m !! k = None) /\ fits o v md /\
      (m' = <[k := (v, md)]> m \/ exists k', k' <> k /\ m' = delete k' (<[k := (v, md)]> m))
  | BkAlreadyExists => wo_overwrite opts = false /\ is_Some (m !! k) /\ m' = m
  | BkValueTooLarge => ~ fits o v md /\ m' = m
  | _ => m' = m
  end.

Lemma put_effect_error o k v md opts s m : s <> kOk -> put_effect o k v md opts (ToBackendCode s) m m.
Proof. by destruct s. Qed.

(** Reading a file segment does not answer [kNotFound] for a slot in use. *)
Lemma read_into_found want p n off (w : FS) : (read_into want p n off w).1.1 <> kNotFound.
Proof.
  destruct want; [|done]. cbn. unfold PRead, fs_pread. destruct (fs_files w !! p) as [f|]; [|done].
  destruct (pread_loop _ _ _ _) as [[s got] sc] eqn:E.
  apply pread_loop_spec in E as (_ & [->|[->| ->]] & _); done.
Qed.

Lemma Get_found c k e s out e' :
  env_ok c e -> is_Some (e_contents e !! k) -> Get k true (SegmentBase.value_size c) e = Ret (s, out, e') ->
  s <> kNotFound.
Proof.
  intros [Hst Hi Hm Hc Hks] Hk. unfold Get. rewrite Hc, Z.eqb_refl. cbn [negb]. unfold Lookup. cbn [negb].
  destruct (map_ (e_ix e) !! k) as [enc|] eqn:Ek.
  2: { apply (index_ok_none _ _ k Hi) in Ek. unfold e_contents in Hk. rewrite Ek in Hk. by destruct Hk. }
  destruct (index_ok_lookup _ _ _ _ Hi Ek) as (val & (sid & slot & -> & Hso & Hv) & _).
  rewrite GetFlag_EncodeSegmentSlot, bool_decide_eq_true_2, Hm by done. cbn [negb].
  rewrite GetSegmentId_EncodeSegmentSlot, GetSlotId_EncodeSegmentSlot by done. unfold GetSegment.
  unfold e_view, mgr_view in Hv. destruct (segments_ (e_mgr e) !! sid) as [seg|] eqn:Hseg; [|done]. cbn in Hv.
  pose proof (ms_ok _ _ _ (sk_segs _ _ _ Hst) _ _ Hseg) as [[Hinv Ho (d & Hd & Hlen)] _].
  pose proof (seg_map_range _ _ _ _ Hv) as Hr. unfold Read. rewrite Ho, Z.geb_leb, (proj2 (Z.leb_gt _ _)) by lia.
  rewrite (seg_map_lookup _ _ d) in Hv by (done || lia). rewrite IsSlotOccupied_bit.
  destruct (slot_bit _ slot); [|done]. cbn [negb].
  match goal with |- context [read_into true ?p ?n ?o ?w] =>
    pose proof (read_into_found true p n o w) as H1; destruct (read_into true p n o w) as [[s1 k1] w1] end.
  destruct (status_is_ok s1); cbn [negb].
  - match goal with |- context [read_into true ?p ?n ?o ?w] =>
      pose proof (read_into_found true p n o w) as H2; destruct (read_into true p n o w) as [[s2 k2] w2] end.
    by intros [= <- <- <-].
  - by intros [= <- <- <-].
Qed.

Lemma probe_spec k b ctx :
  ctx_ok b ctx ->
  exists found e', probe k b (env_of ctx b) = Ret (found, e') /\ env_ok (seg_cfg (options_ b)) e' /\
    e_mgr e' = c_mgr ctx /\ e_contents e' = e_contents (env_of ctx b) /\
    match found with
    | None => e_contents e' !! k = None
    | Some r => (wr_code r = BkAlreadyExists /\ is_Some (e_contents e' !! k)) \/
        exists s, s <> kOk /\ wr_code r = ToBackendCode s
    end.
Proof.
  intros [Hx He Hl Hs Hp]. unfold probe.
  destruct (Get_spec (seg_cfg (options_ b)) k (env_of ctx b) He) as (s & out & e' & E & He' & _ & Em & Ec & _ & Hr).
  cbn [SegmentBase.value_size seg_cfg] in E. rewrite E. cbn [mbind Outcome_bind]. rewrite <- Ec in Hr.
  destruct (status_is_ok s) eqn:Es.
  - apply status_is_ok_true in Es as ->. do 2 eexists. split; [done|]. do 3 (split; [done|]). left. split; [done|].
    destruct (e_contents e' !! k); [done|]. by destruct Hr.
  - case_bool_decide as En; cbn [negb].
    + do 2 eexists. split; [done|]. do 3 (split; [done|]). cbn. subst s.
      destruct (e_contents e' !! k) eqn:Ek; [|done].
      rewrite Ec in Ek. by destruct (Get_found (seg_cfg (options_ b)) k (env_of ctx b) kNotFound out e' He); [rewrite Ek| |].
    + do 2 eexists. split; [done|]. do 3 (split; [done|]). right. exists s. split; [|done].
      intros ->. done.
Qed.

Lemma payloads_insert e e' k p x :
  payloads_ok e -> e_contents e' = <[k := p]> (e_contents e) -> decoded p = Some x ->
  payloads_ok e' /\ omap decoded (e_contents e') = <[k := x]> (omap decoded (e_contents e)).
Proof.
  intros Hp E Hx. unfold payloads_ok. rewrite E. split; [|by apply omap_insert_Some].
  apply map_Forall_insert_2; [by rewrite Hx|done].
Qed.

Lemma payloads_delete e e' k :
  payloads_ok e -> e_contents e' = delete k (e_contents e) ->
  payloads_ok e' /\ omap decoded (e_contents e') = delete k (omap decoded (e_contents e)).
Proof.
  intros Hp E. unfold payloads_ok. rewrite E. split; [by apply map_Forall_delete|]. apply omap_delete.
Qed.

Lemma payloads_same e e' :
  payloads_ok e -> e_contents e' = e_contents e ->
  payloads_ok e' /\ omap decoded (e_contents e') = omap decoded (e_contents e).
Proof. intros Hp E. unfold payloads_ok. by rewrite E. Qed.

Lemma view_lookup_none e k : payloads_ok e -> omap decoded (e_contents e) !! k = None <-> e_contents e !! k = None.
Proof.
  intros Hp. rewrite lookup_omap. destruct (e_contents e !! k) as [p|] eqn:E; [|done].
  destruct (Hp _ _ E) as [x Hx]. cbn. rewrite Hx. done.
Qed.

(** The put of an encoded payload, and the use of the key. *)
Lemma put_payload_spec k v md opts (clock : nat -> Z) b e (l : option (lfuda_cache Key128 bool)) :
  let o := options_ b in
  let put := match EncodePayload o v md with
    | inl (c, err) => Ret (mkWriteResult c err, with_env e l b)
    | inr payload =>
      '(s, e) ← Put iter k (Some payload) (Z.of_nat (length payload)) e;
      if negb (status_is_ok s)
      then Ret (mkWriteResult (ToBackendCode s) "index put failed", with_env e l b) else
      match l with
      | None => Ret (mkWriteResult BkOk EmptyString, with_env e None b)
      | Some lfu =>
          '(_, lfu, e) ← lfu_insert on_evict k true insert_or_update (clock 0%nat) lfu e;
          Ret (mkWriteResult BkOk EmptyString, with_env e (Some lfu) b)
      end
    end in
  slot_ok o -> env_ok (seg_cfg o) e -> lfu_ok l -> payloads_ok e -> key_valid k ->
  Z.of_nat (length v) + Z.of_nat (length md) < 2 ^ 64 ->
  (wo_overwrite opts = true \/ e_contents e !! k = None) ->
  match put with
  | UB => ~ all_free (e_mgr e)
  | Ret (r, b') => bk_ok b' /\ options_ b' = o /\
      put_effect o k v md opts (wr_code r) (omap decoded (e_contents e)) (view b')
  end.
Proof.
  intros o put Hs He Hl Hp Hk Hlen Hnew. unfold put. destruct (decide (fits o v md)) as [Hf|Hf].
  2: { rewrite EncodePayload_too_large by done. destruct (with_env_ok b e l) as [? ->]; done. }
  destruct (EncodePayload_decodes o v md Hs Hf) as (p & -> & Hpl & Hd). rewrite Hpl.
  assert (decoded p = Some (v, md)) as Hdec by (unfold decoded; by rewrite Hd).
  pose proof (Put_spec iter iter_ok (seg_cfg o) k p e He Hk Hpl) as Hput. cbn [SegmentBase.value_size seg_cfg] in Hput.
  destruct (Put iter k (Some p) (slot_value_size o) e) as [[s e1]|]; cbn [mbind Outcome_bind]; [|done].
  destruct Hput as (He1 & _ & _ & Hr).
  assert ((s = kOk /\ e_contents e1 = <[k := p]> (e_contents e)) \/ (s <> kOk /\ e_contents e1 = e_contents e)) as Hc.
  { destruct Hr as [(? & _ & ? & _)|(enc & ix1 & fs1 & _ & _ & _ & [(? & _ & ?)|(? & _ & ?)])]; auto. }
  destruct Hc as [[-> Ec]|[Hne Ec]]; cbn [status_is_ok negb].
  2: { replace (status_is_ok s) with false by by destruct s. cbn [negb].
       destruct (payloads_same _ _ Hp Ec) as [Hp1 Ev]. destruct (with_env_ok b e1 l) as [? ->]; [done..|].
       split; [done|]. split; [done|]. rewrite Ev. by apply put_effect_error. }
  destruct (payloads_insert _ _ _ _ _ Hp Ec Hdec) as [Hp1 Ev].
  assert (wo_overwrite opts = true \/ omap decoded (e_contents e) !! k = None) as Hnew'.
  { destruct Hnew as [?|?]; [by left|right]. by apply view_lookup_none. }
  destruct l as [l|].
  - destruct (lfu_insert_env (seg_cfg o) k (clock 0%nat) l e1 Hl He1) as (r & l' & e2 & -> & Hl' & He2 & _ & Hc2).
    cbn [mbind Outcome_bind].
    assert (payloads_ok e2 /\ (omap decoded (e_contents e2) = <[k := (v, md)]> (omap decoded (e_contents e)) \/
      exists k', k' <> k /\ omap decoded (e_contents e2) = delete k' (<[k := (v, md)]> (omap decoded (e_contents e)))))
      as [Hp2 Ev2].
    { destruct Hc2 as [Ec2|(k' & Hne & Ec2)].
      - destruct (payloads_same _ _ Hp1 Ec2) as [? ->]. rewrite Ev. auto.
      - destruct (payloads_delete _ _ _ Hp1 Ec2) as [? ->]. rewrite Ev. eauto. }
    destruct (with_env_ok b e2 (Some l')) as [? ->]; [done..|]. done.
  - destruct (with_env_ok b e1 None) as [? ->]; [done..|]. split; [done|]. split; [done|].
    rewrite Ev. cbn. auto.
Qed.

Lemma IndexBackend_Put_spec key v md opts clock b ctx :
  ctx_ok b ctx -> bytes_ok key -> Z.of_nat (length v) + Z.of_nat (length md) < 2 ^ 64 ->
  match IndexBackend_Put iter key v md opts clock b with
  | UB => ~ all_free (c_mgr ctx)
  | Ret (r, b') => bk_ok b' /\ options_ b' = options_ b /\
      match Key128_FromString key with
      | None => wr_code r = BkInvalidArgument /\ b' = b
      | Some k => put_effect (options_ b) k v md opts (wr_code r) (view b) (view b')
      end
  end.
Proof.
  intros Hx Hb Hlen. unfold IndexBackend_Put. destruct (Key128_FromString key) as [k|] eqn:Ek.
  2: { split; [by exists ctx|]. done. }
  destruct (FromString_valid key k Hb Ek) as [Hk _]. pose proof Hx as [Ec He Hl Hs Hp]. rewrite Ec, (view_ctx b ctx Ec).
  destruct (wo_overwrite opts) eqn:Eo; cbn [negb mbind Outcome_bind].
  - pose proof (put_payload_spec k v md opts clock b (env_of ctx b) (c_lfu ctx) Hs He Hl Hp Hk Hlen) as Hq.
    apply Hq. by left.
  - destruct (probe_spec k b ctx Hx) as (found & e & E & He' & Em & Ece & Hf). rewrite E. cbn [mbind Outcome_bind].
    destruct (payloads_same _ _ Hp Ece) as [Hp' Ev].
    destruct found as [r|].
    + destruct (with_env_ok b e (c_lfu ctx)) as [? Evw]; [done..|]. split; [done|]. split; [done|]. rewrite Evw, Ev.
      destruct Hf as [[-> Hin]|(s & Hne & ->)]; [|by apply put_effect_error].
      split; [done|]. split; [|done]. apply not_eq_None_Some. rewrite (view_lookup_none (env_of ctx b)) by done.
      rewrite <- Ece. by apply not_eq_None_Some.
    + pose proof (put_payload_spec k v md opts clock b e (c_lfu ctx) Hs He' Hl Hp' Hk Hlen) as Hq.
      cbv zeta in Hq. rewrite Ev, Em in Hq. apply Hq. by right.
Qed.

(** A read: a hit has the metadata, and the value if it was asked for; a miss
    or an error has neither. *)
Definition get_effect (opts : ReadOptions) (r : ReadResult) (x : option (list Z * list Z)) : Prop :=
  match x with
  | None => rr_code r = BkNotFound /\ rr_value r = [] /\ rr_metadata r = []
  | Some (v, md) =>
      if decide (rr_code r = BkOk)
      then rr_metadata r = md /\ rr_value r = if ro_include_value opts then v else []
      else rr_code r <> BkNotFound /\ rr_value r = [] /\ rr_metadata r = []
  end.

Lemma lfu_find_ok k now l :
  lfu_ok (Some l) -> exists v l', lfu_find k false now l = Ret (v, l') /\ lfu_ok (Some l').
Proof.
  intros (Hc & Ht & Er & Hcap).
  destruct (find_spec m_value k false now l Hc) as (l' & E & Hok & (Ec & Et & Er') & _).
  eexists _, l'. split; [exact E|]. split; [done|]. by rewrite Et, Er', Ec.
Qed.

Lemma lfu_erase_ok k l :
  lfu_ok (Some l) -> exists v l', lfu_erase k l = Ret (v, l') /\ lfu_ok (Some l').
Proof.
  intros Hl. pose proof Hl as (Hc & Ht & Er & Hcap). unfold lfu_erase.
  destruct (m_keyed_elements l !! k) as [n|] eqn:E; [|by eexists _, _].
  destruct (do_erase_spec l k n Hc E) as (l' & -> & (Hok & (Ec & Et & Er') & _) & _).
  eexists _, l'. split; [done|]. split; [done|]. by rewrite Et, Er', Ec.
Qed.

Lemma IndexBackend_Get_spec key opts clock b ctx :
  ctx_ok b ctx -> bytes_ok key ->
  exists r b', IndexBackend_Get key opts clock b = Ret (r, b') /\ bk_ok b' /\ options_ b' = options_ b /\
    view b' = view b /\
    match Key128_FromString key with
    | None => rr_code r = BkInvalidArgument /\ rr_value r = [] /\ rr_metadata r = []
    | Some k => get_effect opts r (view b !! k)
    end.
Proof.
  intros Hx Hb. unfold IndexBackend_Get. destruct (Key128_FromString key) as [k|] eqn:Ek.
  2: { do 2 eexists. split; [done|]. split; [by exists ctx|]. done. }
  pose proof Hx as [Ec He Hl Hs Hp]. rewrite Ec, (view_ctx b ctx Ec).
  destruct (Get_spec (seg_cfg (options_ b)) k (env_of ctx b) He) as (s & out & e & E & He' & _ & _ & Ece & _ & Hr).
  pose proof (Get_found (seg_cfg (options_ b)) k (env_of ctx b) s out e He) as Hfound.
  cbn [SegmentBase.value_size seg_cfg] in E, Hfound. rewrite E. cbn [mbind Outcome_bind].
  destruct (payloads_same _ _ Hp Ece) as [Hp' Ev]. rewrite lookup_omap.
  destruct (e_contents (env_of ctx b) !! k) as [p|] eqn:Ep; cbn [mbind option_bind].
  - destruct (Hp _ _ Ep) as [[v md] Hd]. destruct Hr as [Hr _].
    destruct (with_env_ok b e (c_lfu ctx)) as [Hok Evw]; [done..|]. rewrite Ev in Evw.
    destruct (decide (s = kOk)) as [->|Hne]; cbn [status_is_ok negb].
    + rewrite Hr by done. cbn [default id]. pose proof Hd as Hd'. unfold decoded in Hd'.
      destruct (DecodePayload p) as [|[v' md']]; [done|]. injection Hd' as -> ->.
      assert (exists l', match c_lfu ctx with
        | None => Ret None
        | Some lfu => '(_, lfu) ← lfu_find k false (clock 0%nat) lfu; Ret (Some lfu) end = Ret l' /\ lfu_ok l')
        as (l' & -> & Hl').
      { destruct (c_lfu ctx) as [l|]; [|by eexists]. destruct (lfu_find_ok k (clock 0%nat) l Hl) as (? & l' & -> & ?).
        cbn. by eexists. }
      cbn [mbind Outcome_bind]. destruct (with_env_ok b e l') as [Hok' Evw']; [done..|].
      do 2 eexists. split; [done|]. split; [done|]. split; [done|]. split; [by rewrite Evw'|]. cbn.
      rewrite Hd. cbn. done.
    + replace (status_is_ok s) with false by by destruct s. cbn [negb]. do 2 eexists. split; [done|].
      split; [done|]. split; [done|]. split; [done|]. rewrite Hd. cbn. case_decide; [by destruct s|].
      split; [|done]. assert (s <> kNotFound) by (by apply Hfound). by destruct s.
  - destruct Hr as [-> ->]. cbn [status_is_ok negb]. destruct (with_env_ok b e (c_lfu ctx)) as [Hok Evw]; [done..|].
    do 2 eexists. split; [done|]. split; [done|]. split; [done|]. split; [by rewrite Evw|]. done.
Qed.

Definition delete_effect (k : Key128) (code : BackendCode) (m m' : @gmap Key128 key_eq_dec key_countable (list Z * list Z))
    : Prop :=
  match m !! k with
  | None => code = BkNotFound /\ m' = m
  | Some _ => (code = BkOk /\ m' = delete k m) \/ (code <> BkOk /\ m' = m)
  end.

Lemma IndexBackend_Delete_spec key b ctx :
  ctx_ok b ctx -> bytes_ok key ->
  exists r b', IndexBackend_Delete key b = Ret (r, b') /\ bk_ok b' /\ options_ b' = options_ b /\
    match Key128_FromString key with
    | None => wr_code r = BkInvalidArgument /\ b' = b
    | Some k => delete_effect k (wr_code r) (view b) (view b')
    end.
Proof.
  intros Hx Hb. unfold IndexBackend_Delete. destruct (Key128_FromString key) as [k|] eqn:Ek.
  2: { do 2 eexists. split; [done|]. split; [by exists ctx|]. done. }
  pose proof Hx as [Ec He Hl Hs Hp]. rewrite Ec, (view_ctx b ctx Ec).
  destruct (Delete_index_spec (seg_cfg (options_ b)) k (env_of ctx b) He) as (s & e & E & He' & _ & _ & Hr).
  rewrite E. cbn [mbind Outcome_bind]. unfold delete_effect. rewrite lookup_omap.
  assert (exists l', match c_lfu ctx with
    | None => Ret None | Some lfu => '(_, lfu) ← lfu_erase k lfu; Ret (Some lfu) end = Ret l' /\ lfu_ok l')
    as (l' & El & Hl').
  { destruct (c_lfu ctx) as [l|]; [|by eexists]. destruct (lfu_erase_ok k l Hl) as (? & l' & -> & ?).
    cbn. by eexists. }
  rewrite El.
  destruct (e_contents (env_of ctx b) !! k) as [p|] eqn:Ep; cbn [mbind option_bind Outcome_bind].
  - destruct (Hp _ _ Ep) as [x Hd]. rewrite Hd. destruct Hr as (old & ix1 & fs1 & _ & _ & _ & _ & Hr).
    destruct Hr as [(-> & _ & Ece)|(Hne & _ & Ece)].
    + cbn [status_is_ok negb]. destruct (payloads_delete _ _ _ Hp Ece) as [Hp' Ev].
      destruct (with_env_ok b e l') as [? Evw]; [done..|]. do 2 eexists. split; [done|]. split; [done|].
      split; [done|]. left. by rewrite Evw.
    + replace (status_is_ok s) with false by by destruct s. cbn [negb].
      destruct (payloads_same _ _ Hp Ece) as [Hp' Ev].
      destruct (with_env_ok b e (c_lfu ctx)) as [? Evw]; [done..|]. do 2 eexists. split; [done|]. split; [done|].
      split; [done|]. right. rewrite Evw. split; [by destruct s|done].
  - destruct Hr as [-> ->]. cbn [status_is_ok negb].
    destruct (with_env_ok b (env_of ctx b) (c_lfu ctx)) as [? Evw]; [done..|].
    do 2 eexists. split; [done|]. split; [done|]. split; [done|]. by rewrite Evw.
Qed.

Lemma StatsTick_spec b ctx :
  ctx_ok b ctx ->
  match StatsTick iter b with
  | UB => ~ (all_free (c_mgr ctx) /\ 0 < lay_total_slots (CalculateLayout (seg_cfg (options_ b))))
  | Ret b' => bk_ok b' /\ options_ b' = options_ b /\ view b' = view b
  end.
Proof.
  intros Hx. pose proof Hx as [Ec He Hl Hs Hp]. unfold StatsTick. rewrite Ec, (view_ctx b ctx Ec).
  pose proof (compact_index_spec iter iter_ok (seg_cfg (options_ b)) (env_of ctx b) He) as Hc.
  destruct (compact_index iter (env_of ctx b)) as [[s e]|]; cbn [mbind Outcome_bind]; [|done].
  destruct Hc as (He' & _ & Ece). destruct (payloads_same _ _ Hp Ece) as [Hp' Ev].
  destruct (with_env_ok b e (c_lfu ctx)) as [? ->]; done.
Qed.

(** ** Runs *)

Inductive bk_op :=
  | BPut (key value metadata : list Z) (opts : WriteOptions) (clock : nat -> Z)
  | BGet (key : list Z) (opts : ReadOptions) (clock : nat -> Z)
  | BDelete (key : list Z)
  | BStats.

Inductive bk_result := BWrite (r : WriteResult) | BRead (r : ReadResult) | BDone.

Definition bk_step (o : bk_op) b : Outcome (bk_result * IndexBackend) :=
  match o with
  | BPut key v md opts clock => '(r, b) ← IndexBackend_Put iter key v md opts clock b; Ret (BWrite r, b)
  | BGet key opts clock => '(r, b) ← IndexBackend_Get key opts clock b; Ret (BRead r, b)
  | BDelete key => '(r, b) ← IndexBackend_Delete key b; Ret (BWrite r, b)
  | BStats => b ← StatsTick iter b; Ret (BDone, b)
  end.

Fixpoint bk_run (os : list bk_op) b : Outcome (list bk_result * IndexBackend) :=
  match os with
  | [] => Ret ([], b)
  | o :: os => '(r, b) ← bk_step o b; '(rs, b) ← bk_run os b; Ret (r :: rs, b)
  end.

Definition bk_op_ok (o : bk_op) : Prop :=
  match o with
  | BPut key v md _ _ => bytes_ok key /\ Z.of_nat (length v) + Z.of_nat (length md) < 2 ^ 64
  | BGet key _ _ | BDelete key => bytes_ok key
  | BStats => True
  end.

(** The answers of a map with eviction. *)
Definition cache_step (bo : BOptions) (o : bk_op) (r : bk_result)
    (m m' : @gmap Key128 key_eq_dec key_countable (list Z * list Z)) : Prop :=
  match o, r with
  | BPut key v md opts _, BWrite r =>
      match Key128_FromString key with
      | None => wr_code r = BkInvalidArgument /\ m' = m
      | Some k => put_effect bo k v md opts (wr_code r) m m'
      end
  | BGet key opts _, BRead r => m' = m /\
      match Key128_FromString key with
      | None => rr_code r = BkInvalidArgument /\ rr_value r = [] /\ rr_metadata r = []
      | Some k => get_effect opts r (m !! k)
      end
  | BDelete key, BWrite r =>
      match Key128_FromString key with
      | None => wr_code r = BkInvalidArgument /\ m' = m
      | Some k => delete_effect k (wr_code r) m m'
      end
  | BStats, BDone => m' = m
  | _, _ => False
  end.

Fixpoint cache_run (bo : BOptions) (os : list bk_op) (rs : list bk_result)
    (m m' : @gmap Key128 key_eq_dec key_countable (list Z * list Z)) : Prop :=
  match os, rs with
  | [], [] => m' = m
  | o :: os, r :: rs => exists m1, cache_step bo o r m m1 /\ cache_run bo os rs m1 m'
  | _, _ => False
  end.

Lemma bk_step_refines o b r b' :
  bk_ok b -> bk_op_ok o -> bk_step o b = Ret (r, b') ->
  bk_ok b' /\ options_ b' = options_ b /\ cache_step (options_ b) o r (view b) (view b').
Proof using Type*.
  intros [ctx Hx] Ho E. destruct o as [key v md opts clock|key opts clock|key|]; cbn [bk_step bk_op_ok] in *.
  - destruct Ho as [Hb Hlen]. pose proof (IndexBackend_Put_spec key v md opts clock b ctx Hx Hb Hlen) as Hs.
    destruct (IndexBackend_Put _ _ _ _ _ _ b) as [[r0 b0]|]; [|done]. injection E as <- <-.
    destruct Hs as (Hok & Eo & Hs). split; [done|]. split; [done|]. cbn [cache_step].
    destruct (Key128_FromString key); [done|]. by destruct Hs as [? ->].
  - destruct (IndexBackend_Get_spec key opts clock b ctx Hx Ho) as (r0 & b0 & E0 & Hok & Eo & Ev & Hs).
    rewrite E0 in E. injection E as <- <-. split; [done|]. split; [done|]. split; [exact Ev|exact Hs].
  - destruct (IndexBackend_Delete_spec key b ctx Hx Ho) as (r0 & b0 & E0 & Hok & Eo & Hs).
    rewrite E0 in E. injection E as <- <-. split; [done|]. split; [done|]. cbn [cache_step].
    destruct (Key128_FromString key); [done|]. by destruct Hs as [? ->].
  - pose proof (StatsTick_spec b ctx Hx) as Hs. destruct (StatsTick iter b) as [b0|]; [|done].
    injection E as <- <-. done.
Qed.

(** Every idle or appending segment has a free slot. *)
Definition index_ready (b : IndexBackend) : Prop :=
  match context_ b with Some ctx => all_free (c_mgr ctx) | None => True end.

(** The call has a result. *)
Definition step_ready (o : bk_op) (b : IndexBackend) : Prop :=
  match o with
  | BPut _ _ _ _ _ => index_ready b
  | BStats => index_ready b /\ 0 < lay_total_slots (CalculateLayout (seg_cfg (options_ b)))
  | _ => True
  end.

(** A run that gets to a call that is not ready. *)
Definition stuck (os : list bk_op) (b : IndexBackend) : Prop :=
  exists os1 o os2 rs1 b1, os = os1 ++ o :: os2 /\ bk_run os1 b = Ret (rs1, b1) /\ ~ step_ready o b1.

Lemma bk_step_defined (o : bk_op) b :
  bk_ok b -> bk_op_ok o -> step_ready o b -> exists r b', bk_step o b = Ret (r, b').
Proof using Type*.
  intros [ctx Hx] Ho Hfree. unfold step_ready, index_ready in Hfree. rewrite (xo_ctx _ _ Hx) in Hfree.
  destruct o as [key v md opts clock|key opts clock|key|]; cbn [bk_step bk_op_ok] in *.
  - pose proof (IndexBackend_Put_spec key v md opts clock b ctx Hx (proj1 Ho) (proj2 Ho)) as Hs.
    destruct (IndexBackend_Put _ _ _ _ _ _ b) as [[r0 b0]|]; [by do 2 eexists|done].
  - destruct (IndexBackend_Get_spec key opts clock b ctx Hx Ho) as (r0 & b0 & -> & _). by do 2 eexists.
  - destruct (IndexBackend_Delete_spec key b ctx Hx Ho) as (r0 & b0 & -> & _). by do 2 eexists.
  - pose proof (StatsTick_spec b ctx Hx) as Hs. destruct (StatsTick iter b) as [b0|]; [by do 2 eexists|done].
Qed.

Lemma bk_run_refines (os : list bk_op) b :
  bk_ok b -> Forall bk_op_ok os ->
  match bk_run os b with
  | Ret (rs, b') => bk_ok b' /\ cache_run (options_ b) os rs (view b) (view b')
  | UB => stuck os b
  end.
Proof using Type*.
  revert b. induction os as [|o os IH]; intros b Hb Hos; cbn [bk_run]; [done|].
  apply Forall_cons in Hos as [Ho Hos]. destruct (bk_step o b) as [[r b1]|] eqn:E1; cbn [mbind Outcome_bind].
  - destruct (bk_step_refines _ _ _ _ Hb Ho E1) as (Hb1 & Eo & Hs1). specialize (IH b1 Hb1 Hos).
    destruct (bk_run os b1) as [[rs2 b2]|] eqn:E2.
    + destruct IH as [Hb2 Hs2]. split; [done|]. exists (view b1). split; [done|]. by rewrite Eo in Hs2.
    + destruct IH as (os1 & o' & os2 & rs1 & b' & -> & Er & Hn). exists (o :: os1), o', os2, (r :: rs1), b'.
      split; [done|]. split; [|done]. cbn [bk_run]. by rewrite E1; cbn [mbind Outcome_bind]; rewrite Er.
  - exists [], o, os, [], b. split; [done|]. split; [done|]. intros Hr.
    destruct (bk_step_defined o b Hb Ho Hr) as (? & ? & E). congruence.
Qed.

(** C5: the backend is a cache.  Every run of [Put], [Get] and [Delete] with
    rounds of background compaction between them, under any script of I/O
    failures, answers as a map of keys to values and metadata: a [Put] that
    succeeds sets its key and evicts at most one other key, one without
    [overwrite] on a key that is there answers [kAlreadyExists], a value that
    does not fit [kValueTooLarge]; a [Get] returns what is stored, or
    [kNotFound] exactly when nothing is (I/O errors aside); calls that fail
    change nothing.  The run has a result unless it gets to a [Put] or a round
    of compaction when a segment that could be appended to is full (or, for
    compaction, when segments have no slots). *)
Theorem IndexBackend_refines_cache (os : list bk_op) b :
  bk_ok b -> Forall bk_op_ok os ->
  match bk_run os b with
  | Ret (rs, b') => bk_ok b' /\ cache_run (options_ b) os rs (view b) (view b')
  | UB => stuck os b
  end.
Proof using Type*. apply bk_run_refines. Qed.

End cache.

(** ** The promise of a backend *)

Section promise.
Context `{!Phmap Key128} `{!Btree, !BtreeLaws}.
Context (iter : nat -> gset Z -> list Z).
Hypothesis iter_ok : forall n X, iter n X ≡ₚ elements X.

Definition index_view (b : IndexBackend) : kv_view := fun key => k ← Key128_FromString key; view b !! k.

(** Without a context every call is refused. *)
Definition index_inv (b : IndexBackend) : Prop := context_ b = None \/ bk_ok b.

Lemma no_context_defined (b : IndexBackend) :
  context_ b = None ->
  (forall key v md opts clock, exists r b', IndexBackend_Put iter key v md opts clock b = Ret (r, b')) /\
  (forall key opts clock, exists r b', IndexBackend_Get key opts clock b = Ret (r, b')) /\
  (forall key, exists r b', IndexBackend_Delete key b = Ret (r, b')).
Proof.
  intros Hn. split; [|split]; [intros key v md opts clock; unfold IndexBackend_Put|
    intros key opts clock; unfold IndexBackend_Get|intros key; unfold IndexBackend_Delete];
    rewrite Hn; destruct (Key128_FromString key); eauto.
Qed.

Lemma FromString_inj key key' k :
  bytes_ok key -> bytes_ok key' -> Key128_FromString key = Some k -> Key128_FromString key' = Some k -> key' = key.
Proof.
  intros Hb Hb' E E'. destruct (FromString_valid key k Hb E) as [_ <-].
  by destruct (FromString_valid key' k Hb' E') as [_ <-].
Qed.

Lemma index_view_shrinks b b' :
  (forall k x, view b' !! k = Some x -> view b !! k = Some x) -> shrinks (index_view b) (index_view b').
Proof.
  intros Hv key x _. unfold index_view. destruct (Key128_FromString key); [|done]. cbn. apply Hv.
Qed.

#[export] Instance IndexBackend_laws : @BackendLaws IndexBackend (IndexBackend_instance iter).
Proof using Type*.
  refine {| bk_inv := index_inv; bk_view := index_view; bk_ready := index_ready |}.
  - intros key v md opts clock b [Hn|[ctx Hx]] Hr Hb Hlen; [by apply no_context_defined|]. cbn.
    pose proof (IndexBackend_Put_spec iter iter_ok key v md opts clock b ctx Hx Hb Hlen) as Hs.
    destruct (IndexBackend_Put _ _ _ _ _ _ b) as [[r b']|]; [eauto|]. destruct Hs. unfold index_ready in Hr.
    by rewrite (xo_ctx _ _ Hx) in Hr.
  - intros key opts clock b [Hn|[ctx Hx]] Hb; [by apply no_context_defined|]. cbn.
    destruct (IndexBackend_Get_spec key opts clock b ctx Hx Hb) as (r & b' & E & _). eauto.
  - intros key b [Hn|[ctx Hx]] Hb; [by apply no_context_defined|]. cbn.
    destruct (IndexBackend_Delete_spec key b ctx Hx Hb) as (r & b' & E & _). eauto.
  - intros key v md opts clock b r b' [Hn|[ctx Hx]] Hb Hlen E; cbn in E.
    { unfold IndexBackend_Put in E. rewrite Hn in E.
      destruct (Key128_FromString key); injection E as <- <-; (split; [by left|apply shrinks_refl]). }
    pose proof (IndexBackend_Put_spec iter iter_ok key v md opts clock b ctx Hx Hb Hlen) as Hs.
    rewrite E in Hs. destruct Hs as (Hok & _ & Hs). split; [by right|]. unfold put_promise.
    destruct (Key128_FromString key) as [k|] eqn:Ek.
    2: { destruct Hs as [-> ->]. rewrite decide_False by done. apply shrinks_refl. }
    case_decide as Ec.
    + rewrite Ec in Hs. destruct Hs as (_ & _ & Hm). split.
      * unfold index_view. rewrite Ek. cbn.
        destruct Hm as [->|(k' & Hne & ->)]; [|rewrite lookup_delete_ne by done]; apply lookup_insert_eq.
      * intros key' x Hb' Hne Hx'. unfold index_view in *. destruct (Key128_FromString key') as [k'|] eqn:Ek'; [|done].
        cbn in *. assert (k' <> k) as Hkne by (intros ->; by apply Hne, (FromString_inj key key' k)).
        destruct Hm as [Hm|(k0 & Hk0 & Hm)]; rewrite Hm in Hx'; [|apply lookup_delete_Some in Hx' as [_ Hx']];
          by rewrite lookup_insert_ne in Hx' by done.
    + apply index_view_shrinks. intros k' x. assert (view b' = view b) as ->; [|done].
      destruct (wr_code r); [done|..]; cbn in Hs; try exact Hs; apply Hs.
  - intros key opts clock b r b' [Hn|[ctx Hx]] Hb E; cbn in E.
    { unfold IndexBackend_Get in E. rewrite Hn in E.
      destruct (Key128_FromString key); injection E as <- <-;
        (split; [by left|]; split; [apply shrinks_refl|by rewrite decide_False by done]). }
    destruct (IndexBackend_Get_spec key opts clock b ctx Hx Hb) as (r' & b1 & E' & Hok & _ & Ev & Hs).
    rewrite E in E'. injection E' as <- <-. split; [by right|]. split; [apply index_view_shrinks; by rewrite Ev|].
    unfold index_view. destruct (Key128_FromString key) as [k|]; cbn [mbind option_bind].
    2: { destruct Hs as [-> Hs]. by rewrite decide_False by done. }
    destruct (view b !! k) as [[v md]|]; cbn in Hs.
    + case_decide; [|tauto]. destruct Hs as [-> ->]. by exists v.
    + destruct Hs as [-> Hs]. by rewrite decide_False by done.
  - intros key b r b' [Hn|[ctx Hx]] Hb E; cbn in E.
    { unfold IndexBackend_Delete in E. rewrite Hn in E.
      destruct (Key128_FromString key); injection E as <- <-; (split; [by left|]; split; [apply shrinks_refl|done]). }
    destruct (IndexBackend_Delete_spec key b ctx Hx Hb) as (r' & b1 & E' & Hok & _ & Hs).
    rewrite E in E'. injection E' as <- <-. split; [by right|].
    destruct (Key128_FromString key) as [k|] eqn:Ek.
    2: { destruct Hs as [Hr ->]. split; [apply shrinks_refl|by rewrite Hr]. }
    unfold delete_effect in Hs. unfold delete_promise. unfold index_view at 3. rewrite Ek. cbn [mbind option_bind].
    destruct (view b !! k) eqn:Ev.
    + destruct Hs as [[-> Hm]|[Hne Hm]]; rewrite Hm.
      * split; [apply index_view_shrinks; rewrite Hm; by intros ? ? [_ ?]%lookup_delete_Some|].
        intros _. apply lookup_delete_eq.
      * split; [apply index_view_shrinks; by rewrite Hm|done].
    + destruct Hs as [-> Hm]. split; [apply index_view_shrinks; by rewrite Hm|done].
Defined.

End promise.
