(* ===== verification/BackendFiles.v ===== *)
(** * What the operations leave alone

    Lemmas for restarts of the index backend and for threads: the index touches
    no files but its own, the operations on the store keep the segments where they
    are, and compaction keeps what its writes, reads and callbacks keep. *)

From S2P Require Import Prelude Common Sys Key Wal SegmentBase SegmentOps SegmentFile SegmentManager ManagerState.
From S2P Require Import ManagerTheorems Index IndexData IndexCompaction IndexRecovery IndexTheorems.

(** ** Files *)

(** All files but those of [P] are the same. *)
Definition only (P : string -> Prop) (fs fs' : FS) : Prop :=
  forall q, ~ P q -> fs_files fs' !! q = fs_files fs !! q.

#[export] Instance only_preorder P : PreOrder (only P).
Proof. split; [by intros fs q|]. intros fs1 fs2 fs3 H1 H2 q Hq. rewrite H2 by done. by apply H1. Qed.

Lemma only_files P fs fs' : fs_files fs' = fs_files fs -> only P fs fs'.
Proof. intros E q _. by rewrite E. Qed.

Lemma only_call P fs b fs' : sys_call fs = (b, fs') -> only P fs fs'.
Proof. intros E%sys_call_files. by apply only_files. Qed.

Lemma only_insert (P : string -> Prop) fs p f sc : P p -> only P fs (mkFS (<[p := f]> (fs_files fs)) sc).
Proof. intros Hp q Hq. cbn. rewrite lookup_insert_ne; [done|]. by intros <-. Qed.

Section sys.
Context (P : string -> Prop).

Lemma only_open p creat trunc fs ok fs' : P p -> sys_open p creat trunc fs = (ok, fs') -> only P fs fs'.
Proof. intros Hp E q Hq. eapply (sys_open_other p q); [by intros <-|done]. Qed.

Lemma only_fsync p fs ok fs' : P p -> sys_fsync p fs = (ok, fs') -> only P fs fs'.
Proof.
  intros Hp. unfold sys_fsync. destruct (sys_call fs) as [b fs1] eqn:E1. apply (only_call P) in E1.
  destruct (fs_files fs1 !! p); [destruct b|]; intros [= <- <-]; try done. etrans; [done|]. by apply only_insert.
Qed.

Lemma only_pwrite p buf off fs s fs' : P p -> fs_pwrite p buf off fs = (s, fs') -> only P fs fs'.
Proof.
  intros Hp. unfold fs_pwrite. destruct (fs_files fs !! p); [|by intros [= <- <-]].
  destruct (pwrite_loop _ _ _ _) as [[s1 d] sc]. intros [= <- <-]. by apply only_insert.
Qed.

Lemma only_rename p p' fs ok fs' : P p -> P p' -> sys_rename p p' fs = (ok, fs') -> only P fs fs'.
Proof.
  intros Hp Hp'. unfold sys_rename. destruct (sys_call fs) as [b fs1] eqn:E1. apply (only_call P) in E1.
  destruct (fs_files fs1 !! p); [destruct b|]; intros [= <- <-]; try done. etrans; [done|]. intros q Hq. cbn.
  rewrite lookup_insert_ne, lookup_delete_ne; [done|by intros <-|by intros <-].
Qed.

Lemma only_unlink p fs : P p -> only P fs (sys_unlink p fs).
Proof. intros Hp q Hq. apply sys_unlink_other. by intros <-. Qed.

Lemma only_Close p w fs s w' fs' : P p -> ww_fd w = Some p -> WalWriter_Close w fs = (s, w', fs') -> only P fs fs'.
Proof.
  intros Hp Hw. unfold WalWriter_Close. rewrite Hw. destruct (sys_fsync p fs) as [ok fs1] eqn:E. intros [= <- <- <-].
  by eapply only_fsync.
Qed.

Lemma only_Open p t fs s w fs' : P p -> WalWriter_Open p t WalWriter_new fs = (s, w, fs') -> only P fs fs'.
Proof.
  intros Hp. unfold WalWriter_Open. cbn [ww_fd WalWriter_new]. destruct (sys_open p true t fs) as [ok fs1] eqn:E1.
  apply only_open in E1; [|done]. destruct ok; cbn [negb]; [|by intros [= <- <- <-]].
  destruct (sys_call fs1) as [b fs2] eqn:E2. apply (only_call P) in E2.
  destruct b; cbn [negb]; intros [= <- <- <-]; by etrans.
Qed.

Lemma only_Append {K} `{!KeyT K} p (r : WalRecord K) w fs s w' fs' :
  P p -> ww_fd w = Some p -> AppendRecord r w fs = (s, w', fs') -> only P fs fs' /\ ww_fd w' = Some p.
Proof.
  intros Hp Hw. unfold AppendRecord, WalWriter_Append. destruct (_ =? 0)%nat; [by intros [= <- <- <-]|].
  unfold WriteLocked. rewrite Hw. destruct (fs_pwrite p _ _ fs) as [s1 fs1] eqn:E1. apply only_pwrite in E1; [|done].
  destruct (status_is_ok s1) eqn:Es; cbn [negb status_is_ok]; [|rewrite Es; cbn [negb]; by intros [= <- <- <-]].
  unfold sync_writer. cbn [ww_fd]. destruct (sys_fsync p fs1) as [ok fs2] eqn:E2. apply only_fsync in E2; [|done].
  intros [= <- <- <-]. split; [by etrans|done].
Qed.

End sys.

(** ** The index *)

Section index.
Context {K : Type} `{!KeyT K} `{!KeyTLaws K} `{!Phmap K} `{!PhmapLaws K}.
Implicit Types (ix : Index K) (fs : FS).

(** The files of an index. *)
Definition index_file (o : Options) (q : string) : Prop :=
  q = wal_path o \/ q = SnapshotPath (snapshot_dir o) \/ q = SnapshotTmpPath (snapshot_dir o).

(** An open log is a file of the index. *)
Definition wal_at ix : Prop := match wal_ ix with Some w => ww_fd w = Some (wal_path (opts_ ix)) | None => True end.

Lemma durable_wal_at ix fs : durable ix fs -> wal_at ix.
Proof. intros (base & rs & dur & w & [Hw Hl _] & _). unfold wal_at. rewrite Hw. apply Hl. Qed.

Lemma Checkpoint_only ix fs s ix' fs' :
  wal_at ix -> Checkpoint ix fs = (s, ix', fs') -> only (index_file (opts_ ix)) fs fs'.
Proof.
  intros Hw. unfold Checkpoint. destruct (is_empty _); [by intros [= <- <- <-]|]. unfold DumpSnapshot.
  destruct (phmap_dump _ _ fs) as [ok fs1] eqn:E1. apply phmap_dump_spec in E1 as [E1 _].
  assert (only (index_file (opts_ ix)) fs fs1) as O1.
  { intros q Hq. apply E1. intros ->. apply Hq. by right; right. }
  destruct ok; cbn [status_is_ok negb]; [|by intros [= <- <- <-]].
  destruct (sys_rename _ _ fs1) as [ok fs2] eqn:E2. apply (only_rename (index_file (opts_ ix))) in E2; [|by right; right|by right; left].
  assert (only (index_file (opts_ ix)) fs fs2) as O2 by (by etrans).
  destruct ok; cbn [negb]; [|by intros [= <- <- <-]]. unfold RotateWal. unfold wal_at in Hw.
  destruct (wal_ ix) as [w|]; [|by intros [= <- <- <-]].
  destruct (WalWriter_Close w fs2) as [[s3 w3] fs3] eqn:E3. apply (only_Close (index_file (opts_ ix)) (wal_path (opts_ ix))) in E3; [|by left|done].
  cbn [opts_ set_wal]. destruct (WalWriter_Open _ _ _ fs3) as [[s4 w4] fs4] eqn:E4.
  apply (only_Open (index_file (opts_ ix))) in E4; [|by left].
  destruct (status_is_ok s4); cbn [negb]; intros [= <- <- <-]; (etrans; [exact O2|]); by etrans.
Qed.

Lemma AppendWal_only ty k a b ix fs s ix' fs' :
  wal_at ix -> AppendWal ty k a b ix fs = (s, ix', fs') -> only (index_file (opts_ ix)) fs fs'.
Proof.
  intros Hw. unfold AppendWal. unfold wal_at in Hw. destruct (wal_ ix) as [w|] eqn:Ew; [|by intros [= <- <- <-]].
  destruct (AppendRecord _ w fs) as [[s1 w1] fs1] eqn:E1.
  apply (only_Append (index_file (opts_ ix)) (wal_path (opts_ ix))) in E1 as [O1 Hw1]; [|by left|done].
  destruct (status_is_ok s1); cbn [negb]; [|by intros [= <- <- <-]].
  destruct (_ && _ && _); [|by intros [= <- <- <-]].
  destruct (Checkpoint _ fs1) as [[s2 ix2] fs2] eqn:E2. apply Checkpoint_only in E2; [|done].
  intros [= <- <- <-]. by etrans.
Qed.

End index.

(** ** Segments *)

Section handles.
Context {K : Type} `{!KeyT K} `{!KeyTLaws K} `{!Phmap K} {H W : Type} `{SlotStore H W}.
Context (iter : nat -> gset Z -> list Z).
Implicit Types (e : Env K H W) (m : SegmentManager H).

(** The files of the segments. *)
Definition handles m : gmap Z H := seg_handle <$> segments_ m.

Lemma handles_put id s s' m :
  segments_ m !! id = Some s -> seg_handle s' = seg_handle s -> handles (put_segment id s' m) = handles m.
Proof.
  intros Hs Hh. unfold handles, put_segment. cbn. rewrite fmap_insert, Hh. apply insert_id.
  by rewrite lookup_fmap, Hs.
Qed.

Lemma MarkSegmentFull_segments id m : segments_ (MarkSegmentFull id m).2 = segments_ m.
Proof. unfold MarkSegmentFull, MarkSegmentFullInternal. by repeat case_match. Qed.

Lemma GetActiveSegment_segments m o m' : GetActiveSegment iter m = Ret (o, m') -> segments_ m' = segments_ m.
Proof.
  unfold GetActiveSegment. change (segments_ m) with (segments_ (tick m)). generalize (tick m) as m0.
  generalize (iter (clock_ m) (appending_set_ m)) as ids. clear m. intros ids.
  induction ids as [|id ids IH]; intros m0; cbn [active_loop].
  - unfold PromoteIdleSegment. case_match; [by intros [= <- <-]|]. case_match; [done|]. by intros [= <- <-].
  - case_match; [|done]. case_match; [by intros [= <- <-]|].
    pose proof (MarkSegmentFull_segments id m0) as E. unfold MarkSegmentFull in E.
    destruct (MarkSegmentFullInternal id m0) as [s1 m1]. case_match; [|done]. intros E1%IH. cbn in E. congruence.
Qed.

Lemma Insert_handle key value b s (w : W) st out s' w' :
  Insert key value b s w = (st, out, s', w') -> seg_handle s' = seg_handle s.
Proof. unfold Insert. repeat case_match; by intros [= <- <- <- <-]. Qed.

Lemma Delete_handle i s (w : W) st s' w' : Delete i s w = (st, s', w') -> seg_handle s' = seg_handle s.
Proof. unfold Delete. repeat case_match; by intros [= <- <- <-]. Qed.

Lemma FreeSlot_handles enc e s e' : FreeSlot enc e = Ret (s, e') -> handles (e_mgr e') = handles (e_mgr e).
Proof.
  unfold FreeSlot, GetSegment. repeat (case_match; [by intros [= <- <-] || done|]). case_match; [|by intros [= <- <-]].
  case_match. case_match. intros [= <- <-]. cbn. eapply handles_put; [done|]. by eapply Delete_handle.
Qed.

Lemma insert_into_handles id key value e s o e' :
  insert_into id key value e = Ret (s, o, e') -> handles (e_mgr e') = handles (e_mgr e).
Proof.
  unfold insert_into. destruct (segments_ (e_mgr e) !! id) as [seg|] eqn:Es; [|done].
  destruct (Insert _ _ _ _ _) as [[[s1 o1] seg1] w1] eqn:Ei. intros [= <- <- <-]. cbn.
  eapply handles_put; [done|]. by eapply Insert_handle.
Qed.

Lemma active_segment_handles e o e' : active_segment iter e = Ret (o, e') -> handles (e_mgr e') = handles (e_mgr e).
Proof.
  unfold active_segment. destruct (GetActiveSegment iter (e_mgr e)) as [[o1 m1]|] eqn:E; [|done]. intros [= <- <-].
  unfold handles. cbn. by rewrite (GetActiveSegment_segments _ _ _ E).
Qed.

Lemma WriteToSegment_handles key value e s enc e' :
  WriteToSegment iter key value e = Ret (s, enc, e') -> handles (e_mgr e') = handles (e_mgr e).
Proof.
  unfold WriteToSegment. destruct (active_segment iter e) as [[o e1]|] eqn:E1; [|done]. cbn [mbind Outcome_bind].
  apply active_segment_handles in E1. destruct o as [id|]; [|by intros [= <- <- <-]].
  destruct (insert_into id key value e1) as [[[s2 o2] e2]|] eqn:E2; [|done]. cbn [mbind Outcome_bind].
  apply insert_into_handles in E2. case_bool_decide.
  - pose proof (MarkSegmentFull_segments id (e_mgr e2)) as Em. destruct (MarkSegmentFull id (e_mgr e2)) as [s3 m3].
    cbn in Em. destruct (active_segment iter _) as [[o4 e4]|] eqn:E4; [|done]. cbn [mbind Outcome_bind].
    apply active_segment_handles in E4. cbn in E4.
    assert (handles m3 = handles (e_mgr e2)) as E3 by (unfold handles; by rewrite Em).
    destruct o4 as [id4|]; [|intros [= <- <- <-]; congruence].
    destruct (insert_into id4 key value e4) as [[[s5 o5] e5]|] eqn:E5; [|done]. cbn [mbind Outcome_bind].
    apply insert_into_handles in E5. case_match; intros [= <- <- <-]; congruence.
  - case_match; intros [= <- <- <-]; congruence.
Qed.

Lemma append_wal_mgr ty (k : K) a b e s e' : append_wal ty k a b e = (s, e') -> e_mgr e' = e_mgr e.
Proof. unfold append_wal. destruct (AppendWal _ _ _ _ _ _) as [[? ?] ?]. by intros [= <- <-]. Qed.

Lemma Put_handles k v n e s e' : Put iter k v n e = Ret (s, e') -> handles (e_mgr e') = handles (e_mgr e).
Proof.
  unfold Put. destruct v as [v|]; [|by intros [= <- <-]]. do 2 (case_match; [by intros [= <- <-]|]).
  destruct (WriteToSegment iter k v e) as [[[s1 enc] e1]|] eqn:E1; [|done]. cbn [mbind Outcome_bind].
  apply WriteToSegment_handles in E1. case_match; [intros [= <- <-]; congruence|].
  destruct (append_wal _ k enc _ _) as [ws e2] eqn:E2. apply append_wal_mgr in E2. cbn in E2. case_match.
  - destruct (FreeSlot enc _) as [[s3 e3]|] eqn:E3; [|done]. apply FreeSlot_handles in E3. cbn in E3.
    intros [= <- <-]. congruence.
  - case_match; [|intros [= <- <-]; congruence]. destruct (FreeSlot _ e2) as [[s3 e3]|] eqn:E3; [|done].
    apply FreeSlot_handles in E3. intros [= <- <-]. congruence.
Qed.

Lemma Index_Delete_handles k e s e' : Index_Delete k e = Ret (s, e') -> handles (e_mgr e') = handles (e_mgr e).
Proof.
  unfold Index_Delete. case_match; [|by intros [= <- <-]].
  destruct (append_wal _ k 0 _ _) as [ws e2] eqn:E2. apply append_wal_mgr in E2. cbn in E2. case_match.
  - intros [= <- <-]. cbn. congruence.
  - destruct (FreeSlot _ e2) as [[s3 e3]|] eqn:E3; [|done]. apply FreeSlot_handles in E3. intros [= <- <-]. congruence.
Qed.

Lemma Get_mgr k b n e s o e' : Get k b n e = Ret (s, o, e') -> e_mgr e' = e_mgr e.
Proof. unfold Get. repeat case_match; by intros [= <- <- <-]. Qed.

End handles.

(** ** Where segments are, and what writes to them *)

Section place.
Context {H W : Type} `{SlotStore H W}.

(** The segment is where it was, under its number. *)
Definition same_place (s s' : Segment H) : Prop :=
  seg_handle s' = seg_handle s /\ segment_id_ (seg_base s') = segment_id_ (seg_base s).

Lemma Insert_place key value b s (w : W) st out s' w' : Insert key value b s w = (st, out, s', w') -> same_place s s'.
Proof.
  unfold Insert. repeat case_match; intros [= <- <- <- <-]; (split; [done|]); try done. cbn [seg_base set_base].
  by rewrite UpdateState_eq.
Qed.

Lemma Delete_place i s (w : W) st s' w' : Delete i s w = (st, s', w') -> same_place s s'.
Proof.
  unfold Delete. repeat case_match; intros [= <- <- <-]; (split; [done|]); try done. cbn [seg_base set_base].
  by rewrite UpdateState_eq.
Qed.

Lemma compact_loop_place {X} (cb : option (SlotMoveCallback X)) slots s t (w : W) x st t' w' x' :
  compact_loop cb slots s t w x = (st, t', w', x') -> same_place t t'.
Proof.
  revert t w x. induction slots as [|i slots IH]; intros t w x; cbn [compact_loop]; [by intros [= <- <- <- <-]|].
  case_match; [apply IH|]. destruct (read_slot _ _ _) as [[[? ?] ?] ?]. case_match; [by intros [= <- <- <- <-]|].
  destruct (Insert _ _ _ _ _) as [[[? ?] t1] ?] eqn:Ei. apply Insert_place in Ei as [E1 E2].
  case_match; [by intros [= <- <- <- <-]|]. intros [E3 E4]%IH. split; congruence.
Qed.

Lemma Compact_place {X} (cb : option (SlotMoveCallback X)) t s (w : W) x st s' ot w' x' :
  Compact (Some t) cb s w x = (st, s', ot, w', x') -> same_place s s' /\ exists t', ot = Some t' /\ same_place t t'.
Proof.
  unfold Compact. case_match; [intros [= <- <- <- <- <-]; split; [done|by exists t]|].
  destruct (compact_loop _ _ _ _ _ _) as [[[? t1] ?] ?] eqn:El. apply compact_loop_place in El.
  case_match; [intros [= <- <- <- <- <-]; split; [done|by exists t1]|].
  destruct (FlushBitmap _ _). intros [= <- <- <- <- <-]. split; [done|by exists t1].
Qed.

Lemma finish_compaction_segments src tgt (m : SegmentManager H) : segments_ (finish_compaction src tgt m) = segments_ m.
Proof. unfold finish_compaction. by destruct (GetState <$> _) as [[]|]. Qed.

(** The segments of the manager stay where they are. *)
Lemma compact_candidates_handles {X} (cb : option (SlotMoveCallback X)) iter ids m (w : W) x st m' w' x' :
  compact_candidates iter cb ids m w x = Ret (st, m', w', x') -> handles m' = handles m.
Proof.
  revert m w x. induction ids as [|src ids IH]; intros m w x; cbn [compact_candidates]; [by intros [= <- <- <- <-]|].
  destruct (GetActiveSegment iter m) as [[o m1]|] eqn:Eg; [|done]. cbn [mbind Outcome_bind].
  apply GetActiveSegment_segments in Eg. assert (handles m1 = handles m) as <- by (unfold handles; by rewrite Eg). clear Eg.
  destruct o as [tgt|]; [|by intros [= <- <- <- <-]]. destruct (segments_ m1 !! src) as [s|] eqn:Es; [|by apply IH].
  case_bool_decide; [done|]. destruct (segments_ m1 !! tgt) as [t|] eqn:Et; [|done].
  destruct (Compact (Some t) cb s w x) as [[[[st1 s'] ot] w1] x1] eqn:Ec.
  apply Compact_place in Ec as ([Hs' _] & t' & -> & [Ht' _]).
  assert (handles (put_segment tgt t' (put_segment src s' m1)) = handles m1) as Eh.
  { rewrite (handles_put tgt t); [by eapply handles_put| |done]. cbn. by rewrite lookup_insert_ne. }
  case_match; [intros [= <- <- <- <-]; exact Eh|]. intros E%IH. rewrite E. unfold handles.
  rewrite finish_compaction_segments. exact Eh.
Qed.

(** An invariant [Q] of the store and the client of a compaction, which writes
    and reads at the handles [hs] and the callback keep. *)
Context {X : Type} (Q : W -> X -> Prop) (hs : H -> Prop) (cb : option (SlotMoveCallback X)).
Hypothesis Q_write : forall h buf off w s w' x, hs h -> Q w x -> st_write h buf off w = (s, w') -> Q w' x.
Hypothesis Q_read : forall h n off w s got w' x, hs h -> Q w x -> st_read h n off w = (s, got, w') -> Q w' x.
Hypothesis Q_cb : forall f key a i b j w x, cb = Some f -> Q w x -> Q w (f key a i b j x).

Lemma write_slot_keeps s i key value w x st w' : hs (seg_handle s) -> Q w x -> write_slot s i key value w = (st, w') -> Q w' x.
Proof using Q_write.
  intros Hs HQ. unfold write_slot. destruct (st_write _ key _ w) as [s1 w1] eqn:E1.
  apply (Q_write _ _ _ _ _ _ x Hs) in E1; [|done]. case_match; [by intros [= <- <-]|]. by apply Q_write.
Qed.

Lemma FlushBitmap_keeps s w x st w' : hs (seg_handle s) -> Q w x -> FlushBitmap s w = (st, w') -> Q w' x.
Proof using Q_write. apply Q_write. Qed.

Lemma Insert_keeps key value b s (w : W) x st out s' w' :
  hs (seg_handle s) -> Q w x -> Insert key value b s w = (st, out, s', w') -> Q w' x.
Proof using Q_write.
  intros Hs HQ. unfold Insert. destruct key as [key|], value as [value|], b; try (by intros [= <- <- <- <-]).
  case_match; [by intros [= <- <- <- <-]|]. cbv zeta. case_match; [by intros [= <- <- <- <-]|].
  destruct (write_slot _ _ _ _ w) as [s1 w1] eqn:E1. apply (write_slot_keeps _ _ _ _ _ x) in E1; [|done..].
  case_match; [by intros [= <- <- <- <-]|].
  destruct (FlushBitmap _ w1) as [s2 w2] eqn:E2. apply (FlushBitmap_keeps _ _ x) in E2; [|done..].
  case_match; by intros [= <- <- <- <-].
Qed.

Lemma Delete_keeps i s (w : W) x st s' w' : hs (seg_handle s) -> Q w x -> Delete i s w = (st, s', w') -> Q w' x.
Proof using Q_write.
  intros Hs HQ. unfold Delete. do 3 (case_match; [by intros [= <- <- <-]|]).
  destruct (FlushBitmap _ w) as [s1 w1] eqn:E1. apply (FlushBitmap_keeps _ _ x) in E1; [|done..].
  case_match; by intros [= <- <- <-].
Qed.

Lemma read_into_keeps c h n off w x st o w' : hs h -> Q w x -> read_into c h n off w = (st, o, w') -> Q w' x.
Proof using Q_read.
  intros Hs HQ. unfold read_into. destruct c; [|by intros [= <- <- <-]]. destruct (st_read _ _ _ _) as [[? ?] ?] eqn:E1.
  intros [= <- <- <-]. by eapply Q_read.
Qed.

Lemma Read_keeps i k v s (w : W) x st a b w' : hs (seg_handle s) -> Q w x -> Read i k v s w = (st, a, b, w') -> Q w' x.
Proof using Q_read.
  intros Hs HQ. unfold Read. do 3 (case_match; [by intros [= <- <- <- <-]|]). cbv zeta.
  destruct (read_into k _ _ _ w) as [[s1 o1] w1] eqn:E1. apply (read_into_keeps _ _ _ _ _ x) in E1; [|done..].
  case_match; [by intros [= <- <- <- <-]|]. destruct (read_into v _ _ _ w1) as [[s2 o2] w2] eqn:E2.
  apply (read_into_keeps _ _ _ _ _ x) in E2; [|done..]. by intros [= <- <- <- <-].
Qed.

Lemma read_slot_keeps s i w x st a b w' : hs (seg_handle s) -> Q w x -> read_slot s i w = (st, a, b, w') -> Q w' x.
Proof using Q_read.
  intros Hs HQ. unfold read_slot. destruct (st_read _ _ _ w) as [[s1 k1] w1] eqn:E1.
  apply (Q_read _ _ _ _ _ _ _ x Hs) in E1; [|done]. case_match; [by intros [= <- <- <- <-]|].
  destruct (st_read _ _ _ w1) as [[s2 k2] w2] eqn:E2. apply (Q_read _ _ _ _ _ _ _ x Hs) in E2; [|done].
  by intros [= <- <- <- <-].
Qed.

Lemma compact_loop_keeps slots s t w x st t' w' x' :
  hs (seg_handle s) -> hs (seg_handle t) -> Q w x -> compact_loop cb slots s t w x = (st, t', w', x') -> Q w' x'.
Proof using Q_write Q_read Q_cb.
  intros Hs. revert t w x. induction slots as [|i slots IH]; intros t w x Ht HQ; cbn [compact_loop]; [by intros [= <- <- <- <-]|].
  case_match; [by apply IH|]. destruct (read_slot s i w) as [[[s1 k1] v1] w1] eqn:E1.
  apply (read_slot_keeps _ _ _ x) in E1; [|done..]. case_match; [by intros [= <- <- <- <-]|].
  destruct (Insert _ _ _ t w1) as [[[s3 o3] t3] w3] eqn:E3. pose proof (Insert_place _ _ _ _ _ _ _ _ _ E3) as [Et _].
  apply (Insert_keeps _ _ _ _ _ x) in E3; [|done|done]. case_match; [by intros [= <- <- <- <-]|].
  intros E. apply IH in E; [done|by rewrite Et|]. destruct cb eqn:Ecb; [by apply Q_cb|done].
Qed.

Lemma Compact_keeps t s w x st s' ot w' x' :
  hs (seg_handle s) -> hs (seg_handle t) -> Q w x -> Compact (Some t) cb s w x = (st, s', ot, w', x') -> Q w' x'.
Proof using Q_write Q_read Q_cb.
  intros Hs Ht HQ. unfold Compact. case_match; [by intros [= <- <- <- <- <-]|].
  destruct (compact_loop _ _ _ _ _ _) as [[[s1 t1] w1] x1] eqn:E1. apply compact_loop_keeps in E1; [|done..].
  case_match; [by intros [= <- <- <- <- <-]|]. unfold FlushBitmap. cbn [seg_handle set_base].
  destruct (st_write _ _ _ w1) as [s2 w2] eqn:E2. apply (Q_write _ _ _ _ _ _ x1 Hs) in E2; [|done]. by intros [= <- <- <- <- <-].
Qed.

Lemma compact_candidates_keeps iter ids m w x st m' w' x' :
  (forall id s, segments_ m !! id = Some s -> hs (seg_handle s)) -> Q w x ->
  compact_candidates iter cb ids m w x = Ret (st, m', w', x') -> Q w' x'.
Proof using Q_write Q_read Q_cb.
  revert m w x. induction ids as [|src ids IH]; intros m w x Hh HQ; cbn [compact_candidates]; [by intros [= <- <- <- <-]|].
  destruct (GetActiveSegment iter m) as [[o m1]|] eqn:Eg; [|done]. cbn [mbind Outcome_bind].
  apply GetActiveSegment_segments in Eg. destruct o as [tgt|]; [|by intros [= <- <- <- <-]].
  assert (forall id s, segments_ m1 !! id = Some s -> hs (seg_handle s)) as Hh1 by (by rewrite Eg). clear Hh Eg.
  destruct (segments_ m1 !! src) as [s|] eqn:Es; [|by apply IH]. case_bool_decide; [done|].
  destruct (segments_ m1 !! tgt) as [t|] eqn:Et; [|done].
  destruct (Compact (Some t) cb s w x) as [[[[st1 s'] ot] w1] x1] eqn:Ec.
  pose proof (Compact_place _ _ _ _ _ _ _ _ _ _ Ec) as ([Hs' _] & t' & -> & [Ht' _]).
  apply Compact_keeps in Ec; [|by eapply Hh1|by eapply Hh1|done]. case_match; [by intros [= <- <- <- <-]|].
  apply IH; [|done]. intros id u Hu. rewrite finish_compaction_segments in Hu. cbn in Hu.
  apply lookup_insert_Some in Hu as [[_ <-]|[_ [[_ <-]|[_ Hu]]%lookup_insert_Some]];
    [rewrite Ht'; by eapply Hh1|rewrite Hs'; by eapply Hh1|by eapply Hh1].
Qed.

Lemma RunCompaction_keeps iter m w x st m' w' x' :
  (forall id s, segments_ m !! id = Some s -> hs (seg_handle s)) -> Q w x ->
  RunCompaction iter cb m w x = Ret (st, m', w', x') -> Q w' x'.
Proof using Q_write Q_read Q_cb.
  intros Hh HQ. unfold RunCompaction. destruct (candidates _ _); [|done]. cbn [mbind Outcome_bind].
  by apply (compact_candidates_keeps _ _ (tick m)).
Qed.

Lemma RunCompaction_handles iter m w x st m' w' x' : RunCompaction iter cb m w x = Ret (st, m', w', x') -> handles m' = handles m.
Proof using Type.
  unfold RunCompaction. destruct (candidates _ _); [|done]. cbn [mbind Outcome_bind].
  apply (compact_candidates_handles cb _ _ (tick m)).
Qed.

End place.

Lemma slot_moved_opts {K} `{!KeyT K, !Phmap K} key a i b j (x : Index K * FS) : opts_ (slot_moved key a i b j x).1 = opts_ x.1.
Proof.
  destruct x as [ix fs]. unfold slot_moved, RemapIfEquals. destruct (AppendWal _ _ _ _ ix fs) as [[s ix1] fs1] eqn:E.
  apply AppendWal_frame in E as [_ Eo]. by repeat case_match; simplify_eq.
Qed.

Lemma compact_index_opts {K} `{!KeyT K, !Phmap K} {H W} `{SlotStore H W} iter (e : Env K H W) s e' :
  compact_index iter e = Ret (s, e') -> e_opts e' = e_opts e.
Proof.
  unfold compact_index. destruct (RunCompaction _ _ _ _ _) as [[[[st m] w] x]|] eqn:E; [|done]. intros [= <- <-].
  apply (RunCompaction_keeps (fun _ x => opts_ x.1 = e_opts e) (fun _ => True)) in E; try done.
  intros f key a i b j w0 x0 Hf Hx. rewrite <- Hx. unfold AttachToSegmentManager in Hf. case_match; [|done].
  injection Hf as <-. apply slot_moved_opts.
Qed.
