(* ===== verification/IndexLogging.v ===== *)
(** * The log as long as no call fails

    A weaker invariant than [durable] of [IndexRecovery]: the index has its log
    open, whatever the log holds.  Without failures every logged change and
    every move of a compaction keeps it, and a checkpoint turns it into
    [durable].  It does not say that the log gives back the map, which a
    compaction can break until the next checkpoint (see [IndexExamples]). *)

From S2P Require Import Prelude Common Sys Key Offset Wal SegmentBase SegmentOps SegmentManager ManagerState.
From S2P Require Import ManagerTheorems Index IndexData IndexCompaction IndexRecovery IndexTheorems BackendFiles.

Section logging.
Context {K : Type} `{!KeyT K} `{!KeyTLaws K} `{!Phmap K} `{!PhmapLaws K}.
Implicit Types (ix : Index K) (fs : FS).

Definition logging ix fs : Prop :=
  exists w, wal_ ix = Some w /\ ww_fd w = Some (wal_path (opts_ ix)) /\ is_Some (fs_files fs !! wal_path (opts_ ix)).

Lemma durable_logging ix fs : durable ix fs -> logging ix fs.
Proof.
  intros (base & rs & dur & w & [Hw Hl _] & _). exists w. split; [done|]. split; [apply Hl|].
  destruct (log_file _ _ _ _ _ Hl) as (sy & tail & -> & _). by eexists.
Qed.

Lemma logging_wal_at ix fs : logging ix fs -> wal_at ix.
Proof. intros (w & Hw & Hf & _). unfold wal_at. by rewrite Hw. Qed.

(** A call to sync a file that is there. *)
Lemma sys_fsync_there p fs ok fs' :
  is_Some (fs_files fs !! p) -> no_eio (fs_script fs) -> sys_fsync p fs = (ok, fs') ->
  ok = true /\ is_Some (fs_files fs' !! p) /\ no_eio (fs_script fs').
Proof.
  intros [f Hf] Hn E. pose proof (sys_fsync_no_eio _ _ _ _ Hn E) as Hn'.
  apply (sys_fsync_spec _ _ _ _ _ Hf) in E as [[-> ->]|(_ & _ & ?)]; [|done].
  split; [done|]. split; [|done]. rewrite lookup_insert_eq. by eexists.
Qed.

(** A log that was just opened anew, next to a snapshot of the map. *)
Lemma fresh_log_durable ix fs y :
  paths_ok (opts_ ix) -> snapshot_holds (opts_ ix) fs (map_ ix) ->
  fs_files fs !! wal_path (opts_ ix) = Some (mkFile [] y) ->
  durable (set_wal_bytes 0 (set_wal (Some (mkWriter (Some (wal_path (opts_ ix))) (wal_path (opts_ ix)) 0)) ix)) fs.
Proof.
  intros [Hp _] Hs Hy. exists (map_ ix), [], 0%nat. eexists. split; [|done]. split; [done| |done].
  split; cbn; try (done || lia || by constructor). exists y, []. rewrite Hy. split; [done|].
  split; [cbn; apply kEncodedSize_pos|apply prefix_nil].
Qed.

Lemma RotateWal_quiet ix fs s ix' fs' :
  paths_ok (opts_ ix) -> logging ix fs -> snapshot_holds (opts_ ix) fs (map_ ix) -> no_eio (fs_script fs) ->
  RotateWal ix fs = (s, ix', fs') -> s = kOk /\ durable ix' fs' /\ log_size ix' = 0 /\ no_eio (fs_script fs').
Proof.
  intros Hpo (w & Hw & Hf & Hin) Hs Hn E. pose proof Hpo as (_ & Hps & _). unfold RotateWal, WalWriter_Close in E.
  rewrite Hw, Hf in E. set (p := wal_path (opts_ ix)) in *. destruct (sys_fsync p fs) as [ok fs1] eqn:E1.
  pose proof (only_fsync (eq p) _ _ _ _ eq_refl E1) as O1. apply sys_fsync_there in E1 as (_ & _ & Hn1); [|done|done].
  cbn [opts_ set_wal] in E. unfold WalWriter_Open, WalWriter_new in E. cbn [ww_fd] in E. fold p in E.
  destruct (sys_open p true true fs1) as [ok2 fs2] eqn:E2. pose proof (only_open (eq p) _ _ _ _ _ _ eq_refl E2) as O2.
  destruct (sys_open_no_eio _ _ _ _ _ _ Hn1 E2) as [Hn2 Hok2]. rewrite Hok2 in * by (by left). cbn [negb] in E.
  destruct (sys_open_trunc _ _ _ E2) as [y Hy]. destruct (sys_call fs2) as [b fs3] eqn:E3.
  pose proof (sys_call_files _ _ _ E3) as Ef3. apply sys_call_no_eio in E3 as [-> Hn3]; [|done].
  cbn [negb status_is_ok] in E. injection E as <- <- <-. split; [done|].
  assert (file_size p fs3 = 0) as Ez by (unfold file_size; by rewrite Ef3, Hy).
  split; [|split; [unfold log_size; cbn; exact Ez|done]]. rewrite Ez.
  apply (fresh_log_durable ix fs3 y); [done| |by rewrite Ef3]. apply (snapshot_holds_frame _ fs); [|done].
  intros _. rewrite Ef3, O2, O1; [done| |]; by apply Hps.
Qed.

(** A checkpoint makes the files give back the map. *)
Lemma Checkpoint_quiet ix fs s ix' fs' :
  paths_ok (opts_ ix) -> snapshot_dir (opts_ ix) <> EmptyString -> logging ix fs -> no_eio (fs_script fs) ->
  Checkpoint ix fs = (s, ix', fs') -> s = kOk /\ durable ix' fs' /\ log_size ix' = 0 /\ no_eio (fs_script fs').
Proof.
  intros Hpo Hd (w & Hw & Hf & Hin) Hn E. pose proof Hpo as (_ & Hps & Hpt). unfold Checkpoint, DumpSnapshot in E.
  rewrite is_empty_false in E by done.
  set (final := SnapshotPath (snapshot_dir (opts_ ix))) in *. set (tmp := SnapshotTmpPath (snapshot_dir (opts_ ix))) in *.
  destruct (phmap_dump (map_ ix) tmp fs) as [ok fs1] eqn:E1. apply phmap_dump_spec in E1 as (Hf1 & Himg & Hn1).
  destruct (Hn1 Hn) as [-> Hn1']. cbn [status_is_ok negb] in E. destruct (Himg eq_refl) as (f & Hff & Hi).
  destruct (sys_rename tmp final fs1) as [ok fs2] eqn:E2.
  apply (sys_rename_spec _ _ _ _ _ _ Hff) in E2 as [Hcase Hn2]. destruct (Hn2 Hn1') as [-> Hn2'].
  destruct Hcase as [[_ Ef2]|[? _]]; [|done]. cbn [negb] in E.
  apply RotateWal_quiet in E; [done|done| | |done].
  - exists w. split; [done|]. split; [done|]. rewrite Ef2, lookup_insert_ne, lookup_delete_ne by (by apply not_eq_sym).
    by rewrite Hf1.
  - unfold snapshot_holds. rewrite is_empty_false by done. fold final. by rewrite Ef2, lookup_insert_eq.
Qed.

Lemma AppendRecord_quiet (r : WalRecord K) p w fs s w' fs' :
  ww_fd w = Some p -> is_Some (fs_files fs !! p) -> no_eio (fs_script fs) -> AppendRecord r w fs = (s, w', fs') ->
  s = kOk /\ ww_fd w' = Some p /\ is_Some (fs_files fs' !! p) /\ no_eio (fs_script fs').
Proof.
  intros Hw [f Hf] Hn E. unfold AppendRecord, WalWriter_Append, WriteLocked, sync_writer in E.
  pose proof (kEncodedSize_pos (K := K)). rewrite (proj2 (Nat.eqb_neq _ _)), Hw in E by lia.
  destruct (fs_pwrite p _ _ fs) as [s1 fs1] eqn:E1.
  apply (fs_pwrite_spec _ _ _ _ _ _ _ Hf) in E1 as (k & _ & Ef1 & _ & Hn1). destruct (Hn1 Hn) as [-> Hn1'].
  cbn [status_is_ok negb ww_fd] in E. destruct (sys_fsync p fs1) as [ok fs2] eqn:E2.
  apply sys_fsync_there in E2 as (-> & Hin & Hn2); [|rewrite Ef1, lookup_insert_eq; by eexists|done].
  by injection E as <- <- <-.
Qed.

Lemma AppendWal_quiet ty k a b ix fs s ix' fs' :
  paths_ok (opts_ ix) -> logging ix fs -> no_eio (fs_script fs) -> AppendWal ty k a b ix fs = (s, ix', fs') ->
  s = kOk /\ logging ix' fs' /\ no_eio (fs_script fs').
Proof.
  intros Hp (w & Hw & Hf & Hin) Hn E. unfold AppendWal in E. rewrite Hw in E.
  destruct (AppendRecord _ w fs) as [[s1 w1] fs1] eqn:E1.
  apply (AppendRecord_quiet _ (wal_path (opts_ ix))) in E1 as (-> & Hf1 & Hin1 & Hn1); [|done..].
  cbn [status_is_ok negb] in E. set (ix1 := set_wal_bytes _ _) in E.
  assert (logging ix1 fs1) as Hl1 by (by exists w1).
  destruct (_ && _ && negb (is_empty (snapshot_dir (opts_ ix1)))) eqn:Ec.
  - apply andb_true_iff in Ec as [_ Ed%negb_true_iff%bool_decide_eq_false].
    destruct (Checkpoint ix1 fs1) as [[s2 ix2] fs2] eqn:E2. injection E as <- <- <-.
    apply Checkpoint_quiet in E2 as (_ & Hd2 & _ & Hn2); [|done..]. split; [done|]. by split; [apply durable_logging|].
  - by injection E as <- <- <-.
Qed.

(** A move of a compaction. *)
Lemma slot_moved_quiet key a i b j ix fs ix' fs' :
  paths_ok (opts_ ix) -> logging ix fs -> no_eio (fs_script fs) -> slot_moved key a i b j (ix, fs) = (ix', fs') ->
  logging ix' fs' /\ no_eio (fs_script fs') /\ opts_ ix' = opts_ ix /\ dom (map_ ix') = dom (map_ ix) /\
  only (index_file (opts_ ix)) fs fs'.
Proof.
  intros Hp Hl Hn. unfold slot_moved. set (k := key_of_raw _).
  destruct (AppendWal _ _ _ _ _ _) as [[s ix1] fs1] eqn:E. pose proof (AppendWal_frame _ _ _ _ _ _ _ _ _ E) as [Em Eo].
  pose proof (AppendWal_only _ _ _ _ _ _ _ _ _ (logging_wal_at _ _ Hl) E) as Ho.
  apply AppendWal_quiet in E as (_ & Hl1 & Hn1); [|done..].
  unfold RemapIfEquals. rewrite Em. destruct (map_ ix !! k) as [e|] eqn:Ek; [|intros [= <- <-]; by rewrite Em].
  destruct (e =? _); intros [= <- <-]; [|by rewrite Em]. split; [done|]. split; [done|]. split; [done|]. split; [|done].
  cbn. rewrite dom_insert_L. apply subseteq_union_1_L, singleton_subseteq_l. by eapply elem_of_dom_2.
Qed.

Lemma run_moves_quiet src tgt cur ms ix fs ix' fs' :
  paths_ok (opts_ ix) -> logging ix fs -> no_eio (fs_script fs) ->
  run_moves (Some slot_moved) src tgt cur ms (ix, fs) = (ix', fs') ->
  logging ix' fs' /\ no_eio (fs_script fs') /\ opts_ ix' = opts_ ix /\ dom (map_ ix') = dom (map_ ix) /\
  only (index_file (opts_ ix)) fs fs'.
Proof.
  intros Hp. revert cur ix fs Hp. induction ms as [|[i p] ms IH]; intros cur ix fs Hp Hl Hn; cbn [run_moves].
  { by intros [= <- <-]. }
  destruct (slot_moved p.1 src i tgt cur (ix, fs)) as [ix1 fs1] eqn:E1.
  apply slot_moved_quiet in E1 as (Hl1 & Hn1 & Eo1 & Ed1 & O1); [|done..].
  intros (Hl2 & Hn2 & Eo2 & Ed2 & O2)%IH; [|by rewrite Eo1|done|done].
  rewrite Eo2, Ed2, Eo1, Ed1. rewrite Eo1 in O2. do 4 (split; [done|]). by etrans.
Qed.

End logging.

(** ** A round of compaction *)

Section compaction.
Context {K : Type} `{!KeyT K} `{!KeyTLaws K} `{!Phmap K} `{!PhmapLaws K} {H W : Type} `{SlotStoreLaws H W}.
Context (iter : nat -> gset Z -> list Z).
Hypothesis iter_ok : forall n X, iter n X ≡ₚ elements X.
Context (c : SegmentConfig).
Implicit Types (e : Env K H W).

(** What it leaves alone, as long as no call of the index fails. *)
Lemma compact_index_quiet e s e' :
  env_ok c e -> paths_ok (e_opts e) -> logging (e_ix e) (e_fs e) -> no_eio (fs_script (e_fs e)) ->
  compact_index iter e = Ret (s, e') ->
  logging (e_ix e') (e_fs e') /\ no_eio (fs_script (e_fs e')) /\ only (index_file (e_opts e)) (e_fs e) (e_fs e') /\
  dom (map_ (e_ix e')) = dom (map_ (e_ix e)) /\ handles (e_mgr e') = handles (e_mgr e) /\
  (st_quiet (e_w e) -> st_quiet (e_w e')).
Proof using Type*.
  intros [[Hp Hs Hids Hcap] Hi Hm Hc Hk] Hpo Hl Hn. unfold compact_index, AttachToSegmentManager.
  change (opts_ (e_ix e)) with (e_opts e). rewrite Hm. set (D := dom (segments_ (e_mgr e))).
  pose (P := fun (v : stored) (x : Index K * FS) => logging x.1 x.2 /\ no_eio (fs_script x.2) /\ opts_ x.1 = e_opts e /\
    dom (map_ x.1) = dom (map_ (e_ix e)) /\ only (index_file (e_opts e)) (e_fs e) x.2).
  assert (forall v x src tgt cur ms all v', src ∈ D -> tgt ∈ D -> P v x ->
    relocated (lay_total_slots (CalculateLayout c)) v src tgt cur ms all v' ->
    P v' (run_moves (Some slot_moved) src tgt cur ms x)) as Hstep.
  { intros v [ix fs] src tgt cur ms all v' _ _ (Hlx & Hnx & Eo & Ed & Ho) _. cbn [fst snd] in *.
    destruct (run_moves (Some slot_moved) src tgt cur ms (ix, fs)) as [ix' fs'] eqn:E.
    apply run_moves_quiet in E as (Hl' & Hn' & Eo' & Ed' & O'); [|by rewrite Eo|done|done].
    rewrite Eo in Eo', O'. rewrite Ed in Ed'. repeat (split; [done|]). by etrans. }
  pose proof (RunCompaction_spec iter iter_ok (Some slot_moved) c D P Hstep (e_mgr e) (e_w e) (e_ix e, e_fs e)
    Hp Hs eq_refl) as Hrun.
  destruct (RunCompaction _ _ _ _ _) as [[[[s1 m'] w'] [ix' fs']]|]; cbn [mbind Outcome_bind]; [|done].
  intros [= <- <-]. destruct Hrun as (_ & _ & _ & [Eh Hq] & Hl' & Hn' & _ & Ed' & Ho'); [by repeat (split; [done|])|].
  cbn [fst snd e_ix e_fs e_mgr e_w]. repeat (split; [done|]). done.
Qed.

End compaction.
