(* ===== verification/IndexThreads.v ===== *)
(** * Concurrent calls on an index

    [Put], [Get], [Delete] and [Checkpoint] of [parakv/core/index/index.cc] as
    several threads run them.  A call is cut where another thread can get in
    between: every step is one section of code that holds a mutex (of the
    segment manager, of a segment, of a sub-map of phmap, of the log writer) or
    one access to a variable that no mutex guards.  [pc] says where a call is,
    with its local variables; [pc_step] does its next step; [run_turns] lets the
    calls take turns in any order.  [Put_alone], [Get_alone], [Delete_alone] and
    [Checkpoint_alone] tie the steps to the definitions of [Index]: a call that
    nobody interrupts does what they say. *)

From S2P Require Import Prelude Common Sys Key Offset Wal SegmentBase SegmentOps SegmentManager Index IndexCompaction.

(** ** Where a call is *)

Section pc.
Context {K : Type} `{!KeyT K}.

Inductive call :=
| CPut (key : K) (value : option (list Z)) (value_size : Z)
| CGet (key : K) (value_out : bool) (value_size : Z)
| CDelete (key : K)
| CCheckpoint.

(** A change of the map on its way to the log. *)
Inductive change :=
| Putting (key : K) (new_enc : Z) (old_enc : option Z)
| Deleting (key : K) (old_enc : Z).

Inductive pc :=
| Start (c : call)
(** [WriteToSegment]; [again]: after the first segment was full *)
| Activate (key : K) (value : list Z) (again : bool)
| Inserting (key : K) (value : list Z) (seg : Z) (again : bool)
| MarkingFull (key : K) (value : list Z) (seg : Z)
(** the update of the map in [Put] *)
| Emplacing (key : K) (value : list Z) (enc : Z)
(** [AppendWal] *)
| LogTest (ch : change)
| LogAppend (ch : change)
| LogBytes (ch : change)
(** [Checkpoint] and [RotateWal], called by [AppendWal] or on their own *)
| CkLock (o : option change)
| CkDump (o : option change)
| CkRename (o : option change)
| CkClose (o : option change)
| CkOpen (o : option change)
(** after a failure of the log *)
| Undoing (ch : change) (s : Status)
(** [FreeSlot], then return [s] *)
| FreeFind (enc : Z) (s : Status)
| FreeDelete (seg slot : Z) (s : Status)
(** [Get] *)
| ReadFind (enc : Z)
| Reading (seg slot : Z)
| Finished (s : Status) (out : option (list Z)).

(** The record of a change. *)
Definition change_record (ch : change) : WalRecord K :=
  match ch with
  | Putting key new_enc old =>
      mkRec (if bool_decide (is_Some old) then kUpdate else kInsert) key new_enc (default 0 old)
  | Deleting key old_enc => mkRec kDelete key 0 old_enc
  end.

(** Where a call goes on when [AppendWal] returns [s]. *)
Definition logged (ch : change) (s : Status) : pc :=
  if negb (status_is_ok s) then Undoing ch s else
  match ch with
  | Putting _ _ None => Finished kOk None
  | Putting _ _ (Some old_enc) => FreeFind old_enc kOk
  | Deleting _ old_enc => FreeFind old_enc kOk
  end.

(** The same for [Checkpoint]; [AppendWal] ignores what it returns. *)
Definition checkpointed (o : option change) (s : Status) : pc :=
  match o with Some ch => logged ch kOk | None => Finished s None end.

End pc.
Arguments call K : clear implicits.
Arguments change K : clear implicits.
Arguments pc K : clear implicits.

(** ** Steps *)

(** What the threads share: the index with its store, and whether
    [checkpoint_mutex_] is held. *)
Record Shared (K H W : Type) `{!KeyT K} := mkShared { sh_env : Env K H W; checkpoint_mutex_ : bool }.
Arguments mkShared {K H W _} _ _.
Arguments sh_env {K H W _} _.
Arguments checkpoint_mutex_ {K H W _} _.

Section steps.
Context {K : Type} `{!KeyT K} `{!Phmap K} {H W : Type} `{SlotStore H W}.
Context (iter : nat -> gset Z -> list Z).
Implicit Types (e : Env K H W) (sh : Shared K H W).

(** Guards on arguments are checked together with the first access. *)
Definition start_step (c : call K) e : pc K * Env K H W :=
  match c with
  | CPut key value value_size =>
      match value with
      | None => (Finished kInvalidArgument None, e)
      | Some value =>
          if negb (value_size =? SegmentBase.value_size (segment_config (e_opts e)))
          then (Finished kInvalidArgument None, e) else
          if negb (segment_manager (e_opts e)) then (Finished kInvalidArgument None, e)
          else (Activate key value false, e)
      end
  | CGet key value_out value_size =>
      if negb value_out then (Finished kInvalidArgument None, e) else
      if negb (value_size =? SegmentBase.value_size (segment_config (e_opts e)))
      then (Finished kInvalidArgument None, e) else
      match Lookup key true (e_ix e) with
      | (kOk, Some enc) =>
          (if negb (bool_decide (GetFlag enc = kSegmentSlot)) then Finished kNotFound None else ReadFind enc, e)
      | (s, _) => (Finished s None, e)
      end
  | CDelete key =>
      match map_ (e_ix e) !! key with
      | None => (Finished kNotFound None, e)
      | Some old_enc =>
          (LogTest (Deleting key old_enc), set_ix (set_map (delete key (map_ (e_ix e))) (e_ix e)) e)
      end
  | CCheckpoint => (CkLock None, e)
  end.

Definition activate_step (key : K) (value : list Z) (again : bool) e : Outcome (pc K * Env K H W) :=
  '(o, e) ← active_segment iter e;
  Ret (match o with None => Finished kNoSpace None | Some seg => Inserting key value seg again end, e).

Definition insert_step (key : K) (value : list Z) (seg : Z) (again : bool) e : Outcome (pc K * Env K H W) :=
  '(s, slot_id, e) ← insert_into seg key value e;
  Ret (if negb again && bool_decide (s = kFull) then MarkingFull key value seg
       else if negb (status_is_ok s) then Finished s None
       else Emplacing key value (EncodeSegmentSlot seg (default 0 slot_id)), e).

Definition mark_step (key : K) (value : list Z) (seg : Z) e : pc K * Env K H W :=
  let '(_, m) := MarkSegmentFull seg (e_mgr e) in (Activate key value true, set_store m (e_w e) e).

Definition emplace_step (key : K) (enc : Z) e : pc K * Env K H W :=
  let old := map_ (e_ix e) !! key in
  (LogTest (Putting key enc old), set_ix (set_map (<[key := enc]> (map_ (e_ix e))) (e_ix e)) e).

(** [if (wal_ == nullptr) return kOk;] *)
Definition log_test_step (ch : change K) e : pc K * Env K H W :=
  (match wal_ (e_ix e) with None => logged ch kOk | Some _ => LogAppend ch end, e).

(** [wal_->Append(rec)]; no mutex guards the pointer. *)
Definition log_append_step (ch : change K) e : Outcome (pc K * Env K H W) :=
  match wal_ (e_ix e) with
  | None => UB
  | Some w =>
      let '(s, w, fs) := AppendRecord (change_record ch) w (e_fs e) in
      Ret (if negb (status_is_ok s) then logged ch s else LogBytes ch, set_files_of (set_wal (Some w) (e_ix e)) fs e)
  end.

(** [wal_->BytesWritten()] and the test of the threshold. *)
Definition log_bytes_step (ch : change K) e : Outcome (pc K * Env K H W) :=
  match wal_ (e_ix e) with
  | None => UB
  | Some w =>
      let bytes := bytes_written_ w in
      let o := e_opts e in
      Ret (if (wal_checkpoint_bytes o >? 0) && (bytes >=? wal_checkpoint_bytes o) && negb (is_empty (snapshot_dir o))
           then CkLock (Some ch) else logged ch kOk, set_ix (set_wal_bytes bytes (e_ix e)) e)
  end.

(** [std::lock_guard] on [checkpoint_mutex_]: a thread that finds it held waits. *)
Definition ck_lock_step (o : option (change K)) sh : pc K * Shared K H W :=
  if checkpoint_mutex_ sh then (CkLock o, sh) else
  if is_empty (snapshot_dir (e_opts (sh_env sh))) then (checkpointed o kInvalidArgument, sh)
  else (CkDump o, mkShared (sh_env sh) true).

(** The end of [Checkpoint] releases the mutex. *)
Definition ck_return (o : option (change K)) (s : Status) e : pc K * Shared K H W :=
  (checkpointed o s, mkShared e false).

(** phmap locks one sub-map after the other, so the snapshot of the code may
    also mix states; here it is taken at once. *)
Definition ck_dump_step (o : option (change K)) sh : pc K * Shared K H W :=
  let e := sh_env sh in
  let '(s, fs) := DumpSnapshot (SnapshotTmpPath (snapshot_dir (e_opts e))) (e_ix e) (e_fs e) in
  let e := set_files_of (e_ix e) fs e in
  if negb (status_is_ok s) then ck_return o s e else (CkRename o, mkShared e (checkpoint_mutex_ sh)).

Definition ck_rename_step (o : option (change K)) sh : pc K * Shared K H W :=
  let e := sh_env sh in
  let dir := snapshot_dir (e_opts e) in
  let '(ok, fs) := sys_rename (SnapshotTmpPath dir) (SnapshotPath dir) (e_fs e) in
  let e := set_files_of (e_ix e) fs e in
  if negb ok then ck_return o kIOError e else (CkClose o, mkShared e (checkpoint_mutex_ sh)).

(** [wal_->Close(); wal_.reset();] *)
Definition ck_close_step (o : option (change K)) sh : pc K * Shared K H W :=
  let e := sh_env sh in
  match wal_ (e_ix e) with
  | None => ck_return o kOk e
  | Some w =>
      let '(_, _, fs) := WalWriter_Close w (e_fs e) in
      (CkOpen o, mkShared (set_files_of (set_wal None (e_ix e)) fs e) (checkpoint_mutex_ sh))
  end.

Definition ck_open_step (o : option (change K)) sh : pc K * Shared K H W :=
  let e := sh_env sh in
  let '(s, fresh, fs) := WalWriter_Open (wal_path (e_opts e)) true WalWriter_new (e_fs e) in
  if negb (status_is_ok s) then ck_return o s (set_files_of (e_ix e) fs e)
  else ck_return o kOk (set_files_of (set_wal_bytes 0 (set_wal (Some fresh) (e_ix e))) fs e).

Definition undo_step (ch : change K) (s : Status) e : pc K * Env K H W :=
  let m := map_ (e_ix e) in
  match ch with
  | Putting key new_enc old =>
      let m := match old with Some old_enc => alter (fun _ => old_enc) key m | None => delete key m end in
      (FreeFind new_enc s, set_ix (set_map m (e_ix e)) e)
  | Deleting key old_enc => (Finished s None, set_ix (set_map (try_emplace key old_enc m) (e_ix e)) e)
  end.

(** The segment of a location; a null manager is undefined. *)
Definition find_segment (enc : Z) (missing : pc K) (found : Z -> Z -> pc K) e : Outcome (pc K * Env K H W) :=
  if negb (segment_manager (e_opts e)) then UB else
  let seg_id := Offset.GetSegmentId enc in
  Ret (match GetSegment seg_id (e_mgr e) with None => missing | Some _ => found seg_id (GetSlotId enc) end, e).

Definition free_find_step (enc : Z) (s : Status) e : Outcome (pc K * Env K H W) :=
  if negb (bool_decide (GetFlag enc = kSegmentSlot)) then Ret (Finished s None, e)
  else find_segment enc (Finished s None) (fun seg slot => FreeDelete seg slot s) e.

Definition free_delete_step (seg_id slot : Z) (s : Status) e : Outcome (pc K * Env K H W) :=
  match segments_ (e_mgr e) !! seg_id with
  | None => UB
  | Some seg =>
      let '(_, seg, w) := Delete slot seg (e_w e) in
      Ret (Finished s None, set_store (put_segment seg_id seg (e_mgr e)) w e)
  end.

Definition read_step (seg_id slot : Z) e : Outcome (pc K * Env K H W) :=
  match segments_ (e_mgr e) !! seg_id with
  | None => UB
  | Some seg =>
      let '(s, _, out, w) := Read slot true true seg (e_w e) in
      Ret (Finished s out, set_store (e_mgr e) w e)
  end.

(** A step that leaves the checkpoint mutex alone. *)
Definition on_env sh (r : Outcome (pc K * Env K H W)) : Outcome (pc K * Shared K H W) :=
  '(p, e) ← r; Ret (p, mkShared e (checkpoint_mutex_ sh)).

Definition pc_step (p : pc K) sh : Outcome (pc K * Shared K H W) :=
  let e := sh_env sh in
  match p with
  | Start c => on_env sh (Ret (start_step c e))
  | Activate key value again => on_env sh (activate_step key value again e)
  | Inserting key value seg again => on_env sh (insert_step key value seg again e)
  | MarkingFull key value seg => on_env sh (Ret (mark_step key value seg e))
  | Emplacing key _ enc => on_env sh (Ret (emplace_step key enc e))
  | LogTest ch => on_env sh (Ret (log_test_step ch e))
  | LogAppend ch => on_env sh (log_append_step ch e)
  | LogBytes ch => on_env sh (log_bytes_step ch e)
  | CkLock o => Ret (ck_lock_step o sh)
  | CkDump o => Ret (ck_dump_step o sh)
  | CkRename o => Ret (ck_rename_step o sh)
  | CkClose o => Ret (ck_close_step o sh)
  | CkOpen o => Ret (ck_open_step o sh)
  | Undoing ch s => on_env sh (Ret (undo_step ch s e))
  | FreeFind enc s => on_env sh (free_find_step enc s e)
  | FreeDelete seg slot s => on_env sh (free_delete_step seg slot s e)
  | ReadFind enc => on_env sh (find_segment enc (Finished kNotFound None) Reading e)
  | Reading seg slot => on_env sh (read_step seg slot e)
  | Finished s out => Ret (p, sh)
  end.

(** ** Turns *)

(** Records of compaction may make the log reach its size, so that the thread of
    the round takes a checkpoint. *)
Definition may_checkpoint (o : Options) : bool := (wal_checkpoint_bytes o >? 0) && negb (is_empty (snapshot_dir o)).

(** A call begins, a call moves on, or a round of compaction runs while the
    calls wait where they are.  The round is one step; where it may take a
    checkpoint and [checkpoint_mutex_] is held, it waits before that step. *)
Inductive turn := Spawn (c : call K) | Move (i : nat) | Compaction.

Record Pool := mkPool { po_shared : Shared K H W; po_calls : list (pc K) }.

Definition po_env (P : Pool) : Env K H W := sh_env (po_shared P).

Definition turn_step (t : turn) (P : Pool) : Outcome Pool :=
  match t with
  | Spawn c => Ret (mkPool (po_shared P) (po_calls P ++ [Start c]))
  | Move i =>
      match po_calls P !! i with
      | None => Ret P
      | Some p => '(p, sh) ← pc_step p (po_shared P); Ret (mkPool sh (<[i := p]> (po_calls P)))
      end
  | Compaction =>
      if checkpoint_mutex_ (po_shared P) && may_checkpoint (e_opts (po_env P)) then Ret P else
      '(_, e) ← compact_index iter (po_env P);
      Ret (mkPool (mkShared e (checkpoint_mutex_ (po_shared P))) (po_calls P))
  end.

Fixpoint run_turns (ts : list turn) (P : Pool) : Outcome Pool :=
  match ts with
  | [] => Ret P
  | t :: ts => P ← turn_step t P; run_turns ts P
  end.

(** One call, uninterrupted. *)
Fixpoint steps (n : nat) (p : pc K) sh : Outcome (pc K * Shared K H W) :=
  match n with
  | O => Ret (p, sh)
  | S n => '(p, sh) ← pc_step p sh; steps n p sh
  end.

End steps.
Arguments turn K : clear implicits.
Arguments Pool K {_} H W.

(** ** A call that nobody interrupts *)

Section alone.
Context {K : Type} `{!KeyT K} `{!Phmap K} {H W : Type} `{SlotStore H W}.
Context (iter : nat -> gset Z -> list Z).
Implicit Types (e : Env K H W) (sh : Shared K H W) (p : pc K) (r : Outcome (pc K * Shared K H W)).

(** [r] is the outcome after [n] steps, and of every larger number. *)
Definition within (n : nat) p sh r : Prop := forall m, (n <= m)%nat -> steps iter m p sh = r.

Lemma within_mono n n' p sh r : (n <= n')%nat -> within n p sh r -> within n' p sh r.
Proof. intros Hn Hw m Hm. apply Hw. lia. Qed.

Lemma within_step n p sh p' sh' r : pc_step iter p sh = Ret (p', sh') -> within n p' sh' r -> within (S n) p sh r.
Proof. intros E Hw [|m] Hm; [lia|]. cbn [steps]. rewrite E. cbn [mbind Outcome_bind]. apply Hw. lia. Qed.

Lemma within_UB n p sh : pc_step iter p sh = UB -> within (S n) p sh UB.
Proof. intros E [|m] Hm; [lia|]. cbn [steps]. by rewrite E. Qed.

Lemma within_Finished n s out sh : within n (Finished s out) sh (Ret (Finished s out, sh)).
Proof. intros m _. induction m as [|m IH]; [done|]. cbn. apply IH. Qed.

(** What a call returns and leaves. *)
Definition returned (out : option (list Z)) (r : Outcome (Status * Env K H W)) : Outcome (pc K * Shared K H W) :=
  '(s, e) ← r; Ret (Finished s out, mkShared e false).

Lemma FreeSlot_alone enc s e :
  within 2 (FreeFind enc s) (mkShared e false) ('(_, e) ← FreeSlot enc e; Ret (Finished s None, mkShared e false)).
Proof.
  unfold FreeSlot. destruct (negb (bool_decide (GetFlag enc = kSegmentSlot))) eqn:Ef.
  { eapply within_step; [cbn; unfold free_find_step; by rewrite Ef|apply within_Finished]. }
  destruct (negb (segment_manager (e_opts e))) eqn:Em.
  { apply within_UB. cbn. unfold free_find_step, find_segment. by rewrite Ef, Em. }
  destruct (GetSegment _ (e_mgr e)) as [seg|] eqn:Es.
  - eapply within_step; [cbn; unfold free_find_step, find_segment; rewrite Ef, Em, Es; reflexivity|]. unfold GetSegment in Es.
    destruct (Delete (GetSlotId enc) seg (e_w e)) as [[d seg'] w] eqn:Ed.
    eapply within_step; [cbn; unfold free_delete_step; rewrite Es, Ed; reflexivity|apply within_Finished].
  - eapply within_step; [cbn; unfold free_find_step, find_segment; rewrite Ef, Em, Es; reflexivity|apply within_Finished].
Qed.

(** [Checkpoint], then whatever comes after it. *)
Lemma Checkpoint_leads o e n r :
  (forall s ix fs, Checkpoint (e_ix e) (e_fs e) = (s, ix, fs) ->
     within n (checkpointed o s) (mkShared (set_files_of ix fs e) false) r) ->
  within (5 + n) (CkLock o) (mkShared e false) r.
Proof.
  intros Hr. unfold Checkpoint in Hr. change (snapshot_dir (opts_ (e_ix e))) with (snapshot_dir (e_opts e)) in Hr.
  destruct (is_empty (snapshot_dir (e_opts e))) eqn:Ed.
  { eapply within_step; [cbn; unfold ck_lock_step; cbn; rewrite Ed; reflexivity|].
    apply (within_mono n); [lia|]. destruct e. by eapply Hr. }
  eapply within_step; [cbn; unfold ck_lock_step; cbn; rewrite Ed; reflexivity|].
  destruct (DumpSnapshot _ (e_ix e) (e_fs e)) as [s fs1] eqn:E1. destruct (negb (status_is_ok s)) eqn:Es.
  { eapply within_step; [cbn; unfold ck_dump_step; cbn; rewrite E1, Es; reflexivity|].
    apply (within_mono n); [lia|]. by eapply Hr. }
  eapply within_step; [cbn; unfold ck_dump_step; cbn; rewrite E1, Es; reflexivity|].
  destruct (sys_rename _ _ fs1) as [ok fs2] eqn:E2. destruct (negb ok) eqn:Eok.
  { eapply within_step; [cbn; unfold ck_rename_step; cbn; unfold e_opts in *; cbn in *; rewrite E2, Eok; reflexivity|].
    apply (within_mono n); [lia|]. by eapply Hr. }
  eapply within_step; [cbn; unfold ck_rename_step; cbn; unfold e_opts in *; cbn in *; rewrite E2, Eok; reflexivity|].
  unfold RotateWal in Hr. destruct (wal_ (e_ix e)) as [w|] eqn:Ew.
  2: { eapply within_step; [cbn; unfold ck_close_step; cbn; rewrite Ew; reflexivity|].
       apply (within_mono n); [lia|]. by eapply Hr. }
  destruct (WalWriter_Close w fs2) as [[s3 w3] fs3] eqn:E3.
  eapply within_step; [cbn; unfold ck_close_step; cbn; rewrite Ew, E3; reflexivity|].
  cbn [opts_ set_wal] in Hr. destruct (WalWriter_Open _ true WalWriter_new fs3) as [[s4 w4] fs4] eqn:E4.
  destruct (negb (status_is_ok s4)) eqn:Es4.
  - eapply within_step; [cbv beta iota zeta delta [pc_step ck_open_step sh_env e_opts e_ix e_fs set_files_of set_wal opts_]; unfold opts_, e_ix in E4; rewrite E4, Es4; reflexivity|]. by eapply Hr.
  - eapply within_step; [cbv beta iota zeta delta [pc_step ck_open_step sh_env e_opts e_ix e_fs set_files_of set_wal opts_]; unfold opts_, e_ix in E4; rewrite E4, Es4; reflexivity|]. by eapply Hr.
Qed.

(** [AppendWal], then whatever comes after it. *)
Lemma AppendWal_leads ch e n r :
  let rec := change_record ch in
  (forall s ix fs, AppendWal (rec_type rec) (rec_key rec) (disk_addr rec) (old_disk_addr rec) (e_ix e) (e_fs e) = (s, ix, fs) ->
     within n (logged ch s) (mkShared (set_files_of ix fs e) false) r) ->
  within (8 + n) (LogTest ch) (mkShared e false) r.
Proof.
  intros rec Hr. unfold AppendWal in Hr.
  assert (mkRec (rec_type rec) (rec_key rec) (disk_addr rec) (old_disk_addr rec) = rec) as Erec by by destruct rec.
  rewrite Erec in Hr. destruct (wal_ (e_ix e)) as [w|] eqn:Ew.
  2: { eapply within_step; [cbn; unfold log_test_step; rewrite Ew; reflexivity|].
       apply (within_mono n); [lia|]. destruct e. by apply (Hr kOk _ _ eq_refl). }
  eapply within_step; [cbn; unfold log_test_step; rewrite Ew; reflexivity|].
  destruct (AppendRecord rec w (e_fs e)) as [[s w1] fs1] eqn:E1. destruct (negb (status_is_ok s)) eqn:Es.
  { eapply within_step; [cbn; unfold log_append_step; rewrite Ew; fold rec; rewrite E1, Es; reflexivity|].
    apply (within_mono n); [lia|]. by apply (Hr s _ _ eq_refl). }
  eapply within_step; [cbn; unfold log_append_step; rewrite Ew; fold rec; rewrite E1, Es; reflexivity|].
  cbn [opts_ set_wal set_wal_bytes] in Hr. change (opts_ (e_ix e)) with (e_opts e) in Hr.
  destruct (_ && negb (is_empty (snapshot_dir (e_opts e)))) eqn:Et.
  - eapply within_step; [cbn; unfold log_bytes_step; cbn; unfold e_opts in *; cbn in *; rewrite Et; reflexivity|].
    apply (Checkpoint_leads (Some ch)). cbn [e_ix e_fs set_ix set_files_of]. intros s2 ix fs E2. cbn in E2, Hr.
    rewrite E2 in Hr. by apply (Hr kOk _ _ eq_refl).
  - eapply within_step; [cbn; unfold log_bytes_step; cbn; unfold e_opts in *; cbn in *; rewrite Et; reflexivity|].
    apply (within_mono n); [lia|]. by apply (Hr kOk _ _ eq_refl).
Qed.

Lemma Checkpoint_alone e :
  within 6 (Start CCheckpoint) (mkShared e false)
    (let '(s, ix, fs) := Checkpoint (e_ix e) (e_fs e) in Ret (Finished s None, mkShared (set_files_of ix fs e) false)).
Proof.
  eapply within_step; [reflexivity|]. apply (Checkpoint_leads None e 0). intros s ix fs ->. apply within_Finished.
Qed.

Lemma Get_alone key value_out value_size e :
  within 3 (Start (CGet key value_out value_size)) (mkShared e false)
    ('(s, out, e) ← Get key value_out value_size e; Ret (Finished s out, mkShared e false)).
Proof.
  unfold Get. destruct (negb value_out) eqn:Ev.
  { eapply within_step; [cbn; rewrite Ev; reflexivity|apply within_Finished]. }
  destruct (negb (value_size =? _)) eqn:Es.
  { eapply within_step; [cbn; rewrite Ev, Es; reflexivity|apply within_Finished]. }
  unfold Lookup. cbn [negb]. destruct (map_ (e_ix e) !! key) as [enc|] eqn:Ek.
  2: { eapply within_step; [cbn; rewrite Ev, Es; unfold Lookup; cbn; rewrite Ek; reflexivity|apply within_Finished]. }
  destruct (negb (bool_decide (GetFlag enc = kSegmentSlot))) eqn:Ef.
  { eapply within_step; [cbn; rewrite Ev, Es; unfold Lookup; cbn; rewrite Ek, Ef; reflexivity|apply within_Finished]. }
  eapply within_step; [cbn; rewrite Ev, Es; unfold Lookup; cbn; rewrite Ek, Ef; reflexivity|].
  destruct (negb (segment_manager (e_opts e))) eqn:Em.
  { apply within_UB. cbn. unfold find_segment. by rewrite Em. }
  destruct (GetSegment _ (e_mgr e)) as [seg|] eqn:Eg.
  - eapply within_step; [cbn; unfold find_segment; rewrite Em, Eg; reflexivity|]. unfold GetSegment in Eg.
    destruct (Read (GetSlotId enc) true true seg (e_w e)) as [[[s kb] vb] w] eqn:Er.
    eapply within_step; [cbn; unfold read_step; rewrite Eg, Er; reflexivity|apply within_Finished].
  - eapply within_step; [cbn; unfold find_segment; rewrite Em, Eg; reflexivity|apply within_Finished].
Qed.

Lemma Delete_alone key e :
  within 11 (Start (CDelete key)) (mkShared e false) (returned None (Index_Delete key e)).
Proof.
  unfold Index_Delete. destruct (map_ (e_ix e) !! key) as [old|] eqn:Ek.
  2: { eapply within_step; [cbn; rewrite Ek; reflexivity|apply within_Finished]. }
  eapply within_step; [cbn; rewrite Ek; reflexivity|]. apply (AppendWal_leads (Deleting key old) _ 2).
  intros s ix fs E. cbn in E. unfold append_wal. cbn [e_ix e_fs set_ix]. rewrite E. unfold logged.
  destruct (negb (status_is_ok s)) eqn:Es.
  - eapply within_step; [reflexivity|]. apply within_Finished.
  - destruct s; try done. cbn [returned]. change (set_files_of ix fs (set_ix _ e)) with (set_files_of ix fs e).
    intros m Hm. rewrite (FreeSlot_alone old kOk _ m Hm). by destruct (FreeSlot _ _) as [[? ?]|].
Qed.

(** From the update of the map on. *)
Lemma Put_tail_alone key value enc e :
  within 12 (Emplacing key value enc) (mkShared e false)
    (returned None (
      let old := map_ (e_ix e) !! key in
      let e := set_ix (set_map (<[key := enc]> (map_ (e_ix e))) (e_ix e)) e in
      let '(wal_s, e) :=
        append_wal (if bool_decide (is_Some old) then kUpdate else kInsert) key enc (default 0 old) e in
      if negb (status_is_ok wal_s) then
        let m := map_ (e_ix e) in
        let m := match old with
                 | Some old_enc => alter (fun _ => old_enc) key m
                 | None => delete key m
                 end in
        '(_, e) ← FreeSlot enc (set_ix (set_map m (e_ix e)) e);
        Ret (wal_s, e)
      else
        match old with
        | Some old_enc => '(_, e) ← FreeSlot old_enc e; Ret (kOk, e)
        | None => Ret (kOk, e)
        end)).
Proof.
  eapply within_step; [reflexivity|]. apply (AppendWal_leads (Putting key enc _) _ 3).
  intros s ix fs E. cbn [change_record rec_type rec_key disk_addr old_disk_addr sh_env] in E. cbn [sh_env checkpoint_mutex_]. cbv zeta. unfold append_wal. rewrite E.
  unfold logged. destruct (negb (status_is_ok s)) eqn:Es.
  - eapply within_step; [reflexivity|]. intros m Hm. rewrite (FreeSlot_alone enc s _ m Hm). unfold returned.
    cbn [set_files_of set_ix e_ix e_fs e_mgr e_w]. by destruct (FreeSlot enc _) as [[? ?]|].
  - destruct s; try done. unfold returned. destruct (map_ (e_ix e) !! key) as [old|].
    + intros m Hm. rewrite (FreeSlot_alone old kOk _ m ltac:(lia)). by destruct (FreeSlot old _) as [[? ?]|].
    + apply within_Finished.
Qed.

Lemma Put_alone key value value_size e :
  within 18 (Start (CPut key value value_size)) (mkShared e false) (returned None (Put iter key value value_size e)).
Proof.
  unfold Put. destruct value as [value|]; [|eapply within_step; [reflexivity|apply within_Finished]].
  destruct (negb (value_size =? _)) eqn:Ez; [eapply within_step; [cbn; rewrite Ez; reflexivity|apply within_Finished]|].
  destruct (negb (segment_manager (e_opts e))) eqn:Em; [eapply within_step; [cbn; rewrite Ez, Em; reflexivity|apply within_Finished]|].
  eapply within_step; [cbn; rewrite Ez, Em; reflexivity|]. unfold WriteToSegment.
  destruct (active_segment iter e) as [[o e1]|] eqn:Ea; [|apply within_UB; cbn; unfold activate_step; by rewrite Ea].
  destruct o as [seg|]; cbn [mbind Outcome_bind].
  2: { eapply within_step; [cbn; unfold activate_step; rewrite Ea; reflexivity|apply within_Finished]. }
  eapply within_step; [cbn; unfold activate_step; rewrite Ea; reflexivity|].
  destruct (insert_into seg key value e1) as [[[s slot] e2]|] eqn:Ei; [|apply within_UB; cbn; unfold insert_step; by rewrite Ei].
  cbn [mbind Outcome_bind]. case_bool_decide as Hfull.
  - subst s. eapply within_step; [cbn; unfold insert_step; rewrite Ei; cbn; rewrite bool_decide_eq_true_2 by done; reflexivity|].
    destruct (MarkSegmentFull seg (e_mgr e2)) as [sm m3] eqn:E3.
    eapply within_step; [unfold pc_step, mark_step; cbn [sh_env]; rewrite E3; reflexivity|].
    destruct (active_segment iter (set_store m3 (e_w e2) e2)) as [[o4 e4]|] eqn:E4;
      [|apply within_UB; cbn; unfold activate_step; by rewrite E4].
    destruct o4 as [seg4|]; cbn [mbind Outcome_bind].
    2: { eapply within_step; [cbn; unfold activate_step; rewrite E4; reflexivity|apply within_Finished]. }
    eapply within_step; [cbn; unfold activate_step; rewrite E4; reflexivity|].
    destruct (insert_into seg4 key value e4) as [[[s5 slot5] e5]|] eqn:E5; [|apply within_UB; cbn; unfold insert_step; by rewrite E5].
    cbn [mbind Outcome_bind]. destruct (negb (status_is_ok s5)) eqn:Es5.
    + cbn [mbind Outcome_bind]. rewrite Es5.
      eapply within_step; [cbn; unfold insert_step; rewrite E5; cbn; rewrite Es5; reflexivity|apply within_Finished].
    + eapply within_step; [cbn; unfold insert_step; rewrite E5; cbn; rewrite Es5; reflexivity|].
      apply (within_mono 12); [lia|]. apply Put_tail_alone.
  - destruct (negb (status_is_ok s)) eqn:Es.
    + cbn [mbind Outcome_bind]. rewrite Es.
      eapply within_step; [cbn; unfold insert_step; rewrite Ei; cbn; rewrite bool_decide_eq_false_2, Es by done; reflexivity|].
      apply within_Finished.
    + eapply within_step; [cbn; unfold insert_step; rewrite Ei; cbn; rewrite bool_decide_eq_false_2, Es by done; reflexivity|].
      apply (within_mono 12); [lia|]. apply Put_tail_alone.
Qed.

(** The call as [Index] defines it. *)
Definition sequentially (c : call K) e : Outcome (pc K * Shared K H W) :=
  match c with
  | CPut key value value_size => returned None (Put iter key value value_size e)
  | CGet key value_out value_size =>
      '(s, out, e) ← Get key value_out value_size e; Ret (Finished s out, mkShared e false)
  | CDelete key => returned None (Index_Delete key e)
  | CCheckpoint =>
      let '(s, ix, fs) := Checkpoint (e_ix e) (e_fs e) in Ret (Finished s None, mkShared (set_files_of ix fs e) false)
  end.

(** The steps are those of the calls: a [Put], [Get], [Delete] or [Checkpoint]
    that no other thread interrupts ends after at most eighteen steps with the
    result and the state that the definitions of [Index] give, and has no
    result where they have none. *)
Theorem calls_alone (c : call K) e : within 18 (Start c) (mkShared e false) (sequentially c e).
Proof.
  destruct c as [key value n|key out n|key|].
  - apply Put_alone.
  - eapply within_mono; [|apply Get_alone]. lia.
  - eapply within_mono; [|apply Delete_alone]. lia.
  - eapply within_mono; [|apply Checkpoint_alone]. lia.
Qed.

End alone.
