(* ===== verification/ThreadTheorems.v ===== *)
(** * Calls on an index do not block each other

    [calls_do_not_block]: whatever turns the calls of [IndexThreads] have taken,
    each of them can go on, or waits for one that can, or has come to one of two
    undefined steps.  Only [checkpoint_mutex_] is held across steps; the other
    mutexes guard sections that are one step. *)

From S2P Require Import Prelude Common Sys Key Offset Wal SegmentBase SegmentOps SegmentManager ManagerTheorems.
From S2P Require Import Index IndexData IndexCompaction IndexRecovery IndexTheorems BackendFiles IndexLogging IndexThreads.

(** ** Progress *)

Section progress.
Context {K : Type} `{!KeyT K} `{!Phmap K} {H W : Type} `{SlotStore H W}.
Context (iter : nat -> gset Z -> list Z).
Implicit Types (e : Env K H W) (sh : Shared K H W) (p : pc K) (P : Pool K H W).

(** A bound on the steps a call has left. *)
Definition rank p : nat :=
  match p with
  | Start _ => 18
  | Activate _ _ again => if again then 14 else 17
  | Inserting _ _ _ again => if again then 13 else 16
  | MarkingFull _ _ _ => 15
  | Emplacing _ _ _ => 12
  | LogTest _ => 11
  | LogAppend _ => 10
  | LogBytes _ => 9
  | CkLock _ => 8
  | CkDump _ => 7
  | CkRename _ => 6
  | CkClose _ => 5
  | CkOpen _ => 4
  | Undoing _ _ => 3
  | FreeFind _ _ => 2
  | FreeDelete _ _ _ => 1
  | ReadFind _ => 2
  | Reading _ _ => 1
  | Finished _ _ => 0
  end.

(** The call holds [checkpoint_mutex_]. *)
Definition holds p : bool :=
  match p with CkDump _ | CkRename _ | CkClose _ | CkOpen _ => true | _ => false end.

Definition holders P : nat := length (filter (fun p => holds p = true) (po_calls P)).

(** The mutex is held by one call or by none. *)
Definition mutex_ok P : Prop := holders P = if checkpoint_mutex_ (po_shared P) then 1%nat else 0%nat.

Lemma logged_rank (ch : change K) s : (rank (logged ch s) <= 3)%nat /\ holds (logged ch s) = false.
Proof. unfold logged. destruct (negb _); [done|]. destruct ch as [? ? [?|]|? ?]; cbn; split; (done || lia). Qed.

Lemma checkpointed_rank (o : option (change K)) s : (rank (checkpointed o s) <= 3)%nat /\ holds (checkpointed o s) = false.
Proof. destruct o as [ch|]; [apply logged_rank|]. cbn. split; [lia|done]. Qed.

(** What a step does to the mutex and to the rank. *)
Definition step_ok p sh p' sh' : Prop :=
  (p' = p /\ sh' = sh /\ match p with Finished _ _ => True | CkLock _ => checkpoint_mutex_ sh = true | _ => False end) \/
  ((rank p' < rank p)%nat /\
   match holds p, holds p' with
   | false, true => checkpoint_mutex_ sh = false /\ checkpoint_mutex_ sh' = true
   | true, false => checkpoint_mutex_ sh' = false
   | _, _ => checkpoint_mutex_ sh' = checkpoint_mutex_ sh
   end).

Lemma start_step_rank (c : call K) e p' e' : start_step c e = (p', e') -> (rank p' < 18)%nat /\ holds p' = false.
Proof.
  unfold start_step, Lookup. cbn [negb]. intros E. repeat (case_match; simplify_eq); cbn; split; (done || lia).
Qed.

Lemma ck_return_ok (o : option (change K)) s p sh e :
  holds p = true -> let '(p', sh') := ck_return o s e in (3 < rank p)%nat -> step_ok p sh p' sh'.
Proof.
  intros Hp. unfold ck_return. intros Hr. right. destruct (checkpointed_rank o s) as [Hc ->]. split; [lia|]. by rewrite Hp.
Qed.

(** A step that keeps the mutex, between places that do not hold it. *)
Lemma on_env_ok p sh (r : Outcome (pc K * Env K H W)) p' sh' :
  on_env sh r = Ret (p', sh') -> holds p = false ->
  (forall q e, r = Ret (q, e) -> (rank q < rank p)%nat /\ holds q = false) -> step_ok p sh p' sh'.
Proof.
  intros E Hp Hr. destruct r as [[q e]|]; [|done]. injection E as <- <-. destruct (Hr q e eq_refl) as [? Hq].
  right. split; [done|]. by rewrite Hp, Hq.
Qed.

(** The steps of [Checkpoint] and [RotateWal]. *)
Lemma ck_step_ok p sh p' sh' :
  match p with CkLock _ | CkDump _ | CkRename _ | CkClose _ | CkOpen _ => True | _ => False end ->
  pc_step iter p sh = Ret (p', sh') -> step_ok p sh p' sh'.
Proof.
  intros Hp E. destruct p as [| | | | | | | |o|o|o|o|o| | | | | |]; try done; cbn [pc_step] in E.
  - injection E as E. unfold ck_lock_step in E. destruct (checkpoint_mutex_ sh) eqn:Em; [injection E as <- <-; by left|].
    right. destruct (is_empty _); injection E as <- <-; [|cbn; split; (done || lia)].
    destruct (checkpointed_rank o kInvalidArgument) as [? ->]. cbn. split; (done || lia).
  - injection E as E. unfold ck_dump_step in E. destruct (DumpSnapshot _ _ _) as [s fs]. destruct (negb _).
    + pose proof (ck_return_ok o s (CkDump o) sh (set_files_of (e_ix (sh_env sh)) fs (sh_env sh)) eq_refl) as Hr.
      rewrite E in Hr. apply Hr. cbn. lia.
    + injection E as <- <-. right. cbn. split; (done || lia).
  - injection E as E. unfold ck_rename_step in E. destruct (sys_rename _ _ _) as [ok fs]. destruct (negb _).
    + pose proof (ck_return_ok o kIOError (CkRename o) sh (set_files_of (e_ix (sh_env sh)) fs (sh_env sh)) eq_refl) as Hr.
      rewrite E in Hr. apply Hr. cbn. lia.
    + injection E as <- <-. right. cbn. split; (done || lia).
  - injection E as E. unfold ck_close_step in E. destruct (wal_ _) as [w|].
    + destruct (WalWriter_Close _ _) as [[s w1] fs]. injection E as <- <-. right. cbn. split; (done || lia).
    + pose proof (ck_return_ok o kOk (CkClose o) sh (sh_env sh) eq_refl) as Hr. rewrite E in Hr. apply Hr. cbn. lia.
  - injection E as E. unfold ck_open_step in E. destruct (WalWriter_Open _ _ _ _) as [[s w1] fs]. destruct (negb _).
    + pose proof (ck_return_ok o s (CkOpen o) sh (set_files_of (e_ix (sh_env sh)) fs (sh_env sh)) eq_refl) as Hr.
      rewrite E in Hr. apply Hr. cbn. lia.
    + match type of E with ck_return _ _ ?x = _ => pose proof (ck_return_ok o kOk (CkOpen o) sh x eq_refl) as Hr end.
      rewrite E in Hr. apply Hr. cbn. lia.
Qed.

Lemma pc_step_ok p sh p' sh' : pc_step iter p sh = Ret (p', sh') -> step_ok p sh p' sh'.
Proof.
  intros E. destruct p as [c|k v again|k v seg again|k v seg|k v enc|ch|ch|ch|o|o|o|o|o|ch s|enc s|seg slot s|enc|seg slot|s out];
    cbn [pc_step] in E.
  - apply (on_env_ok _ _ _ _ _ E); [done|]. intros q e [= Es]. by apply (start_step_rank c (sh_env sh) q e).
  - apply (on_env_ok _ _ _ _ _ E); [done|]. unfold activate_step. intros q e Eq.
    destruct (active_segment _ _) as [[o e1]|]; [|done]. injection Eq as <- <-. destruct o, again; cbn; split; (done || lia).
  - apply (on_env_ok _ _ _ _ _ E); [done|]. unfold insert_step. intros q e Eq.
    destruct (insert_into _ _ _ _) as [[[s o] e1]|]; [|done]. injection Eq as <- <-.
    destruct again, (bool_decide (s = kFull)), (status_is_ok s); cbn; split; (done || lia).
  - apply (on_env_ok _ _ _ _ _ E); [done|]. unfold mark_step. intros q e Eq.
    destruct (MarkSegmentFull _ _) as [s m]. injection Eq as <- <-. cbn. split; (done || lia).
  - apply (on_env_ok _ _ _ _ _ E); [done|]. intros q e [= <- <-]. cbn. split; (done || lia).
  - apply (on_env_ok _ _ _ _ _ E); [done|]. unfold log_test_step. intros q e [= <- <-].
    destruct (logged_rank ch kOk). destruct (wal_ _); cbn in *; split; (done || lia).
  - apply (on_env_ok _ _ _ _ _ E); [done|]. unfold log_append_step. intros q e Eq.
    destruct (wal_ _) as [w|]; [|done]. destruct (AppendRecord _ _ _) as [[s w1] fs]. injection Eq as <- <-.
    destruct (logged_rank ch s). destruct (negb _); cbn in *; split; (done || lia).
  - apply (on_env_ok _ _ _ _ _ E); [done|]. unfold log_bytes_step. intros q e Eq.
    destruct (wal_ _) as [w|]; [|done]. injection Eq as <- <-.
    destruct (logged_rank ch kOk). destruct (_ && _); cbn in *; split; (done || lia).
  - by apply ck_step_ok.
  - by apply ck_step_ok.
  - by apply ck_step_ok.
  - by apply ck_step_ok.
  - by apply ck_step_ok.
  - apply (on_env_ok _ _ _ _ _ E); [done|]. unfold undo_step. intros q e Eq. destruct ch; injection Eq as <- <-; cbn; split; (done || lia).
  - apply (on_env_ok _ _ _ _ _ E); [done|]. unfold free_find_step, find_segment. intros q e Eq.
    repeat (case_match; simplify_eq); cbn; split; (done || lia).
  - apply (on_env_ok _ _ _ _ _ E); [done|]. unfold free_delete_step. intros q e Eq.
    destruct (segments_ _ !! _); [|done]. destruct (Delete _ _ _) as [[? ?] ?]. injection Eq as <- <-. cbn. split; (done || lia).
  - apply (on_env_ok _ _ _ _ _ E); [done|]. unfold find_segment. intros q e Eq.
    repeat (case_match; simplify_eq); cbn; split; (done || lia).
  - apply (on_env_ok _ _ _ _ _ E); [done|]. unfold read_step. intros q e Eq.
    destruct (segments_ _ !! _); [|done]. destruct (Read _ _ _ _ _) as [[[? ?] ?] ?]. injection Eq as <- <-. cbn. split; (done || lia).
  - injection E as <- <-. by left.
Qed.

Lemma holders_update (l : list (pc K)) i p q :
  l !! i = Some p ->
  (length (filter (fun p => holds p = true) (<[i := q]> l)) + Nat.b2n (holds p) =
   length (filter (fun p => holds p = true) l) + Nat.b2n (holds q))%nat.
Proof.
  revert i. induction l as [|x l IH]; intros i Hi; [done|]. destruct i as [|i].
  - injection Hi as ->. change (<[0%nat := q]> (p :: l)) with (q :: l). rewrite !filter_cons.
    repeat case_decide; destruct (holds p), (holds q); try done; cbn; lia.
  - change (<[S i := q]> (x :: l)) with (x :: <[i := q]> l). rewrite !filter_cons.
    specialize (IH i Hi). case_decide; cbn [length]; lia.
Qed.

Lemma turn_mutex t P P' : mutex_ok P -> turn_step iter t P = Ret P' -> mutex_ok P'.
Proof.
  unfold mutex_ok, holders. intros Hm E. destruct t as [c|i|]; cbn [turn_step] in E.
  - injection E as <-. cbn. rewrite filter_app, filter_cons, decide_False, filter_nil, app_nil_r by done. done.
  - destruct (po_calls P !! i) as [p|] eqn:Ep; [|by injection E as <-].
    destruct (pc_step iter p (po_shared P)) as [[q sh]|] eqn:Es; [|done]. injection E as <-. cbn.
    pose proof (holders_update _ _ _ q Ep) as Hh. apply pc_step_ok in Es as [(-> & -> & _)|[_ Hc]].
    + by rewrite list_insert_id.
    + destruct (checkpoint_mutex_ (po_shared P)), (checkpoint_mutex_ sh), (holds p), (holds q); cbn in Hh; simplify_eq; lia || (destruct Hc; done) || idtac.
  - destruct (_ && _); [by injection E as <-|]. destruct (compact_index _ _) as [[s e]|]; [|done]. by injection E as <-.
Qed.

Lemma run_mutex ts P P' : mutex_ok P -> run_turns iter ts P = Ret P' -> mutex_ok P'.
Proof.
  revert P. induction ts as [|t ts IH]; intros P Hm E; cbn [run_turns] in E; [by injection E as <-|].
  destruct (turn_step iter t P) as [P1|] eqn:E1; [|done]. eapply IH; [|exact E]. by eapply turn_mutex.
Qed.

(** ** What the steps refer to *)

Hypothesis iter_ok : forall n X, iter n X ≡ₚ elements X.

Lemma candidates_part {X} (cb : option (SlotMoveCallback X)) ids m (w : W) x st m' w' x' :
  mgr_part m -> NoDup ids -> Forall (.∈ full_set_ m) ids -> compact_candidates iter cb ids m w x = Ret (st, m', w', x') ->
  mgr_part m' /\ dom (segments_ m') = dom (segments_ m).
Proof using iter_ok.
  revert m w x. induction ids as [|src ids IH]; intros m w x Hp Hnd Hf; cbn [compact_candidates]; [by intros [= <- <- <- <-]|].
  apply NoDup_cons in Hnd as [Hni Hnd]. apply Forall_cons in Hf as [Hsrc Hf].
  pose proof (GetActiveSegment_result iter iter_ok m Hp) as Ha.
  destruct (GetActiveSegment iter m) as [[o m1]|] eqn:Eg; [|done]. cbn [mbind Outcome_bind].
  pose proof (GetActiveSegment_part iter iter_ok _ _ _ Hp Eg) as Hp1. pose proof (GetActiveSegment_segments iter _ _ _ Eg) as Es1.
  rewrite <- Es1.
  destruct o as [tgt|]; [|by intros [= <- <- <- <-]]. assert (full_set_ m1 = full_set_ m /\ tgt ∈ appending_set_ m1) as [Ef Htgt].
  { inversion Ha; subst; (split; [done|]); [done|]. cbn. set_solver. }
  rewrite <- Ef in Hsrc, Hf. destruct (mp_registered m1 src Hp1) as [s Hs]; [auto|]. rewrite Hs. case_bool_decide as Hne; [done|].
  destruct (segments_ m1 !! tgt) as [t|] eqn:Ht; [|done].
  destruct (Compact (Some t) cb s w x) as [[[[st1 s'] ot] w1] x1] eqn:Ec.
  apply Compact_place in Ec as ([_ Es] & t' & -> & [_ Et]).
  set (m2 := set_segments _ (set_segments _ m1)).
  assert (mgr_part m2) as Hp2.
  { apply (put_segment_part tgt t t' (put_segment src s' m1)); [by apply (put_segment_part src s)| |done].
    cbn. by rewrite lookup_insert_ne by (by apply not_eq_sym). }
  assert (dom (segments_ m2) = dom (segments_ m1)) as Ed.
  { cbn. rewrite !dom_insert_L. apply elem_of_dom_2 in Hs, Ht. set_solver. }
  case_match; [by intros [= <- <- <- <-]|]. intros E. apply IH in E as [Hp3 Ed3].
  - split; [done|]. rewrite Ed3, <- Ed. unfold finish_compaction. by destruct (GetState <$> _) as [[]|].
  - by apply finish_compaction_part.
  - done.
  - rewrite Forall_forall in *. intros id Hid. apply finish_compaction_full; [by apply Hf|]. by intros ->.
Qed.

Lemma compact_index_part e s e' : mgr_part (e_mgr e) -> compact_index iter e = Ret (s, e') ->
  mgr_part (e_mgr e') /\ dom (segments_ (e_mgr e')) = dom (segments_ (e_mgr e)).
Proof using iter_ok.
  intros Hp. unfold compact_index, RunCompaction. set (m := e_mgr e) in *.
  assert (Forall (.∈ full_set_ (tick m)) (iter (clock_ m) (full_set_ m))) as Hf.
  { apply Forall_forall. intros id Hid. by apply (iter_elem iter iter_ok (clock_ m)) in Hid. }
  destruct (candidates_spec _ (tick m) (tick_part _ Hp) Hf) as (l & -> & Hl). cbn [mbind Outcome_bind].
  destruct (compact_candidates _ _ _ _ _ _) as [[[[st m'] w'] x']|] eqn:E; [|done]. intros [= <- <-]. cbn.
  apply candidates_part in E; [done|by apply tick_part| |].
  - eapply sublist_NoDup; [|exact Hl]. rewrite iter_ok. apply NoDup_elements.
  - rewrite Forall_forall in *. intros id Hid. apply Hf. by eapply elem_of_sublist.
Qed.

(** A segment a call has got from the manager is registered. *)
Definition refers p e : Prop :=
  match p with
  | Inserting _ _ seg _ | FreeDelete seg _ _ | Reading seg _ => is_Some (segments_ (e_mgr e) !! seg)
  | _ => True
  end.

Definition env_wf e : Prop := mgr_part (e_mgr e) /\ segment_manager (e_opts e) = true.

(** The manager, its segments and the options after a step. *)
Definition env_kept e e' : Prop :=
  (mgr_part (e_mgr e) -> mgr_part (e_mgr e')) /\ dom (segments_ (e_mgr e')) = dom (segments_ (e_mgr e)) /\ e_opts e' = e_opts e.

#[local] Instance env_kept_refl : Reflexive env_kept.
Proof. by intros e. Qed.

Lemma refers_kept p e e' : env_kept e e' -> refers p e -> refers p e'.
Proof. intros (_ & Hd & _). destruct p; cbn; try done; by rewrite <- !elem_of_dom, Hd. Qed.

Lemma put_kept id s s' e (w : W) : segments_ (e_mgr e) !! id = Some s -> same_place s s' ->
  env_kept e (set_store (put_segment id s' (e_mgr e)) w e).
Proof.
  intros Hs [_ Hid]. split; [intros Hp; by apply (put_segment_part id s)|]. split; [|done]. cbn. rewrite dom_insert_L.
  apply elem_of_dom_2 in Hs. set_solver.
Qed.

Lemma logged_refers (ch : change K) s e : refers (logged ch s) e.
Proof. unfold logged. destruct (negb _); [done|]. by destruct ch as [? ? [?|]|? ?]. Qed.

Lemma checkpointed_refers (o : option (change K)) s e : refers (checkpointed o s) e.
Proof. destruct o; [apply logged_refers|done]. Qed.

Lemma find_segment_kept enc (missing : pc K) found e p' e' :
  refers missing e -> (forall seg slot, is_Some (segments_ (e_mgr e) !! seg) -> refers (found seg slot) e) ->
  find_segment enc missing found e = Ret (p', e') -> e' = e /\ refers p' e.
Proof.
  intros Hm Hf. unfold find_segment, GetSegment. destruct (negb _); [done|]. cbv zeta.
  destruct (segments_ (e_mgr e) !! Offset.GetSegmentId enc) as [s|] eqn:Es; intros E; injection E as <- <-; (split; [done|]); [|done].
  apply Hf. by rewrite Es.
Qed.

Lemma start_step_kept (c : call K) e p' e' : start_step c e = (p', e') -> env_kept e e' /\ refers p' e'.
Proof.
  unfold start_step, Lookup. cbn [negb]. intros E.
  repeat (case_match; simplify_eq); (split; [first [reflexivity|by split]|exact I]).
Qed.

Lemma activate_kept k v again e p' e' : env_wf e -> activate_step iter k v again e = Ret (p', e') -> env_kept e e' /\ refers p' e'.
Proof using iter_ok.
  intros [Hp _]. unfold activate_step, active_segment. destruct (GetActiveSegment iter (e_mgr e)) as [[o m]|] eqn:E; [|done].
  intros [= <- <-]. pose proof (GetActiveSegment_segments iter _ _ _ E) as Es.
  pose proof (GetActiveSegment_part iter iter_ok _ _ _ Hp E) as Hp'.
  split; [split; [done|]; split; [cbn; by rewrite Es|done]|]. destruct o as [id|]; [|done]. cbn.
  apply (mp_registered m id Hp'). pose proof (GetActiveSegment_result iter iter_ok _ Hp) as Hr. rewrite E in Hr.
  inversion Hr; subst; [auto|]. right. left. cbn. set_solver.
Qed.

Lemma insert_kept k v seg again e p' e' : insert_step k v seg again e = Ret (p', e') -> env_kept e e' /\ refers p' e'.
Proof.
  unfold insert_step, insert_into. destruct (segments_ (e_mgr e) !! seg) as [s|] eqn:Es; [|done].
  destruct (Insert _ _ _ _ _) as [[[st o] s'] w'] eqn:Ei. apply Insert_place in Ei. intros [= <- <-].
  split; [by apply (put_kept seg s)|]. by destruct (negb again && _), (negb (status_is_ok st)).
Qed.

(** The steps of [Checkpoint] leave the store and the options alone. *)
Lemma ck_step_kept p sh p' sh' :
  match p with CkLock _ | CkDump _ | CkRename _ | CkClose _ | CkOpen _ => True | _ => False end ->
  pc_step iter p sh = Ret (p', sh') ->
  e_mgr (sh_env sh') = e_mgr (sh_env sh) /\ e_opts (sh_env sh') = e_opts (sh_env sh) /\ forall e, refers p' e.
Proof.
  intros Hp E. destruct p as [| | | | | | | |o|o|o|o|o| | | | | |]; try done; cbn [pc_step] in E; injection E as E.
  - unfold ck_lock_step in E. destruct (checkpoint_mutex_ sh); [by injection E as <- <-|].
    destruct (is_empty _); injection E as <- <-; [|done]. split; [done|]. split; [done|]. intros e. apply checkpointed_refers.
  - unfold ck_dump_step, ck_return in E. destruct (DumpSnapshot _ _ _) as [s fs].
    destruct (negb _); injection E as <- <-; do 2 (split; [done|]); intros e; [apply checkpointed_refers|done].
  - unfold ck_rename_step, ck_return in E. destruct (sys_rename _ _ _) as [ok fs].
    destruct (negb _); injection E as <- <-; do 2 (split; [done|]); intros e; [apply checkpointed_refers|done].
  - unfold ck_close_step, ck_return in E. destruct (wal_ _) as [w|].
    + destruct (WalWriter_Close _ _) as [[s w1] fs]. by injection E as <- <-.
    + injection E as <- <-. do 2 (split; [done|]). intros e. apply checkpointed_refers.
  - unfold ck_open_step, ck_return in E. destruct (WalWriter_Open _ _ _ _) as [[s w1] fs].
    destruct (negb _); injection E as <- <-; do 2 (split; [done|]); intros e; apply checkpointed_refers.
Qed.

Lemma pc_step_kept p sh p' sh' :
  env_wf (sh_env sh) -> refers p (sh_env sh) -> pc_step iter p sh = Ret (p', sh') ->
  env_kept (sh_env sh) (sh_env sh') /\ refers p' (sh_env sh').
Proof using iter_ok.
  intros Hwf Hr E.
  assert (forall r, on_env sh r = Ret (p', sh') -> exists e', r = Ret (p', e') /\ sh_env sh' = e') as Hon.
  { intros [[q e']|] Eo; [|done]. injection Eo as <- <-. by exists e'. }
  assert (forall o, match p with CkLock o' | CkDump o' | CkRename o' | CkClose o' | CkOpen o' => o' = o | _ => False end ->
    env_kept (sh_env sh) (sh_env sh') /\ refers p' (sh_env sh')) as Hck.
  { intros o Ho. destruct (ck_step_kept p sh p' sh') as (E1 & E2 & E3); [by destruct p|done|].
    split; [|done]. split; [by rewrite E1|]. split; [by rewrite E1|done]. }
  destruct p as [c|k v again|k v seg again|k v seg|k v enc|ch|ch|ch|o|o|o|o|o|ch s|enc s|seg slot s|enc|seg slot|s out];
    try (by apply (Hck o)); cbn [pc_step] in E; try (apply Hon in E as (e' & E & ->)).
  - injection E as E. by apply start_step_kept in E.
  - by apply activate_kept in E.
  - by apply insert_kept in E.
  - injection E as E. unfold mark_step in E. pose proof (MarkSegmentFull_segments seg (e_mgr (sh_env sh))) as Em.
    destruct (MarkSegmentFull seg (e_mgr (sh_env sh))) as [s m] eqn:Ef. injection E as <- <-. split; [|done].
    split; [intros Hp; by apply (MarkSegmentFull_part seg _ s m Hp)|]. split; [cbn in *; by rewrite Em|done].
  - injection E as <- <-. by split.
  - injection E as <- <-. split; [done|]. destruct (wal_ _); [done|apply logged_refers].
  - unfold log_append_step in E. destruct (wal_ _) as [w|]; [|done]. destruct (AppendRecord _ _ _) as [[s w1] fs].
    injection E as <- <-. split; [by split|]. destruct (negb _); [apply logged_refers|done].
  - unfold log_bytes_step in E. destruct (wal_ _) as [w|]; [|done]. injection E as <- <-. split; [by split|].
    destruct (_ && _); [done|apply logged_refers].
  - injection E as E. unfold undo_step in E. destruct ch; injection E as <- <-; by split.
  - unfold free_find_step in E. destruct (negb _); [by injection E as <- <-|]. by apply find_segment_kept in E as [-> ?].
  - unfold free_delete_step in E. destruct (segments_ _ !! _) as [s0|] eqn:Es; [|done].
    destruct (Delete _ _ _) as [[st s'] w'] eqn:Ed. apply Delete_place in Ed. injection E as <- <-.
    split; [by apply (put_kept seg s0)|done].
  - by apply find_segment_kept in E as [-> ?].
  - unfold read_step in E. destruct (segments_ _ !! _) as [s0|]; [|done]. destruct (Read _ _ _ _ _) as [[[? ?] ?] ?].
    injection E as <- <-. by split.
  - by injection E as <- <-.
Qed.

Definition pool_wf P : Prop := env_wf (po_env P) /\ Forall (fun p => refers p (po_env P)) (po_calls P).

Lemma pool_kept P sh cs : pool_wf P -> env_kept (po_env P) (sh_env sh) ->
  Forall (fun p => refers p (sh_env sh)) cs -> pool_wf (mkPool sh cs).
Proof. intros [[Hp Hm] _] (Hk & _ & Eo) Hcs. split; [|done]. split; [by apply Hk|]. unfold po_env. cbn. by rewrite Eo. Qed.

Lemma turn_wf t P P' : pool_wf P -> turn_step iter t P = Ret P' -> pool_wf P'.
Proof using iter_ok.
  intros HP E. pose proof HP as [Hwf Hcs]. destruct t as [c|i|]; cbn [turn_step] in E.
  - injection E as <-. split; [done|]. apply Forall_app. split; [done|]. by constructor.
  - destruct (po_calls P !! i) as [p|] eqn:Ep; [|by injection E as <-].
    destruct (pc_step iter p (po_shared P)) as [[q sh]|] eqn:Es; [|done]. injection E as <-.
    apply pc_step_kept in Es as [Hk Hq]; [|done|apply (Forall_lookup_1 _ _ _ _ Hcs Ep)]. apply (pool_kept P); [done|done|].
    apply Forall_insert; [|done]. eapply Forall_impl; [exact Hcs|]. intros p0. by apply refers_kept.
  - destruct (_ && _); [by injection E as <-|]. destruct (compact_index iter (po_env P)) as [[s e]|] eqn:Ec; [|done].
    injection E as <-. pose proof (compact_index_opts iter _ _ _ Ec) as Eo.
    apply compact_index_part in Ec as [Hp Hd]; [|apply Hwf].
    assert (env_kept (po_env P) e) as Hk by done. apply (pool_kept P); [done|done|].
    eapply Forall_impl; [exact Hcs|]. intros p0. by apply refers_kept.
Qed.

Lemma run_wf ts P P' : pool_wf P -> run_turns iter ts P = Ret P' -> pool_wf P'.
Proof using iter_ok.
  revert P. induction ts as [|t ts IH]; intros P Hm E; cbn [run_turns] in E; [by injection E as <-|].
  destruct (turn_step iter t P) as [P1|] eqn:E1; [|done]. eapply IH; [|exact E]. by eapply turn_wf.
Qed.

(** ** Progress *)

(** The step is defined and brings the call closer to its return. *)
Definition moves_on P (i : nat) : Prop :=
  exists p p' sh', po_calls P !! i = Some p /\ pc_step iter p (po_shared P) = Ret (p', sh') /\ (rank p' < rank p)%nat.

(** The two places where the next step of a call has no defined outcome: it uses
    the log that a checkpoint has closed since it looked, and it asks for a
    segment while an appending one has no free slot. *)
Definition undefined_at p e : Prop :=
  match p with
  | LogAppend _ | LogBytes _ => wal_ (e_ix e) = None
  | Activate _ _ _ => ~ none_exhausted (e_mgr e)
  | _ => False
  end.

Lemma pc_step_undefined p sh : env_wf (sh_env sh) -> refers p (sh_env sh) -> pc_step iter p sh = UB -> undefined_at p (sh_env sh).
Proof using iter_ok.
  intros [Hp Hm] Hr E. assert (forall r, on_env sh r = UB -> r = UB) as Hon by (by intros [[? ?]|]).
  destruct p as [c|k v again|k v seg again|k v seg|k v enc|ch|ch|ch|o|o|o|o|o|ch s|enc s|seg slot s|enc|seg slot|s out];
    cbn [pc_step] in E; try (apply Hon in E); try done.
  - unfold activate_step, active_segment in E. intros Hn.
    destruct (GetActiveSegment_defined iter iter_ok _ Hp Hn) as (o & m' & Eg). by rewrite Eg in E.
  - unfold insert_step, insert_into in E. destruct Hr as [s0 Hs]. rewrite Hs in E. by destruct (Insert _ _ _ _ _) as [[[? ?] ?] ?].
  - unfold log_append_step in E. cbn. destruct (wal_ _); [|done]. by destruct (AppendRecord _ _ _) as [[? ?] ?].
  - unfold log_bytes_step in E. cbn. by destruct (wal_ _).
  - unfold free_find_step, find_segment in E. rewrite Hm in E. by destruct (negb _).
  - unfold free_delete_step in E. destruct Hr as [s0 Hs]. rewrite Hs in E. by destruct (Delete _ _ _) as [[? ?] ?].
  - unfold find_segment in E. by rewrite Hm in E.
  - unfold read_step in E. destruct Hr as [s0 Hs]. rewrite Hs in E. by destruct (Read _ _ _ _ _) as [[[? ?] ?] ?].
Qed.

(** While the mutex is held, its holder can go on. *)
Lemma holder_moves P : mutex_ok P -> checkpoint_mutex_ (po_shared P) = true ->
  exists j q, po_calls P !! j = Some q /\ holds q = true /\ moves_on P j.
Proof.
  intros Hm Em. unfold mutex_ok, holders in Hm. rewrite Em in Hm.
  destruct (filter _ (po_calls P)) as [|q l] eqn:Ef; [done|].
  assert (q ∈ filter (fun p => holds p = true) (po_calls P)) as [Hq Hin]%list_elem_of_filter by (rewrite Ef; by left).
  apply list_elem_of_lookup in Hin as [j Hj]. exists j, q. split; [done|]. split; [done|].
  destruct (pc_step iter q (po_shared P)) as [[q' sh']|] eqn:Eq; [|by destruct q].
  exists q, q', sh'. split; [done|]. split; [done|]. apply pc_step_ok in Eq as [(-> & _ & ?)|[? _]]; [by destruct q|done].
Qed.


End progress.
