(* ===== verification/ThreadRefinement.v ===== *)
(** * Concurrent calls refine a map

    The calls of [IndexThreads], taking turns in any order, do what an abstract
    machine does: a map, and for every call whether it is pending, or what it
    returns.  [Put] and [Delete] change the map in one step; a [Get] looks at it
    in one step and returns the value it saw, or misses when the key was
    overwritten or deleted since.  The log does not fail here, and neither a
    checkpoint nor a compaction runs: [ThreadRaces] shows what goes wrong when
    one does. *)

From S2P Require Import Prelude Common Sys Key Offset Wal SegmentBase SegmentOps SegmentManager ManagerTheorems.
From S2P Require Import Index IndexData IndexCompaction IndexRecovery IndexTheorems BackendFiles IndexLogging IndexThreads.

(** ** The abstract machine *)

Section abstract.
Context {K : Type} `{!KeyT K}.
(** [vs]: the configured size of a value; [quiet]: no call of the store fails. *)
Context (vs : Z) (quiet : bool).
Implicit Types (m : gmap K (list Z)).

(** A call that has yet to act; a [Get] that saw [v], and whether the key
    changed since; a call whose result is fixed. *)
Inductive acall :=
| APending (c : call K)
| ASaw (key : K) (v : list Z) (changed : bool)
| ADone (s : Status) (out : option (list Z)).

(** [acts m a w m' a']: the call [a] acts on the map and writes the key [w]. *)
Inductive acts : gmap K (list Z) -> acall -> option K -> gmap K (list Z) -> acall -> Prop :=
| acts_put m k v n : acts m (APending (CPut k (Some v) n)) (Some k) (<[k := v]> m) (ADone kOk None)
| acts_put_fails m k v n s :
    s <> kOk -> (quiet = true -> s ∈ [kInvalidArgument; kNoSpace; kFull]) ->
    acts m (APending (CPut k v n)) None m (ADone s None)
| acts_delete m k v : m !! k = Some v -> acts m (APending (CDelete k)) (Some k) (delete k m) (ADone kOk None)
| acts_delete_absent m k : m !! k = None -> acts m (APending (CDelete k)) None m (ADone kNotFound None)
| acts_get_rejected m k out n :
    out = false \/ n <> vs -> acts m (APending (CGet k out n)) None m (ADone kInvalidArgument None)
| acts_get_absent m k n : m !! k = None -> acts m (APending (CGet k true n)) None m (ADone kNotFound None)
| acts_get_looks m k n v : m !! k = Some v -> acts m (APending (CGet k true n)) None m (ASaw k v false)
| acts_get_hits m k v changed : acts m (ASaw k v changed) None m (ADone kOk (Some v))
| acts_get_misses m k v : acts m (ASaw k v true) None m (ADone kNotFound None)
| acts_get_fails m k v changed s out :
    quiet = false -> s <> kOk -> acts m (ASaw k v changed) None m (ADone s out).

(** The key [w] was written. *)
Definition touch (w : option K) (a : acall) : acall :=
  match a with
  | ASaw k v changed => ASaw k v (changed || bool_decide (w = Some k))
  | _ => a
  end.

(** A turn of the call [i]: nothing, or one act. *)
Inductive amove (i : nat) : gmap K (list Z) * list acall -> gmap K (list Z) * list acall -> Prop :=
| amove_none s : amove i s s
| amove_acts m as_ a w m' a' :
    as_ !! i = Some a -> acts m a w m' a' -> amove i (m, as_) (m', <[i := a']> (touch w <$> as_)).

(** The turns of the threads; calls begin where they begin there. *)
Inductive aturns : list (turn K) -> gmap K (list Z) * list acall -> gmap K (list Z) * list acall -> Prop :=
| aturns_nil s : aturns [] s s
| aturns_spawn c ts m as_ s' : aturns ts (m, as_ ++ [APending c]) s' -> aturns (Spawn c :: ts) (m, as_) s'
| aturns_move i ts s s1 s' : amove i s s1 -> aturns ts s1 s' -> aturns (Move i :: ts) s s'.

End abstract.
Arguments acall K : clear implicits.

Section refinement.
Context {K : Type} `{!KeyT K} `{!KeyTLaws K} `{!Phmap K} {H W : Type} `{SlotStoreLaws H W}.
Context (iter : nat -> gset Z -> list Z).
Hypothesis iter_ok : forall n X, iter n X ≡ₚ elements X.
Context (c : SegmentConfig) (quiet : bool).
Implicit Types (e : Env K H W) (p : pc K).

(** ** Slots are not used twice *)

(** The slot [i] of segment [a] was handed out. *)
Definition taken e (a i : Z) : Prop :=
  exists seg, segments_ (e_mgr e) !! a = Some seg /\ 0 <= i < append_cursor_ (seg_base seg).

Lemma view_taken e a i q : store_ok c (e_mgr e) (e_w e) -> e_view e a i = Some q -> taken e a i.
Proof.
  intros Hst Hv. unfold e_view, mgr_view in Hv. destruct (segments_ (e_mgr e) !! a) as [seg|] eqn:Es; [|done].
  exists seg. split; [done|]. destruct (ms_ok _ _ _ (sk_segs _ _ _ Hst) _ _ Es) as [[Hi _ (d & Hd & _)] _].
  cbn in Hv. unfold seg_map in Hv. rewrite Hd, slot_map_lookup in Hv. case_decide as Hr; [|done].
  destruct (slot_bit _ i) eqn:Eb; [|done]. destruct (Z.le_gt_cases (append_cursor_ (seg_base seg)) i); [|lia].
  rewrite (si_free _ Hi) in Eb by lia. done.
Qed.

Lemma taken_same e e' a i : segments_ (e_mgr e') = segments_ (e_mgr e) -> taken e a i -> taken e' a i.
Proof. unfold taken. by intros ->. Qed.

(** Replacing a segment by one with at least its cursor. *)
Lemma taken_put e m' w' id seg seg' a i :
  segments_ (e_mgr e) !! id = Some seg -> m' = put_segment id seg' (e_mgr e) ->
  append_cursor_ (seg_base seg) <= append_cursor_ (seg_base seg') -> taken e a i -> taken (set_store m' w' e) a i.
Proof.
  intros Hs -> Hle (u & Hu & Hi). unfold taken. cbn. destruct (decide (a = id)) as [->|Hne].
  - exists seg'. rewrite lookup_insert_eq. split; [done|]. simplify_eq. lia.
  - exists u. by rewrite lookup_insert_ne.
Qed.

(** [Insert] takes a slot that was not taken. *)
Lemma insert_into_taken id (key : K) value e s out e' :
  store_ok c (e_mgr e) (e_w e) -> key_size c = Z.of_nat (key_sizeof (K := K)) ->
  Z.of_nat (length value) = SegmentBase.value_size c ->
  insert_into id key value e = Ret (s, out, e') ->
  (forall a i, taken e a i -> taken e' a i) /\
  (forall a, is_Some (segments_ (e_mgr e) !! a) -> is_Some (segments_ (e_mgr e') !! a)) /\
  (s = kOk -> forall slot, out = Some slot -> ~ taken e id slot).
Proof.
  intros Hst Hk Hv E. unfold insert_into in E.
  destruct (segments_ (e_mgr e) !! id) as [seg|] eqn:Hseg; [|done].
  destruct (Insert _ _ _ seg (e_w e)) as [[[st o] seg'] w'] eqn:Ei. injection E as <- <- <-.
  destruct (ms_ok _ _ _ (sk_segs _ _ _ Hst) _ _ Hseg) as [Hok Hc].
  apply Insert_spec in Ei as (_ & Hcase); [|done| |].
  2: { unfold key_bytes. rewrite Hc, Hk, key_raw_length. lia. }
  2: { unfold value_bytes. rewrite Hc. lia. }
  assert (append_cursor_ (seg_base seg) <= append_cursor_ (seg_base seg')) as Hle.
  { destruct Hcase as [(slot & _ & _ & Hin)|[(_ & _ & _ & -> & _)|(_ & _ & -> & _)]]; [|done|done].
    rewrite (in_cursor _ _ _ _ _ _ _ Hin). lia. }
  split; [intros a i; by eapply taken_put|]. split.
  - intros a Ha. cbn. destruct (decide (a = id)) as [->|Hne]; [rewrite lookup_insert_eq; by eexists|by rewrite lookup_insert_ne].
  - intros -> slot ->. destruct Hcase as [(slot' & _ & [= <-] & Hin)|[(? & _)|(? & _)]]; [|done|done].
    intros (u & Hu & Hlt). simplify_eq. destruct (in_sid _ _ _ _ _ _ _ Hin) as [-> _]. lia.
Qed.

(** ** What a call relies on *)

(** A location that was handed out and that the map does not use. *)
Definition owned e (enc : Z) : Prop :=
  exists a i, enc = EncodeSegmentSlot a i /\ seg_slot_ok a i /\ taken e a i /\ forall k, map_ (e_ix e) !! k <> Some enc.

(** The location a call has written and not yet published, or has to free. *)
Definition owns p : option Z :=
  match p with
  | Emplacing _ _ enc => Some enc
  | LogTest ch | LogAppend ch | LogBytes ch => match ch with Putting _ _ old => old | Deleting _ old => Some old end
  | FreeFind enc _ => Some enc
  | FreeDelete seg slot _ => Some (EncodeSegmentSlot seg slot)
  | _ => None
  end.

(** The location at which a [Get] found [k]: it holds the value seen, or was
    freed after a change of the key; without one the map still has it. *)
Definition seen e (k : K) (enc : Z) (v : list Z) (changed : bool) : Prop :=
  exists a i, enc = EncodeSegmentSlot a i /\ seg_slot_ok a i /\ taken e a i /\
    (e_view e a i = Some (key_raw k, v) \/ changed = true /\ e_view e a i = None) /\
    (changed = false -> map_ (e_ix e) !! k = Some enc).

Definition call_ok (x : call K) : Prop :=
  match x with
  | CPut k (Some v) n => key_valid k /\ Z.of_nat (length v) = n
  | CPut _ None _ | CGet _ _ _ | CDelete _ => True
  | CCheckpoint => False
  end.

(** A [Put] that has yet to act. *)
Definition putting (k : K) (v : list Z) (a : acall K) : Prop :=
  (exists n, a = APending (CPut k (Some v) n)) /\ key_valid k /\ Z.of_nat (length v) = SegmentBase.value_size c.

(** Where a call is, what the abstract call has done. *)
Definition local e p (a : acall K) : Prop :=
  match p with
  | Start x => a = APending x /\ call_ok x
  | Activate k v _ | MarkingFull k v _ => putting k v a
  | Inserting k v seg _ => putting k v a /\ is_Some (segments_ (e_mgr e) !! seg)
  | Emplacing k v enc => putting k v a /\ entry_at (e_view e) k enc v
  | LogTest _ => a = ADone kOk None
  | LogAppend _ | LogBytes _ => a = ADone kOk None /\ is_Some (wal_ (e_ix e))
  | FreeFind _ s => a = ADone s None
  | FreeDelete seg slot s => a = ADone s None /\ seg_slot_ok seg slot /\ is_Some (segments_ (e_mgr e) !! seg)
  | ReadFind enc => exists k v changed, a = ASaw k v changed /\ seen e k enc v changed
  | Reading seg slot => exists k v changed, a = ASaw k v changed /\ seg_slot_ok seg slot /\
      seen e k (EncodeSegmentSlot seg slot) v changed /\ is_Some (segments_ (e_mgr e) !! seg)
  | Finished s out => a = ADone s out
  | CkLock _ | CkDump _ | CkRename _ | CkClose _ | CkOpen _ | Undoing _ _ => False
  end.

(** The log does not fail, and [n] more records do not reach the threshold for
    a checkpoint. *)
Definition ready (n : nat) e : Prop :=
  match wal_ (e_ix e) with
  | None => True
  | Some w =>
      let o := e_opts e in
      ww_fd w = Some (wal_path o) /\ is_Some (fs_files (e_fs e) !! wal_path o) /\ no_eio (fs_script (e_fs e)) /\
      0 <= bytes_written_ w /\
      (wal_checkpoint_bytes o <= 0 \/ snapshot_dir o = EmptyString \/
       bytes_written_ w + Z.of_nat n * Z.of_nat (kEncodedSize K) < wal_checkpoint_bytes o)
  end.

(** ** What a step leaves to the others *)

(** A step from [e] to [e'] by a call that owns [o] before and [o'] after, and
    that writes the key [w]. *)
Record moved e (o : option Z) (w : option K) e' (o' : option Z) : Prop := {
  mv_env : env_ok c e';
  mv_opts : e_opts e' = e_opts e;
  mv_quiet : quietly e e';
  mv_segs : forall a, is_Some (segments_ (e_mgr e) !! a) -> is_Some (segments_ (e_mgr e') !! a);
  mv_wal : is_Some (wal_ (e_ix e)) -> is_Some (wal_ (e_ix e'));
  mv_taken : forall a i, taken e a i -> taken e' a i;
  mv_view : forall a i, seg_slot_ok a i -> taken e a i ->
    e_view e' a i = e_view e a i \/ o = Some (EncodeSegmentSlot a i) /\ e_view e' a i = None;
  mv_map : forall k, w <> Some k -> map_ (e_ix e') !! k = map_ (e_ix e) !! k;
  mv_range : forall k enc, map_ (e_ix e') !! k = Some enc -> (exists k', map_ (e_ix e) !! k' = Some enc) \/ o = Some enc;
  mv_own : forall enc, o' = Some enc -> owned e' enc /\ (o = Some enc \/ ~ owned e enc);
}.

Lemma moved_owned e o w e' o' enc : moved e o w e' o' -> owned e enc -> o <> Some enc -> owned e' enc.
Proof.
  intros Hm (a & i & -> & Hok & Ht & Hn) Ho. exists a, i. split; [done|]. split; [done|]. split; [by apply (mv_taken _ _ _ _ _ Hm)|].
  intros k Hk. apply (mv_range _ _ _ _ _ Hm) in Hk as [[k' Hk']|Hk]; [by apply (Hn k')|done].
Qed.

Lemma moved_seen e o w e' o' k enc v changed :
  moved e o w e' o' -> (forall x, o = Some x -> owned e x) ->
  seen e k enc v changed -> seen e' k enc v (changed || bool_decide (w = Some k)).
Proof.
  intros Hm Ho (a & i & -> & Hok & Ht & Hv & Hmap). exists a, i. split; [done|]. split; [done|].
  split; [by apply (mv_taken _ _ _ _ _ Hm)|]. split.
  - destruct (mv_view _ _ _ _ _ Hm a i Hok Ht) as [->|[Eo ->]].
    + destruct Hv as [Hv|[-> Hv]]; [by left|by right].
    + right. split; [|done]. destruct changed; [done|]. destruct (Ho _ Eo) as (a1 & i1 & E1 & _ & _ & Hn).
      destruct (Hn k). by apply Hmap.
  - intros [-> Hw%bool_decide_eq_false]%orb_false_iff. rewrite (mv_map _ _ _ _ _ Hm) by done. by apply Hmap.
Qed.

(** What holds of another call still holds. *)
Lemma moved_local e o w e' o' p (a : acall K) :
  env_ok c e -> moved e o w e' o' -> (forall x, o = Some x -> owned e x) -> (forall x, owns p = Some x -> o <> Some x) ->
  local e p a -> local e' p (touch w a).
Proof.
  intros Hok Hm Ho Hne Hl. pose proof (mv_segs _ _ _ _ _ Hm) as Hs. pose proof (mv_wal _ _ _ _ _ Hm) as Hw.
  destruct p; cbn [local] in *; try done.
  - destruct Hl as [-> ?]. done.
  - destruct Hl as [[n ->] ?]. split; [by exists n|done].
  - destruct Hl as [[[n ->] ?] ?]. split; [split; [by exists n|done]|auto].
  - destruct Hl as [[n ->] ?]. split; [by exists n|done].
  - destruct Hl as [[[n ->] Hp] (a1 & i1 & -> & Hso & Hv)]. split; [split; [by exists n|done]|].
    exists a1, i1. split; [done|]. split; [done|]. apply (view_taken _ _ _ _ (eo_store _ _ Hok)) in Hv as Ht.
    destruct (mv_view _ _ _ _ _ Hm a1 i1 Hso Ht) as [->|[E _]]; [done|by destruct (Hne _ eq_refl)].
  - by subst a.
  - destruct Hl as [-> ?]. auto.
  - destruct Hl as [-> ?]. auto.
  - by subst a.
  - destruct Hl as (-> & ? & ?). auto.
  - destruct Hl as (k & v & ch & -> & Hl). exists k, v. eexists. split; [done|]. by eapply moved_seen.
  - destruct Hl as (k & v & ch & -> & ? & Hl & ?). exists k, v. eexists. split; [done|]. split; [done|].
    split; [by eapply moved_seen|auto].
  - by subst a.
Qed.

(** An entry of the map is at a slot that was handed out. *)
Lemma entry_taken e k enc :
  env_ok c e -> map_ (e_ix e) !! k = Some enc ->
  exists a i v, enc = EncodeSegmentSlot a i /\ seg_slot_ok a i /\ taken e a i /\ e_view e a i = Some (key_raw k, v) /\
    e_contents e !! k = Some v.
Proof.
  intros Hok Hk. destruct (index_ok_lookup _ _ _ _ (eo_index _ _ Hok) Hk) as (v & (a & i & -> & Hso & Hv) & Hc).
  exists a, i, v. split; [done|]. split; [done|]. split; [|done]. by eapply view_taken; [apply Hok|].
Qed.

(** A step on the store alone. *)
Lemma moved_store e o e' o' :
  env_ok c e -> (forall x, o = Some x -> owned e x) -> same_files e e' -> store_ok c (e_mgr e') (e_w e') -> quietly e e' ->
  (forall a, is_Some (segments_ (e_mgr e) !! a) -> is_Some (segments_ (e_mgr e') !! a)) ->
  (forall a i, taken e a i -> taken e' a i) ->
  (forall a i, seg_slot_ok a i -> taken e a i ->
     e_view e' a i = e_view e a i \/ o = Some (EncodeSegmentSlot a i) /\ e_view e' a i = None) ->
  (forall x, o' = Some x -> o = Some x \/
     exists a i, x = EncodeSegmentSlot a i /\ seg_slot_ok a i /\ taken e' a i /\ ~ taken e a i) ->
  moved e o None e' o' /\ e_contents e' = e_contents e.
Proof.
  intros Hok Ho [Ei Ef] Hst Hq Hsegs Ht Hv Ho'. pose proof Hok as [Hst0 Hi Hm Hc Hk].
  destruct (contents_eq (e_view e) (map_ (e_ix e)) (e_view e') (map_ (e_ix e)) (e_contents e)) as [Hi' Hc']; [done|done|done| |].
  { intros k enc v Hl (a & i & -> & Hso & Ha). eexists. split; [done|]. exists a, i. split; [done|]. split; [done|].
    destruct (Hv a i Hso (view_taken _ _ _ _ Hst0 Ha)) as [->|[E _]]; [done|].
    destruct (Ho _ E) as (? & ? & _ & _ & _ & Hn). by destruct (Hn k). }
  split; [|unfold e_contents; rewrite Ei; exact Hc'].
  assert (env_ok c e') as Hok' by (split; unfold e_opts; rewrite ?Ei; done).
  split; try done.
  - unfold e_opts. by rewrite Ei.
  - by rewrite Ei.
  - intros k _. by rewrite Ei.
  - intros k enc. rewrite Ei. eauto.
  - intros x Hx. destruct (Ho' x Hx) as [E|(a & i & -> & Hso & Hta & Hnt)].
    + split; [|by left]. destruct (Ho x E) as (a & i & -> & Hso & Hta & Hn). exists a, i. rewrite Ei. auto.
    + split.
      * exists a, i. rewrite Ei. split; [done|]. split; [done|]. split; [done|]. intros k Hl.
        destruct (entry_taken e k _ Hok Hl) as (a1 & i1 & v & E & Hso1 & Ht1 & _).
        by apply EncodeSegmentSlot_inj in E as [-> ->].
      * right. intros (a1 & i1 & E & Hso1 & Ht1 & _). by apply EncodeSegmentSlot_inj in E as [-> ->].
Qed.

Lemma moved_id e o o' :
  env_ok c e -> (forall x, o = Some x -> owned e x) -> (forall x, o' = Some x -> o = Some x) -> moved e o None e o'.
Proof.
  intros Hok Ho Ho'. destruct (moved_store e o e o') as [Hm _]; try done; [apply Hok|by left|]. intros x Hx. left. auto.
Qed.

(** A step on the files of the index. *)
Lemma moved_files e o ix fs o' :
  env_ok c e -> (forall x, o = Some x -> owned e x) -> (forall x, o' = Some x -> o = Some x) ->
  map_ ix = map_ (e_ix e) -> opts_ ix = e_opts e -> (is_Some (wal_ (e_ix e)) -> is_Some (wal_ ix)) ->
  moved e o None (set_files_of ix fs e) o' /\ e_contents (set_files_of ix fs e) = e_contents e.
Proof.
  intros Hok Ho Ho' Em Eo Hw. split; [|unfold e_contents; cbn; by rewrite Em]. pose proof (moved_id e o o' Hok Ho Ho') as [].
  split; try done.
  - apply env_ok_files; [done|done|]. rewrite Em. apply Hok.
  - cbn. by rewrite Em.
  - cbn. by rewrite Em.
  - intros x Hx. destruct (mv_own0 x Hx) as [(a & i & -> & ? & ? & Hn) ?]. split; [|done]. exists a, i. split; [done|].
    split; [done|]. split; [done|]. cbn. by rewrite Em.
Qed.

Lemma ready_files n e e' : e_ix e' = e_ix e -> e_fs e' = e_fs e -> ready n e -> ready n e'.
Proof. unfold ready, e_opts. by intros -> ->. Qed.

Lemma ready_less n e : ready (S n) e -> ready n e.
Proof.
  unfold ready. destruct (wal_ _); [|done]. intros (? & ? & ? & ? & Hr). do 4 (split; [done|]).
  destruct Hr as [?|[?|?]]; [by left|by right; left|right; right; lia].
Qed.

(** ** One step *)

Record pre (n : nat) e p (a : acall K) : Prop := {
  pr_env : env_ok c e;
  pr_quiet : quiet = true -> st_quiet (e_w e);
  pr_ready : ready (S n) e;
  pr_local : local e p a;
  pr_owns : forall x, owns p = Some x -> owned e x;
}.

(** The abstract call does nothing, or one act. *)
Definition simulates (n : nat) e p (a : acall K) (r : pc K * Env K H W) : Prop :=
  exists w a', moved e (owns p) w r.2 (owns r.1) /\ ready n r.2 /\ local r.2 r.1 a' /\
    (w = None /\ a' = a /\ e_contents r.2 = e_contents e \/
     acts (SegmentBase.value_size c) quiet (e_contents e) a w (e_contents r.2) a').

(** A step that changes nothing that is shared. *)
Lemma sim_id n e p a p' a' :
  pre n e p a -> (forall x, owns p' = Some x -> owns p = Some x) -> local e p' a' ->
  (a' = a \/ acts (SegmentBase.value_size c) quiet (e_contents e) a None (e_contents e) a') -> simulates n e p a (p', e).
Proof.
  intros [Hok _ Hr _ Ho] Ho' Hl Ha. exists None, a'. cbn [fst snd]. split; [by apply moved_id|].
  split; [by apply ready_less|]. split; [done|]. destruct Ha as [->|Ha]; [by left|by right].
Qed.

Lemma start_put_sim n e k v sz a : pre n e (Start (CPut k v sz)) a -> simulates n e (Start (CPut k v sz)) a (start_step (CPut k v sz) e).
Proof.
  intros Hp. pose proof Hp as [Hok Hq Hr [-> Hx] _]. pose proof Hok as [Hst Hi Hm Hc Hk]. unfold start_step.
  assert (simulates n e (Start (CPut k v sz)) (APending (CPut k v sz)) (Finished kInvalidArgument None, e)) as Hbad.
  { eapply sim_id; [done|done|done|]. right. apply acts_put_fails; [done|]. intros _. by left. }
  destruct v as [v|]; [|done]. rewrite Hc. destruct (Z.eqb_spec sz (SegmentBase.value_size c)) as [->|]; [|done].
  rewrite Hm. cbn [negb]. eapply sim_id; [done|done| |by left]. cbn. split; [by eexists|]. apply Hx.
Qed.

Lemma start_get_sim n e k out sz a :
  pre n e (Start (CGet k out sz)) a -> simulates n e (Start (CGet k out sz)) a (start_step (CGet k out sz) e).
Proof.
  intros Hp. pose proof Hp as [Hok Hq Hr [-> Hx] _]. pose proof Hok as [Hst Hi Hm Hc Hk]. unfold start_step, Lookup.
  destruct out; cbn [negb].
  2: { eapply sim_id; [done|done|done|]. right. apply acts_get_rejected. by left. }
  rewrite Hc. destruct (Z.eqb_spec sz (SegmentBase.value_size c)) as [->|Hne]; cbn [negb].
  2: { eapply sim_id; [done|done|done|]. right. apply acts_get_rejected. by right. }
  destruct (map_ (e_ix e) !! k) as [enc|] eqn:Ek.
  - destruct (entry_taken e k enc Hok Ek) as (s & i & v & -> & Hso & Ht & Hv & Hcv).
    rewrite GetFlag_EncodeSegmentSlot, bool_decide_eq_true_2 by done. cbn [negb].
    eapply sim_id; [done|done| |right; by apply acts_get_looks]. exists k, v, false. split; [done|].
    exists s, i. do 3 (split; [done|]). split; [by left|done].
  - eapply sim_id; [done|done|done|]. right. apply acts_get_absent. by apply (index_ok_none _ _ k Hi).
Qed.

Lemma start_delete_sim n e k a :
  pre n e (Start (CDelete k)) a -> simulates n e (Start (CDelete k)) a (start_step (CDelete k) e).
Proof.
  intros Hp. pose proof Hp as [Hok Hq Hr [-> Hx] _]. pose proof Hok as [Hst Hi Hm Hc Hk]. unfold start_step.
  destruct (map_ (e_ix e) !! k) as [old|] eqn:Ek.
  2: { eapply sim_id; [done|done|done|]. right. apply acts_delete_absent. by apply (index_ok_none _ _ k Hi). }
  destruct (entry_taken e k old Hok Ek) as (s & i & v & -> & Hso & Ht & Hv & Hcv).
  destruct (index_ok_delete _ _ k Hi) as [Hi' Hc']. set (e' := set_ix _ e).
  assert (env_ok c e') as Hok' by (by split).
  exists (Some k), (ADone kOk None). cbn [fst snd owns]. split; [|split; [|split; [done|right]]].
  - split; try done.
    + by left.
    + intros k' Hne. cbn. apply lookup_delete_ne. congruence.
    + intros k' enc. cbn. intros [_ ?]%lookup_delete_Some. left. by exists k'.
    + intros x [= <-]. split.
      * exists s, i. do 3 (split; [done|]). intros k'. cbn. by apply (index_ok_unused (e_view e)).
      * right. intros (s1 & i1 & E & _ & _ & Hn). by apply (Hn k).
  - by apply ready_less.
  - replace (e_contents e') with (delete k (e_contents e)) by (symmetry; exact Hc').
    by eapply acts_delete.
Qed.

Lemma activate_sim n e k v again a :
  pre n e (Activate k v again) a ->
  match activate_step iter k v again e with
  | UB => ~ all_free (e_mgr e)
  | Ret r => simulates n e (Activate k v again) a r
  end.
Proof using Type*.
  intros Hp. pose proof Hp as [Hok Hq Hr Hl Ho]. pose proof (active_segment_spec iter iter_ok c e (eo_store _ _ Hok)) as Ha.
  unfold activate_step. destruct (active_segment iter e) as [[o e1]|]; cbn [mbind Outcome_bind]; [|done].
  destruct Ha as ([Ei Ef] & Ew & Hst & Es & _ & Hseg).
  assert (v_same (e_view e) (e_view e1)) as Hv by (unfold e_view; rewrite Ew; by apply mgr_view_segments).
  destruct (moved_store e None e1 None) as [Hm Hcn]; try done.
  { by apply quietly_same. }
  { by rewrite Es. }
  { intros s i. by apply taken_same. }
  { intros s i _ _. left. apply Hv. }
  assert (ready n e1) as Hr1 by (apply (ready_files n e); [done|done|by apply ready_less]).
  destruct o as [seg|].
  - exists None, a. do 2 (split; [done|]). split; [|by left]. split; [done|]. destruct Hseg as [s Hs]. cbn. by exists s.
  - exists None, (ADone kNoSpace None). do 3 (split; [done|]). right. destruct Hl as [[sz ->] _]. cbn [fst snd]. rewrite Hcn.
    apply acts_put_fails; [done|]. intros _. by right; left.
Qed.

Lemma insert_sim n e k v seg again a :
  pre n e (Inserting k v seg again) a ->
  exists r, insert_step k v seg again e = Ret r /\ simulates n e (Inserting k v seg again) a r.
Proof.
  intros [Hok Hq Hr [Hl [sg Hsg]] Ho]. pose proof Hok as [Hst Hi Hm Hc Hk]. pose proof Hl as ([sz ->] & Hkv & Hlen).
  assert (exists s out e1, insert_into seg k v e = Ret (s, out, e1)) as (s & out & e1 & E1).
  { unfold insert_into. rewrite Hsg. destruct (Insert _ _ _ _ _) as [[[? ?] ?] ?]. by do 3 eexists. }
  unfold insert_step. rewrite E1. cbn [mbind Outcome_bind]. eexists. split; [done|].
  destruct (insert_into_taken seg k v e s out e1 Hst Hk Hlen E1) as (Ht & Hs & Hnew).
  destruct (insert_into_spec c seg k v e s out e1 Hst Hk Hlen E1) as (Hsf & Hst1 & Hq1 & Hcase).
  assert (ready n e1) as Hr1 by (apply (ready_files n e); [apply Hsf|apply Hsf|by apply ready_less]).
  destruct Hcase as [(-> & slot & -> & Hso & Hn & Hvs)|(Hne & Es & Hvs & _ & _ & _ & Hfull)].
  - rewrite (bool_decide_eq_false_2 (kOk = kFull)), andb_false_r by done. cbn [status_is_ok negb default].
    assert (e_view e1 seg slot = Some (key_raw k, v)) as Hv1 by (rewrite Hvs; unfold vset; by rewrite decide_True).
    destruct (moved_store e None e1 (Some (EncodeSegmentSlot seg slot))) as [Hmv Hcn]; try done.
    { intros a i _ Hta. left. rewrite Hvs. unfold vset. rewrite decide_False; [done|]. intros [-> ->]. by apply (Hnew eq_refl slot). }
    { intros x [= <-]. right. exists seg, slot. do 2 (split; [done|]). split; [by apply (view_taken _ _ _ _ Hst1 Hv1)|by apply Hnew]. }
    exists None. eexists. split; [exact Hmv|]. split; [done|]. split; [|left; split; [done|]; split; [reflexivity|exact Hcn]].
    split; [done|]. by exists seg, slot.
  - destruct (moved_store e None e1 None) as [Hmv Hcn]; try done; [intros a i _ _; left; apply Hvs|].
    destruct (negb again && bool_decide (s = kFull)).
    + exists None. eexists. split; [exact Hmv|]. split; [done|]. split; [exact Hl|by left].
    + replace (status_is_ok s) with false by by destruct s. cbn [negb].
      exists None, (ADone s None). split; [exact Hmv|]. split; [done|]. split; [done|]. right. cbn [fst snd]. rewrite Hcn.
      apply acts_put_fails; [done|]. intros Hqt. rewrite (Hfull (Hq Hqt)). by right; right; left.
Qed.

Lemma mark_sim n e k v seg a : pre n e (MarkingFull k v seg) a -> simulates n e (MarkingFull k v seg) a (mark_step k v seg e).
Proof.
  intros [Hok Hq Hr Hl Ho]. unfold mark_step. destruct (MarkSegmentFull seg (e_mgr e)) as [s m] eqn:Em.
  destruct (mark_full_spec c seg _ (e_w e) _ _ (eo_store _ _ Hok) Em) as (Hst & Es & _).
  destruct (moved_store e None (set_store m (e_w e) e) None) as [Hmv Hcn]; try done.
  { by apply quietly_same. }
  { cbn. by rewrite Es. }
  { intros a1 i. by apply taken_same. }
  { intros a1 i _ _. left. unfold e_view. cbn. by apply mgr_view_segments. }
  exists None, a. split; [exact Hmv|]. split; [by apply ready_less in Hr|]. split; [exact Hl|by left].
Qed.

Lemma emplace_sim n e k v enc a : pre n e (Emplacing k v enc) a -> simulates n e (Emplacing k v enc) a (emplace_step k enc e).
Proof.
  intros [Hok Hq Hr [([sz ->] & Hkv & Hlen) Hent] Ho]. pose proof Hok as [Hst Hi Hm Hc Hk].
  destruct (index_ok_insert _ _ _ _ _ Hkv Hent Hi) as [Hi' Hc'].
  unfold emplace_step. set (e' := set_ix _ e). assert (env_ok c e') as Hok' by (by split).
  exists (Some k), (ADone kOk None). cbn [fst snd owns]. split; [|split; [|split; [done|right]]].
  - split; try done.
    + by left.
    + intros k' Hne. cbn. apply lookup_insert_ne. congruence.
    + intros k' x. cbn. intros [[_ <-]|[_ ?]]%lookup_insert_Some; [by right|left; by exists k'].
    + intros x Hx. destruct (entry_taken e k x Hok Hx) as (s & i & v' & -> & Hso & Ht & _).
      destruct (Ho _ eq_refl) as (_ & _ & _ & _ & _ & Hn). split.
      * exists s, i. do 3 (split; [done|]). intros k'. cbn. intros [[_ E]|[Hne Hk']]%lookup_insert_Some.
        -- apply (Hn k). by rewrite E.
        -- apply Hne. by apply (index_ok_inj (e_view e) (map_ (e_ix e)) k k' (EncodeSegmentSlot s i)).
      * right. intros (_ & _ & _ & _ & _ & Hn'). by apply (Hn' k).
  - by apply ready_less.
  - replace (e_contents e') with (<[k := v]> (e_contents e)) by (symmetry; exact Hc'). apply acts_put.
Qed.

Lemma log_test_sim n e ch a : pre n e (LogTest ch) a -> simulates n e (LogTest ch) a (log_test_step ch e).
Proof.
  intros Hp. pose proof Hp as [Hok Hq Hr Hl Ho]. unfold log_test_step. destruct (wal_ (e_ix e)) as [w|] eqn:Ew.
  - eapply sim_id; [done|done| |by left]. split; [done|]. rewrite Ew. by eexists.
  - destruct ch as [k enc [old|]|k old]; (eapply sim_id; [done| |exact Hl|by left]); cbn; intros x Hx; (exact Hx || done).
Qed.

(** Where a call goes after a record that was appended. *)
Lemma logged_local ch a e : a = ADone kOk None -> local e (logged ch kOk) a.
Proof. by destruct ch as [k enc [old|]|k old]. Qed.

Lemma logged_owns ch : owns (logged ch kOk) = owns (LogTest ch).
Proof. by destruct ch as [k enc [old|]|k old]. Qed.

Lemma AppendRecord_bytes (r : WalRecord K) w fs w' fs' :
  AppendRecord r w fs = (kOk, w', fs') -> bytes_written_ w' = u64 (bytes_written_ w + Z.of_nat (kEncodedSize K)).
Proof.
  unfold AppendRecord, WalWriter_Append, WriteLocked, sync_writer. intros E. pose proof (kEncodedSize_pos (K := K)).
  rewrite (proj2 (Nat.eqb_neq _ _)) in E by lia. destruct (ww_fd w) as [p|] eqn:Ew; [|done].
  destruct (fs_pwrite p _ _ fs) as [s1 fs1]. destruct (negb (status_is_ok s1)) eqn:Es; [by destruct s1; simplify_eq|].
  cbn [status_is_ok negb ww_fd] in E. destruct (sys_fsync p fs1) as [ok fs2]. destruct ok; simplify_eq.
  cbn. rewrite length_take, length_Encode. f_equal. lia.
Qed.

Lemma log_append_sim n e ch a :
  pre n e (LogAppend ch) a -> exists r, log_append_step ch e = Ret r /\ simulates n e (LogAppend ch) a r.
Proof.
  intros [Hok Hq Hr [-> Hw] Ho]. unfold log_append_step. unfold ready in Hr. destruct (wal_ (e_ix e)) as [w|] eqn:Ew; [|by destruct Hw].
  destruct Hr as (Hfd & Hf & Hn & Hb & Hck). destruct (AppendRecord _ w (e_fs e)) as [[s w1] fs1] eqn:Ea.
  eexists. split; [done|]. destruct (AppendRecord_quiet _ _ _ _ _ _ _ Hfd Hf Hn Ea) as (-> & Hfd1 & Hf1 & Hn1).
  cbn [status_is_ok negb]. apply AppendRecord_bytes in Ea.
  destruct (moved_files e (owns (LogAppend ch)) (set_wal (Some w1) (e_ix e)) fs1 (owns (LogBytes ch))) as [Hm Hcn]; try done.
  exists None, (ADone kOk None). split; [exact Hm|]. split; [|split; [by split|by left]].
  unfold ready. cbn. do 3 (split; [done|]). rewrite Ea. unfold u64.
  assert (0 <= Z.of_nat (kEncodedSize K)) as Hz by lia. set (z := Z.of_nat (kEncodedSize K)) in *.
  pose proof (Z.mod_pos_bound (bytes_written_ w + z) (2 ^ 64) ltac:(lia)).
  pose proof (Z.mod_le (bytes_written_ w + z) (2 ^ 64) ltac:(lia) ltac:(lia)). split; [lia|].
  destruct Hck as [?|[?|?]]; [by left|by right; left|right; right]. fold z. unfold e_opts in *. cbn. nia.
Qed.

Lemma log_bytes_sim n e ch a :
  pre n e (LogBytes ch) a -> exists r, log_bytes_step ch e = Ret r /\ simulates n e (LogBytes ch) a r.
Proof.
  intros [Hok Hq Hr [-> Hw] Ho]. unfold log_bytes_step. pose proof (ready_less _ _ Hr) as Hr1. unfold ready in Hr, Hr1.
  destruct (wal_ (e_ix e)) as [w|] eqn:Ew; [|by destruct Hw].
  eexists. split; [done|].
  replace ((wal_checkpoint_bytes (e_opts e) >? 0) && (bytes_written_ w >=? wal_checkpoint_bytes (e_opts e)) &&
    negb (is_empty (snapshot_dir (e_opts e)))) with false.
  2: { destruct Hr as (_ & _ & _ & _ & [Hc|[Hc|Hc]]).
       - rewrite Z.gtb_ltb, (proj2 (Z.ltb_ge _ _)) by lia. done.
       - rewrite Hc. by rewrite andb_false_r.
       - rewrite Z.geb_leb, (proj2 (Z.leb_gt _ _)), andb_false_r by lia. done. }
  destruct (moved_files e (owns (LogBytes ch)) (set_wal_bytes (bytes_written_ w) (e_ix e)) (e_fs e) (owns (logged ch kOk)))
    as [Hm Hcn]; try done.
  { rewrite logged_owns. done. }
  exists None, (ADone kOk None). split; [exact Hm|]. split; [|split; [by apply logged_local|by left]].
  unfold ready. cbn. rewrite Ew. exact Hr1.
Qed.

Lemma free_find_sim n e enc s a :
  pre n e (FreeFind enc s) a -> exists r, free_find_step enc s e = Ret r /\ simulates n e (FreeFind enc s) a r.
Proof.
  intros Hp. pose proof Hp as [Hok Hq Hr Hl Ho]. destruct (Ho _ eq_refl) as (b & i & -> & Hso & Ht & _).
  unfold free_find_step, find_segment. rewrite GetFlag_EncodeSegmentSlot, bool_decide_eq_true_2, (eo_mgr _ _ Hok) by done.
  cbn [negb]. rewrite GetSegmentId_EncodeSegmentSlot, GetSlotId_EncodeSegmentSlot by done. unfold GetSegment.
  destruct Ht as (seg & Hseg & _). rewrite Hseg. eexists. split; [done|].
  eapply sim_id; [done|done| |by left]. split; [done|]. split; [done|]. by exists seg.
Qed.

Lemma free_delete_sim n e sid slot s a :
  pre n e (FreeDelete sid slot s) a -> exists r, free_delete_step sid slot s e = Ret r /\ simulates n e (FreeDelete sid slot s) a r.
Proof.
  intros [Hok Hq Hr (-> & Hso & seg & Hseg) Ho]. unfold free_delete_step. rewrite Hseg.
  destruct (FreeSlot_spec c sid slot e (eo_mgr _ _ Hok) (eo_store _ _ Hok) Hso) as (s1 & e1 & E & Hsf & Hst & Hv & Hq1 & _).
  unfold FreeSlot in E. rewrite GetFlag_EncodeSegmentSlot, bool_decide_eq_true_2, (eo_mgr _ _ Hok) in E by done.
  cbn [negb] in E. rewrite GetSegmentId_EncodeSegmentSlot, GetSlotId_EncodeSegmentSlot in E by done. unfold GetSegment in E.
  rewrite Hseg in E. destruct (Delete slot seg (e_w e)) as [[d seg'] w'] eqn:Ed. injection E as <- <-.
  eexists. split; [done|]. destruct (ms_ok _ _ _ (sk_segs _ _ _ (eo_store _ _ Hok)) _ _ Hseg) as [Hsok _].
  apply Delete_spec in Ed as [_ Hd]; [|done|apply Hso].
  assert (append_cursor_ (seg_base seg) <= append_cursor_ (seg_base seg')) as Hle.
  { destruct (seg_map seg (e_w e) !! slot); [|by destruct Hd as (-> & _)].
    destruct Hd as [[_ Hd]|(_ & -> & _)]; [rewrite (de_cursor _ _ _ _ _ Hd)|]; lia. }
  set (e1 := set_store _ w' e) in *.
  destruct (moved_store e (Some (EncodeSegmentSlot sid slot)) e1 None) as [Hm Hcn]; try done.
  { intros b Hb. cbn. destruct (decide (b = sid)) as [->|Hne]; [rewrite lookup_insert_eq; by eexists|by rewrite lookup_insert_ne]. }
  { intros b i. by eapply taken_put. }
  { intros b i Hbi _. destruct Hv as [Hv|Hv]; rewrite Hv; [by left|]. unfold vset. case_decide as Hbs; [|by left].
    right. by destruct Hbs as [-> ->]. }
  exists None, (ADone s None). split; [exact Hm|]. split; [apply (ready_files n e); [done|done|by apply ready_less]|].
  split; [done|by left].
Qed.

Lemma read_find_sim n e enc a :
  pre n e (ReadFind enc) a ->
  exists r, find_segment enc (Finished kNotFound None) Reading e = Ret r /\ simulates n e (ReadFind enc) a r.
Proof.
  intros Hp. pose proof Hp as [Hok Hq Hr (k & v & ch & -> & Hs) Ho]. pose proof Hs as (b & i & -> & Hso & Ht & _).
  unfold find_segment. rewrite (eo_mgr _ _ Hok). cbn [negb].
  rewrite GetSegmentId_EncodeSegmentSlot, GetSlotId_EncodeSegmentSlot by done. unfold GetSegment.
  destruct Ht as (seg & Hseg & _). rewrite Hseg. eexists. split; [done|].
  eapply sim_id; [done|done| |by left]. exists k, v, ch. split; [done|]. split; [done|]. split; [done|]. by exists seg.
Qed.

Lemma read_sim n e sid slot a :
  pre n e (Reading sid slot) a -> exists r, read_step sid slot e = Ret r /\ simulates n e (Reading sid slot) a r.
Proof.
  intros [Hok Hq Hr (k & v & ch & -> & Hso & Hs & seg & Hseg) Ho]. pose proof (eo_store _ _ Hok) as Hst.
  unfold read_step. rewrite Hseg. destruct (Read slot true true seg (e_w e)) as [[[s kb] vb] w'] eqn:Er.
  eexists. split; [done|]. destruct (ms_ok _ _ _ (sk_segs _ _ _ Hst) _ _ Hseg) as [Hsok Hcf].
  apply Read_spec in Er as [[Hw Hqw] Hr1]; [|done|apply Hso].
  assert (v_same (e_view e) (mgr_view (e_mgr e) w')) as Hvs.
  { intros b i. unfold e_view, mgr_view. destruct (segments_ (e_mgr e) !! b) as [u|] eqn:Eu; [|done].
    cbn. by rewrite (seg_map_same u (e_w e) w'). }
  destruct (moved_store e None (set_store (e_mgr e) w' e) None) as [Hm Hcn]; try done.
  { destruct Hst as [? [Hso2 ?] ? ?]. split; [done| |done|done]. split; [|done]. intros b u Hu.
    destruct (Hso2 _ _ Hu). split; [|done]. by apply (seg_ok_same u (e_w e)). }
  { intros Hqq. split; [by apply Hqw|]. intros Hsy b u Hu. apply (seg_synced_frame u (e_w e)); [apply Hw|by eapply Hsy]. }
  { intros b i _ _. left. apply Hvs. }
  exists None, (ADone s vb). split; [exact Hm|]. split; [by apply ready_less in Hr|]. split; [done|]. right. cbn [fst snd].
  rewrite Hcn. destruct Hs as (b & i & E & Hso1 & (u & Hu & Hlt) & Hv & _). apply EncodeSegmentSlot_inj in E as [<- <-]; [|done|done].
  assert (e_view e sid slot = seg_map seg (e_w e) !! slot) as Ev by (unfold e_view, mgr_view; by rewrite Hseg).
  rewrite Ev in Hv. destruct Hv as [Hv|[-> Hv]]; rewrite Hv in Hr1.
  - destruct Hr1 as [Hr1 Hr2]. destruct (decide (s = kOk)) as [->|Hne].
    + destruct (Hr2 eq_refl) as [_ ->]. apply acts_get_hits.
    + destruct quiet eqn:Eq; [by destruct (Hne (Hr1 (Hq eq_refl)))|]. by apply acts_get_fails.
  - destruct Hr1 as (_ & -> & ->). simplify_eq. pose proof (si_cursor _ (so_inv _ _ Hsok)).
    rewrite (proj2 (Z.ltb_lt _ _)) by lia. apply acts_get_misses.
Qed.

(** Every step of a call is simulated; only [GetActiveSegment] may have no
    result. *)
Lemma step_sim n e p a :
  pre n e p a ->
  match pc_step iter p (mkShared e false) with
  | UB => exists k v again, p = Activate k v again /\ ~ all_free (e_mgr e)
  | Ret (p', sh') => checkpoint_mutex_ sh' = false /\ simulates n e p a (p', sh_env sh')
  end.
Proof using Type*.
  intros Hp. pose proof (pr_local _ _ _ _ Hp) as Hl.
  assert (forall (U : Prop) x, (exists r, x = Ret r /\ simulates n e p a r) ->
    match on_env (mkShared e false) x with UB => U | Ret (p', sh') => checkpoint_mutex_ sh' = false /\ simulates n e p a (p', sh_env sh') end)
    as Hret by (intros U x ([p' e'] & -> & Hs); done).
  destruct p as [x|k v again|k v seg again|k v seg|k v enc|ch|ch|ch|o|o|o|o|o|ch s|enc s|seg slot s|enc|seg slot|s out];
    cbn [local] in Hl; try (exact (False_ind _ Hl)); cbn [pc_step sh_env].
  - apply Hret. eexists. split; [reflexivity|]. destruct x as [| | |]; [by apply start_put_sim|by apply start_get_sim|by apply start_delete_sim|].
    destruct Hl as [_ []].
  - pose proof (activate_sim n e k v again a Hp) as Ha. destruct (activate_step iter k v again e) as [[p' e']|]; [done|].
    by exists k, v, again.
  - apply Hret. by apply insert_sim.
  - apply Hret. eexists. split; [reflexivity|]. by apply mark_sim.
  - apply Hret. eexists. split; [reflexivity|]. by apply emplace_sim.
  - apply Hret. eexists. split; [reflexivity|]. by apply log_test_sim.
  - apply Hret. by apply log_append_sim.
  - apply Hret. by apply log_bytes_sim.
  - apply Hret. by apply free_find_sim.
  - apply Hret. by apply free_delete_sim.
  - apply Hret. by apply read_find_sim.
  - apply Hret. by apply read_sim.
  - split; [done|]. eapply sim_id; [done|done|apply (pr_local _ _ _ _ Hp)|by left].
Qed.

(** ** All calls *)

Record pool_ok (n : nat) (P : Pool K H W) (as_ : list (acall K)) : Prop := {
  pk_env : env_ok c (po_env P);
  pk_mutex : checkpoint_mutex_ (po_shared P) = false;
  pk_quiet : quiet = true -> st_quiet (e_w (po_env P));
  pk_ready : ready n (po_env P);
  pk_length : length as_ = length (po_calls P);
  pk_local : forall i p a, po_calls P !! i = Some p -> as_ !! i = Some a -> local (po_env P) p a;
  pk_owns : forall i p x, po_calls P !! i = Some p -> owns p = Some x -> owned (po_env P) x;
  pk_once : forall i j p q x, po_calls P !! i = Some p -> po_calls P !! j = Some q ->
    owns p = Some x -> owns q = Some x -> i = j;
}.

(** The other calls after a step of the call [i]. *)
Lemma pool_moved n P as_ i p w e' p' a' :
  pool_ok (S n) P as_ -> po_calls P !! i = Some p -> moved (po_env P) (owns p) w e' (owns p') -> ready n e' -> local e' p' a' ->
  pool_ok n (mkPool (mkShared e' false) (<[i := p']> (po_calls P))) (<[i := a']> (touch w <$> as_)).
Proof.
  intros [Hok Hmu Hq Hr Hlen Hl Ho Hon] Hp Hm Hr' Hl'. pose proof (lookup_lt_Some _ _ _ Hp) as Hi.
  assert (forall j q, j <> i -> po_calls P !! j = Some q -> forall x, owns q = Some x -> owns p <> Some x) as Hother.
  { intros j q Hne Hj x Hx Hpx. by apply Hne, (Hon j i q p x). }
  split; cbn [po_env po_shared po_calls sh_env checkpoint_mutex_]; try done.
  - apply Hm.
  - intros Hqt. by apply (mv_quiet _ _ _ _ _ Hm), Hq.
  - by rewrite !length_insert, length_fmap.
  - intros j q b Hj Hb. apply list_lookup_insert_Some in Hj as [(<- & <- & _)|[Hne Hj]].
    + apply list_lookup_insert_Some in Hb as [(_ & <- & _)|[? _]]; done.
    + rewrite list_lookup_insert_ne, list_lookup_fmap in Hb by done. destruct (as_ !! j) as [b0|] eqn:Eb; [|done]. injection Hb as <-.
      apply (moved_local (po_env P) (owns p) w e' (owns p')); [done|done|intros x; by apply (Ho i)|by eapply Hother|by eapply Hl].
  - intros j q x Hj Hx. apply list_lookup_insert_Some in Hj as [(<- & <- & _)|[Hne Hj]]; [by apply (mv_own _ _ _ _ _ Hm)|].
    apply (moved_owned (po_env P) (owns p) w e' (owns p')); [done|by apply (Ho j q)|by eapply Hother].
  - assert (forall j q x, i <> j -> po_calls P !! j = Some q -> owns q = Some x -> owns p' <> Some x) as Hnew.
    { intros j q x Hji Hj Hx Hx'. destruct (mv_own _ _ _ _ _ Hm x Hx') as [_ [E|Hno]]; [by eapply Hother|].
      by apply Hno, (Ho j q). }
    intros j j' q q' x Hj Hj' Hx Hx'.
    apply list_lookup_insert_Some in Hj as [(<- & <- & _)|[Hne Hj]];
      apply list_lookup_insert_Some in Hj' as [(<- & <- & _)|[Hne' Hj']]; try done.
    + by destruct (Hnew j' q' x Hne' Hj' Hx').
    + by destruct (Hnew j q x Hne Hj Hx).
    + by apply (Hon j j' q q' x).
Qed.

(** A call begins. *)
Lemma pool_spawn n P as_ x :
  pool_ok (S n) P as_ -> call_ok x ->
  pool_ok n (mkPool (po_shared P) (po_calls P ++ [Start x])) (as_ ++ [APending x]).
Proof.
  intros [Hok Hmu Hq Hr Hlen Hl Ho Hon] Hx.
  assert (forall i p y, (po_calls P ++ [Start x]) !! i = Some p -> owns p = Some y -> po_calls P !! i = Some p) as Hold.
  { intros i p y [Hi|[_ Hi]]%lookup_app_Some; [done|]. by apply list_lookup_singleton_Some in Hi as [_ <-]. }
  split; cbn [po_env po_shared po_calls sh_env checkpoint_mutex_]; try done.
  - by apply ready_less.
  - rewrite !length_app. cbn. lia.
  - intros i p a [Hi|[Hge Hi]]%lookup_app_Some.
    + intros [Ha|[Hge _]]%lookup_app_Some; [by eapply Hl|]. apply lookup_lt_Some in Hi. lia.
    + intros [Ha|[_ Ha]]%lookup_app_Some; [apply lookup_lt_Some in Ha; lia|].
      apply list_lookup_singleton_Some in Hi as [_ <-]. by apply list_lookup_singleton_Some in Ha as [_ <-].
  - intros i p y Hi Hy. apply (Ho i p); [by eapply Hold|done].
  - intros i j p q y Hi Hj Hy Hy'. apply (Hon i j p q y); eauto.
Qed.

(** [GetActiveSegment] of the call that moves has no result: a segment that
    could be appended to has no free slot. *)
Definition turn_stuck (t : turn K) (P : Pool K H W) : Prop :=
  exists i k v again, t = Move i /\ po_calls P !! i = Some (Activate k v again) /\ ~ all_free (e_mgr (po_env P)).

Definition turn_ok (t : turn K) : Prop :=
  match t with Spawn x => call_ok x | Move _ => True | Compaction => False end.

#[local] Abbreviation vs := (SegmentBase.value_size c).

Lemma touch_None (as_ : list (acall K)) : touch None <$> as_ = as_.
Proof.
  induction as_ as [|a as_ IH]; [done|]. cbn. rewrite IH. f_equal. destruct a as [| k v ch|]; [done| |done].
  cbn. by rewrite orb_false_r.
Qed.

Lemma move_sim n i P as_ :
  pool_ok (S n) P as_ ->
  match turn_step iter (Move i) P with
  | UB => turn_stuck (Move i) P
  | Ret P' => exists as', pool_ok n P' as' /\ amove vs quiet i (e_contents (po_env P), as_) (e_contents (po_env P'), as')
  end.
Proof using Type*.
  intros HP. pose proof HP as [Hok Hmu Hq Hr Hlen Hl Ho Hon]. cbn [turn_step].
  destruct (po_calls P !! i) as [p|] eqn:Ep.
  2: { exists as_. split; [|constructor]. split; try done. by apply ready_less. }
  destruct (lookup_lt_is_Some_2 as_ i) as [a Ha]; [rewrite Hlen; by eapply lookup_lt_Some|].
  assert (pre n (po_env P) p a) as Hp by (split; try done; [by eapply Hl|intros x; by eapply Ho]).
  apply step_sim in Hp. replace (mkShared (po_env P) false) with (po_shared P) in Hp
    by (unfold po_env; destruct (po_shared P); cbn in *; congruence).
  destruct (pc_step iter p (po_shared P)) as [[p' sh']|]; cbn [mbind Outcome_bind].
  - destruct Hp as (Hmu' & w & a' & Hm & Hr' & Hl' & Hact). cbn [fst snd] in *.
    assert (sh' = mkShared (sh_env sh') false) as E by (destruct sh'; cbn in *; congruence).
    exists (<[i := a']> (touch w <$> as_)). split; [rewrite E; by eapply pool_moved|].
    change (po_env (mkPool sh' (<[i := p']> (po_calls P)))) with (sh_env sh').
    destruct Hact as [(-> & -> & ->)|Hact]; [|by eapply amove_acts].
    rewrite touch_None, list_insert_id by done. constructor.
  - destruct Hp as (k & v & again & -> & Hf). by exists i, k, v, again.
Qed.

Lemma turns_sim ts P as_ :
  Forall turn_ok ts -> pool_ok (length ts) P as_ ->
  match run_turns iter ts P with
  | UB => exists ts1 t ts2 P1, ts = ts1 ++ t :: ts2 /\ run_turns iter ts1 P = Ret P1 /\ turn_stuck t P1
  | Ret P' => exists as', pool_ok 0 P' as' /\ aturns vs quiet ts (e_contents (po_env P), as_) (e_contents (po_env P'), as')
  end.
Proof using Type*.
  intros Hts. revert P as_. induction Hts as [|t ts Ht Hts IH]; intros P as_ HP; cbn [run_turns length] in *.
  { exists as_. split; [done|constructor]. }
  assert (match turn_step iter t P with
    | UB => turn_stuck t P
    | Ret P1 => exists as1, pool_ok (length ts) P1 as1 /\ forall s', aturns vs quiet ts (e_contents (po_env P1), as1) s' ->
        aturns vs quiet (t :: ts) (e_contents (po_env P), as_) s'
    end) as Hone.
  { destruct t as [x|i|]; [| |done].
    - eexists. split; [by apply pool_spawn|]. intros s' Hs. by constructor.
    - pose proof (move_sim (length ts) i P as_ HP) as Hm. destruct (turn_step iter (Move i) P) as [P1|]; [|done].
      destruct Hm as (as1 & HP1 & Hm). exists as1. split; [done|]. intros s' Hs. by eapply aturns_move. }
  destruct (turn_step iter t P) as [P1|] eqn:E1; cbn [mbind Outcome_bind].
  - destruct Hone as (as1 & HP1 & Hstep). specialize (IH P1 as1 HP1). destruct (run_turns iter ts P1) as [P'|].
    + destruct IH as (as' & HP' & Ha). exists as'. split; [done|]. by apply Hstep.
    + destruct IH as (ts1 & t1 & ts2 & P2 & -> & E2 & Hst). exists (t :: ts1), t1, ts2, P2. split; [done|].
      split; [|done]. cbn [run_turns]. by rewrite E1.
  - exists [], t, ts, P. done.
Qed.

(** C8: Concurrent calls refine a map.  Let threads call [Put], [Get] and [Delete]
    on an index, and let their steps be taken in any order.  As long as the log
    does not fail and stays below the size at which it is checkpointed, the
    contents change as those of a map on which every [Put] and [Delete] acts in
    one moment between its start and its return, and every [Put] and [Delete] that
    returned gave the answer the map gave in that moment.  A [Get] that hits
    returns what the map had in one moment of its run.  A [Get] can miss a key
    that the map has all the time: it misses if the key was not there in that
    moment, but also if the key was overwritten or deleted before it read the
    slot.  There is no compaction among the turns.  The calls of the store may fail ([quiet]: if
    they do not, neither does any read, and a [Put] only for lack of space).
    The turns have a result unless a [Put] asks for a segment while one that
    could be appended to has no free slot left. *)
Theorem concurrent_index_refines (ts : list (turn K)) (e : Env K H W) :
  env_ok c e -> (quiet = true -> st_quiet (e_w e)) -> ready (length ts) e -> Forall turn_ok ts ->
  match run_turns iter ts (mkPool (mkShared e false) []) with
  | UB => exists ts1 t ts2 P1, ts = ts1 ++ t :: ts2 /\
      run_turns iter ts1 (mkPool (mkShared e false) []) = Ret P1 /\ turn_stuck t P1
  | Ret P => env_ok c (po_env P) /\
      exists as_, aturns vs quiet ts (e_contents e, []) (e_contents (po_env P), as_) /\
        length as_ = length (po_calls P) /\
        forall i s out, po_calls P !! i = Some (Finished s out) -> as_ !! i = Some (ADone s out)
  end.
Proof using Type*.
  intros Hok Hq Hr Hts. pose proof (turns_sim ts (mkPool (mkShared e false) []) [] Hts) as Hs.
  destruct (run_turns iter ts _) as [P|]; [|apply Hs; by split].
  destruct Hs as (as_ & HP & Ha); [by split|]. split; [apply HP|]. exists as_. split; [done|]. split; [apply HP|].
  intros i s out Hi. destruct (lookup_lt_is_Some_2 as_ i) as [a Hai].
  { rewrite (pk_length _ _ _ HP). by eapply lookup_lt_Some. }
  rewrite Hai. f_equal. apply (pk_local _ _ _ HP i _ a Hi Hai).
Qed.

End refinement.
