(* ===== verification/ThreadRaces.v ===== *)
(** * Races of concurrent calls on an index

    Witnesses of the theorems on concurrent calls, and orders of the steps of
    [IndexThreads] in which the index loses an acknowledged write, returns the
    value of another key, or uses a log that was closed. *)

From S2P Require Import Prelude Common Sys Key Offset Wal SegmentBase SegmentOps SegmentFile.
From S2P Require Import SegmentManager ManagerState ManagerTheorems Index IndexData IndexCompaction IndexRecovery IndexTheorems IndexExamples.
From S2P Require Import IndexLogging IndexThreads ThreadTheorems ThreadRefinement.

(** [n] steps of the call [i]; a call that runs to its end. *)
Definition moves (i n : nat) : list (turn Key64) := replicate n (Move i).
Definition whole (i : nat) (x : call Key64) : list (turn Key64) := Spawn x :: moves i 18.

Definition put (k : Key64) (v : Z) : call Key64 := CPut k (Some [v]) 1.
Definition get (k : Key64) : call Key64 := CGet k true 1.

Definition race (ts : list (turn Key64)) (e : Ex) : Outcome (Pool Key64 string FS) :=
  run_turns plain_iter ts (mkPool (mkShared e false) []).

(** What the calls returned; the state they leave. *)
Definition returns (r : Outcome (Pool Key64 string FS)) : option (list (option (Status * option (list Z)))) :=
  match r with
  | UB => None
  | Ret P => Some ((fun p => match p with Finished s out => Some (s, out) | _ => None end) <$> po_calls P)
  end.
Definition left_by (e : Ex) (r : Outcome (Pool Key64 string FS)) : Ex := match r with UB => e | Ret P => po_env P end.

Definition gave (s : Status) (out : option (list Z)) : option (Status * option (list Z)) := Some (s, out).

(** Two [Put]s of one key.  The first puts its location into the map, the
    second replaces it, logs that and frees the slot; then the first logs its
    own.  Both return [kOk] and the key has the second value; the log has the
    records the other way around, and after a restart the key is gone. *)
Definition log_order : list (turn Key64) :=
  Spawn (put 5 7) :: moves 0 4 ++ whole 1 (put 5 8) ++ moves 0 14 ++ whole 2 (get 5).

Example concurrent_Puts_lose_key :
  let e := ex_env (ex_opts 0) in
  let e' := left_by e (race log_order e) in
  returns (race log_order e) = Some [gave kOk None; gave kOk None; gave kOk (Some [8])] /\
  (ex_restart e').1 = kOk /\ answers [OpGet 5] (ex_restart e').2 = [RValue kNotFound None].
Proof. vm_compute. repeat split. Qed.

(** A [Get] of a key that is there all the time misses: between its look at the
    map and its read of the slot a [Put] overwrites the key. *)
Definition overwritten : list (turn Key64) :=
  whole 0 (put 5 7) ++ Spawn (get 5) :: moves 1 1 ++ whole 2 (put 5 8) ++ moves 1 2.

Example Get_misses_overwritten_key :
  returns (race overwritten (ex_env (ex_opts 0))) = Some [gave kOk None; gave kNotFound None; gave kOk None].
Proof. vm_compute. reflexivity. Qed.

(** A [Put] between the snapshot and the rotation of a checkpoint: it is
    logged and returns [kOk], then the log is truncated.  After a restart the
    key is gone. *)
Definition put_in_checkpoint : list (turn Key64) :=
  Spawn CCheckpoint :: moves 0 3 ++ whole 1 (put 5 7) ++ moves 0 15.

Example Put_during_Checkpoint_is_lost :
  let e := ex_env (ex_opts 0) in
  let e' := left_by e (race put_in_checkpoint e) in
  returns (race put_in_checkpoint e) = Some [gave kOk None; gave kOk None] /\
  answers [OpGet 5] e' = [RValue kOk (Some [7])] /\
  (ex_restart e').1 = kOk /\ answers [OpGet 5] (ex_restart e').2 = [RValue kNotFound None].
Proof. vm_compute. repeat split. Qed.

(** A [Put] that saw the log open appends to it after a checkpoint closed it:
    the pointer is null then. *)
Definition append_after_close : list (turn Key64) :=
  Spawn (put 5 7) :: moves 0 5 ++ Spawn CCheckpoint :: moves 1 5 ++ moves 0 1.

Example Put_uses_closed_log : returns (race append_after_close (ex_env (ex_opts 0))) = None.
Proof. vm_compute. reflexivity. Qed.

(** The log fails for a [Put] after another [Put] of the same key returned:
    the first takes the key out of the map, and with it the value of the
    second, which had been acknowledged. *)
Definition undone : list (turn Key64) :=
  Spawn (put 5 7) :: moves 0 4 ++ whole 1 (put 5 8) ++ moves 0 14 ++ whole 2 (get 5).

Example failed_Put_undoes_other_Put :
  returns (race undone (fails [Short 32; Short 0; Eio] [] (ex_env (ex_opts 0)))) =
    Some [gave kIOError None; gave kOk None; gave kNotFound None].
Proof. vm_compute. reflexivity. Qed.

(** Keys 1 and 3 are in the slots 0 and 2 of segment 2, which is full. *)
Definition full_env : Ex := after ex_full_ops (ex_env (ex_opts 0)).

(** A round of compaction between the steps of a [Get]: the slot it found was
    moved, its segment emptied and filled again.  The [Get] of key 3 returns the
    value of key 7. *)
Definition read_reused : list (turn Key64) :=
  Spawn (get 3) :: moves 0 1 ++ [Compaction] ++
  whole 1 (put 5 15) ++ whole 2 (put 6 16) ++ whole 3 (put 7 17) ++ moves 0 2.

Example Get_returns_other_key :
  returns (race read_reused full_env) = Some [gave kOk (Some [17]); gave kOk None; gave kOk None; gave kOk None].
Proof. vm_compute. reflexivity. Qed.

(** A round of compaction before a [Put] frees the slot of the old value: the
    segment was emptied and filled again, and the [Put] of key 3 frees the slot
    of key 7. *)
Definition free_reused : list (turn Key64) :=
  whole 0 (CDelete 1) ++ Spawn (put 3 20) :: moves 1 7 ++ [Compaction] ++
  whole 2 (put 5 15) ++ whole 3 (put 6 16) ++ whole 4 (put 7 17) ++ moves 1 2 ++ whole 5 (get 7).

Example Put_frees_other_key :
  returns (race free_reused full_env) =
    Some [gave kOk None; gave kOk None; gave kOk None; gave kOk None; gave kOk None; gave kNotFound None].
Proof. vm_compute. reflexivity. Qed.

(** ** Witnesses *)

(** Two [Put]s and a [Get] of one key and a [Delete] of another, step by step
    in turn, on a store with one interrupted call. *)
Definition mixed : list (turn Key64) :=
  [Spawn (put 5 7); Spawn (get 5); Move 0; Spawn (CDelete 6); Move 0; Move 1; Move 2; Spawn (put 5 8); Move 3; Move 0;
   Move 3; Move 0; Move 3; Move 3; Move 0; Spawn (get 5); Move 4; Move 0; Move 3; Move 4; Move 0; Move 3; Move 4; Move 3; Move 3; Move 3].

Definition mixed_env : Ex := fails [Eintr; Short 3] [Short 2; Eintr] (ex_env (ex_opts 0)).


Lemma concurrent_index_refines_witness :
  returns (race mixed mixed_env) = Some [gave kOk None; gave kNotFound None; gave kNotFound None; gave kOk None; gave kOk (Some [8])] /\
  match race mixed mixed_env with
  | UB => exists ts1 t ts2 P1, mixed = ts1 ++ t :: ts2 /\ race ts1 mixed_env = Ret P1 /\ turn_stuck t P1
  | Ret P => env_ok ex_config (po_env P) /\
      exists as_, aturns 1 true mixed (e_contents mixed_env, []) (e_contents (po_env P), as_) /\
        length as_ = length (po_calls P) /\
        forall i s out, po_calls P !! i = Some (Finished s out) -> as_ !! i = Some (ADone s out)
  end.
Proof.
  split; [vm_compute; reflexivity|].
  pose proof (concurrent_index_refines (K := Key64) plain_iter plain_iter_ok ex_config true mixed mixed_env (fails_ok _ _ 0)) as Hr.
  apply Hr.
  - intros _. change (no_eio (fs_script (e_w mixed_env))). apply (bool_decide_unpack _). vm_compute. exact I.
  - unfold ready. replace (wal_ (e_ix mixed_env)) with (Some (mkWriter (Some "wal"%string) "wal" 0)) by (vm_compute; reflexivity).
    split; [reflexivity|]. split; [apply (bool_decide_unpack _); vm_compute; exact I|].
    split; [apply (bool_decide_unpack _); vm_compute; exact I|]. split; [reflexivity|]. left. vm_compute. discriminate.
  - repeat constructor; vm_compute; (reflexivity || discriminate).
Defined.
