(* ===== verification/BackendDisk.v ===== *)
(** * The files of the index backend

    What the files of the segments and of the manager's state hold, what opening
    the segments reads from them and what closing them leaves.  The scripts have
    no errors here; calls may be interrupted, and transfer less than asked. *)

From stdpp Require Import pretty.
From S2P Require Import Prelude Common Sys Key Wal SegmentBase SegmentOps SegmentFile SegmentManager ManagerState.
From S2P Require Import ManagerTheorems Index IndexData IndexRecovery IndexTheorems Lfuda AgeCount LfudaTheorems.
From S2P Require Import Backend IndexBackend IndexBackendTheorems BackendFiles.
From Stdlib Require Import SpecFloat.

(** ** Paths *)

Lemma segment_path_inj o i j : segment_path o i = segment_path o j -> i = j.
Proof.
  unfold segment_path. intros E. do 2 apply (inj (String.append _)) in E. apply str_app_inj_r in E.
  by apply (inj pretty) in E.
Qed.

Section paths.
Context (o : BOptions) (Hroot : root_dir o <> EmptyString).

Lemma snapshot_path_cases :
  SnapshotPath (root_dir o) = root_dir o +:+ "index.snapshot" \/ SnapshotPath (root_dir o) = root_dir o +:+ "/index.snapshot".
Proof using Hroot.
  unfold SnapshotPath. rewrite bool_decide_eq_false_2 by done. destruct (ends_in_slash _); auto.
Qed.

Lemma idx_paths_ok : paths_ok (idx_opts o).
Proof using Hroot.
  unfold paths_ok, idx_opts, SnapshotTmpPath. cbn [wal_path snapshot_dir]. split; [by destruct (root_dir o)|].
  destruct snapshot_path_cases as [-> | ->]; rewrite ?str_app_assoc; split; intros E; by apply (inj (String.append _)) in E.
Qed.

(** The state of the manager is in none of the files of the index. *)
Lemma state_not_index : ~ index_file (idx_opts o) (state_path o) /\ ~ index_file (idx_opts o) (state_path o +:+ ".tmp").
Proof using Hroot.
  unfold index_file, state_path, idx_opts, SnapshotTmpPath. cbn [wal_path snapshot_dir]. rewrite str_app_assoc.
  destruct snapshot_path_cases as [-> | ->]; rewrite ?str_app_assoc; split;
    (intros [E|[E|E]]; by apply (inj (String.append _)) in E).
Qed.

End paths.

(** The files of a backend: those of its index, the state of its manager and
    its segments. *)
Definition own (o : BOptions) (q : string) : Prop :=
  index_file (idx_opts o) q \/ q = state_path o \/ q = state_path o +:+ ".tmp" \/ exists a, q = segment_path o a.

Lemma own_segment o a : own o (segment_path o a).
Proof. right; right; right. by exists a. Qed.

(** ** The state of the manager *)

(** What [LoadState] needs of the file. *)
Definition state_ok (path : string) (fs : FS) : Prop :=
  forall f full app idle, fs_files fs !! path = Some f -> parse_state (f_data f) = Some (full, app, idle) -> NoDup full.

Lemma state_ok_frame path fs fs' : fs_files fs' !! path = fs_files fs !! path -> state_ok path fs -> state_ok path fs'.
Proof. intros E Hs f full app idle. rewrite E. apply Hs. Qed.

Lemma sys_call_quiets fs b fs' : sys_call fs = (b, fs') -> no_eio (fs_script fs) -> no_eio (fs_script fs').
Proof. intros E Hn. by apply (sys_call_no_eio _ _ _ Hn E). Qed.

Lemma sys_unlink_quiets p fs : no_eio (fs_script fs) -> no_eio (fs_script (sys_unlink p fs)).
Proof.
  intros Hn. unfold sys_unlink. destruct (sys_call fs) as [b fs1] eqn:E. apply sys_call_quiets in E; [|done]. by destruct b.
Qed.

Lemma sys_rename_quiets p q fs ok fs' : sys_rename p q fs = (ok, fs') -> no_eio (fs_script fs) -> no_eio (fs_script fs').
Proof.
  unfold sys_rename. destruct (sys_call fs) as [b fs1] eqn:E. intros E' Hn. apply sys_call_quiets in E; [|done].
  repeat case_match; by simplify_eq.
Qed.

Lemma sys_write_quiets p buf fs n fs' : sys_write p buf fs = (n, fs') -> no_eio (fs_script fs) -> no_eio (fs_script fs').
Proof.
  unfold sys_write. intros E Hn. destruct (fs_files fs !! p); [|by simplify_eq].
  destruct (fs_script fs) as [|[| |k] sc]; simplify_eq/=; try done; by apply Forall_cons in Hn as [_ ?].
Qed.

Lemma read_upto_quiets sc count pos d ok got sc' : read_upto sc count pos d = (ok, got, sc') -> no_eio sc -> no_eio sc'.
Proof.
  revert count pos ok got. induction sc as [|r sc IH]; intros count pos ok got E Hn.
  { destruct count; simplify_eq/=; done. }
  pose proof Hn as [_ Hn']%Forall_cons. destruct count; cbn [read_upto] in E; [by simplify_eq|].
  destruct r; [by eapply IH|by simplify_eq|]. case_match; [by simplify_eq|].
  destruct (read_upto sc _ _ d) as [[ok1 got1] sc1] eqn:E1. simplify_eq. by eapply IH.
Qed.

Section state.
Context {H : Type} (iter : nat -> gset Z -> list Z).
Hypothesis iter_ok : forall n X, iter n X ≡ₚ elements X.
Implicit Types m : SegmentManager H.

Lemma SaveState_files path m fs st m' fs' :
  SaveState iter path m fs = (st, m', fs') ->
  only (fun q => q = path \/ q = path +:+ ".tmp") fs fs' /\ (no_eio (fs_script fs) -> no_eio (fs_script fs')).
Proof.
  set (P := fun q => q = path \/ q = path +:+ ".tmp"). unfold SaveState. set (tmp := path +:+ ".tmp").
  assert (P path) as Pp by (by left). assert (P tmp) as Pt by (by right).
  destruct (sys_open tmp true true fs) as [ok fs1] eqn:E1.
  pose proof (only_open P _ _ _ _ _ _ Pt E1) as O1. pose proof (sys_open_no_eio tmp true true fs ok fs1) as Q1.
  destruct ok; cbn [negb]; [|intros [= <- <- <-]; split; [done|]; intros Hn; by apply Q1].
  apply sys_open_trunc in E1 as Hf. destruct Hf as [y Hf].
  destruct (sys_write tmp _ fs1) as [n fs2] eqn:E2. pose proof (sys_write_quiets _ _ _ _ _ E2) as Q2.
  apply (sys_write_spec _ _ _ _ _ _ Hf) in E2 as [O2 _].
  assert (only P fs fs2) as O12 by (etrans; [exact O1|]; intros q Hq; apply O2; intros <-; by apply Hq).
  assert (no_eio (fs_script fs) -> no_eio (fs_script fs2)) as Q12 by (intros Hn; apply Q2; by apply Q1).
  case_match.
  { intros [= <- <- <-]. split; [etrans; [exact O12|by apply only_unlink]|]. intros Hn. by apply sys_unlink_quiets, Q12. }
  destruct (sys_fsync tmp fs2) as [ok fs3] eqn:E3. pose proof (only_fsync P _ _ _ _ Pt E3) as O3.
  pose proof (sys_fsync_no_eio tmp fs2 ok fs3) as Q3.
  assert (only P fs fs3) as O13 by (by etrans).
  assert (no_eio (fs_script fs) -> no_eio (fs_script fs3)) as Q13 by (intros Hn; apply Q3; [by apply Q12|done]).
  destruct ok; cbn [negb].
  2: { intros [= <- <- <-]. split; [etrans; [exact O13|by apply only_unlink]|]. intros Hn. by apply sys_unlink_quiets, Q13. }
  destruct (sys_rename tmp path fs3) as [ok fs4] eqn:E4. pose proof (only_rename P _ _ _ _ _ Pt Pp E4) as O4.
  pose proof (sys_rename_quiets _ _ _ _ _ E4) as Q4. assert (only P fs fs4) as O14 by (by etrans).
  destruct ok; cbn [negb]; intros [= <- <- <-].
  - split; [done|]. intros Hn. by apply Q4, Q13.
  - split; [etrans; [exact O14|by apply only_unlink]|]. intros Hn. by apply sys_unlink_quiets, Q4, Q13.
Qed.

Lemma LoadState_files path m fs st m' fs' :
  LoadState iter path m fs = (st, m', fs') ->
  fs_files fs' = fs_files fs /\ (no_eio (fs_script fs) -> no_eio (fs_script fs')).
Proof.
  unfold LoadState, sys_stat. destruct (sys_call fs) as [b1 fs1] eqn:E1. pose proof (sys_call_quiets _ _ _ E1) as Q1.
  apply sys_call_files in E1. case_match; [intros [= <- <- <-]; tauto|]. case_match; [intros [= <- <- <-]; tauto|].
  unfold sys_open. destruct (sys_call fs1) as [b2 fs2] eqn:E2. pose proof (sys_call_quiets _ _ _ E2) as Q2.
  apply sys_call_files in E2. destruct b2; cbn [negb]; [|intros [= <- <- <-]; split; [congruence|tauto]].
  destruct (fs_files fs2 !! path) as [f|]; cbn [negb]; [|intros [= <- <- <-]; split; [congruence|tauto]].
  destruct (read_upto _ _ _ _) as [[ok got] sc] eqn:E3. pose proof (read_upto_quiets _ _ _ _ _ _ _ E3) as Q3.
  repeat case_match; intros [= <- <- <-]; (split; [cbn; congruence|cbn; tauto]).
Qed.

Lemma SaveState_state_ok path m fs st m' fs' :
  mgr_part m -> (forall id s, segments_ m !! id = Some s -> 0 <= id < 2 ^ 20) ->
  SaveState iter path m fs = (st, m', fs') -> state_ok path fs -> state_ok path fs'.
Proof using iter_ok.
  intros Hp Hids E Hs. apply SaveState_spec in E as (_ & [[_ Ef]|[_ Ef]]); [|by apply (state_ok_frame path fs)].
  assert (forall id, is_Some (segments_ m !! id) -> in_u 32 id) as Hids'.
  { intros id [s Hsg]. pose proof (Hids _ _ Hsg). unfold in_u. lia. }
  assert (Z.of_nat (size (segments_ m)) < 2 ^ 32) as Hsz.
  { rewrite <- size_dom. assert (dom (segments_ m) ⊆ list_to_set (seqZ 0 (2 ^ 20))) as Hsub.
    { intros id [s Hsg]%elem_of_dom. apply elem_of_list_to_set, elem_of_seqZ. pose proof (Hids _ _ Hsg). lia. }
    apply subseteq_size in Hsub. rewrite size_list_to_set in Hsub by apply NoDup_seqZ.
    rewrite length_seqZ in Hsub. lia. }
  intros f full app idle Hf Hpar. rewrite Ef in Hf. injection Hf as <-. cbn [f_data] in Hpar. unfold saved_bytes in Hpar.
  set (a := iter (clock_ m) (appending_set_ m)) in *. set (i := iter (S (clock_ m)) (idle_set_ m)) in *.
  assert (a ≡ₚ elements (appending_set_ m)) as Ea by apply iter_ok.
  assert (i ≡ₚ elements (idle_set_ m)) as Ei by apply iter_ok.
  destruct (class_ids_ok m (full_order_ m) Hp Hids' Hsz) as (Of & Lf & _);
    [intros id Hid%mem_l_true; right; right; rewrite <- mem_true;
     pose proof (mp_at _ Hp id) as Hat; rewrite Hid in Hat; clear Hid; bits|apply Hp|].
  destruct (class_ids_ok m a Hp Hids' Hsz) as (Oa & La & _);
    [intros id; rewrite Ea, elem_of_elements; auto|rewrite Ea; apply NoDup_elements|].
  destruct (class_ids_ok m i Hp Hids' Hsz) as (Oi & Li & _);
    [intros id; rewrite Ei, elem_of_elements; auto|rewrite Ei; apply NoDup_elements|].
  rewrite <- (app_nil_r (state_bytes _ _ _)), parse_state_bytes in Hpar by done. injection Hpar as <- <- <-. apply Hp.
Qed.

End state.

(** ** Segment files *)

(** The slots a segment file holds; a segment that has no file yet is empty. *)
Definition disk_seg (c : SegmentConfig) (id : Z) (d : option (list Z)) : gmap Z (list Z * list Z) :=
  match d with Some d => slot_map (loaded_base id c d) d | None => ∅ end.

Definition disk_view (o : BOptions) (w : FS) : stored := fun a i =>
  if decide (0 <= a < segment_count o) then disk_seg (seg_cfg o) a (file_data (segment_path o a) w) !! i else None.

Definition seg_file_ok (c : SegmentConfig) (d : option (list Z)) : Prop :=
  match d with
  | None => True
  | Some d => bytes_ok (disk_bitmap c d) /\ segment_size c <= Z.of_nat (length d)
  end.

Lemma SegmentFile_Open_any id c p w :
  config_ok c -> no_eio (fs_script w) -> seg_file_ok c (file_data p w) ->
  exists s w', SegmentFile_Open (SegmentFile_new id c p) w = (kOk, s, w') /\ no_eio (fs_script w') /\
    seg_ok s w' /\ seg_synced s w' /\ config_ (seg_base s) = c /\ segment_id_ (seg_base s) = id /\ seg_handle s = p /\
    seg_map s w' = disk_seg c id (file_data p w) /\ (forall p', p' <> p -> file_data p' w' = file_data p' w).
Proof.
  intros Hc Hn Hf. destruct (SegmentFile_Open (SegmentFile_new id c p) w) as [[st s] w'] eqn:E.
  exists s, w'. unfold file_data in Hf. destruct (fs_files w !! p) as [f|] eqn:Ef.
  - destruct Hf as [Hb Hl]. apply (SegmentFile_Open_existing _ _ _ _ f) in E as (-> & -> & Efs & Hn' & Hok & Hsy); try done.
    assert (forall p', file_data p' w' = file_data p' w) as Hd by (intros; unfold file_data; by rewrite Efs).
    pose proof (loaded_layout id c _ Hc Hb Hl) as Hlay. cbv zeta in Hlay.
    destruct (RebuildCounters_inv _ Hlay) as (_ & Hsame & _).
    split; [done|]. split; [done|]. split; [done|]. split; [done|]. split; [exact (proj1 (proj2 Hsame))|].
    split; [exact (proj1 Hsame)|]. split; [done|]. split; [|done].
    assert (file_data p w = Some (f_data f)) as Ep by (unfold file_data; by rewrite Ef). rewrite Ep.
    apply seg_map_data. cbn. by rewrite Hd.
  - apply SegmentFile_Open_new in E as (-> & Hok & Em & Hsy & Hn' & Eb & Ep & Hfr); try done.
    split; [done|]. split; [done|]. split; [done|]. split; [done|]. rewrite Eb. do 3 (split; [done|]). split; [|done].
    unfold file_data. by rewrite Ef.
Qed.

Section segments.
Context (iter : nat -> gset Z -> list Z).
Hypothesis iter_ok : forall n X, iter n X ≡ₚ elements X.
Context (o : BOptions).
Implicit Types (m : SegmentManager string) (w : FS).

(** The registered segments are the ones with numbers in the range, each in its
    file. *)
Record opened (i : Z) m w : Prop := {
  op_part : mgr_part m;
  op_segs : mgr_segs (seg_cfg o) m w;
  op_path : forall a s, segments_ m !! a = Some s -> 0 <= a < i /\ seg_handle s = segment_path o a;
  op_all : forall a, 0 <= a < i -> is_Some (segments_ m !! a);
}.

Lemma opened_add i m w s w' :
  0 <= i -> opened i m w -> seg_ok s w' -> config_ (seg_base s) = seg_cfg o -> segment_id_ (seg_base s) = i ->
  seg_handle s = segment_path o i -> (forall p, p <> segment_path o i -> file_data p w' = file_data p w) ->
  exists m', AddSegment (Some s) m = (kOk, m') /\ segments_ m' = <[i := s]> (segments_ m) /\ opened (i + 1) m' w'.
Proof using iter_ok.
  intros Hi [Hp Hs Hpath Hall] Hok Hc Hid Hh Hfr.
  assert (segments_ m !! i = None) as Hnone.
  { destruct (segments_ m !! i) as [t|] eqn:E; [|done]. apply Hpath in E as [? _]. lia. }
  assert (forall a t, segments_ m !! a = Some t -> file_data (seg_handle t) w' = file_data (seg_handle t) w) as Hsame.
  { intros a t Ht. apply Hfr. apply Hpath in Ht as [? ->]. intros E%segment_path_inj. lia. }
  assert (mgr_segs (seg_cfg o) m w') as Hs'.
  { destruct Hs as [H1 H2]. split; [|done]. intros a t Ht. destruct (H1 a t Ht) as [Ht' ?]. split; [|done].
    eapply seg_ok_frame; [|done]. by eapply Hsame. }
  destruct (AddSegment (Some s) m) as [st m'] eqn:E. pose proof E as E'. unfold AddSegment in E'.
  change (GetSegmentId s) with (segment_id_ (seg_base s)) in E'. rewrite Hid, Hnone in E'.
  rewrite bool_decide_eq_false_2 in E' by (by intros [? ?]). injection E' as <- Em.
  assert (segments_ m' = <[i := s]> (segments_ m)) as Esegs by (rewrite <- Em; by destruct (GetState _)).
  exists m'. split; [done|]. split; [done|].
  destruct (mgr_step_inv iter iter_ok (seg_cfg o) m w' m' w' Hp Hs') as [Hp' Hs''].
  { apply (step_add iter (seg_cfg o) s m kOk); [done|done| |done]. intros a t Ht. cbn. rewrite Hh.
    apply Hpath in Ht as [? ->]. intros ?%segment_path_inj. lia. }
  split; [done|done| |].
  - rewrite Esegs. intros a t [[<- <-]|[_ Ht]]%lookup_insert_Some; [split; [lia|done]|].
    apply Hpath in Ht as [? ?]. split; [lia|done].
  - rewrite Esegs. intros a Ha. destruct (decide (a = i)) as [->|]; [by rewrite lookup_insert_eq|].
    rewrite lookup_insert_ne by done. apply Hall. lia.
Qed.

Lemma open_segments_spec n i m w :
  config_ok (seg_cfg o) -> 0 <= i -> no_eio (fs_script w) -> opened i m w ->
  (forall a, i <= a < i + Z.of_nat n -> seg_file_ok (seg_cfg o) (file_data (segment_path o a) w)) ->
  exists m' w', open_segments o n i m w = (BkOk, m', w') /\ no_eio (fs_script w') /\ opened (i + Z.of_nat n) m' w' /\
    (forall a j, mgr_view m' w' a j =
       if decide (i <= a < i + Z.of_nat n) then disk_seg (seg_cfg o) a (file_data (segment_path o a) w) !! j
       else mgr_view m w a j) /\ (synced m w -> synced m' w').
Proof using iter_ok.
  intros Hc. revert i m w. induction n as [|n IH]; intros i m w Hi Hn Ho Hf; cbn [open_segments].
  { exists m, w. split; [done|]. split; [done|]. split; [by rewrite Z.add_0_r|]. split; [|done]. intros a j.
    by rewrite decide_False by lia. }
  destruct (SegmentFile_Open_any i (seg_cfg o) (segment_path o i) w Hc Hn) as (s & w1 & -> & Hn1 & Hok & Hsy & Ecfg & Eid & Eh & Em & Hfr).
  { apply Hf. lia. }
  cbn [status_is_ok negb]. destruct (opened_add i m w s w1) as (m1 & -> & Es & Ho1); try done.
  cbn [status_is_ok negb]. destruct (IH (i + 1) m1 w1) as (m' & w' & -> & Hn' & Ho' & Hv & Hsy'); [lia|done|done| |].
  { intros a Ha. rewrite Hfr by (intros ?%segment_path_inj; lia). apply Hf. lia. }
  exists m', w'. split; [done|]. split; [done|].
  split; [by replace (i + Z.of_nat (S n)) with (i + 1 + Z.of_nat n) by lia|].
  split.
  2: { intros Hs. apply Hsy'. rewrite <- Eh in Hfr. intros a t. rewrite Es.
       intros [[<- <-]|[Hne Ht]]%lookup_insert_Some; [done|]. apply (seg_synced_frame t w); [|by eapply Hs].
       apply Hfr. rewrite Eh. apply (op_path _ _ _ Ho) in Ht as [_ ->]. by intros ?%segment_path_inj. }
  intros a j. rewrite Hv. destruct (decide (a = i)) as [->|Hne].
  - rewrite decide_False, decide_True by lia. unfold mgr_view. rewrite Es, lookup_insert_eq. cbn. by rewrite Em.
  - destruct (decide (i + 1 <= a < i + 1 + Z.of_nat n)).
    + rewrite decide_True by lia. by rewrite Hfr by (intros ?%segment_path_inj; lia).
    + rewrite decide_False by lia. unfold mgr_view. rewrite Es, lookup_insert_ne by done.
      destruct (segments_ m !! a) as [t|] eqn:Et; [|done]. cbn. f_equal. apply seg_map_frame. apply Hfr.
      apply (op_path _ _ _ Ho) in Et as [_ ->]. by intros ?%segment_path_inj.
Qed.

Lemma PRead_files p n off fs s got fs' : PRead p n off fs = (s, got, fs') -> fs_files fs' = fs_files fs.
Proof.
  unfold PRead, fs_pread. destruct (fs_files fs !! p); [|by intros [= <- <- <-]].
  destruct (pread_loop _ _ _ _) as [[? ?] ?]. by intros [= <- <- <-].
Qed.

Lemma only_truncate (P : string -> Prop) p n fs ok fs' : P p -> sys_truncate p n fs = (ok, fs') -> only P fs fs'.
Proof.
  intros Hp. unfold sys_truncate. destruct (sys_call fs) as [b fs1] eqn:E1. apply (only_call P) in E1.
  destruct (fs_files fs1 !! p); [destruct b|]; intros [= <- <-]; try done. etrans; [done|]. by apply only_insert.
Qed.

Lemma SegmentFile_Open_only (P : string -> Prop) (s : SegmentFile) w st s' w' :
  P (seg_handle s) -> SegmentFile_Open s w = (st, s', w') -> only P w w'.
Proof.
  intros Hp. unfold SegmentFile_Open. destruct (seg_open s); [by intros [= <- <- <-]|]. unfold sys_stat.
  destruct (sys_call w) as [b w1] eqn:E1. apply (only_call P) in E1.
  set (there := _ && _). destruct (sys_open _ _ _ w1) as [ok w2] eqn:E2. apply (only_open P) in E2; [|done].
  assert (only P w w2) as O2 by (by etrans). destruct (negb ok); [by intros [= <- <- <-]|]. destruct (negb there).
  - destruct (sys_truncate _ _ w2) as [ok3 w3] eqn:E3. apply (only_truncate P) in E3; [|done].
    assert (only P w w3) as O3 by (by etrans). destruct (negb ok3); [by intros [= <- <- <-]|].
    destruct (FlushBitmap _ w3) as [st4 w4] eqn:E4. unfold FlushBitmap in E4. apply (only_pwrite P) in E4; [|done].
    assert (only P w w4) as O4 by (by etrans). destruct (negb _); by intros [= <- <- <-].
  - unfold LoadBitmap. destruct (st_read _ _ _ w2) as [[st3 got] w3] eqn:E3. apply PRead_files in E3.
    assert (only P w w3) as O3 by (etrans; [done|by apply only_files]). destruct (negb _); by intros [= <- <- <-].
Qed.

Lemma open_segments_only n i m w c m' w' : open_segments o n i m w = (c, m', w') -> only (own o) w w'.
Proof.
  revert i m w. induction n as [|n IH]; intros i m w; cbn [open_segments]; [by intros [= <- <- <-]|].
  destruct (SegmentFile_Open _ w) as [[s seg] w1] eqn:E1. apply (SegmentFile_Open_only (own o)) in E1; [|apply own_segment].
  destruct (negb _); [by intros [= <- <- <-]|]. destruct (AddSegment _ m) as [s2 m2]. destruct (negb _); [by intros [= <- <- <-]|].
  intros E%IH. by etrans.
Qed.

End segments.

(** ** Closing the segments *)

Lemma SegmentFile_Close_files (s : SegmentFile) w st s1 w1 :
  SegmentFile_Close s w = (st, s1, w1) ->
  (forall p, p <> seg_handle s -> fs_files w1 !! p = fs_files w !! p) /\ (no_eio (fs_script w) -> no_eio (fs_script w1)).
Proof.
  unfold SegmentFile_Close. case_match; [by intros [= <- <- <-]|]. destruct (FlushBitmap s w) as [st0 w0] eqn:E0.
  destruct (sys_fsync _ w0) as [ok w2] eqn:E2. intros [= <- <- <-].
  unfold FlushBitmap in E0. cbn [st_write file_store] in E0. unfold PWrite in E0. split.
  - pose proof (only_pwrite (fun q => q = seg_handle s) _ _ _ _ _ _ eq_refl E0) as O0.
    pose proof (only_fsync (fun q => q = seg_handle s) _ _ _ _ eq_refl E2) as O2.
    intros p Hp. rewrite (O2 p Hp). by apply O0.
  - intros Hn. apply (sys_fsync_no_eio _ _ _ _) in E2; [done|]. destruct (fs_files w !! seg_handle s) as [f|] eqn:Ef.
    + by apply (fs_pwrite_spec _ _ _ _ _ _ _ Ef) in E0 as (_ & _ & _ & _ & Hq); apply Hq.
    + unfold fs_pwrite in E0. rewrite Ef in E0. by injection E0 as <- <-.
Qed.

(** On disk the segment is what it was in memory. *)
Definition on_disk (c : SegmentConfig) (a : Z) (s : SegmentFile) (w w' : FS) : Prop :=
  seg_file_ok c (file_data (seg_handle s) w') /\ disk_seg c a (file_data (seg_handle s) w') = seg_map s w.

Lemma synced_disk c a (s : SegmentFile) w :
  seg_ok s w -> config_ (seg_base s) = c -> seg_synced s w -> on_disk c a s w w.
Proof.
  intros Hok Hc Hsy. pose proof Hok as [Hi _ (d & Hd & Hl)]. change (file_data (seg_handle s) w = Some d) in Hd.
  pose proof (disk_bitmap_synced s w d [] Hok Hsy Hd) as Eb. rewrite app_nil_r, Hc in Eb.
  pose proof (loaded_map a s w d [] w (seg_handle s) Hok Hsy Hd) as Em. rewrite app_nil_r, Hc in Em.
  specialize (Em Hd). unfold on_disk. rewrite Hd. cbn [seg_file_ok disk_seg]. split.
  - rewrite Eb, <- Hc. split; [apply Hi|done].
  - rewrite <- Em. symmetry. by apply seg_map_data.
Qed.

Lemma Close_on_disk c a (s : SegmentFile) w st s1 w1 :
  seg_ok s w -> config_ (seg_base s) = c -> no_eio (fs_script w) -> SegmentFile_Close s w = (st, s1, w1) ->
  on_disk c a s w w1.
Proof.
  intros Hok Hc Hn E. apply SegmentFile_Close_spec in E as (d & _ & _ & _ & Hok1 & Hs1 & Emap); [|done|done].
  destruct (synced_disk c a s w1 Hok1 Hc Hs1) as [Hf Hd]. split; [done|]. by rewrite Hd.
Qed.

Section close.
Context (o : BOptions).
Implicit Types (m : SegmentManager string) (w : FS).

Lemma close_list (l : list (Z * SegmentFile)) w :
  (forall a s, (a, s) ∈ l -> seg_ok s w /\ config_ (seg_base s) = seg_cfg o /\ seg_handle s = segment_path o a) ->
  NoDup (fst <$> l) -> no_eio (fs_script w) ->
  let w' := foldr (fun p w => (SegmentFile_Close p.2 w).2) w l in
  no_eio (fs_script w') /\
  (forall p, (forall a s, (a, s) ∈ l -> seg_handle s <> p) -> fs_files w' !! p = fs_files w !! p) /\
  (forall a s, (a, s) ∈ l -> on_disk (seg_cfg o) a s w w').
Proof.
  cbv zeta. intros Hl Hnd Hn. induction l as [|[a s] l IH]; cbn [foldr].
  { split; [done|]. split; [done|]. by intros ? ? ?%elem_of_nil. }
  cbn in Hnd. apply NoDup_cons in Hnd as [Ha Hnd].
  destruct IH as (Hn1 & Hf1 & Hd1); [by intros; apply Hl; right|done|].
  set (w1 := foldr _ w l) in *. destruct (Hl a s) as (Hok & Hc & Hh); [by left|].
  assert (forall b t, (b, t) ∈ l -> seg_handle t <> seg_handle s) as Hne.
  { intros b t Hb. destruct (Hl b t) as (_ & _ & ->); [by right|]. rewrite Hh. intros ->%segment_path_inj.
    apply Ha. by apply (list_elem_of_fmap_2 fst _ (a, t)). }
  assert (file_data (seg_handle s) w1 = file_data (seg_handle s) w) as Ew by (unfold file_data; by rewrite Hf1).
  assert (seg_ok s w1) as Hok1 by (by eapply seg_ok_frame).
  cbn [snd]. destruct (SegmentFile_Close s w1) as [[st s1] w2] eqn:E. cbn [snd].
  pose proof (Close_on_disk (seg_cfg o) a s w1 st s1 w2 Hok1 Hc Hn1 E) as [Hfo Hds].
  pose proof (SegmentFile_Close_files s w1 st s1 w2 E) as [Hf2 Hn2].
  split; [by apply Hn2|]. split.
  - intros p Hp. rewrite Hf2; [|apply not_eq_sym, (Hp a); by left]. apply Hf1. intros b t Hb. apply (Hp b). by right.
  - intros b t [[= -> ->]|Hb]%elem_of_cons.
    + split; [done|]. rewrite Hds. by apply seg_map_frame.
    + specialize (Hd1 b t Hb). unfold on_disk, file_data in *. rewrite Hf2 by (by eapply Hne). exact Hd1.
Qed.

Lemma destroy_segments_spec n m w :
  opened o n m w -> no_eio (fs_script w) ->
  let w' := destroy_segments m w in
  no_eio (fs_script w') /\
  forall a, 0 <= a < n -> seg_file_ok (seg_cfg o) (file_data (segment_path o a) w') /\
    forall j, disk_seg (seg_cfg o) a (file_data (segment_path o a) w') !! j = mgr_view m w a j.
Proof.
  cbv zeta. intros [Hp Hs Hpath Hall] Hn. unfold destroy_segments.
  destruct (close_list (map_to_list (segments_ m)) w) as (Hn' & _ & Hd).
  - intros a s Has%elem_of_map_to_list. destruct (ms_ok _ _ _ Hs a s Has) as [? ?]. split; [done|]. split; [done|].
    by apply Hpath.
  - apply NoDup_fst_map_to_list.
  - done.
  - split; [done|]. intros a Ha. destruct (Hall a Ha) as [s Es]. destruct (Hpath a s Es) as [_ Hh].
    destruct (Hd a s) as [Hfo Hds]; [by apply elem_of_map_to_list|]. rewrite Hh in *. split; [done|].
    intros j. unfold mgr_view. rewrite Es. cbn. by rewrite Hds.
Qed.

(** What is on the disk while the segments are open. *)
Lemma synced_on_disk n m w :
  opened o n m w -> synced m w ->
  forall a, 0 <= a < n -> seg_file_ok (seg_cfg o) (file_data (segment_path o a) w) /\
    forall j, disk_seg (seg_cfg o) a (file_data (segment_path o a) w) !! j = mgr_view m w a j.
Proof.
  intros [Hp Hs Hpath Hall] Hsy a Ha. destruct (Hall a Ha) as [s Es]. destruct (Hpath a s Es) as [_ Hh].
  destruct (ms_ok _ _ _ Hs a s Es) as [Hok Hc]. destruct (synced_disk (seg_cfg o) a s w Hok Hc (Hsy a s Es)) as [Hfo Hds].
  rewrite <- Hh. split; [done|]. intros j. unfold mgr_view. rewrite Es. cbn. by rewrite Hds.
Qed.

End close.
