(* ===== verification/BackendRestart.v ===== *)
(** * Restarts of the index backend

    [CreateContext] brings back what was stored before [Close], compaction or
    not: [Close] takes a checkpoint, which repairs a log that a compaction left
    behind the map.  When the process is killed between two calls instead, and
    no compaction ran, [CreateContext] finds in the files as they are what was
    stored.  The scripts of the two file systems have no errors here
    (calls may be interrupted, and transfer less than asked). *)

From stdpp Require Import pretty.
From S2P Require Import Prelude Common Sys Key Wal SegmentBase SegmentOps SegmentFile SegmentManager ManagerState.
From S2P Require Import ManagerTheorems Index IndexData IndexCompaction IndexRecovery IndexTheorems Lfuda AgeCount LfudaTheorems.
From S2P Require Import Backend IndexBackend IndexBackendTheorems BackendFiles IndexLogging BackendDisk.
From Stdlib Require Import SpecFloat Ascii.

(** ** The capacity of the cache *)

Lemma total_slots_const (T : Z) (m : SegmentManager string) :
  (forall a s, segments_ m !! a = Some s -> total_slots_ (seg_base s) = T) ->
  total_slots m = Nat.iter (size (segments_ m)) (fun t => u64 (t + T)) 0.
Proof.
  intros HT. unfold total_slots. rewrite <- length_map_to_list.
  assert (forall a s, (a, s) ∈ map_to_list (segments_ m) -> total_slots_ (seg_base s) = T) as Hl.
  { intros a s Hs%elem_of_map_to_list. by eapply HT. }
  induction (map_to_list (segments_ m)) as [|[a s] l IH]; [done|]. cbn [foldr length Nat.iter snd].
  rewrite IH by (intros; eapply Hl; by right). by rewrite (Hl a s) by (by left).
Qed.

(** The capacity depends on the configuration and on the number of segments. *)
Lemma lfu_capacity_same o (m m' : SegmentManager string) w w' :
  mgr_segs (seg_cfg o) m w -> mgr_segs (seg_cfg o) m' w' -> size (segments_ m') = size (segments_ m) ->
  lfu_capacity_of o m' = lfu_capacity_of o m.
Proof.
  intros Hs Hs' Esz. unfold lfu_capacity_of.
  assert (forall m w, mgr_segs (seg_cfg o) m w -> forall a s, segments_ m !! a = Some s ->
    total_slots_ (seg_base s) = lay_total_slots (CalculateLayout (seg_cfg o))) as HT.
  { intros m0 w0 Hs0 a s Ha. destruct (ms_ok _ _ _ Hs0 a s Ha) as [[Hi _ _] Hc].
    by rewrite (sl_total _ (si_layout _ Hi)), Hc. }
  rewrite (total_slots_const _ m (HT m w Hs)), (total_slots_const _ m' (HT m' w' Hs')). by rewrite Esz.
Qed.

Lemma to_size_t_nonneg x z : to_size_t x = Some z -> 0 <= z.
Proof.
  unfold to_size_t. destruct x as [| | |s p e]; try done; [by intros [= <-]|].
  assert (0 <= Z.shiftl (Z.pos p) e) by (apply Z.shiftl_nonneg; lia). destruct s; case_match; intros [= <-]; lia.
Qed.

Lemma lfu_capacity_pos o m cap : lfu_capacity_of o m = Some cap -> 0 < cap.
Proof.
  unfold lfu_capacity_of. destruct (to_size_t _) as [z|] eqn:E; [|done]. apply to_size_t_nonneg in E. cbn.
  destruct (Z.eqb_spec z 0); intros [= <-]; lia.
Qed.

(** ** Filling the cache *)

Section lfu.
Context `{!Btree, !BtreeLaws}.
Implicit Types c : lfuda_cache Key128 bool.

(** Every key of the index has an element in the cache. *)
Definition covers c (m : @gmap Key128 key_eq_dec key_countable Z) : Prop :=
  forall k, is_Some (m !! k) -> k ∈ (m_key <$> entries c).

Lemma covers_size c m : cache_ok (V := bool) c -> covers c m -> (size m <= lfu_capacity c)%nat.
Proof.
  intros Hok Hc. etrans; [|by apply lfu_size_bound]. unfold lfu_size. rewrite <- (entries_length c Hok).
  rewrite <- size_dom. assert (dom m ⊆ list_to_set (m_key <$> entries c)) as Hsub.
  { intros k Hk. apply elem_of_list_to_set, Hc. by apply elem_of_dom in Hk. }
  apply subseteq_size in Hsub. etrans; [exact Hsub|].
  rewrite <- (length_fmap m_key). generalize (m_key <$> entries c). clear. intros l.
  induction l as [|k l IH]; cbn; [by rewrite size_empty|]. rewrite size_union_alt, size_singleton.
  apply -> Nat.succ_le_mono. etrans; [|exact IH]. by apply subseteq_size, subseteq_difference_l.
Qed.

Lemma lfu_insert_room {X} (f : option (Key128 -> bool -> X -> Outcome (bool * X))) k now c (x : X) :
  lfu_ok (Some c) -> k ∉ (m_key <$> entries c) -> (length (entries c) < lfu_capacity c)%nat ->
  exists c', lfu_insert f k true allow_insert now c x = Ret (true, c', x) /\ lfu_ok (Some c') /\
    lfu_capacity c' = lfu_capacity c /\ m_key <$> entries c' = (m_key <$> entries c) ++ [k].
Proof.
  intros (Hc & Ht & Er & Hcap) Hk Hroom. unfold lfu_insert, do_insert_update.
  pose proof (keyed_find c k Hc) as Hf. destruct (m_keyed_elements c !! k) as [n|] eqn:E.
  { exfalso. destruct Hc as (A & B & Hi). apply (ci_keyed _ _ _ Hi) in E as [Hn Hkey]. apply Hk.
    rewrite (entries_inv _ _ _ Hi), <- Hkey. by apply list_elem_of_fmap_2, list_elem_of_fmap_2. }
  change (insert_allowed allow_insert) with true. cbv iota.
  assert (ratio_ok (m_dynamic_age_ratio c)) as Hr by (rewrite Er; apply ratio_half).
  pose proof (do_insert_spec f k true now c x Hc Ht Hr Hcap E) as Hi. cbv zeta in Hi.
  rewrite decide_True in Hi by done. destruct Hi as (c' & -> & Hok' & (Ec & Et & Er') & Ee). cbn [mbind Outcome_bind].
  exists c'. split; [done|]. split; [split; [done|]; by rewrite Et, Er', Ec|]. split; [done|].
  by rewrite Ee, fmap_app.
Qed.

(** The cache is filled without an eviction. *)
Lemma rebuild_lfu_spec keys clock i c :
  lfu_ok (Some c) -> NoDup ((m_key <$> entries c) ++ keys) ->
  (length (entries c) + length keys <= lfu_capacity c)%nat ->
  exists c', rebuild_lfu keys clock i c = Ret c' /\ lfu_ok (Some c') /\ lfu_capacity c' = lfu_capacity c /\
    m_key <$> entries c' = (m_key <$> entries c) ++ keys.
Proof.
  revert i c. induction keys as [|k keys IH]; intros i c Hc Hnd Hroom; cbn [rebuild_lfu].
  { exists c. by rewrite app_nil_r. }
  cbn [length] in Hroom. pose proof Hnd as (_ & Hd & _)%NoDup_app.
  destruct (lfu_insert_room on_evict_rebuild k (clock i) c tt Hc) as (c1 & -> & Hc1 & Ecap & Ek); [|lia|].
  { intros Hin. by apply (Hd k Hin); left. }
  cbn [mbind Outcome_bind]. assert (length (entries c1) = S (length (entries c))) as El.
  { rewrite <- (length_fmap m_key), Ek, length_app, length_fmap. cbn. lia. }
  destruct (IH (S i) c1 Hc1) as (c' & -> & Hc' & Ecap' & Ek'); [by rewrite Ek, <- app_assoc|lia|].
  exists c'. split; [done|]. split; [done|]. split; [congruence|]. by rewrite Ek', Ek, <- app_assoc.
Qed.

End lfu.

(** ** A running backend *)

Section live.
Context `{!Phmap Key128} `{!PhmapLaws Key128} `{!Btree, !BtreeLaws}.
Context (iter : nat -> gset Z -> list Z).
Hypothesis iter_ok : forall n X, iter n X ≡ₚ elements X.
Implicit Types (b : IndexBackend) (e : Env Key128 string FS) (o : BOptions).

(** The index and the store of a backend with options [o]: the index has its
    log, the segments are in their files, and no call fails. *)
Record env_live o e : Prop := {
  el_ok : env_ok (seg_cfg o) e;
  el_opts : e_opts e = idx_opts o;
  el_logging : logging (e_ix e) (e_fs e);
  el_fs : no_eio (fs_script (e_fs e));
  el_w : no_eio (fs_script (e_w e));
  el_path : forall a, handles (e_mgr e) !! a =
    if decide (0 <= a < segment_count o) then Some (segment_path o a) else None;
  el_state : state_ok (state_path o) (e_fs e);
}.

Definition enc : Z := Z.of_nat (kEncodedSize Key128).

(** What holds after at most [n] logged changes when it held before: the
    bitmaps are on the medium, and the files of the index give back the map. *)
Definition kept (n : Z) e e' : Prop :=
  (synced (e_mgr e) (e_w e) -> synced (e_mgr e') (e_w e')) /\
  (durable (e_ix e) (e_fs e) -> log_size (e_ix e) + n * enc < 2 ^ 64 ->
   durable (e_ix e') (e_fs e') /\ log_size (e_ix e') <= log_size (e_ix e) + n * enc).

Lemma enc_pos : 0 < enc.
Proof. pose proof (kEncodedSize_pos (K := Key128)). unfold enc. lia. Qed.

Lemma kept_trans n1 n2 n e1 e2 e3 : 0 <= n1 -> 0 <= n2 -> n1 + n2 <= n -> kept n1 e1 e2 -> kept n2 e2 e3 -> kept n e1 e3.
Proof.
  intros H1 H2 Hn [S1 D1] [S2 D2]. pose proof enc_pos. split; [tauto|]. intros Hd Hsz.
  destruct (D1 Hd) as [Hd2 Hsz2]; [nia|]. destruct (D2 Hd2) as [Hd3 Hsz3]; [nia|]. split; [done|nia].
Qed.

Lemma kept_refl n e : 0 <= n -> kept n e e.
Proof. intros Hn. pose proof enc_pos. split; [done|]. intros Hd _. split; [done|nia]. Qed.

(** A logged change. *)
Lemma live_AppendWal o e ty (k : Key128) a a' mp s ix1 fs1 :
  root_dir o <> EmptyString -> env_live o e ->
  AppendWal ty k a a' (set_map mp (e_ix e)) (e_fs e) = (s, ix1, fs1) ->
  s = kOk /\ logging ix1 fs1 /\ no_eio (fs_script fs1) /\ map_ ix1 = mp /\ state_ok (state_path o) fs1.
Proof.
  intros Hroot He E. pose proof (AppendWal_frame _ _ _ _ _ _ _ _ _ E) as [Em _].
  assert (logging (set_map mp (e_ix e)) (e_fs e)) as Hl by exact (el_logging _ _ He).
  pose proof (AppendWal_only _ _ _ _ _ _ _ _ _ (logging_wal_at _ _ Hl) E) as Ho.
  apply AppendWal_quiet in E as (-> & Hl1 & Hn1); [|change (paths_ok (e_opts e)); rewrite (el_opts _ _ He); by apply idx_paths_ok|done|apply He].
  do 4 (split; [done|]). apply (state_ok_frame _ (e_fs e)); [|apply He]. apply Ho.
  change (opts_ (set_map mp (e_ix e))) with (e_opts e). rewrite (el_opts _ _ He). by apply state_not_index.
Qed.

Lemma live_Put o k v e s e' :
  root_dir o <> EmptyString -> env_live o e -> key_valid k -> Z.of_nat (length v) = slot_value_size o ->
  Put iter k (Some v) (slot_value_size o) e = Ret (s, e') ->
  env_live o e' /\ kept 1 e e' /\
  (forall k', is_Some (map_ (e_ix e') !! k') -> is_Some (map_ (e_ix e) !! k') \/ (s = kOk /\ k' = k)).
Proof using Type*.
  intros Hroot He Hk Hv E. pose proof He as [Hok Hop Hl Hn Hw Hp Hst].
  pose proof (Put_spec iter iter_ok (seg_cfg o) k v e Hok Hk Hv) as Hs. cbn [SegmentBase.value_size seg_cfg] in Hs.
  rewrite E in Hs. destruct Hs as (Hok' & Eo & Hq & Hr).
  pose proof (Put_handles iter k (Some v) (slot_value_size o) e s e' E) as Hh.
  assert (logging (e_ix e') (e_fs e') /\ no_eio (fs_script (e_fs e')) /\ state_ok (state_path o) (e_fs e') /\
    (forall k', is_Some (map_ (e_ix e') !! k') -> is_Some (map_ (e_ix e) !! k') \/ (s = kOk /\ k' = k)))
    as (Hl' & Hn' & Hst' & Hmap).
  { destruct Hr as [(Hne & [Ei Ef] & _)|(en & ix1 & fs1 & _ & Ea & Ef & Hr)].
    - rewrite Ei, Ef. do 3 (split; [done|]). auto.
    - apply live_AppendWal with (o := o) in Ea as (-> & Hl1 & Hn1 & Em & Hst1); [|done|done].
      destruct Hr as [(_ & Ei & _)|(Hne & _)]; [|done]. rewrite Ei, Ef. do 3 (split; [done|]).
      intros k' Hk'. rewrite Em in Hk'. destruct (decide (k' = k)) as [->|]; [by right|].
      rewrite lookup_insert_ne in Hk' by done. by left. }
  split; [|split; [|done]].
  - split; try done; [by rewrite Eo|by apply Hq|]. intros a. by rewrite Hh.
  - split; [by apply Hq|]. intros Hd Hsz. unfold enc in *.
    destruct (Put_files iter iter_ok (seg_cfg o) k v e s e' Hok) as (_ & Hdn & Hls); try done.
    + rewrite Hop. by apply idx_paths_ok.
    + split; [by apply Hdn|lia].
Qed.

Lemma live_Delete o k e s e' :
  root_dir o <> EmptyString -> env_live o e -> Index_Delete k e = Ret (s, e') ->
  env_live o e' /\ kept 1 e e' /\
  (forall k', is_Some (map_ (e_ix e') !! k') -> is_Some (map_ (e_ix e) !! k') /\ k' <> k).
Proof.
  intros Hroot He E. pose proof He as [Hok Hop Hl Hn Hw Hp Hst].
  destruct (Delete_index_spec (seg_cfg o) k e Hok) as (s0 & e0 & E0 & Hok' & Eo & Hq & Hr).
  rewrite E in E0. injection E0 as <- <-. pose proof (Index_Delete_handles k e s e' E) as Hh.
  assert (logging (e_ix e') (e_fs e') /\ no_eio (fs_script (e_fs e')) /\ state_ok (state_path o) (e_fs e') /\
    (forall k', is_Some (map_ (e_ix e') !! k') -> is_Some (map_ (e_ix e) !! k') /\ k' <> k)) as (Hl' & Hn' & Hst' & Hmap).
  { destruct (e_contents e !! k) eqn:Ek.
    - destruct Hr as (old & ix1 & fs1 & _ & _ & Ea & Ef & Hr). rewrite Ef.
      apply live_AppendWal with (o := o) in Ea as (-> & Hl1 & Hn1 & Em & Hst1); [|done|done].
      destruct Hr as [(_ & Ei & _)|(Hne & _)]; [|done]. rewrite Ei, Em. do 3 (split; [done|]).
      intros k' [x Hx]. apply lookup_delete_Some in Hx as [Hne Hx]. split; [by eexists|done].
    - destruct Hr as [-> ->]. do 3 (split; [done|]). intros k' Hk'. split; [done|]. intros ->.
      unfold e_contents in Ek. apply (index_ok_none _ _ k (eo_index _ _ Hok)) in Ek. rewrite Ek in Hk'. by destruct Hk'. }
  split; [|split; [|done]].
  - split; try done; [by rewrite Eo|by apply Hq|]. intros a. by rewrite Hh.
  - split; [by apply Hq|]. intros Hd Hsz. unfold enc in *.
    destruct (Delete_files (seg_cfg o) k e s e' Hok) as (_ & Hdn & Hls); try done.
    + rewrite Hop. by apply idx_paths_ok.
    + split; [by apply Hdn|lia].
Qed.

(** A round of compaction. *)
Lemma live_compact o e s e' :
  root_dir o <> EmptyString -> env_live o e -> compact_index iter e = Ret (s, e') ->
  env_live o e' /\ dom (map_ (e_ix e')) = dom (map_ (e_ix e)).
Proof using Type*.
  intros Hroot He E. pose proof He as [Hok Hop Hl Hn Hw Hp Hst].
  pose proof (compact_index_spec iter iter_ok (seg_cfg o) e Hok) as Hs. rewrite E in Hs. destruct Hs as (Hok' & Eo & _).
  apply (compact_index_quiet iter iter_ok (seg_cfg o)) in E as (Hl' & Hn' & Ho & Ed & Eh & Hq); [|done| |done|done].
  2: { rewrite Hop. by apply idx_paths_ok. }
  split; [|done]. split; try done; [by rewrite Eo|by apply Hq|by rewrite Eh|].
  apply (state_ok_frame _ (e_fs e)); [|done]. apply Ho. rewrite Hop. by apply state_not_index.
Qed.

Lemma live_Get o k e s out e' :
  env_live o e -> Get k true (slot_value_size o) e = Ret (s, out, e') ->
  env_live o e' /\ kept 0 e e' /\ e_ix e' = e_ix e.
Proof.
  intros He E. pose proof He as [Hok Hop Hd Hn Hw Hp Hst].
  destruct (Get_spec (seg_cfg o) k e Hok) as (s0 & out0 & e0 & E0 & Hok' & [Ei Ef] & Em & _ & Hq & _).
  cbn [SegmentBase.value_size seg_cfg] in E0. rewrite E in E0. injection E0 as <- <- <-.
  split; [|split; [split; [by apply Hq|rewrite Ei, Ef; intros Hdd _; split; [done|lia]]|done]].
  split; try done; [unfold e_opts; by rewrite Ei|by rewrite Ei, Ef|by rewrite Ef|by apply Hq|by rewrite Em|by rewrite Ef].
Qed.

(** The use of a key after a [Put], with the eviction it may cause. *)
Lemma live_lfu_insert o k now l e :
  root_dir o <> EmptyString -> env_live o e -> lfu_ok (Some l) ->
  (forall k', is_Some (map_ (e_ix e) !! k') -> k' = k \/ k' ∈ (m_key <$> entries l)) ->
  exists r l' e', lfu_insert on_evict k true insert_or_update now l e = Ret (r, l', e') /\
    env_live o e' /\ kept 1 e e' /\ covers l' (map_ (e_ix e')) /\
    lfu_capacity l' = lfu_capacity l.
Proof.
  intros Hroot He (Hc & Ht & Er & Hcap) Hcov.
  destruct (lfu_insert_spec on_evict k true insert_or_update now l e Hc Ht) as (r & l' & e' & E & Hok' & (Ec & Et & Er') & Hs).
  - rewrite Er. apply ratio_half.
  - done.
  - intros el _. destruct (evict_call_spec (seg_cfg o) el e (el_ok _ _ He)) as (e' & ? & _). eauto.
  - exists r, l', e'. split; [done|]. cbn [list_step] in Hs. change (insert_allowed insert_or_update) with true in Hs.
    change (update_allowed insert_or_update) with true in Hs.
    destruct (find_key k (entries l)) as [ek|] eqn:Ef.
    { destruct Hs as (-> & _ & Ee). split; [done|]. split; [by apply kept_refl|]. split; [|done]. intros k' Hk'.
      rewrite Ee, touch_keys by done. destruct (Hcov k' Hk') as [->|?]; [|done].
      unfold find_key in Ef. apply head_Some_elem_of in Ef. apply list_elem_of_filter in Ef as [<- Hin].
      by apply list_elem_of_fmap_2. }
    destruct Hs as [_ Hs]. case_decide.
    { destruct Hs as (-> & Ee). split; [done|]. split; [by apply kept_refl|]. split; [|done]. intros k' Hk'.
      rewrite Ee, fmap_app, elem_of_app. destruct (Hcov k' Hk') as [->|?]; [right; by left|by left]. }
    destruct Hs as (el & [Hel _] & Ee & El). unfold evict_call, on_evict in Ee.
    destruct (Index_Delete (m_key el) e) as [[s1 e1]|] eqn:Ed; [|done]. cbn in Ee. injection Ee as <-.
    apply (live_Delete o) in Ed as (He1 & Hk1 & Hm1); try done. split; [done|]. split; [done|]. split; [|done].
    intros k' Hk'. destruct (Hm1 k' Hk') as [Hk'' Hne]. rewrite El, fmap_app, elem_of_app.
    destruct (Hcov k' Hk'') as [->|Hin]; [right; by left|left]. apply forget_keys. split; [|done].
    by rewrite age_keys.
Qed.

(** The cache of a running backend. *)
Definition lfu_live o (m : SegmentManager string) (mp : @gmap Key128 key_eq_dec key_countable Z)
    (l : option (lfuda_cache Key128 bool)) : Prop :=
  match l with
  | Some l => SFltb (S754_zero false) (lfu_capacity_ratio o) = true /\
      lfu_capacity_of o m = Some (Z.of_nat (lfu_capacity l)) /\ covers l mp
  | None => SFltb (S754_zero false) (lfu_capacity_ratio o) = false
  end.

Record live b (ctx : Context) : Prop := {
  lv_ctx : ctx_ok b ctx;
  lv_env : env_live (options_ b) (env_of ctx b);
  lv_lfu : lfu_live (options_ b) (c_mgr ctx) (map_ (c_ix ctx)) (c_lfu ctx);
  lv_root : root_dir (options_ b) <> EmptyString;
  lv_count : 0 <= segment_count (options_ b);
}.

Lemma live_capacity o e e' :
  env_live o e -> env_live o e' -> lfu_capacity_of o (e_mgr e') = lfu_capacity_of o (e_mgr e).
Proof.
  intros He He'. apply (lfu_capacity_same o _ _ (e_w e) (e_w e')).
  - apply (sk_segs _ _ _ (eo_store _ _ (el_ok _ _ He))).
  - apply (sk_segs _ _ _ (eo_store _ _ (el_ok _ _ He'))).
  - assert (handles (e_mgr e') = handles (e_mgr e)) as E.
    { apply map_eq. intros a. by rewrite (el_path _ _ He), (el_path _ _ He'). }
    apply (f_equal size) in E. unfold handles in E. by rewrite !map_size_fmap in E.
Qed.

(** A state that differs from a running one in the index, the store and the
    cache. *)
Lemma live_with_env b ctx e l :
  live b ctx -> bk_ok (with_env e l b) -> env_live (options_ b) e ->
  lfu_live (options_ b) (c_mgr ctx) (map_ (e_ix e)) l ->
  live (with_env e l b) (mkContext (e_mgr e) (e_ix e) l).
Proof.
  intros [Hx He Hl Hr Hcnt] [ctx' Hx'] He' Hl'.
  assert (ctx' = mkContext (e_mgr e) (e_ix e) l) as -> by (pose proof (xo_ctx _ _ Hx') as E; cbn in E; congruence).
  split; [done|by destruct e| |done|done]. cbn [options_ with_env c_mgr c_ix c_lfu].
  assert (lfu_capacity_of (options_ b) (e_mgr e) = lfu_capacity_of (options_ b) (c_mgr ctx)) as Ec.
  { apply (live_capacity (options_ b) (env_of ctx b) e He He'). }
  unfold lfu_live in *. by rewrite Ec.
Qed.

Lemma lfu_live_mono o m mp mp' l :
  (forall k, is_Some (mp' !! k) -> is_Some (mp !! k)) -> lfu_live o m mp l -> lfu_live o m mp' l.
Proof. intros Hm. destruct l; [|done]. intros (? & ? & Hc). split; [done|]. split; [done|]. intros k Hk. by apply Hc, Hm. Qed.

Lemma Put_live key v md opts clock b ctx r b' :
  live b ctx -> bytes_ok key -> Z.of_nat (length v) + Z.of_nat (length md) < 2 ^ 64 ->
  IndexBackend_Put iter key v md opts clock b = Ret (r, b') ->
  exists ctx', live b' ctx' /\ kept 2 (env_of ctx b) (env_of ctx' b').
Proof using Type*.
  intros Hlv Hb Hlen E. pose proof Hlv as [Hx He Hl Hroot Hcnt].
  pose proof (IndexBackend_Put_spec iter iter_ok key v md opts clock b ctx Hx Hb Hlen) as Hspec.
  rewrite E in Hspec. destruct Hspec as (Hbok & _). unfold IndexBackend_Put in E.
  destruct (Key128_FromString key) as [k|] eqn:Ek; [|injection E as <- <-; exists ctx; split; [done|by apply kept_refl]].
  destruct (FromString_valid key k Hb Ek) as [Hk _]. rewrite (xo_ctx _ _ Hx) in E. set (o := options_ b) in *.
  assert (exists found e, (if negb (wo_overwrite opts) then probe k b (env_of ctx b) else Ret (None, env_of ctx b))
    = Ret (found, e) /\ env_live o e /\ kept 0 (env_of ctx b) e /\ e_ix e = c_ix ctx) as (found & e & Ep & He1 & Hk1 & Ei1).
  { destruct (negb _); [|eexists _, _; split; [done|]; split; [done|]; split; [by apply kept_refl|done]]. unfold probe.
    destruct (Get_spec (seg_cfg o) k (env_of ctx b) (el_ok _ _ He)) as (s & out & e & Eg & _).
    cbn [SegmentBase.value_size seg_cfg] in Eg. fold o. rewrite Eg. cbn [mbind Outcome_bind].
    destruct (live_Get o k (env_of ctx b) s out e He Eg) as (He1 & Hk1 & Ei). repeat case_match; by eexists _, _. }
  rewrite Ep in E. cbn [mbind Outcome_bind] in E.
  assert (forall e l, bk_ok (with_env e l b) -> env_live o e -> kept 2 (env_of ctx b) e ->
    lfu_live o (c_mgr ctx) (map_ (e_ix e)) l ->
    exists ctx', live (with_env e l b) ctx' /\ kept 2 (env_of ctx b) (env_of ctx' (with_env e l b))) as Hdone.
  { intros e0 l0 ? ? ? ?. eexists. split; [by eapply live_with_env|by destruct e0]. }
  assert (kept 2 (env_of ctx b) e) as Hk1' by (by apply (kept_trans 0 0 2 _ e); [..|apply kept_refl]).
  destruct found as [r0|]; [injection E as <- <-; apply Hdone; try done; by rewrite Ei1|].
  destruct (EncodePayload o v md) as [[c err]|payload] eqn:Epay; [injection E as <- <-; apply Hdone; try done; by rewrite Ei1|].
  assert (Z.of_nat (length payload) = slot_value_size o) as Hpl.
  { destruct (decide (fits o v md)) as [Hf|Hf]; [|rewrite EncodePayload_too_large in Epay; [done|by apply (xo_slot _ _ Hx)|done|done]].
    destruct (EncodePayload_decodes o v md (xo_slot _ _ Hx) Hf) as (p & Ep' & Hp & _). congruence. }
  rewrite Hpl in E. destruct (Put iter k (Some payload) (slot_value_size o) e) as [[s e2]|] eqn:E2; [|done].
  cbn [mbind Outcome_bind] in E.
  destruct (live_Put o k payload e s e2 Hroot He1 Hk Hpl E2) as (He2 & Hk2 & Hm2). rewrite Ei1 in Hm2.
  assert (kept 1 (env_of ctx b) e2) as Hk2' by (by apply (kept_trans 0 1 1 _ e)).
  assert (kept 2 (env_of ctx b) e2) as Hk2'' by (by apply (kept_trans 1 0 2 _ e2); [..|apply kept_refl]).
  destruct (decide (s = kOk)) as [->|Hs]; cbn [status_is_ok negb] in E.
  2: { replace (status_is_ok s) with false in E by by destruct s. cbn [negb] in E. injection E as <- <-. apply Hdone; try done.
       apply (lfu_live_mono _ _ (map_ (c_ix ctx))); [|done]. intros k' Hk'. by destruct (Hm2 k' Hk') as [?|[? _]]. }
  destruct (c_lfu ctx) as [l|] eqn:El.
  - destruct Hl as (Hr & Hcap & Hcov).
    destruct (live_lfu_insert o k (clock 0%nat) l e2 Hroot He2) as (r2 & l' & e3 & E3 & He3 & Hk3 & Hcov3 & Ecap3).
    + pose proof (xo_lfu _ _ Hx) as Hlok. by rewrite El in Hlok.
    + intros k' Hk'. destruct (Hm2 k' Hk') as [Hin|[_ ->]]; [right; by apply Hcov|by left].
    + rewrite E3 in E. cbn in E. injection E as <- <-. apply Hdone; try done; [by apply (kept_trans 1 1 2 _ e2)|].
      split; [done|]. split; [by rewrite Ecap3|done].
  - injection E as <- <-. apply Hdone; try done.
Qed.

Lemma lfu_find_live o m mp k now l v l' :
  lfu_ok (Some l) -> lfu_live o m mp (Some l) -> lfu_find k false now l = Ret (v, l') -> lfu_live o m mp (Some l').
Proof.
  intros (Hc & _) (Hr & Hcap & Hcov) E. destruct (find_spec m_value k false now l Hc) as (c' & E' & _ & (Ec & _) & Ee).
  unfold lfu_find, do_find in E. rewrite E' in E. injection E as <- <-. split; [done|]. split; [by rewrite Ec|].
  intros k' Hk'. rewrite Ee, touch_keys by done. by apply Hcov.
Qed.

Lemma lfu_erase_live o m mp mp' k l v l' :
  lfu_ok (Some l) -> lfu_live o m mp (Some l) -> lfu_erase k l = Ret (v, l') ->
  (forall k', is_Some (mp' !! k') -> is_Some (mp !! k') /\ k' <> k) -> lfu_live o m mp' (Some l').
Proof.
  intros (Hc & _) (Hr & Hcap & Hcov) E Hm. unfold lfu_erase in E.
  destruct (m_keyed_elements l !! k) as [n|] eqn:En.
  - destruct (do_erase_spec l k n Hc En) as (c' & E' & (_ & (Ec & _) & Ee) & _). rewrite E' in E. injection E as <- <-.
    split; [done|]. split; [by rewrite Ec|]. intros k' [Hin Hne]%Hm. rewrite Ee. apply forget_keys. split; [by apply Hcov|done].
  - injection E as <- <-. split; [done|]. split; [done|]. intros k' [Hin _]%Hm. by apply Hcov.
Qed.

Lemma Get_live key opts clock b ctx r b' :
  live b ctx -> bytes_ok key -> IndexBackend_Get key opts clock b = Ret (r, b') ->
  exists ctx', live b' ctx' /\ kept 2 (env_of ctx b) (env_of ctx' b').
Proof.
  intros Hlv Hb E. pose proof Hlv as [Hx He Hl Hroot Hcnt].
  destruct (IndexBackend_Get_spec key opts clock b ctx Hx Hb) as (r0 & b0 & E0 & Hbok & _).
  rewrite E in E0. injection E0 as <- <-. unfold IndexBackend_Get in E.
  destruct (Key128_FromString key) as [k|] eqn:Ek; [|injection E as <- <-; exists ctx; split; [done|by apply kept_refl]].
  rewrite (xo_ctx _ _ Hx) in E. set (o := options_ b) in *.
  destruct (Get_spec (seg_cfg o) k (env_of ctx b) (el_ok _ _ He)) as (s & out & e & Eg & _).
  cbn [SegmentBase.value_size seg_cfg] in Eg. rewrite Eg in E. cbn [mbind Outcome_bind] in E.
  destruct (live_Get o k (env_of ctx b) s out e He Eg) as (He1 & Hk1 & Ei). change (e_ix (env_of ctx b)) with (c_ix ctx) in Ei.
  assert (forall l, bk_ok (with_env e l b) -> lfu_live o (c_mgr ctx) (map_ (c_ix ctx)) l ->
    exists ctx', live (with_env e l b) ctx' /\ kept 2 (env_of ctx b) (env_of ctx' (with_env e l b))) as Hdone.
  { intros l0 ? ?. eexists. split; [eapply live_with_env; try done; by rewrite Ei|].
    apply (kept_trans 0 0 2 _ e); try done. destruct e. by apply kept_refl. }
  case_match; [injection E as <- <-; by apply Hdone|].
  destruct (DecodePayload _) as [[c err]|[val meta]]; [injection E as <- <-; by apply Hdone|]. destruct (c_lfu ctx) as [l|] eqn:El; [|injection E as <- <-; by apply Hdone].
  destruct (lfu_find k false (clock 0%nat) l) as [[v l']|] eqn:Ef; [|done]. injection E as <- <-. apply Hdone; [done|].
  pose proof (xo_lfu _ _ Hx) as Hlok. rewrite El in Hlok. by eapply lfu_find_live.
Qed.

Lemma Delete_live key b ctx r b' :
  live b ctx -> bytes_ok key -> IndexBackend_Delete key b = Ret (r, b') ->
  exists ctx', live b' ctx' /\ kept 2 (env_of ctx b) (env_of ctx' b').
Proof.
  intros Hlv Hb E. pose proof Hlv as [Hx He Hl Hroot Hcnt].
  destruct (IndexBackend_Delete_spec key b ctx Hx Hb) as (r0 & b0 & E0 & Hbok & _).
  rewrite E in E0. injection E0 as <- <-. unfold IndexBackend_Delete in E.
  destruct (Key128_FromString key) as [k|] eqn:Ek; [|injection E as <- <-; exists ctx; split; [done|by apply kept_refl]].
  rewrite (xo_ctx _ _ Hx) in E. set (o := options_ b) in *.
  destruct (Index_Delete k (env_of ctx b)) as [[s e]|] eqn:Ed; [|done]. cbn [mbind Outcome_bind] in E.
  destruct (live_Delete o k (env_of ctx b) s e Hroot He Ed) as (He1 & Hk1 & Hm). cbn [e_ix env_of] in Hm.
  assert (forall l, bk_ok (with_env e l b) -> lfu_live o (c_mgr ctx) (map_ (e_ix e)) l ->
    exists ctx', live (with_env e l b) ctx' /\ kept 2 (env_of ctx b) (env_of ctx' (with_env e l b))) as Hdone.
  { intros l0 ? ?. eexists. split; [by eapply live_with_env|].
    apply (kept_trans 1 0 2 _ e); try done. destruct e. by apply kept_refl. }
  case_match.
  { injection E as <- <-. apply Hdone; [done|]. apply (lfu_live_mono _ _ (map_ (c_ix ctx))); [|done]. intros k' Hk'. by apply Hm. }
  destruct (c_lfu ctx) as [l|] eqn:El; [|injection E as <- <-; by apply Hdone].
  destruct (lfu_erase k l) as [[v l']|] eqn:Ef; [|done]. injection E as <- <-. apply Hdone; [done|].
  pose proof (xo_lfu _ _ Hx) as Hlok. rewrite El in Hlok. by eapply (lfu_erase_live _ _ (map_ (c_ix ctx))).
Qed.

Lemma StatsTick_live b ctx b' : live b ctx -> StatsTick iter b = Ret b' -> exists ctx', live b' ctx'.
Proof using Type*.
  intros Hlv E. pose proof Hlv as [Hx He Hl Hroot Hcnt].
  pose proof (StatsTick_spec iter iter_ok b ctx Hx) as Hs. rewrite E in Hs. destruct Hs as (Hbok & _).
  unfold StatsTick in E. rewrite (xo_ctx _ _ Hx) in E.
  destruct (compact_index iter (env_of ctx b)) as [[s e]|] eqn:Ec; [|done]. cbn in E. injection E as <-.
  destruct (live_compact (options_ b) _ s e Hroot He Ec) as [He1 Ed].
  eexists. eapply live_with_env; try done. apply (lfu_live_mono _ _ (map_ (c_ix ctx))); [|done].
  intros k. rewrite <- !elem_of_dom, Ed. done.
Qed.

Lemma bk_step_live op b ctx r b' :
  live b ctx -> bk_op_ok op -> bk_step iter op b = Ret (r, b') ->
  exists ctx', live b' ctx' /\ (op <> BStats -> kept 2 (env_of ctx b) (env_of ctx' b')).
Proof using Type*.
  intros Hlv Ho E. destruct op as [key v md opts clock|key opts clock|key|]; cbn [bk_step bk_op_ok] in *.
  - destruct (IndexBackend_Put _ _ _ _ _ _ b) as [[r0 b0]|] eqn:E0; [|done]. injection E as <- <-. destruct Ho.
    destruct (Put_live key v md opts clock b ctx r0 b0) as (ctx' & ? & ?); try done. by exists ctx'.
  - destruct (IndexBackend_Get _ _ _ b) as [[r0 b0]|] eqn:E0; [|done]. injection E as <- <-.
    destruct (Get_live key opts clock b ctx r0 b0) as (ctx' & ? & ?); try done. by exists ctx'.
  - destruct (IndexBackend_Delete _ b) as [[r0 b0]|] eqn:E0; [|done]. injection E as <- <-.
    destruct (Delete_live key b ctx r0 b0) as (ctx' & ? & ?); try done. by exists ctx'.
  - destruct (StatsTick iter b) as [b0|] eqn:E0; [|done]. injection E as <- <-.
    destruct (StatsTick_live b ctx b0) as (ctx' & ?); try done. by exists ctx'.
Qed.

Lemma bk_run_live os b ctx rs b' :
  live b ctx -> Forall bk_op_ok os -> bk_run iter os b = Ret (rs, b') ->
  options_ b' = options_ b /\ exists ctx', live b' ctx' /\
    (BStats ∉ os -> kept (2 * Z.of_nat (length os)) (env_of ctx b) (env_of ctx' b')).
Proof using Type*.
  revert b ctx rs. induction os as [|op os IH]; intros b ctx rs Hlv Hos E; cbn [bk_run] in E.
  { injection E as <- <-. split; [done|]. exists ctx. split; [done|]. intros _. by apply kept_refl. }
  apply Forall_cons in Hos as [Ho Hos].
  destruct (bk_step iter op b) as [[r b1]|] eqn:E1; [|done]. cbn [mbind Outcome_bind] in E.
  destruct (bk_run iter os b1) as [[rs2 b2]|] eqn:E2; [|done]. injection E as <- <-.
  destruct (bk_step_live op b ctx r b1) as (ctx1 & Hlv1 & Hk1); try done.
  destruct (bk_step_refines iter iter_ok op b r b1) as (_ & <- & _); [by exists ctx; apply Hlv|done|done|].
  destruct (IH b1 ctx1 rs2 Hlv1 Hos E2) as (Eo & ctx2 & Hlv2 & Hk2). split; [done|]. exists ctx2. split; [done|].
  intros [Hne Hni]%not_elem_of_cons. cbn [length].
  apply (kept_trans 2 (2 * Z.of_nat (length os)) _ _ (env_of ctx1 b1)); [lia|lia|lia|apply Hk1; congruence|by apply Hk2].
Qed.

(** ** Closing the index *)

Lemma durable_frame (ix : Index Key128) fs fs' P :
  only P fs fs' -> (forall q, index_file (opts_ ix) q -> ~ P q) -> durable ix fs -> durable ix fs'.
Proof.
  intros Ho HP (base & rs & dur & w & [Hw Hl Hs] & E). exists base, rs, dur, w. split; [|done]. split; [done| |].
  - eapply log_inv_frame; [|done]. apply Ho, HP. by left.
  - eapply snapshot_holds_frame; [|done]. intros _. apply Ho, HP. by right; left.
Qed.

(** The files give back the map, also once the log is closed. *)
Definition restorable (ix : Index Key128) fs : Prop :=
  recoverable (opts_ ix) fs (map_ ix) /\ file_size (wal_path (opts_ ix)) fs < enc /\
  ((durable ix fs /\ log_size ix = 0) \/ wal_ ix = None).

Lemma durable_restorable (ix : Index Key128) fs :
  paths_ok (opts_ ix) -> durable ix fs -> log_size ix = 0 -> restorable ix fs.
Proof.
  intros Hp Hd Hz. split; [by apply durable_recoverable|]. split; [|by left].
  pose proof (durable_file_size ix fs Hd). unfold enc. lia.
Qed.

Lemma Checkpoint_restorable (ix : Index Key128) fs s ix' fs' :
  paths_ok (opts_ ix) -> snapshot_dir (opts_ ix) <> EmptyString -> restorable ix fs -> no_eio (fs_script fs) ->
  Checkpoint ix fs = (s, ix', fs') ->
  restorable ix' fs' /\ no_eio (fs_script fs') /\ opts_ ix' = opts_ ix /\ map_ ix' = map_ ix /\
  only (index_file (opts_ ix)) fs fs'.
Proof.
  intros Hp Hdir (Hrec & Hfs & Hcase) Hn E. pose proof (Checkpoint_frame _ _ _ _ _ E) as (Em & Eo & _).
  destruct Hcase as [[Hd Hz]|Hw].
  - pose proof (Checkpoint_only _ _ _ _ _ (durable_wal_at _ _ Hd) E) as Hon.
    pose proof (Checkpoint_size _ _ _ _ _ E) as Hz'. pose proof E as E'.
    apply Checkpoint_spec in E as (_ & _ & _ & Hq); [|done|done]. destruct (Hq Hn) as (Hn' & Hd' & _).
    split; [|done]. apply durable_restorable; [by rewrite Eo|done|]. destruct Hz' as [-> | ->]; done.
  - assert (wal_at ix) as Hat by (unfold wal_at; by rewrite Hw).
    pose proof (Checkpoint_only _ _ _ _ _ Hat E) as Hon. unfold Checkpoint in E.
    rewrite is_empty_false in E by done. unfold DumpSnapshot in E.
    set (final := SnapshotPath (snapshot_dir (opts_ ix))) in *. set (tmp := SnapshotTmpPath (snapshot_dir (opts_ ix))) in *.
    destruct (phmap_dump (map_ ix) tmp fs) as [ok fs1] eqn:Edump.
    apply phmap_dump_spec in Edump as (Hf1 & Himg & Hn1). destruct (Hn1 Hn) as [-> Hn1']. cbn [status_is_ok negb] in E.
    destruct (Himg eq_refl) as (f & Hf & Hi). destruct (sys_rename tmp final fs1) as [ok fs2] eqn:Er.
    apply (sys_rename_spec _ _ _ _ _ _ Hf) in Er as [Hcase Hn2]. destruct (Hn2 Hn1') as [-> Hn2'].
    destruct Hcase as [[_ Ef2]|[? _]]; [|done]. cbn [negb] in E. unfold RotateWal in E. rewrite Hw in E.
    injection E as <- <- <-. split; [|done]. pose proof Hp as (Hp1 & Hp2 & Hp3).
    assert (fs_files fs2 !! wal_path (opts_ ix) = fs_files fs !! wal_path (opts_ ix)) as Ewal.
    { rewrite Ef2, lookup_insert_ne, lookup_delete_ne by (by apply not_eq_sym). by apply Hf1. }
    split; [|split; [|by right]].
    + destruct Hrec as (base & rs & Hs & Hl & Er). exists (map_ ix), rs. split; [|split].
      * unfold snapshot_holds. rewrite is_empty_false by done. fold final. by rewrite Ef2, lookup_insert_eq.
      * unfold log_holds in *. by rewrite Ewal.
      * rewrite <- Er. apply replay_all_idem.
    + unfold file_size in *. by rewrite Ewal.
Qed.

Lemma Index_Close_restorable (ix : Index Key128) fs s ix' fs' :
  paths_ok (opts_ ix) -> restorable ix fs -> no_eio (fs_script fs) -> Index_Close ix fs = (s, ix', fs') ->
  restorable ix' fs' /\ no_eio (fs_script fs') /\ opts_ ix' = opts_ ix /\ map_ ix' = map_ ix /\
  only (index_file (opts_ ix)) fs fs'.
Proof.
  intros Hp Hres Hn E. pose proof Hres as (Hrec & Hfs & Hcase). unfold Index_Close in E.
  case_match; [injection E as <- <- <-; done|]. cbn [wal_ set_opened] in E.
  destruct (wal_ ix) as [w|] eqn:Ew.
  2: { injection E as <- <- <-. split; [|done]. split; [done|]. split; [done|]. by right. }
  destruct Hcase as [[Hd Hz]|?]; [|done]. destruct Hd as (base & rs & dur & w0 & [Hw Hl Hs] & Er).
  rewrite Ew in Hw. injection Hw as <-. destruct (WalWriter_Close w fs) as [[s1 w1] fs1] eqn:Ec.
  injection E as <- <- <-. pose proof (log_inv_close _ _ _ _ _ _ _ _ Hl Ec) as (Hl1 & Hf1 & Hn1).
  pose proof Hp as (Hp1 & Hp2 & _). split; [|split; [by apply Hn1|]; split; [done|]; split; [done|]].
  - split; [|split; [|by right]].
    + exists base, rs. split; [|split; [by eapply log_inv_holds|done]].
      eapply snapshot_holds_frame; [|exact Hs]. intros _. apply Hf1. by apply not_eq_sym.
    + unfold file_size in *. cbn [opts_ set_wal set_opened].
      destruct (log_file _ _ _ _ _ Hl) as (sy & tail & Hff & _). destruct (log_file _ _ _ _ _ Hl1) as (sy1 & tail1 & Hff1 & Ht1 & _).
      rewrite Hff1. cbn. rewrite length_app. unfold log_size in Hz. rewrite Ew, (log_bytes _ _ _ _ _ Hl) in Hz. unfold enc. lia.
  - intros q Hq. apply Hf1. intros ->. apply Hq. by left.
Qed.


(** ** A closed backend *)

(** The capacity of the cache for the number of segments in the options. *)
Definition disk_capacity o : option Z :=
  let slots := Nat.iter (Z.to_nat (segment_count o))
    (fun t => u64 (t + lay_total_slots (CalculateLayout (seg_cfg o)))) 0 in
  cap ← to_size_t (SFmul 53 1024 (f64_of_Z slots) (lfu_capacity_ratio o)); Some (if cap =? 0 then 1 else cap).

(** Options with which a backend can work. *)
Record bopts_ok o : Prop := {
  bo_root : root_dir o <> EmptyString;
  bo_slot : slot_ok o;
  bo_count : 0 < segment_count o <= 2 ^ 20;
  bo_config : config_ok (seg_cfg o);
  bo_slots : lay_total_slots (CalculateLayout (seg_cfg o)) <= 2 ^ 28;
  bo_tick : 0 <= lfu_age_tick_sec o;
  bo_capacity : SFltb (S754_zero false) (lfu_capacity_ratio o) = true -> is_Some (disk_capacity o);
}.

Lemma opened_capacity o m w :
  0 <= segment_count o -> opened o (segment_count o) m w -> lfu_capacity_of o m = disk_capacity o.
Proof.
  intros Hc [Hp Hs Hpath Hall]. unfold lfu_capacity_of, disk_capacity.
  rewrite (total_slots_const (lay_total_slots (CalculateLayout (seg_cfg o))) m).
  2: { intros a s Ha. destruct (ms_ok _ _ _ Hs a s Ha) as [[Hi _ _] Hcf]. by rewrite (sl_total _ (si_layout _ Hi)), Hcf. }
  assert (size (segments_ m) = Z.to_nat (segment_count o)) as ->; [|done].
  rewrite <- size_dom. replace (dom (segments_ m)) with (list_to_set (C := gset Z) (seqZ 0 (segment_count o))).
  - rewrite size_list_to_set by apply NoDup_seqZ. apply length_seqZ.
  - apply set_eq. intros a. rewrite elem_of_list_to_set, elem_of_seqZ, elem_of_dom. split.
    + intros Ha. apply Hall. lia.
    + intros [s Ha]. apply Hpath in Ha as [? _]. lia.
Qed.

Lemma live_opened o e : env_live o e -> opened o (segment_count o) (e_mgr e) (e_w e).
Proof.
  intros [Hok _ _ _ _ Hp _]. destruct (eo_store _ _ Hok) as [Hpart Hsegs _ _]. split; [done|done| |].
  - intros a s Ha. specialize (Hp a). unfold handles in Hp. rewrite lookup_fmap, Ha in Hp. cbn in Hp.
    case_decide; [|done]. split; [done|congruence].
  - intros a Ha. specialize (Hp a). rewrite decide_True in Hp by done. unfold handles in Hp. rewrite lookup_fmap in Hp.
    destruct (segments_ (e_mgr e) !! a); [by eexists|done].
Qed.

(** The files of a closed backend: the index's files hold the map [mp], the
    segment files the payloads it points to, which are those of [v]; the log
    has at most [L] bytes. *)
Record closed_with b v (L : Z) (mp : @gmap Key128 key_eq_dec key_countable Z) : Prop := {
  cl_ctx : context_ b = None;
  cl_map : recoverable (idx_opts (options_ b)) (b_fs b) mp;
  cl_index : index_ok (disk_view (options_ b) (b_w b)) mp;
  cl_payloads : map_Forall (fun _ p => is_Some (decoded p)) (contents (disk_view (options_ b) (b_w b)) mp);
  cl_view : v = omap decoded (contents (disk_view (options_ b) (b_w b)) mp);
  cl_room : SFltb (S754_zero false) (lfu_capacity_ratio (options_ b)) = true ->
    exists cap, disk_capacity (options_ b) = Some cap /\ Z.of_nat (size mp) <= cap;
  cl_size : file_size (wal_path (idx_opts (options_ b))) (b_fs b) <= L;
  cl_fs : no_eio (fs_script (b_fs b));
  cl_w : no_eio (fs_script (b_w b));
  cl_files : forall a, 0 <= a < segment_count (options_ b) ->
    seg_file_ok (seg_cfg (options_ b)) (file_data (segment_path (options_ b) a) (b_w b));
  cl_state : state_ok (state_path (options_ b)) (b_fs b);
}.

Definition closed b v (L : Z) : Prop := exists mp, closed_with b v L mp.

Lemma closed_mono b v L L' : L <= L' -> closed b v L -> closed b v L'.
Proof. intros Hle (mp & []). exists mp. split; try done. lia. Qed.

(** The cache of a running backend has room for its keys. *)
Lemma live_room b ctx :
  live b ctx -> SFltb (S754_zero false) (lfu_capacity_ratio (options_ b)) = true ->
  exists cap, disk_capacity (options_ b) = Some cap /\ Z.of_nat (size (map_ (c_ix ctx))) <= cap.
Proof.
  intros [Hx He Hl Hroot Hcnt] Hr. pose proof (live_opened _ _ He) as Hopen.
  destruct (c_lfu ctx) as [l|] eqn:El; [|unfold lfu_live in Hl; congruence]. destruct Hl as (_ & Hcap & Hcov).
  exists (Z.of_nat (lfu_capacity l)). split.
  - rewrite <- Hcap. symmetry. by eapply opened_capacity.
  - pose proof (xo_lfu _ _ Hx) as Hlok. rewrite El in Hlok. destruct Hlok as (Hck & _).
    pose proof (covers_size l _ Hck Hcov). lia.
Qed.

Lemma Close_index o (ix : Index Key128) fs (m : SegmentManager string) s1 ix1 fs1 s2 m2 fs2 s3 ix3 fs3 :
  root_dir o <> EmptyString -> opts_ ix = idx_opts o -> logging ix fs -> no_eio (fs_script fs) ->
  state_ok (state_path o) fs -> mgr_part m -> (forall id s, segments_ m !! id = Some s -> 0 <= id < 2 ^ 20) ->
  Checkpoint ix fs = (s1, ix1, fs1) -> SaveState iter (state_path o) m fs1 = (s2, m2, fs2) ->
  Index_Close ix1 fs2 = (s3, ix3, fs3) ->
  let fs4 := Index_destroy ix3 fs3 in
  recoverable (idx_opts o) fs4 (map_ ix) /\ file_size (wal_path (idx_opts o)) fs4 < enc /\ no_eio (fs_script fs4) /\
  state_ok (state_path o) fs4.
Proof using Type*.
  intros Hroot Eo Hd Hn Hst Hp Hids E1 E2 E3. pose proof (idx_paths_ok o Hroot) as Hpo. pose proof (state_not_index o Hroot) as [Hns Hnt].
  pose proof (Checkpoint_frame _ _ _ _ _ E1) as (Em1 & Eo1 & _). rewrite Eo in Eo1.
  pose proof (Checkpoint_only _ _ _ _ _ (logging_wal_at _ _ Hd) E1) as O1. rewrite Eo in O1.
  apply Checkpoint_quiet in E1 as (_ & Hd1 & Hz1 & Hn1); [|by rewrite Eo|by rewrite Eo|done|done].
  assert (restorable ix1 fs1) as R1 by (apply durable_restorable; [by rewrite Eo1|done|done]).
  assert (state_ok (state_path o) fs1) as S1 by (apply (state_ok_frame _ fs); [by apply O1|done]).
  pose proof (SaveState_files iter _ _ _ _ _ _ E2) as [O2 Hn2]. specialize (Hn2 Hn1).
  pose proof (SaveState_state_ok iter iter_ok _ _ _ _ _ _ Hp Hids E2 S1) as S2.
  assert (forall q, index_file (idx_opts o) q -> fs_files fs2 !! q = fs_files fs1 !! q) as O2'.
  { intros q Hq. apply O2. by intros [->| ->]. }
  assert (restorable ix1 fs2) as R2.
  { destruct R1 as (Hrec & Hfs & Hcase). split; [|split].
    - rewrite Eo1 in *. destruct Hrec as (base & rs & Hs & Hl & Er). exists base, rs. split; [|split; [|done]].
      + eapply snapshot_holds_frame; [|done]. intros _. apply O2'. by right; left.
      + unfold log_holds in *. rewrite O2' by (by left). done.
    - unfold file_size in *. rewrite Eo1 in *. by rewrite O2' by (by left).
    - destruct Hcase as [[Hdd Hzz]|?]; [left|by right]. split; [|done].
      eapply durable_frame; [exact O2| |done]. rewrite Eo1. intros q Hq. by intros [->| ->]. }
  destruct (Index_Close_restorable ix1 fs2 s3 ix3 fs3) as (R3 & Hn3 & Eo3 & Em3 & O3); [by rewrite Eo1|done|done|done|].
  rewrite Eo1 in Eo3, O3. unfold Index_destroy.
  destruct (Checkpoint ix3 fs3) as [[s4 ix4] fs4] eqn:E4.
  destruct (Checkpoint_restorable ix3 fs3 s4 ix4 fs4) as (R4 & Hn4 & Eo4 & Em4 & O4);
    [by rewrite Eo3|by rewrite Eo3|done|done|done|]. rewrite Eo3 in Eo4, O4.
  destruct (Index_Close ix4 fs4) as [[s5 ix5] fs5] eqn:E5.
  destruct (Index_Close_restorable ix4 fs4 s5 ix5 fs5) as ((Hrec & Hfs & _) & Hn5 & Eo5 & Em5 & O5);
    [by rewrite Eo4|done|done|done|]. rewrite Eo4 in Eo5, O5. rewrite Eo5 in *.
  split; [|split; [done|]; split; [done|]].
  - by rewrite Em5, Em4, Em3, Em1 in Hrec.
  - apply (state_ok_frame _ fs2); [|done]. rewrite O5, O4 by done. by apply O3.
Qed.

Lemma Close_closed b ctx : live b ctx -> closed (IndexBackend_Close iter b) (view b) enc.
Proof using Type*.
  intros Hlv. pose proof Hlv as [Hx He Hl Hroot Hcnt]. pose proof He as [Hok Hop Hd Hn Hw Hp Hst].
  set (o := options_ b) in *. pose proof (live_opened o _ He) as Hopen.
  destruct (eo_store _ _ Hok) as [Hpart Hsegs Hids _]. cbn [env_of e_ix e_fs e_mgr e_w] in *.
  unfold IndexBackend_Close. rewrite (xo_ctx _ _ Hx). fold o.
  destruct (Checkpoint (c_ix ctx) (b_fs b)) as [[s1 ix1] fs1] eqn:E1.
  destruct (SaveState iter (state_path o) (c_mgr ctx) fs1) as [[s2 m2] fs2] eqn:E2.
  destruct (Index_Close ix1 fs2) as [[s3 ix3] fs3] eqn:E3.
  destruct (Close_index o (c_ix ctx) (b_fs b) (c_mgr ctx) s1 ix1 fs1 s2 m2 fs2 s3 ix3 fs3) as (Hrec & Hfs & Hn' & Hst'); try done.
  apply SaveState_spec in E2 as (Em2 & _).
  destruct (destroy_segments_spec o (segment_count o) (c_mgr ctx) (b_w b) Hopen Hw) as (Hw' & Hdisk).
  change (destroy_segments (c_mgr ctx) (b_w b)) with (destroy_segments (tick (tick (c_mgr ctx))) (b_w b)) in *.
  rewrite <- Em2 in *. set (w' := destroy_segments m2 (b_w b)) in *.
  assert (v_same (e_view (env_of ctx b)) (disk_view o w')) as Hv.
  { intros a j. unfold disk_view, e_view. cbn [e_mgr e_w env_of]. case_decide as Ha; [by apply Hdisk|].
    unfold mgr_view. destruct (segments_ (c_mgr ctx) !! a) eqn:Es; [|done]. by apply (op_path _ _ _ _ Hopen) in Es as [? _]. }
  destruct (index_ok_same _ _ _ Hv (eo_index _ _ Hok)) as [Hi' Hc'].
  change (map_ (e_ix (env_of ctx b))) with (map_ (c_ix ctx)) in Hi', Hc'.
  exists (map_ (c_ix ctx)). split; cbn [options_ context_ b_fs b_w]; try done.
  - rewrite Hc'. apply (xo_payloads _ _ Hx).
  - rewrite Hc'. unfold view. by rewrite (xo_ctx _ _ Hx).
  - by apply live_room.
  - unfold enc in *. lia.
  - intros a Ha. by apply Hdisk.
Qed.


(** ** Opening a closed backend *)

Lemma make_dirs_quiet parts cur dirs fs :
  no_eio (fs_script fs) ->
  exists dirs' fs', make_dirs parts cur dirs fs = (true, dirs', fs') /\ fs_files fs' = fs_files fs /\ no_eio (fs_script fs').
Proof.
  revert cur dirs fs. induction parts as [|part parts IH]; intros cur dirs fs Hn; cbn [make_dirs]; [by eexists _, _|].
  case_match; [by apply IH|]. unfold sys_mkdir. destruct (sys_call_quiet fs Hn) as (sc & -> & Hn'). cbn [negb].
  destruct (IH ((if needs_slash cur then cur +:+ "/" else cur) +:+ part)
    ({[(if needs_slash cur then cur +:+ "/" else cur) +:+ part]} ∪ dirs) (mkFS (fs_files fs) sc) Hn') as (dirs' & fs' & -> & Ef & Hn'').
  by eexists _, _.
Qed.

Lemma EnsureDir_quiet dir dirs fs :
  dir <> EmptyString -> no_eio (fs_script fs) ->
  exists dirs' fs', EnsureDir dir dirs fs = (true, dirs', fs') /\ fs_files fs' = fs_files fs /\ no_eio (fs_script fs').
Proof.
  intros Hd Hn. unfold EnsureDir. rewrite is_empty_false by done. unfold sys_access.
  destruct (sys_call_quiet fs Hn) as (sc & -> & Hn'). case_match; [by eexists _, _|].
  destruct (make_dirs_quiet (split_on "/"%char EmptyString dir) (if starts_with_slash dir then "/"%string else EmptyString)
    dirs (mkFS (fs_files fs) sc) Hn') as (dirs' & fs' & -> & Ef & Hn''). by eexists _, _.
Qed.

Lemma recoverable_files (o : Options) fs fs' (m : gmap Key128 Z) :
  fs_files fs' = fs_files fs -> recoverable o fs m -> recoverable o fs' m.
Proof. intros E (base & rs & Hs & Hl & Er). exists base, rs. unfold snapshot_holds, log_holds in *. by rewrite E. Qed.

Context (key_order : @gmap Key128 key_eq_dec key_countable Z -> list Key128).
Hypothesis key_order_ok : forall m, key_order m ≡ₚ (map_to_list m).*1.

Lemma ForEachKey_list (ix : Index Key128) : ForEachKey key_order (fun k l => l ++ [k]) ix [] = key_order (map_ ix).
Proof.
  unfold ForEachKey. assert (forall (l acc : list Key128), foldl (fun x k => x ++ [k]) acc l = acc ++ l) as Hf.
  { intros l. induction l as [|k l IH]; intros acc; cbn [foldl]; [by rewrite app_nil_r|]. by rewrite IH, <- app_assoc. }
  by rewrite Hf.
Qed.

Lemma create_lfu_spec o clock m w (ix : Index Key128) :
  bopts_ok o -> opened o (segment_count o) m w ->
  (SFltb (S754_zero false) (lfu_capacity_ratio o) = true ->
     exists cap, disk_capacity o = Some cap /\ Z.of_nat (size (map_ ix)) <= cap) ->
  exists l, create_lfu key_order o clock m ix = Ret l /\ lfu_ok l /\ lfu_live o m (map_ ix) l.
Proof using Type*.
  intros Ho Hop Hroom. unfold create_lfu. destruct (SFltb _ _) eqn:Er; cbn [negb]; [|by exists None].
  pose proof (bo_count _ Ho) as Hcnt. destruct (Hroom eq_refl) as (cap & Hcap & Hsz).
  assert (lfu_capacity_of o m = Some cap) as Ecap by (rewrite <- Hcap; eapply opened_capacity; [lia|done]).
  rewrite Ecap. pose proof (lfu_capacity_pos o m cap Ecap) as Hpos. rewrite ForEachKey_list.
  set (c0 := lfuda_new (Z.to_nat cap) (lfu_age_tick_sec o * 1000) f32_half).
  assert (lfu_capacity c0 = Z.to_nat cap) as Ec0 by (unfold lfu_capacity; cbn; apply length_seq).
  assert (lfu_ok (Some c0)) as Hc0.
  { split; [apply lfuda_new_ok|]. split; [cbn; pose proof (bo_tick _ Ho); lia|]. split; [done|]. rewrite Ec0. lia. }
  destruct (rebuild_lfu_spec (key_order (map_ ix)) clock 0 c0 Hc0) as (c1 & -> & Hc1 & Ec1 & Ek).
  - change (entries c0) with ([] : list (element Key128 bool)). cbn. rewrite key_order_ok. apply NoDup_fst_map_to_list.
  - change (entries c0) with ([] : list (element Key128 bool)). rewrite key_order_ok, length_fmap, length_map_to_list, Ec0. cbn [length Nat.add]. lia.
  - cbn [mbind Outcome_bind]. eexists. split; [done|]. split; [done|]. split; [done|].
    split; [rewrite Ecap, Ec1, Ec0; f_equal; lia|]. intros k [a Hk]. rewrite Ek.
    change (entries c0) with ([] : list (element Key128 bool)). cbn. rewrite key_order_ok.
    by apply (list_elem_of_fmap_2 fst _ (k, a)), elem_of_map_to_list.
Qed.

Lemma CreateContext_opens clock b v L :
  bopts_ok (options_ b) -> closed b v L -> L < 2 ^ 63 ->
  exists b' ctx, CreateContext iter key_order clock b = Ret (BkOk, b') /\ live b' ctx /\
    options_ b' = options_ b /\ view b' = v /\
    durable (c_ix ctx) (b_fs b') /\ log_size (c_ix ctx) <= L /\ synced (c_mgr ctx) (b_w b') /\
    only (own (options_ b)) (b_fs b) (b_fs b') /\ only (own (options_ b)) (b_w b) (b_w b').
Proof using Type*.
  intros Ho (mp & [Hctx Hmap Hidx Hpay Hv Hroom Hsz Hfs Hw Hfiles Hst]) HL.
  unfold CreateContext. rewrite Hctx. set (o := options_ b) in *. pose proof Ho as [Hroot Hslot Hcnt Hcfg Hslots Htick _].
  assert (EnsureValidOptions o = BkOk) as ->.
  { unfold EnsureValidOptions. destruct Hslot as [? _]. rewrite (proj2 (Z.leb_gt _ _)) by lia.
    by rewrite (proj2 (Z.eqb_neq _ _)) by lia. }
  change (negb (code_is_ok BkOk)) with false. cbv iota.
  destruct (EnsureDir_quiet (root_dir o) (b_dirs b) (b_fs b) Hroot Hfs) as (dirs & fs1 & -> & Ef1 & Hn1). cbn [negb].
  destruct (open_segments_spec iter iter_ok o (Z.to_nat (segment_count o)) 0 SegmentManager_new (b_w b) Hcfg)
    as (m & w & Eos & Hw' & Hop & Hview & Hsy); [done|done| | |].
  { split; [apply SegmentManager_new_part| | |].
    - split; cbn; intros *; by rewrite ?lookup_empty.
    - cbn. intros a s. by rewrite lookup_empty.
    - intros a Ha. lia. }
  { intros a Ha. apply Hfiles. lia. }
  rewrite Eos. apply open_segments_only in Eos as Hon. change (negb (code_is_ok BkOk)) with false. cbv iota. rewrite Z.add_0_l, Z2Nat.id in Hop, Hview by lia.
  destruct (LoadState iter (state_path o) m fs1) as [[ls m'] fs2] eqn:El.
  assert (state_ok (state_path o) fs1) as Hst1 by (apply (state_ok_frame _ (b_fs b)); [by rewrite Ef1|done]).
  pose proof (LoadState_files iter _ _ _ _ _ _ El) as [Ef2 Hn2]. specialize (Hn2 Hn1).
  pose proof (LoadState_segments iter _ _ _ _ _ _ El) as Es.
  apply (LoadState_part iter iter_ok) in El as Hp'; [|apply Hop|exact Hst1|done].
  assert (opened o (segment_count o) m' w) as Hop'.
  { destruct Hop as [_ Hs Hpath Hall]. split; rewrite ?Es; try done. by apply (mgr_segs_same _ m). }
  assert (forall a j, mgr_view m' w a j = disk_view o (b_w b) a j) as Hview'.
  { intros a j. unfold mgr_view at 1. rewrite Es. fold (mgr_view m w a j). rewrite Hview. unfold disk_view.
    destruct (decide (0 <= a < segment_count o)); [done|]. unfold mgr_view. cbn. by rewrite lookup_empty. }
  assert (fs_files fs2 = fs_files (b_fs b)) as Ef by congruence.
  destruct (Index_Open_spec (K := Key128) (idx_opts o) fs2 mp) as (ix & fs3 & -> & Eo3 & Em3 & _ & _ & Hd3 & Hn3 & Hls & Hfr).
  { by apply idx_paths_ok. }
  { done. }
  { by apply (recoverable_files _ (b_fs b)). }
  { done. }
  { unfold file_size in *. rewrite Ef. lia. }
  cbn [status_is_ok negb]. destruct (create_lfu_spec o clock m' w ix Ho Hop') as (l & -> & Hlok & Hllv); [by rewrite Em3|].
  cbn [mbind Outcome_bind]. destruct (index_ok_same (disk_view o (b_w b)) (mgr_view m' w) mp) as [Hidx' Hcont]; [done|done|].
  eexists _, (mkContext m' ix l). split; [done|].
  set (b' := mkIndexBackend o (Some (mkContext m' ix l)) dirs fs3 w).
  assert (env_ok (seg_cfg o) (env_of (mkContext m' ix l) b')) as Henv.
  { split; cbn [env_of e_mgr e_w e_ix c_mgr c_ix b_w b'].
    - destruct Hop' as [Hpp Hss Hpath _]. split; try done. intros id s Hs. apply Hpath in Hs as [? _]. lia.
    - unfold e_view. cbn. by rewrite Em3.
    - unfold e_opts. cbn. by rewrite Eo3.
    - unfold e_opts. cbn. by rewrite Eo3.
    - done. }
  assert (e_contents (env_of (mkContext m' ix l) b') = contents (disk_view o (b_w b)) mp) as Hec.
  { unfold e_contents, e_view. cbn. by rewrite Em3, Hcont. }
  split; [|split; [done|]; split; [|split; [done|]; split; [|split; [|split; [|done]]]]].
  - split; cbn [options_ c_mgr c_ix c_lfu b']; try done; [| |lia].
    + split; try done. by rewrite Hec.
    + split; cbn [env_of e_mgr e_w e_ix e_fs c_mgr c_ix b_w b_fs b']; try done.
      * by apply durable_logging.
      * intros a. unfold handles. rewrite lookup_fmap. case_decide as Ha.
        -- destruct (op_all _ _ _ _ Hop' a Ha) as [s Hs]. rewrite Hs. cbn. f_equal. by apply (op_path _ _ _ _ Hop').
        -- destruct (segments_ m' !! a) eqn:Hs; [|done]. by apply (op_path _ _ _ _ Hop') in Hs as [? _].
      * apply (state_ok_frame _ (b_fs b)); [|done]. rewrite Hfr; [by rewrite Ef|].
        intros E. apply (proj1 (state_not_index o Hroot)). by left.
  - unfold view. cbn [context_ b']. by rewrite Hec, Hv.
  - cbn. unfold file_size in *. rewrite Ef in Hls. lia.
  - cbn. unfold synced in *. rewrite Es. apply Hsy. intros a s Ha. cbn in Ha. by rewrite lookup_empty in Ha.
  - cbn. intros q Hq. rewrite Hfr; [by rewrite Ef|]. intros ->. apply Hq. by left; left.
Qed.


(** C3: a clean restart loses nothing.  A backend opened on the files of a
    closed one (or on no files at all) has what was stored there; after any run
    of [Put], [Get], [Delete] and rounds of compaction, however the log was
    rotated and whatever was evicted on the way, [Close] and a new
    [CreateContext] succeed and give a backend that stores, key for key, what
    the old one stored.  (The run has a result unless it gets to a [Put] or a
    round when a segment that could be appended to is full.)  Calls may be
    interrupted and transfer less than asked, but none fails. *)
Theorem IndexBackend_restart (os : list bk_op) b v L (clock clock' : nat -> Z) :
  bopts_ok (options_ b) -> closed b v L -> L < 2 ^ 63 -> Forall bk_op_ok os ->
  exists b1, CreateContext iter key_order clock b = Ret (BkOk, b1) /\ view b1 = v /\
    match bk_run iter os b1 with
    | Ret (rs, b2) => closed (IndexBackend_Close iter b2) (view b2) enc /\
        exists b3, CreateContext iter key_order clock' (IndexBackend_Close iter b2) = Ret (BkOk, b3) /\ view b3 = view b2
    | UB => stuck iter os b1
    end.
Proof using Type*.
  intros Ho Hcl HL Hos.
  destruct (CreateContext_opens clock b v L Ho Hcl HL) as (b1 & ctx & E1 & Hlv & Eo & Ev & _).
  exists b1. split; [done|]. split; [done|].
  pose proof (bk_run_refines iter iter_ok os b1 (ex_intro _ ctx (lv_ctx _ _ Hlv)) Hos) as Hdef.
  destruct (bk_run iter os b1) as [[rs b2]|] eqn:Er; [clear Hdef|exact Hdef].
  destruct (bk_run_live os b1 ctx rs b2 Hlv Hos Er) as (Eo2 & ctx2 & Hlv2 & _).
  pose proof (Close_closed b2 ctx2 Hlv2) as Hcl2. split; [done|].
  assert (options_ (IndexBackend_Close iter b2) = options_ b) as Eo3.
  { unfold IndexBackend_Close. rewrite (xo_ctx _ _ (lv_ctx _ _ Hlv2)). repeat case_match. cbn. congruence. }
  destruct (CreateContext_opens clock' (IndexBackend_Close iter b2) (view b2) enc) as (b3 & ctx3 & E3 & _ & _ & Ev3 & _);
    [by rewrite Eo3|done|vm_compute; reflexivity|]. by exists b3.
Qed.

(** ** Crashes *)

(** The process is gone; the files stay as they are. *)
Definition crash b : IndexBackend := mkIndexBackend (options_ b) None (b_dirs b) (b_fs b) (b_w b).

Lemma crash_closed b ctx :
  live b ctx -> durable (c_ix ctx) (b_fs b) -> synced (c_mgr ctx) (b_w b) -> closed (crash b) (view b) (log_size (c_ix ctx) + enc).
Proof using Type*.
  intros Hlv Hd Hsy. pose proof Hlv as [Hx He Hl Hroot Hcnt]. pose proof He as [Hok Hop _ Hn Hw Hp Hst].
  set (o := options_ b) in *. pose proof (live_opened o _ He) as Hopen.
  pose proof (synced_on_disk o (segment_count o) (c_mgr ctx) (b_w b) Hopen Hsy) as Hdisk.
  assert (v_same (e_view (env_of ctx b)) (disk_view o (b_w b))) as Hv.
  { intros a j. unfold disk_view, e_view. cbn [e_mgr e_w env_of]. case_decide as Ha; [by apply Hdisk|].
    unfold mgr_view. destruct (segments_ (c_mgr ctx) !! a) eqn:Es; [|done]. by apply (op_path _ _ _ _ Hopen) in Es as [? _]. }
  destruct (index_ok_same _ _ _ Hv (eo_index _ _ Hok)) as [Hi' Hc'].
  change (map_ (e_ix (env_of ctx b))) with (map_ (c_ix ctx)) in Hi', Hc'. change (opts_ (c_ix ctx) = idx_opts o) in Hop.
  exists (map_ (c_ix ctx)). split; cbn [options_ context_ b_fs b_w crash]; try done; fold o.
  - rewrite <- Hop. apply durable_recoverable; [|done]. rewrite Hop. by apply idx_paths_ok.
  - rewrite Hc'. apply (xo_payloads _ _ Hx).
  - rewrite Hc'. unfold view. by rewrite (xo_ctx _ _ Hx).
  - by apply live_room.
  - pose proof (durable_file_size _ _ Hd) as Hsz. rewrite Hop in Hsz. unfold enc. lia.
  - intros a Ha. by apply Hdisk.
Qed.

(** C4: A process that is killed loses no acknowledged change.  A backend is opened
    on the files of a closed or killed one and does any run of [Put], [Get] and
    [Delete]; then the process stops without [Close].  A new [CreateContext]
    succeeds and gives a backend that stores, key for key, what the old one
    stored.  (The files are those the operating system has, no call failed, and
    no compaction ran; the bound is on the size of the log, two records for
    every call.) *)
Theorem IndexBackend_crash_restart (os : list bk_op) b v L (clock clock' : nat -> Z) :
  bopts_ok (options_ b) -> closed b v L -> Forall bk_op_ok os -> BStats ∉ os ->
  L + (2 * Z.of_nat (length os) + 1) * enc < 2 ^ 63 ->
  exists b1, CreateContext iter key_order clock b = Ret (BkOk, b1) /\ view b1 = v /\
    match bk_run iter os b1 with
    | Ret (rs, b2) => closed (crash b2) (view b2) (L + (2 * Z.of_nat (length os) + 1) * enc) /\
        exists b3, CreateContext iter key_order clock' (crash b2) = Ret (BkOk, b3) /\ view b3 = view b2
    | UB => stuck iter os b1
    end.
Proof using Type*.
  intros Ho Hcl Hos Hnc HL. pose proof enc_pos as Hpos.
  destruct (CreateContext_opens clock b v L Ho Hcl) as (b1 & ctx & E1 & Hlv & Eo & Ev & Hd & Hls & Hsy & _); [nia|].
  exists b1. split; [done|]. split; [done|].
  pose proof (bk_run_refines iter iter_ok os b1 (ex_intro _ ctx (lv_ctx _ _ Hlv)) Hos) as Hdef.
  destruct (bk_run iter os b1) as [[rs b2]|] eqn:Er; [clear Hdef|exact Hdef].
  destruct (bk_run_live os b1 ctx rs b2 Hlv Hos Er) as (Eo2 & ctx2 & Hlv2 & Hk). destruct (Hk Hnc) as [Hsy2 Hd2].
  destruct (Hd2 Hd) as [Hdur Hsz]; [cbn; nia|]. cbn [e_ix e_fs env_of] in Hdur, Hsz.
  assert (closed (crash b2) (view b2) (L + (2 * Z.of_nat (length os) + 1) * enc)) as Hcl2.
  { apply (closed_mono _ _ (log_size (c_ix ctx2) + enc)); [nia|]. apply crash_closed; [done|done|by apply Hsy2]. }
  split; [done|]. destruct (CreateContext_opens clock' (crash b2) (view b2) (L + (2 * Z.of_nat (length os) + 1) * enc))
    as (b3 & ctx3 & E3 & _ & _ & Ev3 & _); [cbn; by rewrite Eo2, Eo|done|done|]. by exists b3.
Qed.

(** No files: nothing is stored. *)
Lemma closed_fresh o dirs : bopts_ok o -> closed (mkIndexBackend o None dirs (mkFS ∅ []) (mkFS ∅ [])) ∅ 0.
Proof.
  intros Ho.
  exists ∅. split; cbn [options_ context_ b_fs b_w]; try done.
  - exists ∅, []. unfold snapshot_holds, log_holds. cbn. rewrite !lookup_empty. by repeat case_match.
  - intros Hr. destruct (bo_capacity _ Ho Hr) as [cap Hcap]. exists cap. split; [done|]. rewrite map_size_empty.
    unfold disk_capacity in Hcap. destruct (to_size_t _) as [z|] eqn:E; [|done]. apply to_size_t_nonneg in E.
    cbn in Hcap. destruct (Z.eqb_spec z 0); injection Hcap as <-; lia.
  - by constructor.
  - by constructor.
Qed.

End live.
