(* ===== verification/BackendFrame.v ===== *)
(** * Backends touch only their own files

    Every operation of the index backend, [CreateContext] and [Close] included,
    changes only the files in its own directory ([own]), and what is known of a
    backend, running or closed, depends only on those files. *)

From stdpp Require Import pretty.
From S2P Require Import Prelude Common Sys Key Wal SegmentBase SegmentOps SegmentFile SegmentManager ManagerState.
From S2P Require Import ManagerTheorems Index IndexData IndexCompaction IndexRecovery IndexTheorems Lfuda LfudaTheorems.
From S2P Require Import Backend IndexBackend IndexBackendTheorems BackendFiles IndexLogging BackendDisk BackendRestart.

(** ** The log stays where it is *)

Section log.
Context {K : Type} `{!KeyT K} `{!KeyTLaws K} `{!Phmap K} `{!PhmapLaws K}.
Implicit Types (ix : Index K) (fs : FS).

Lemma Checkpoint_wal_at ix fs s ix' fs' : wal_at ix -> Checkpoint ix fs = (s, ix', fs') -> wal_at ix'.
Proof.
  intros Hw. unfold Checkpoint. destruct (is_empty _); [by intros [= <- <- <-]|].
  destruct (DumpSnapshot _ _ _) as [s1 fs1]. destruct (negb _); [by intros [= <- <- <-]|].
  destruct (sys_rename _ _ _) as [ok fs2]. destruct (negb ok); [by intros [= <- <- <-]|].
  unfold RotateWal. destruct (wal_ ix) as [w|] eqn:Ew; [|intros [= <- <- <-]; unfold wal_at; by rewrite Ew].
  destruct (WalWriter_Close w fs2) as [[s3 w3] fs3]. destruct (WalWriter_Open _ _ _ fs3) as [[s4 w4] fs4] eqn:E4.
  destruct (negb _) eqn:Es; intros [= <- <- <-]; [done|]. unfold wal_at. cbn [wal_ set_wal_bytes set_wal opts_].
  unfold WalWriter_Open in E4. cbn [ww_fd WalWriter_new] in E4. repeat (case_match; simplify_eq/=); done.
Qed.

Lemma AppendWal_wal_at ty k a b ix fs s ix' fs' : wal_at ix -> AppendWal ty k a b ix fs = (s, ix', fs') -> wal_at ix'.
Proof.
  intros Hw. unfold AppendWal. unfold wal_at in Hw. destruct (wal_ ix) as [w|] eqn:Ew.
  2: { intros [= <- <- <-]. unfold wal_at. by rewrite Ew. }
  destruct (AppendRecord _ w fs) as [[s1 w1] fs1] eqn:E1.
  apply (only_Append (fun _ => True) (wal_path (opts_ ix))) in E1 as [_ Hw1]; [|done|done].
  destruct (negb _); [by intros [= <- <- <-]|]. destruct (_ && _ && _); [|by intros [= <- <- <-]].
  destruct (Checkpoint _ fs1) as [[s2 ix2] fs2] eqn:E2. apply Checkpoint_wal_at in E2; [|done]. by intros [= <- <- <-].
Qed.

Lemma Index_Close_only ix fs s ix' fs' :
  wal_at ix -> Index_Close ix fs = (s, ix', fs') -> only (index_file (opts_ ix)) fs fs' /\ wal_at ix' /\ opts_ ix' = opts_ ix.
Proof.
  intros Hw. unfold Index_Close. case_match; [by intros [= <- <- <-]|]. cbn [wal_ set_opened]. unfold wal_at in Hw.
  destruct (wal_ ix) as [w|] eqn:Ew.
  - destruct (WalWriter_Close w fs) as [[s1 w1] fs1] eqn:E1. intros [= <- <- <-]. split; [|done].
    apply (only_Close (index_file (opts_ ix)) (wal_path (opts_ ix))) in E1; [done|by left|done].
  - intros [= <- <- <-]. split; [done|]. split; [|done]. unfold wal_at. cbn. by rewrite Ew.
Qed.

Lemma Index_destroy_only ix fs : wal_at ix -> only (index_file (opts_ ix)) fs (Index_destroy ix fs).
Proof.
  intros Hw. unfold Index_destroy. destruct (Checkpoint ix fs) as [[s1 ix1] fs1] eqn:E1.
  pose proof (Checkpoint_frame _ _ _ _ _ E1) as (_ & Eo & _). pose proof (Checkpoint_wal_at _ _ _ _ _ Hw E1) as Hw1.
  apply Checkpoint_only in E1; [|done]. destruct (Index_Close ix1 fs1) as [[s2 ix2] fs2] eqn:E2.
  apply Index_Close_only in E2 as (O2 & _); [|done]. rewrite Eo in O2. by etrans.
Qed.

End log.

(** ** The index on its own files *)

Section env.
Context `{!Phmap Key128} `{!PhmapLaws Key128} (iter : nat -> gset Z -> list Z) (o : BOptions).
Implicit Types (e : Env Key128 string FS) (m : SegmentManager string).

Definition owned m : Prop := forall a h, handles m !! a = Some h -> own o h.

(** The log and the segments are files of the backend. *)
Definition at_home e : Prop := wal_at (e_ix e) /\ e_opts e = idx_opts o /\ owned (e_mgr e).

(** A step that changes no other files. *)
Definition stays e e' : Prop :=
  at_home e -> at_home e' /\ only (own o) (e_fs e) (e_fs e') /\ only (own o) (e_w e) (e_w e').

#[export] Instance stays_preorder : PreOrder stays.
Proof.
  split; [done|]. intros e1 e2 e3 H1 H2 Hh. destruct (H1 Hh) as (Hh2 & ? & ?). destruct (H2 Hh2) as (? & ? & ?).
  split; [done|]. split; by etrans.
Qed.

Lemma owned_segment e a s : at_home e -> segments_ (e_mgr e) !! a = Some s -> own o (seg_handle s).
Proof. intros (_ & _ & Ho) Hs. apply (Ho a). unfold handles. by rewrite lookup_fmap, Hs. Qed.

(** Writes and reads of the segments. *)
Lemma write_own h buf off w s w' (x : FS) : own o h -> only (own o) x w -> st_write h buf off w = (s, w') -> only (own o) x w'.
Proof. intros Hh Hx E. etrans; [exact Hx|]. by apply (only_pwrite (own o)) in E. Qed.

Lemma read_own h n off w s got w' (x : FS) :
  own o h -> only (own o) x w -> st_read h n off w = (s, got, w') -> only (own o) x w'.
Proof. intros Hh Hx E. etrans; [exact Hx|]. apply only_files. by apply PRead_files in E. Qed.

Lemma stays_store e m w :
  (at_home e -> handles m = handles (e_mgr e) /\ only (own o) (e_w e) w) -> stays e (set_store m w e).
Proof. intros H Hh. destruct (H Hh) as [Eh Ow]. destruct Hh as (? & ? & Ho). split; [|done]. split; [done|]. split; [done|]. intros a h. cbn. rewrite Eh. apply Ho. Qed.

Lemma stays_map e mp : stays e (set_ix (set_map mp (e_ix e)) e).
Proof. intros Hh. by split. Qed.

Lemma FreeSlot_stays enc e s e' : FreeSlot enc e = Ret (s, e') -> stays e e'.
Proof.
  unfold FreeSlot, GetSegment. case_match; [by intros [= <- <-]|]. case_match; [done|].
  destruct (segments_ (e_mgr e) !! _) as [seg|] eqn:Es; [|by intros [= <- <-]].
  destruct (Delete _ _ _) as [[s1 seg1] w1] eqn:Ed. intros [= <- <-]. apply stays_store. intros Hh.
  split; [eapply handles_put; [done|by eapply Delete_handle]|].
  apply (Delete_keeps (fun w x => only (own o) x w) (own o) write_own _ _ _ (e_w e)) in Ed; [done|by eapply owned_segment|done].
Qed.

Lemma insert_into_stays id (k : Key128) v e s out e' : insert_into id k v e = Ret (s, out, e') -> stays e e'.
Proof.
  unfold insert_into. destruct (segments_ (e_mgr e) !! id) as [seg|] eqn:Es; [|done].
  destruct (Insert _ _ _ _ _) as [[[s1 o1] seg1] w1] eqn:Ei. intros [= <- <- <-]. apply stays_store. intros Hh.
  split; [eapply handles_put; [done|by eapply Insert_handle]|].
  apply (Insert_keeps (fun w x => only (own o) x w) (own o) write_own _ _ _ _ _ (e_w e)) in Ei; [done|by eapply owned_segment|done].
Qed.

Lemma active_segment_stays e out e' : active_segment iter e = Ret (out, e') -> stays e e'.
Proof.
  unfold active_segment. destruct (GetActiveSegment iter (e_mgr e)) as [[o1 m1]|] eqn:E; [|done]. intros [= <- <-].
  apply stays_store. intros _. split; [|done]. unfold handles. by rewrite (GetActiveSegment_segments _ _ _ _ E).
Qed.

Lemma WriteToSegment_stays (k : Key128) v e s enc e' : WriteToSegment iter k v e = Ret (s, enc, e') -> stays e e'.
Proof.
  unfold WriteToSegment. destruct (active_segment iter e) as [[o1 e1]|] eqn:E1; [|done]. cbn [mbind Outcome_bind].
  apply active_segment_stays in E1. destruct o1 as [id|]; [|by intros [= <- <- <-]].
  destruct (insert_into id k v e1) as [[[s2 o2] e2]|] eqn:E2; [|done]. cbn [mbind Outcome_bind].
  apply insert_into_stays in E2. assert (stays e e2) as S2 by (by etrans). case_bool_decide.
  2: case_match; by intros [= <- <- <-].
  pose proof (MarkSegmentFull_segments id (e_mgr e2)) as Em. destruct (MarkSegmentFull id (e_mgr e2)) as [s3 m3]. cbn in Em.
  assert (stays e2 (set_store m3 (e_w e2) e2)) as S3.
  { apply stays_store. intros _. split; [|done]. unfold handles. by rewrite Em. }
  destruct (active_segment iter _) as [[o4 e4]|] eqn:E4; [|done]. cbn [mbind Outcome_bind]. apply active_segment_stays in E4.
  assert (stays e e4) as S4 by (etrans; [exact S2|by etrans]). destruct o4 as [id4|]; [|by intros [= <- <- <-]].
  destruct (insert_into id4 k v e4) as [[[s5 o5] e5]|] eqn:E5; [|done]. cbn [mbind Outcome_bind].
  apply insert_into_stays in E5. case_match; intros [= <- <- <-]; by etrans.
Qed.

Lemma append_wal_stays ty (k : Key128) a b e s e' : append_wal ty k a b e = (s, e') -> stays e e'.
Proof.
  unfold append_wal. destruct (AppendWal _ _ _ _ _ _) as [[s1 ix1] fs1] eqn:E. intros [= <- <-] (Hw & Eo & Ho).
  pose proof (AppendWal_frame _ _ _ _ _ _ _ _ _ E) as [_ Eo1]. pose proof (AppendWal_wal_at _ _ _ _ _ _ _ _ _ Hw E) as Hw1.
  apply AppendWal_only in E; [|done]. change (opts_ (e_ix e)) with (e_opts e) in E, Eo1. rewrite Eo in E, Eo1.
  split; [done|]. split; [|done]. intros q Hq. apply E. intros Hi. apply Hq. by left.
Qed.

Lemma Put_stays (k : Key128) v n e s e' : Put iter k v n e = Ret (s, e') -> stays e e'.
Proof.
  unfold Put. destruct v as [v|]; [|by intros [= <- <-]]. do 2 (case_match; [by intros [= <- <-]|]).
  destruct (WriteToSegment iter k v e) as [[[s1 enc] e1]|] eqn:E1; [|done]. cbn [mbind Outcome_bind].
  apply WriteToSegment_stays in E1. case_match; [by intros [= <- <-]|].
  match goal with |- context [append_wal ?t k enc ?x ?y] => destruct (append_wal t k enc x y) as [ws e2] eqn:E2 end.
  apply append_wal_stays in E2. assert (stays e e2) as S2 by (etrans; [exact E1|]; etrans; [apply stays_map|exact E2]).
  clear E1 E2. case_match.
  - match goal with |- context [FreeSlot enc ?y] => destruct (FreeSlot enc y) as [[s3 e3]|] eqn:E3 end; [|done].
    apply FreeSlot_stays in E3. intros [= <- <-]. etrans; [exact S2|]. etrans; [apply stays_map|exact E3].
  - case_match; [|by intros [= <- <-]]. destruct (FreeSlot _ e2) as [[s3 e3]|] eqn:E3; [|done].
    apply FreeSlot_stays in E3. intros [= <- <-]. by etrans.
Qed.

Lemma Index_Delete_stays (k : Key128) e s e' : Index_Delete k e = Ret (s, e') -> stays e e'.
Proof.
  unfold Index_Delete. case_match; [|by intros [= <- <-]].
  match goal with |- context [append_wal ?t k 0 ?x ?y] => destruct (append_wal t k 0 x y) as [ws e2] eqn:E2 end.
  apply append_wal_stays in E2. assert (stays e e2) as S2 by (etrans; [apply stays_map|exact E2]). clear E2. case_match.
  - intros [= <- <-]. etrans; [exact S2|apply stays_map].
  - destruct (FreeSlot _ e2) as [[s3 e3]|] eqn:E3; [|done]. apply FreeSlot_stays in E3. intros [= <- <-]. by etrans.
Qed.

Lemma Get_stays (k : Key128) b n e s out e' : Get k b n e = Ret (s, out, e') -> stays e e'.
Proof.
  unfold Get, GetSegment. destruct (negb b); [by intros [= <- <- <-]|]. destruct (negb (_ =? _)); [by intros [= <- <- <-]|].
  destruct (Lookup _ _ _) as [s1 [enc|]]; [|destruct s1; by intros [= <- <- <-]].
  destruct s1; [|by intros [= <- <- <-]..]. destruct (negb (bool_decide _)); [by intros [= <- <- <-]|]. destruct (negb _); [done|].
  destruct (segments_ (e_mgr e) !! _) as [seg|] eqn:Es; [|by intros [= <- <- <-]].
  destruct (Read _ _ _ _ _) as [[[s2 o2] v2] w2] eqn:Er. intros [= <- <- <-]. apply stays_store. intros Hh. split; [done|].
  apply (Read_keeps (fun w x => only (own o) x w) (own o) read_own _ _ _ _ _ (e_w e)) in Er; [done|by eapply owned_segment|done].
Qed.

Lemma slot_moved_home key a i b j x0 fs0 w0 w (x : Index Key128 * FS) :
  x0 = idx_opts o ->
  wal_at x.1 /\ opts_ x.1 = x0 /\ only (own o) fs0 x.2 /\ only (own o) w0 w ->
  let x' := slot_moved key a i b j x in wal_at x'.1 /\ opts_ x'.1 = x0 /\ only (own o) fs0 x'.2 /\ only (own o) w0 w.
Proof.
  intros -> (Hw & Eo & Of & Ow). destruct x as [ix fs]. cbn [fst snd] in *. unfold slot_moved.
  destruct (AppendWal _ _ _ _ ix fs) as [[s1 ix1] fs1] eqn:E. pose proof (AppendWal_frame _ _ _ _ _ _ _ _ _ E) as [_ Eo1].
  pose proof (AppendWal_wal_at _ _ _ _ _ _ _ _ _ Hw E) as Hw1. apply AppendWal_only in E; [|done]. rewrite Eo in E.
  assert (only (own o) fs0 fs1) as O1 by (etrans; [exact Of|]; intros q Hq; apply E; intros Hi; apply Hq; by left).
  rewrite Eo in Eo1. unfold RemapIfEquals. repeat case_match; simplify_eq/=; done.
Qed.

Lemma compact_index_stays e s e' : compact_index iter e = Ret (s, e') -> stays e e'.
Proof.
  unfold compact_index. destruct (RunCompaction _ _ _ _ _) as [[[[st m] w] x]|] eqn:E; [|done]. intros [= <- <-] (Hw & Eo & Ho).
  pose proof (RunCompaction_handles _ _ _ _ _ _ _ _ _ E) as Eh.
  apply (RunCompaction_keeps (fun w x => wal_at x.1 /\ opts_ x.1 = idx_opts o /\ only (own o) (e_fs e) x.2 /\ only (own o) (e_w e) w) (own o)) in E.
  - destruct E as (? & ? & ? & ?). split; [|done]. split; [done|]. split; [done|]. unfold owned. cbn. by rewrite Eh.
  - intros h buf off w1 s1 w2 x1 Hh (? & ? & ? & ?) Ew. do 3 (split; [done|]). by eapply write_own.
  - intros h n off w1 s1 got w2 x1 Hh (? & ? & ? & ?) Ew. do 3 (split; [done|]). by eapply read_own.
  - intros f key a i b j w1 x1 Hf HQ. unfold AttachToSegmentManager in Hf. case_match; [|done]. injection Hf as <-.
    by apply slot_moved_home.
  - intros a s1 Hs. apply (Ho a). unfold handles. by rewrite lookup_fmap, Hs.
  - done.
Qed.

End env.

(** ** The backend on its own files *)

(** What the eviction callback keeps. *)
Lemma lfu_insert_keeps {K V X : Type} `{Countable K} `{!Inhabited K, !Inhabited V} `{!Btree} (Q : X -> Prop) (f : K -> V -> X -> Outcome (V * X)) k v a now c x r c' x' :
  (forall k v x v' x', f k v x = Ret (v', x') -> Q x -> Q x') -> Q x ->
  lfu_insert (Some f) k v a now c x = Ret (r, c', x') -> Q x'.
Proof.
  intros Hf HQ. unfold lfu_insert, do_insert_update. destruct (m_keyed_elements c !! k) as [pos|].
  - case_match; [|by intros [= <- <- <-]]. destruct (do_update _ _ _ c); [|done]. by intros [= <- <- <-].
  - case_match; [|by intros [= <- <- <-]]. unfold do_insert.
    set (pr := if (length (m_dynamic_age_list c) <=? m_used_size c)%nat then do_prune (Some f) now c x else Ret (c, x)).
    assert (forall y, pr = Ret y -> Q y.2) as Hp.
    { intros y. unfold pr. case_match; [|by intros [= <-]]. unfold do_prune. case_match; [by intros [= <-]|].
      destruct (do_dynamic_age now c) as [[? c1]|]; [|done]. cbn [mbind Outcome_bind]. destruct (m_lfu_list c1) as [|[? victim] ?]; [done|].
      destruct (deref victim c1) as [el|]; [|done]. cbn [mbind Outcome_bind].
      destruct (f (m_key el) (m_value el) x) as [[v1 x1]|] eqn:Ef; [|done]. cbn [mbind Outcome_bind].
      destruct (do_erase _ _); [|done]. intros [= <-]. by eapply Hf. }
    destruct pr as [[c1 x1]|]; [|done]. specialize (Hp _ eq_refl). cbn [mbind Outcome_bind].
    destruct (fill_open _ _ _ _); [|done]. by intros [= <- <- <-].
Qed.

Section backend.
Context `{!Phmap Key128} `{!PhmapLaws Key128} `{!Btree} (iter : nat -> gset Z -> list Z).
Implicit Types b : IndexBackend.

(** The files of others are what they were. *)
Definition framed b b' : Prop := only (own (options_ b)) (b_fs b) (b_fs b') /\ only (own (options_ b)) (b_w b) (b_w b').

Lemma framed_env b ctx e l :
  context_ b = Some ctx -> at_home (options_ b) (env_of ctx b) -> stays (options_ b) (env_of ctx b) e -> framed b (with_env e l b).
Proof. intros Hc Hh Hs. by destruct (Hs Hh) as (_ & ? & ?). Qed.

Lemma probe_stays o k b e found e' : probe k b e = Ret (found, e') -> stays o e e'.
Proof.
  unfold probe. destruct (Get _ _ _ e) as [[[s out] e1]|] eqn:E; [|done]. cbn [mbind Outcome_bind]. apply (Get_stays o) in E.
  repeat case_match; by intros [= <- <-].
Qed.

Lemma Put_framed key v md opts clock b ctx r b' :
  context_ b = Some ctx -> at_home (options_ b) (env_of ctx b) ->
  IndexBackend_Put iter key v md opts clock b = Ret (r, b') -> framed b b'.
Proof.
  intros Hc Hh. unfold IndexBackend_Put. case_match; [|by intros [= <- <-]]. rewrite Hc.
  match goal with |- context [if ?c then ?x else ?y] => destruct (if c then x else y) as [[found e]|] eqn:Ef end; [|done].
  cbn [mbind Outcome_bind]. assert (stays (options_ b) (env_of ctx b) e) as S1.
  { case_match; [by eapply probe_stays|]. by injection Ef as <- <-. }
  assert (forall e l, stays (options_ b) (env_of ctx b) e -> framed b (with_env e l b)) as Hdone by (intros; by eapply framed_env).
  destruct found; [intros [= <- <-]; by apply Hdone|]. destruct (EncodePayload _ _ _) as [[? ?]|payload]; [intros [= <- <-]; by apply Hdone|].
  destruct (Put iter _ _ _ e) as [[s e2]|] eqn:E2; [|done]. cbn [mbind Outcome_bind]. apply (Put_stays iter (options_ b)) in E2.
  assert (stays (options_ b) (env_of ctx b) e2) as S2 by (by etrans). destruct (negb (status_is_ok s)); [intros [= <- <-]; by apply Hdone|].
  destruct (c_lfu ctx) as [lfu|]; [|intros [= <- <-]; by apply Hdone].
  destruct (lfu_insert _ _ _ _ _ _ e2) as [[[? lfu3] e3]|] eqn:E3; [|done]. cbn [mbind Outcome_bind]. intros [= <- <-]. apply Hdone.
  refine (lfu_insert_keeps (stays (options_ b) (env_of ctx b)) _ _ _ _ _ _ _ _ _ _ _ S2 E3).
  intros k0 v0 e4 v5 e5 Ee S4. cbn in Ee. destruct (Index_Delete k0 e4) as [[? e6]|] eqn:Ed; [|done]. injection Ee as <- <-.
  apply (Index_Delete_stays (options_ b)) in Ed. by etrans.
Qed.

Lemma Get_framed key opts clock b ctx r b' :
  context_ b = Some ctx -> at_home (options_ b) (env_of ctx b) -> IndexBackend_Get key opts clock b = Ret (r, b') -> framed b b'.
Proof.
  intros Hc Hh. unfold IndexBackend_Get. case_match; [|by intros [= <- <-]]. rewrite Hc.
  destruct (Get _ _ _ _) as [[[s out] e]|] eqn:E; [|done]. cbn [mbind Outcome_bind]. apply (Get_stays (options_ b)) in E.
  assert (forall l, framed b (with_env e l b)) as Hdone by (intros; by eapply framed_env).
  destruct (negb (status_is_ok s)); [intros [= <- <-]; by apply Hdone|]. destruct (DecodePayload _) as [[? ?]|[? ?]]; [intros [= <- <-]; by apply Hdone|].
  destruct (match c_lfu ctx with Some _ => _ | None => _ end); [|done]. cbn [mbind Outcome_bind]. intros [= <- <-]. by apply Hdone.
Qed.

Lemma Delete_framed key b ctx r b' :
  context_ b = Some ctx -> at_home (options_ b) (env_of ctx b) -> IndexBackend_Delete key b = Ret (r, b') -> framed b b'.
Proof.
  intros Hc Hh. unfold IndexBackend_Delete. case_match; [|by intros [= <- <-]]. rewrite Hc.
  destruct (Index_Delete _ _) as [[s e]|] eqn:E; [|done]. cbn [mbind Outcome_bind]. apply (Index_Delete_stays (options_ b)) in E.
  assert (forall l, framed b (with_env e l b)) as Hdone by (intros; by eapply framed_env).
  destruct (negb (status_is_ok s)); [intros [= <- <-]; by apply Hdone|].
  destruct (match c_lfu ctx with Some _ => _ | None => _ end); [|done]. cbn [mbind Outcome_bind]. intros [= <- <-]. by apply Hdone.
Qed.

Lemma bk_step_framed op b ctx r b' :
  context_ b = Some ctx -> at_home (options_ b) (env_of ctx b) -> bk_step iter op b = Ret (r, b') -> framed b b'.
Proof.
  intros Hc Hh. destruct op as [key v md opts clock|key opts clock|key|]; cbn [bk_step].
  - destruct (IndexBackend_Put _ _ _ _ _ _ b) as [[? ?]|] eqn:E; [|done]. intros [= <- <-]. by eapply Put_framed.
  - destruct (IndexBackend_Get _ _ _ b) as [[? ?]|] eqn:E; [|done]. intros [= <- <-]. by eapply Get_framed.
  - destruct (IndexBackend_Delete _ b) as [[? ?]|] eqn:E; [|done]. intros [= <- <-]. by eapply Delete_framed.
  - unfold StatsTick. rewrite Hc. destruct (compact_index iter _) as [[s e]|] eqn:E; [|done]. cbn [mbind Outcome_bind].
    intros [= <- <-]. eapply framed_env; [done|done|]. by eapply compact_index_stays.
Qed.

Lemma destroy_segments_only o (m : SegmentManager string) w : owned o m -> only (own o) w (destroy_segments m w).
Proof.
  intros Ho. unfold destroy_segments.
  assert (forall p, p ∈ map_to_list (segments_ m) -> own o (seg_handle p.2)) as Hl.
  { intros [a s] Hs%elem_of_map_to_list. apply (Ho a). unfold handles. by rewrite lookup_fmap, Hs. }
  induction (map_to_list (segments_ m)) as [|p l IH]; [done|]. cbn [foldr].
  etrans; [apply IH; intros q Hq; apply Hl; by right|]. destruct (SegmentFile_Close _ _) as [[st s1] w1] eqn:E.
  apply SegmentFile_Close_files in E as [E _]. intros q Hq. apply E. intros ->. apply Hq, Hl. by left.
Qed.

Lemma Close_framed b ctx :
  context_ b = Some ctx -> at_home (options_ b) (env_of ctx b) -> framed b (IndexBackend_Close iter b).
Proof.
  intros Hc (Hw & Eo & Ho). unfold IndexBackend_Close. rewrite Hc. set (o := options_ b) in *.
  destruct (Checkpoint (c_ix ctx) (b_fs b)) as [[s1 ix1] fs1] eqn:E1.
  destruct (SaveState iter (state_path o) (c_mgr ctx) fs1) as [[s2 m2] fs2] eqn:E2.
  destruct (Index_Close ix1 fs2) as [[s3 ix3] fs3] eqn:E3. change (opts_ (c_ix ctx) = idx_opts o) in Eo.
  pose proof (Checkpoint_frame _ _ _ _ _ E1) as (_ & Eo1 & _). rewrite Eo in Eo1.
  pose proof (Checkpoint_wal_at _ _ _ _ _ Hw E1) as Hw1. apply Checkpoint_only in E1; [|done]. rewrite Eo in E1.
  apply SaveState_files in E2 as Hs2. destruct Hs2 as [O2 _]. apply SaveState_spec in E2 as (Em2 & _).
  apply Index_Close_only in E3 as (O3 & Hw3 & Eo3); [|done]. rewrite Eo1 in O3, Eo3.
  pose proof (Index_destroy_only ix3 fs3 Hw3) as O4. rewrite Eo3 in O4.
  assert (forall fs fs', only (index_file (idx_opts o)) fs fs' -> only (own o) fs fs') as Hix.
  { intros fs fs' Hoo q Hq. apply Hoo. intros Hi. apply Hq. by left. }
  split; cbn [b_fs b_w]; fold o.
  - transitivity fs1; [by apply Hix|]. transitivity fs2; [|transitivity fs3; by apply Hix].
    intros q Hq. apply O2. intros [->| ->]; apply Hq; [by right; left|by right; right; left].
  - apply destroy_segments_only. by rewrite Em2.
Qed.

Lemma live_at_home b ctx : live b ctx -> context_ b = Some ctx /\ at_home (options_ b) (env_of ctx b).
Proof.
  intros [Hx He _ _ _]. split; [apply Hx|]. split; [apply (logging_wal_at _ (b_fs b)), He|]. split; [apply He|].
  intros a h Ha. rewrite (el_path _ _ He) in Ha. case_decide; [|done]. injection Ha as <-. apply own_segment.
Qed.

End backend.

(** ** What is known of a backend depends on its own files *)

Section local.
Context `{!Phmap Key128} `{!PhmapLaws Key128} `{!Btree}.

Definition same_on (o : BOptions) (fs fs' : FS) : Prop := forall q, own o q -> fs_files fs' !! q = fs_files fs !! q.

Lemma same_on_data o fs fs' a : same_on o fs fs' -> file_data (segment_path o a) fs' = file_data (segment_path o a) fs.
Proof. intros Hs. unfold file_data. by rewrite Hs by apply own_segment. Qed.

(** The backend with other files. *)
Definition on_files (dirs : gset string) (fs w : FS) (b : IndexBackend) : IndexBackend :=
  mkIndexBackend (options_ b) (context_ b) dirs fs w.

Lemma env_local o c (e : Env Key128 string FS) fs w :
  (forall a h, handles (e_mgr e) !! a = Some h -> exists a', h = segment_path o a') -> env_ok c e -> same_on o (e_w e) w ->
  let e' := mkEnv (e_ix e) fs (e_mgr e) w in env_ok c e' /\ e_contents e' = e_contents e.
Proof.
  intros Hh [[Hp [Hs Hsep] Hids Hslots] Hi Hm Hc Hk] Hw.
  assert (forall a s, segments_ (e_mgr e) !! a = Some s -> file_data (seg_handle s) w = file_data (seg_handle s) (e_w e)) as Hd.
  { intros a s Ha. destruct (Hh a (seg_handle s)) as [a' ->]; [unfold handles; by rewrite lookup_fmap, Ha|]. by apply same_on_data. }
  assert (v_same (e_view e) (mgr_view (e_mgr e) w)) as Hv.
  { intros a j. unfold e_view, mgr_view. destruct (segments_ (e_mgr e) !! a) as [s|] eqn:Ea; [|done]. cbn. f_equal.
    apply seg_map_frame. by eapply Hd. }
  destruct (index_ok_same _ _ _ Hv Hi) as [Hi' Ec]. split; [|exact Ec]. split; try done. split; try done. split; [|done].
  intros a s Ha. destruct (Hs a s Ha) as [Hok ?]. split; [|done]. eapply seg_ok_frame; [by eapply Hd|done].
Qed.

Lemma live_local b ctx dirs fs w :
  live b ctx -> same_on (options_ b) (b_fs b) fs -> same_on (options_ b) (b_w b) w ->
  no_eio (fs_script fs) -> no_eio (fs_script w) ->
  live (on_files dirs fs w b) ctx /\ view (on_files dirs fs w b) = view b.
Proof.
  intros [Hx He Hl Hroot Hcnt] Hfs Hw Hn Hn'. pose proof He as [Hok Hop Hlog _ _ Hpath Hst]. set (o := options_ b) in *.
  destruct (env_local o (seg_cfg o) (env_of ctx b) fs w) as [Hok' Ec]; [|done|done|].
  { intros a h. rewrite Hpath. case_decide; [|done]. intros [= <-]. by eexists. }
  change (mkEnv (e_ix (env_of ctx b)) fs (e_mgr (env_of ctx b)) w) with (env_of ctx (on_files dirs fs w b)) in Hok', Ec.
  split; [|unfold view; cbn [context_ on_files]; rewrite (xo_ctx _ _ Hx); by rewrite Ec].
  split; try done.
  - destruct Hx as [? ? ? ? Hpay]. split; try done. by rewrite Ec.
  - split; try done.
    + destruct Hlog as (wl & ? & ? & ?). exists wl. split; [done|]. split; [done|]. cbn. rewrite Hfs; [done|].
      left; left. change (opts_ (c_ix ctx) = idx_opts o) in Hop. by rewrite Hop.
    + apply (state_ok_frame _ (b_fs b)); [|done]. apply Hfs. by right; left.
Qed.

Lemma closed_local b v L dirs fs w :
  closed b v L -> same_on (options_ b) (b_fs b) fs -> same_on (options_ b) (b_w b) w ->
  no_eio (fs_script fs) -> no_eio (fs_script w) -> closed (on_files dirs fs w b) v L.
Proof.
  intros (mp & [Hctx Hmap Hidx Hpay Hv Hroom Hsz _ _ Hfiles Hst]) Hfs Hw Hn Hn'. exists mp. set (o := options_ b) in *.
  assert (forall a j, disk_view o w a j = disk_view o (b_w b) a j) as Hd.
  { intros a j. unfold disk_view. case_decide; [|done]. by rewrite (same_on_data o (b_w b) w). }
  destruct (index_ok_same (disk_view o (b_w b)) (disk_view o w) mp) as [Hidx' Ec]; [by intros a j|done|].
  split; cbn [options_ context_ b_fs b_w on_files]; fold o; try done.
  - destruct Hmap as (base & rs & Hs & Hl & Er). exists base, rs. split; [|split; [|done]].
    + eapply snapshot_holds_frame; [|done]. intros _. apply Hfs. by left; right; left.
    + unfold log_holds in *. by rewrite Hfs by (by left; left).
  - by rewrite Ec.
  - by rewrite Ec.
  - unfold file_size in *. by rewrite Hfs by (by left; left).
  - intros a Ha. rewrite (same_on_data o (b_w b) w) by done. by apply Hfiles.
  - apply (state_ok_frame _ (b_fs b)); [|done]. apply Hfs. by right; left.
Qed.

End local.
