(* ===== verification/MemoryBackend.v ===== *)
(** * The in-memory backend

    [core/kvcache_storage/mocked_inmemory_kvcache_storage.cc]: a hash map of
    entries with an expiration time in milliseconds of the steady clock.
    Expired entries are removed when a [Get] meets them.  The theorems show that
    this lazy expiry answers like a map from which expired entries are removed
    at once. *)

From S2P Require Import Prelude Backend.

Record MOptions := mkMOptions { max_value_bytes : Z; default_ttl_ms : Z }.

Record Entry := mkEntry { en_value : list Z; en_metadata : list Z; en_expiration_ms : Z }.

Record MemoryBackend := mkMemory { m_options : MOptions; store_ : gmap (list Z) Entry }.

Definition MemoryBackend_new (o : MOptions) : MemoryBackend := mkMemory o ∅.

Definition set_mem_store (st : gmap (list Z) Entry) (s : MemoryBackend) : MemoryBackend := mkMemory (m_options s) st.

(** [duration_cast<milliseconds>(...).count()] as a [uint64_t]. *)
Definition NowMs (t : Z) : Z := u64 (Z.quot t 1000000).

(** [expiration_ms > 0 && expiration_ms <= now]. *)
Definition expired (now : Z) (en : Entry) : bool := (en_expiration_ms en >? 0) && (en_expiration_ms en <=? now).

(** The clock is read for the expiration of the new entry, if it has one, and
    for the expiry of the old entry, if there is one. *)
Definition MemoryBackend_Put (key value metadata : list Z) (opts : WriteOptions) (clock : nat -> Z) (s : MemoryBackend)
    : Outcome (WriteResult * MemoryBackend) :=
  let o := m_options s in
  if (max_value_bytes o >? 0) && (Z.of_nat (length value) >? max_value_bytes o)
  then Ret (mkWriteResult BkValueTooLarge "value exceeds backend limit", s) else
  let ttl_ms := if wo_ttl_ms opts >? 0 then wo_ttl_ms opts else default_ttl_ms o in
  let '(expiration_ms, i) := if ttl_ms >? 0 then (u64 (NowMs (clock 0%nat) + ttl_ms), 1%nat) else (0, 0%nat) in
  let entry := mkEntry value metadata expiration_ms in
  match store_ s !! key with
  | Some old =>
      let expired := expired (NowMs (clock i)) old in
      if negb (wo_overwrite opts) && negb expired
      then Ret (mkWriteResult BkAlreadyExists "key already exists", s)
      else Ret (mkWriteResult BkOk EmptyString, set_mem_store (<[key := entry]> (store_ s)) s)
  | None => Ret (mkWriteResult BkOk EmptyString, set_mem_store (<[key := entry]> (store_ s)) s)
  end.

Definition MemoryBackend_Get (key : list Z) (opts : ReadOptions) (clock : nat -> Z) (s : MemoryBackend)
    : Outcome (ReadResult * MemoryBackend) :=
  match store_ s !! key with
  | None => Ret (mkReadResult BkNotFound "miss" [] [] 0, s)
  | Some en =>
      let now_ms := NowMs (clock 0%nat) in
      if expired now_ms en
      then Ret (mkReadResult BkNotFound "expired" [] [] 0, set_mem_store (delete key (store_ s)) s) else
      let en := if ro_touch_on_hit opts && (en_expiration_ms en >? 0) && (default_ttl_ms (m_options s) >? 0)
                then mkEntry (en_value en) (en_metadata en) (u64 (now_ms + default_ttl_ms (m_options s))) else en in
      Ret (mkReadResult BkOk EmptyString (if ro_include_value opts then en_value en else []) (en_metadata en)
             (en_expiration_ms en),
           set_mem_store (<[key := en]> (store_ s)) s)
  end.

Definition MemoryBackend_Delete (key : list Z) (s : MemoryBackend) : Outcome (WriteResult * MemoryBackend) :=
  match store_ s !! key with
  | None => Ret (mkWriteResult BkNotFound "key not found", s)
  | Some _ => Ret (mkWriteResult BkOk EmptyString, set_mem_store (delete key (store_ s)) s)
  end.

Definition MemoryBackend_size (s : MemoryBackend) : Z := Z.of_nat (size (store_ s)).

(** [Close] is the default of the base class. *)
#[export] Instance MemoryBackend_instance : KVCacheStorageBackend MemoryBackend := {|
  backend_Put := MemoryBackend_Put;
  backend_Get := MemoryBackend_Get;
  backend_Delete := MemoryBackend_Delete;
  backend_Close := id;
|}.

(** ** The promise of a backend *)

Definition memory_view (s : MemoryBackend) : kv_view :=
  fun key => (fun en => (en_value en, en_metadata en)) <$> store_ s !! key.

Lemma memory_view_insert s key en :
  memory_view (set_mem_store (<[key := en]> (store_ s)) s) key = Some (en_value en, en_metadata en) /\
  keeps_others key (memory_view s) (memory_view (set_mem_store (<[key := en]> (store_ s)) s)).
Proof.
  unfold memory_view. cbn. split; [by rewrite lookup_insert_eq|].
  intros key' x _ Hne. by rewrite lookup_insert_ne.
Qed.

Lemma memory_view_delete s key :
  shrinks (memory_view s) (memory_view (set_mem_store (delete key (store_ s)) s)) /\
  memory_view (set_mem_store (delete key (store_ s)) s) key = None.
Proof.
  unfold memory_view. cbn. split; [|by rewrite lookup_delete_eq]. intros key' x _.
  destruct (decide (key = key')) as [->|?]; [by rewrite lookup_delete_eq|]. by rewrite lookup_delete_ne.
Qed.

#[export] Instance MemoryBackend_laws : BackendLaws MemoryBackend.
Proof.
  refine {| bk_inv := fun _ => True; bk_view := memory_view; bk_ready := fun _ => True |}.
  - intros key v md opts clock s _ _ _ _. cbn. unfold MemoryBackend_Put. destruct (_ && _); [eauto|].
    destruct (if _ >? 0 then (_, _) else _) as [exp i]. destruct (store_ s !! key); [|eauto].
    destruct (_ && _); eauto.
  - intros key opts clock s _ _. cbn. unfold MemoryBackend_Get. destruct (store_ s !! key) as [en|]; [|eauto].
    destruct (expired _ en); eauto.
  - intros key s _ _. cbn. unfold MemoryBackend_Delete. destruct (store_ s !! key); eauto.
  - intros key v md opts clock s r s' _ _ _ E. split; [done|]. cbn in E. unfold MemoryBackend_Put, put_promise in *.
    destruct (_ && _); [injection E as <- <-; rewrite decide_False by done; apply shrinks_refl|].
    destruct (if _ >? 0 then (_, _) else _) as [exp i]. destruct (store_ s !! key).
    + destruct (_ && _); injection E as <- <-; [rewrite decide_False by done; apply shrinks_refl|].
      rewrite decide_True by done. apply (memory_view_insert s key (mkEntry v md exp)).
    + injection E as <- <-. rewrite decide_True by done. apply (memory_view_insert s key (mkEntry v md exp)).
  - intros key opts clock s r s' _ _ E. split; [done|]. cbn in E. unfold MemoryBackend_Get, get_promise in *.
    destruct (store_ s !! key) as [en|] eqn:Ek.
    2: { injection E as <- <-. rewrite decide_False by done. split; [apply shrinks_refl|done]. }
    destruct (expired _ en).
    { injection E as <- <-. rewrite decide_False by done. split; [apply memory_view_delete|done]. }
    set (en' := if _ && _ then _ else en) in E. injection E as <- <-. rewrite decide_True by done. cbn.
    assert (en_value en' = en_value en /\ en_metadata en' = en_metadata en) as [Ev Em]
      by (unfold en'; by destruct (_ && _)).
    rewrite Ev, Em. split; [|exists (en_value en); split; [|done]].
    + intros key' x _. unfold memory_view. cbn. destruct (decide (key = key')) as [<-|?].
      * rewrite lookup_insert_eq, Ek. cbn. by rewrite Ev, Em.
      * by rewrite lookup_insert_ne.
    + unfold memory_view. by rewrite Ek.
  - intros key s r s' _ _ E. split; [done|]. cbn in E. unfold MemoryBackend_Delete, delete_promise in *.
    destruct (store_ s !! key) eqn:Ek; injection E as <- <-.
    + split; [apply memory_view_delete|]. intros _. apply memory_view_delete.
    + split; [apply shrinks_refl|done].
Defined.

(** ** Lazy and eager expiry *)

(** The entries that are not expired. *)
Definition purge (now : Z) (m : gmap (list Z) Entry) : gmap (list Z) Entry :=
  omap (fun en => if expired now en then None else Some en) m.

Inductive mem_op :=
  | MPut (key value metadata : list Z) (opts : WriteOptions) (clock : nat -> Z)
  | MGet (key : list Z) (opts : ReadOptions) (clock : nat -> Z)
  | MDelete (key : list Z) (t : Z).

Inductive mem_result := MWrite (r : WriteResult) | MRead (r : ReadResult).

Definition mem_step (o : mem_op) (s : MemoryBackend) : Outcome (mem_result * MemoryBackend) :=
  match o with
  | MPut key v md opts clock => '(r, s) ← MemoryBackend_Put key v md opts clock s; Ret (MWrite r, s)
  | MGet key opts clock => '(r, s) ← MemoryBackend_Get key opts clock s; Ret (MRead r, s)
  | MDelete key _ => '(r, s) ← MemoryBackend_Delete key s; Ret (MWrite r, s)
  end.

Fixpoint mem_run (os : list mem_op) (s : MemoryBackend) : Outcome (list mem_result * MemoryBackend) :=
  match os with
  | [] => Ret ([], s)
  | o :: os => '(r, s) ← mem_step o s; '(rs, s) ← mem_run os s; Ret (r :: rs, s)
  end.

(** The last reading of the clock in a call, in milliseconds. *)
Definition mem_time (mo : MOptions) (o : mem_op) : Z :=
  match o with
  | MPut _ _ _ opts clock =>
      let ttl_ms := if wo_ttl_ms opts >? 0 then wo_ttl_ms opts else default_ttl_ms mo in
      NowMs (clock (if ttl_ms >? 0 then 1%nat else 0%nat))
  | MGet _ _ clock => NowMs (clock 0%nat)
  | MDelete _ t => NowMs t
  end.

(** The same call on a map without the expired entries. *)
Definition eager_step (mo : MOptions) (o : mem_op) (m : gmap (list Z) Entry) : mem_result * gmap (list Z) Entry :=
  let m := purge (mem_time mo o) m in
  match o with
  | MPut key v md opts clock =>
      let ttl_ms := if wo_ttl_ms opts >? 0 then wo_ttl_ms opts else default_ttl_ms mo in
      let entry := mkEntry v md (if ttl_ms >? 0 then u64 (NowMs (clock 0%nat) + ttl_ms) else 0) in
      if (max_value_bytes mo >? 0) && (Z.of_nat (length v) >? max_value_bytes mo)
      then (MWrite (mkWriteResult BkValueTooLarge EmptyString), m) else
      if negb (wo_overwrite opts) && bool_decide (is_Some (m !! key))
      then (MWrite (mkWriteResult BkAlreadyExists EmptyString), m)
      else (MWrite (mkWriteResult BkOk EmptyString), <[key := entry]> m)
  | MGet key opts clock =>
      match m !! key with
      | None => (MRead (mkReadResult BkNotFound EmptyString [] [] 0), m)
      | Some en =>
          let exp := if ro_touch_on_hit opts && (en_expiration_ms en >? 0) && (default_ttl_ms mo >? 0)
                     then u64 (NowMs (clock 0%nat) + default_ttl_ms mo) else en_expiration_ms en in
          (MRead (mkReadResult BkOk EmptyString (if ro_include_value opts then en_value en else []) (en_metadata en) exp),
           <[key := mkEntry (en_value en) (en_metadata en) exp]> m)
      end
  | MDelete key _ =>
      match m !! key with
      | None => (MWrite (mkWriteResult BkNotFound EmptyString), m)
      | Some _ => (MWrite (mkWriteResult BkOk EmptyString), delete key m)
      end
  end.

Fixpoint eager_run (mo : MOptions) (os : list mem_op) (m : gmap (list Z) Entry) : list mem_result * gmap (list Z) Entry :=
  match os with
  | [] => ([], m)
  | o :: os => let '(r, m) := eager_step mo o m in let '(rs, m) := eager_run mo os m in (r :: rs, m)
  end.

(** Messages aside the answers are the same, except that the deletion of an
    expired entry may still answer [kOk]. *)
Definition same_answer (o : mem_op) (r r' : mem_result) : Prop :=
  match o, r, r' with
  | MPut _ _ _ _ _, MWrite r, MWrite r' => wr_code r = wr_code r'
  | MDelete _ _, MWrite r, MWrite r' => wr_code r = wr_code r' \/ (wr_code r = BkOk /\ wr_code r' = BkNotFound)
  | MGet _ _ _, MRead r, MRead r' =>
      rr_code r = rr_code r' /\ rr_value r = rr_value r' /\ rr_metadata r = rr_metadata r' /\
      rr_expiration_ms r = rr_expiration_ms r'
  | _, _, _ => False
  end.

(** Calls with a clock that does not go back. *)
Fixpoint times_ok (mo : MOptions) (T : Z) (os : list mem_op) : Prop :=
  match os with
  | [] => True
  | o :: os => T <= mem_time mo o /\ times_ok mo (mem_time mo o) os
  end.

Lemma purge_lookup T m k :
  purge T m !! k = match m !! k with Some en => if expired T en then None else Some en | None => None end.
Proof. unfold purge. rewrite lookup_omap. by destruct (m !! k). Qed.

Lemma expired_mono T T' en : T <= T' -> expired T en = true -> expired T' en = true.
Proof. unfold expired. intros ?. rewrite !andb_true_iff, !Z.leb_le. lia. Qed.

Lemma purge_mono T T' m : T <= T' -> purge T' (purge T m) = purge T' m.
Proof.
  intros HT. apply map_eq. intros k. rewrite !purge_lookup. destruct (m !! k) as [en|]; [|done].
  destruct (expired T en) eqn:E; [|done]. by rewrite (expired_mono _ _ _ HT E).
Qed.

Lemma purge_insert T k en m : purge T (<[k := en]> m) = purge T (<[k := en]> (purge T m)).
Proof.
  apply map_eq. intros k'. rewrite !purge_lookup. destruct (decide (k = k')) as [<-|?].
  - by rewrite !lookup_insert_eq.
  - rewrite !lookup_insert_ne, purge_lookup by done. destruct (m !! k') as [en'|]; [|done].
    destruct (expired T en') eqn:E; [done|]. by rewrite E.
Qed.

Lemma purge_delete T k m : purge T (delete k m) = purge T (delete k (purge T m)).
Proof.
  apply map_eq. intros k'. rewrite !purge_lookup. destruct (decide (k = k')) as [<-|?].
  - by rewrite !lookup_delete_eq.
  - rewrite !lookup_delete_ne, purge_lookup by done. destruct (m !! k') as [en'|]; [|done].
    destruct (expired T en') eqn:E; [done|]. by rewrite E.
Qed.

Lemma mem_step_eager o s m :
  let T := mem_time (m_options s) o in
  purge T (store_ s) = purge T m ->
  exists r s', mem_step o s = Ret (r, s') /\ m_options s' = m_options s /\
    let '(r', m') := eager_step (m_options s) o m in same_answer o r r' /\ purge T (store_ s') = purge T m'.
Proof.
  intros T E. assert (purge T (purge T m) = purge T m) as Epp by (by apply purge_mono).
  assert (forall k, purge T m !! k = match store_ s !! k with
    | Some en => if expired T en then None else Some en | None => None end) as El by (intros k; by rewrite <- E, purge_lookup).
  destruct o as [key v md opts clock|key opts clock|key t]; cbn [mem_step eager_step]; fold T.
  - unfold MemoryBackend_Put. set (mo := m_options s) in *.
    destruct (_ && _); [do 2 eexists; by rewrite Epp|].
    unfold T, mem_time in El, E, Epp |- *. fold mo in El, E, Epp.
    set (ttl := if wo_ttl_ms opts >? 0 then wo_ttl_ms opts else default_ttl_ms mo) in *.
    replace (if ttl >? 0 then (u64 (NowMs (clock 0%nat) + ttl), 1%nat) else (0, 0%nat)) with
      (if ttl >? 0 then u64 (NowMs (clock 0%nat) + ttl) else 0, if ttl >? 0 then 1%nat else 0%nat) by (by destruct (ttl >? 0)).
    cbv iota beta. set (en := mkEntry v md _). set (T' := NowMs _) in *. rewrite El.
    assert (purge T' (<[key := en]> (store_ s)) = purge T' (<[key := en]> (purge T' m))) as Ei by (by rewrite purge_insert, E).
    destruct (store_ s !! key) as [old|]; [destruct (expired T' old)|]; destruct (wo_overwrite opts);
      cbn; do 2 eexists; (split; [done|]); (split; [done|]); split; done || by rewrite ?Epp.
  - assert (NowMs (clock 0%nat) = T) as ET by done. clearbody T. unfold MemoryBackend_Get. rewrite El, !ET.
    destruct (store_ s !! key) as [en|] eqn:Ek.
    2: { do 2 eexists. split; [done|]. split; [done|]. split; [done|]. by rewrite Epp. }
    destruct (expired T en) eqn:Ex.
    + do 2 eexists. split; [done|]. split; [done|]. split; [done|]. cbn [store_ set_mem_store]. rewrite Epp, <- E.
      apply map_eq. intros k'. rewrite !purge_lookup. destruct (decide (key = k')) as [<-|?].
      * by rewrite lookup_delete_eq, Ek, Ex.
      * by rewrite lookup_delete_ne.
    + set (en' := if _ && _ then _ else en). do 2 eexists. split; [done|]. split; [done|].
      assert (en' = mkEntry (en_value en) (en_metadata en)
        (if ro_touch_on_hit opts && (en_expiration_ms en >? 0) && (default_ttl_ms (m_options s) >? 0)
         then u64 (T + default_ttl_ms (m_options s)) else en_expiration_ms en)) as ->.
      { unfold en'. destruct (_ && _); [done|]. by destruct en. }
      split; [done|]. cbn [store_ set_mem_store]. by rewrite purge_insert, E.
  - clearbody T. unfold MemoryBackend_Delete. rewrite El. destruct (store_ s !! key) as [en|] eqn:Ek.
    + destruct (expired T en) eqn:Ex; do 2 eexists; (split; [done|]); (split; [done|]).
      * split; [by right|]. cbn [store_ set_mem_store]. rewrite Epp, <- E.
        apply map_eq. intros k'. rewrite !purge_lookup. destruct (decide (key = k')) as [<-|?].
        -- by rewrite lookup_delete_eq, Ek, Ex.
        -- by rewrite lookup_delete_ne.
      * split; [by left|]. cbn [store_ set_mem_store]. by rewrite purge_delete, E.
    + do 2 eexists. split; [done|]. split; [done|]. split; [by left|]. by rewrite Epp.
Qed.

(** C37: lazy expiry is eager expiry.  Every run of calls on the in-memory
    backend with a clock that does not go back answers like a map from which
    expired entries are removed before every call (only [Delete] of an expired
    entry may answer [kOk]). *)
Theorem MemoryBackend_expiry (os : list mem_op) (s : MemoryBackend) (m : gmap (list Z) Entry) (T : Z) :
  times_ok (m_options s) T os -> purge T (store_ s) = purge T m ->
  exists rs s', mem_run os s = Ret (rs, s') /\
    let '(rs', m') := eager_run (m_options s) os m in
    length rs = length os /\ length rs' = length os /\
    (forall i o r r', os !! i = Some o -> rs !! i = Some r -> rs' !! i = Some r' -> same_answer o r r') /\
    exists T', T <= T' /\ purge T' (store_ s') = purge T' m'.
Proof.
  revert s m T. induction os as [|o os IH]; intros s m T Ht E.
  - exists [], s. split; [done|]. cbn. split; [done|]. split; [done|]. split; [done|]. by exists T.
  - destruct Ht as [HT Ht]. cbn [mem_run eager_run].
    assert (purge (mem_time (m_options s) o) (store_ s) = purge (mem_time (m_options s) o) m) as E1.
    { by rewrite <- (purge_mono T _ (store_ s)), E, purge_mono by done. }
    destruct (mem_step_eager o s m E1) as (r & s1 & -> & Eo & Hs).
    destruct (eager_step (m_options s) o m) as [r' m1]. destruct Hs as [Hr E2].
    destruct (IH s1 m1 (mem_time (m_options s) o)) as (rs & s2 & Er & Hs2); [by rewrite Eo|done|]. cbn [mbind Outcome_bind].
    rewrite Er. cbn [mbind Outcome_bind]. rewrite Eo in Hs2. exists (r :: rs), s2. split; [done|].
    destruct (eager_run (m_options s) os m1) as [rs' m2]. destruct Hs2 as (H1 & H2 & H3 & T' & HT' & E3).
    cbn [length]. split; [by rewrite H1|]. split; [by rewrite H2|]. split; [|exists T'; split; [lia|done]].
    intros [|i] o0 r0 r0' Ho0 Hr0 Hr0'; [by simplify_eq/=|]. by eapply H3.
Qed.

(** A value with one second to live. *)
Definition mem_ops : list mem_op :=
  [MPut [1] [5] [6] (mkWriteOptions false false 1000) (fun _ => 0); MGet [1] (mkReadOptions true false) (fun _ => 999000000);
   MPut [1] [7] [] (mkWriteOptions false false 0) (fun _ => 999000000); MGet [1] (mkReadOptions true false) (fun _ => 1000000000);
   MPut [1] [7] [] (mkWriteOptions false false 0) (fun _ => 1000000000); MGet [1] (mkReadOptions true false) (fun _ => 5000000000)].

Lemma MemoryBackend_expiry_witness :
  exists rs s, mem_run mem_ops (MemoryBackend_new (mkMOptions 0 0)) = Ret (rs, s) /\
    (fun r => match r with MWrite w => (wr_code w, []) | MRead r => (rr_code r, rr_value r) end) <$> rs =
      [(BkOk, []); (BkOk, [5]); (BkAlreadyExists, []); (BkNotFound, []); (BkOk, []); (BkOk, [7])].
Proof.
  destruct (MemoryBackend_expiry mem_ops (MemoryBackend_new (mkMOptions 0 0)) ∅ 0) as (rs & s & E & _).
  - repeat split; vm_compute; discriminate.
  - reflexivity.
  - exists rs, s. split; [exact E|]. vm_compute in E. injection E as <- <-. reflexivity.
Defined.

(** [Delete] answers [kOk] for an entry that is expired. *)
Example Delete_of_expired_entry :
  let ops := [MPut [1] [5] [] (mkWriteOptions false false 1) (fun _ => 0); MDelete [1] 9000000000] in
  match mem_run ops (MemoryBackend_new (mkMOptions 0 0)) with
  | Ret ([_; MWrite r], _) => wr_code r = BkOk
  | _ => False
  end.
Proof. reflexivity. Qed.
