(* ===== verification/Namespaces.v ===== *)
(** * Namespaces

    [core/kvcache_storage/backend_namespace_manager.cc]: the manager that routes
    calls to the backend of a namespace.  A backend is given up by the caller of
    [Register] (the pointer is moved), so the manager holds the states of its
    backends; calls are sequential, the mutex is not modelled.  Each backend comes
    with its files here; backends whose files are on one disk are in [SharedDisk]. *)

From S2P Require Import Prelude Backend.
From Stdlib Require Import Ascii.

(** ** Names of directories *)

Definition in_range (c lo hi : ascii) : bool :=
  (N_of_ascii lo <=? N_of_ascii c)%N && (N_of_ascii c <=? N_of_ascii hi)%N.

Definition safe_char (c : ascii) : bool :=
  in_range c "a" "z" || in_range c "A" "Z" || in_range c "0" "9" ||
  Ascii.eqb c "_" || Ascii.eqb c "-" || Ascii.eqb c ".".

Fixpoint sanitize_chars (ns : string) : string :=
  match ns with
  | EmptyString => EmptyString
  | String c ns => String (if safe_char c then c else "_"%char) (sanitize_chars ns)
  end.

Definition SanitizeNs (ns : string) : string :=
  let out := sanitize_chars ns in if is_empty out then "default"%string else out.

(** ** The manager *)

Record NamespaceManager (S : Type) := mkNamespaceManager { backends_ : gmap string S }.
Arguments mkNamespaceManager {S}.
Arguments backends_ {S}.

Section manager.
Context {S : Type} `{!KVCacheStorageBackend S}.
Implicit Types m : NamespaceManager S.

Definition NamespaceManager_new : NamespaceManager S := mkNamespaceManager ∅.

(** [None]: a null pointer. *)
Definition Register (ns : string) (backend : option S) m : bool * NamespaceManager S :=
  if is_empty ns then (false, m) else
  match backend with
  | None => (false, m)
  | Some s =>
      if bool_decide (is_Some (backends_ m !! ns)) then (false, m)
      else (true, mkNamespaceManager (<[ns := s]> (backends_ m)))
  end.

Definition GetBackend (ns : string) m : option S := backends_ m !! ns.

(** The state of a backend after a call on it. *)
Definition set_backend (ns : string) (s : S) m : NamespaceManager S := mkNamespaceManager (<[ns := s]> (backends_ m)).

Definition not_registered (ns : string) : string := "namespace '" +:+ ns +:+ "' is not registered".

Definition ns_Put (ns : string) (key value metadata : list Z) (opts : WriteOptions) (clock : nat -> Z) m
    : Outcome (WriteResult * NamespaceManager S) :=
  match GetBackend ns m with
  | None => Ret (mkWriteResult BkInvalidArgument (not_registered ns), m)
  | Some s => '(r, s) ← backend_Put key value metadata opts clock s; Ret (r, set_backend ns s m)
  end.

Definition ns_Get (ns : string) (key : list Z) (opts : ReadOptions) (clock : nat -> Z) m
    : Outcome (ReadResult * NamespaceManager S) :=
  match GetBackend ns m with
  | None => Ret (mkReadResult BkInvalidArgument (not_registered ns) [] [] 0, m)
  | Some s => '(r, s) ← backend_Get key opts clock s; Ret (r, set_backend ns s m)
  end.

Definition ns_Delete (ns : string) (key : list Z) m : Outcome (WriteResult * NamespaceManager S) :=
  match GetBackend ns m with
  | None => Ret (mkWriteResult BkInvalidArgument (not_registered ns), m)
  | Some s => '(r, s) ← backend_Delete key s; Ret (r, set_backend ns s m)
  end.

(** The closed backends, and the manager without them. *)
Definition ns_Close m : gmap string S * NamespaceManager S :=
  (backend_Close <$> backends_ m, NamespaceManager_new).

(** ** Runs *)

Inductive kv_op :=
  | KPut (key value metadata : list Z) (opts : WriteOptions) (clock : nat -> Z)
  | KGet (key : list Z) (opts : ReadOptions) (clock : nat -> Z)
  | KDelete (key : list Z).

Inductive kv_result := KWrite (r : WriteResult) | KRead (r : ReadResult).

Definition backend_step (o : kv_op) (s : S) : Outcome (kv_result * S) :=
  match o with
  | KPut key v md opts clock => '(r, s) ← backend_Put key v md opts clock s; Ret (KWrite r, s)
  | KGet key opts clock => '(r, s) ← backend_Get key opts clock s; Ret (KRead r, s)
  | KDelete key => '(r, s) ← backend_Delete key s; Ret (KWrite r, s)
  end.

Definition ns_step (o : string * kv_op) m : Outcome (kv_result * NamespaceManager S) :=
  match o.2 with
  | KPut key v md opts clock => '(r, m) ← ns_Put o.1 key v md opts clock m; Ret (KWrite r, m)
  | KGet key opts clock => '(r, m) ← ns_Get o.1 key opts clock m; Ret (KRead r, m)
  | KDelete key => '(r, m) ← ns_Delete o.1 key m; Ret (KWrite r, m)
  end.

Fixpoint ns_run (os : list (string * kv_op)) m : Outcome (list kv_result * NamespaceManager S) :=
  match os with
  | [] => Ret ([], m)
  | o :: os => '(r, m) ← ns_step o m; '(rs, m) ← ns_run os m; Ret (r :: rs, m)
  end.

Definition kv_code (r : kv_result) : BackendCode := match r with KWrite r => wr_code r | KRead r => rr_code r end.

Lemma ns_step_spec ns o m :
  ns_step (ns, o) m =
    match backends_ m !! ns with
    | Some s => '(r, s) ← backend_step o s; Ret (r, set_backend ns s m)
    | None => Ret (match o with
                   | KGet _ _ _ => KRead (mkReadResult BkInvalidArgument (not_registered ns) [] [] 0)
                   | _ => KWrite (mkWriteResult BkInvalidArgument (not_registered ns)) end, m)
    end.
Proof.
  destruct o; cbn; unfold ns_Put, ns_Get, ns_Delete, GetBackend; (destruct (backends_ m !! ns) as [s|]; [|done]).
  - by destruct (backend_Put _ _ _ _ _ s) as [[? ?]|].
  - by destruct (backend_Get _ _ _ s) as [[? ?]|].
  - by destruct (backend_Delete _ s) as [[? ?]|].
Qed.

(** The first registration of a name stays. *)
Lemma Register_spec ns (b : option S) m :
  let '(ok, m') := Register ns b m in
  (ok = true <-> ns <> EmptyString /\ is_Some b /\ backends_ m !! ns = None) /\
  (if ok then backends_ m' !! ns = b /\ forall ns', ns' <> ns -> backends_ m' !! ns' = backends_ m !! ns' else m' = m).
Proof.
  unfold Register. destruct ns as [|c ns]; cbn [is_empty]; [split; [|done]; split; [done|by intros []]|].
  destruct b as [s|]; [|split; [|done]; split; [done|by intros (_ & [? ?] & _)]].
  case_bool_decide as E.
  - split; [|done]. split; [done|]. intros (_ & _ & En). rewrite En in E. by destruct E.
  - split; [split; [|done]; intros _; split; [done|]; split; [done|by apply eq_None_not_Some]|].
    cbn [backends_]. split; [apply lookup_insert_eq|]. intros ns' Hne. by rewrite lookup_insert_ne.
Qed.

End manager.

(** ** Sanitized names *)

Fixpoint chars_safe (s : string) : bool :=
  match s with EmptyString => true | String c s => safe_char c && chars_safe s end.

Lemma sanitize_chars_safe ns : chars_safe (sanitize_chars ns) = true.
Proof. induction ns as [|c ns IH]; cbn; [done|]. rewrite IH, andb_true_r. by destruct (safe_char c) eqn:E. Qed.

Lemma sanitize_chars_id ns : chars_safe ns = true -> sanitize_chars ns = ns.
Proof. induction ns as [|c ns IH]; cbn; [done|]. intros [-> ?]%andb_prop. by rewrite IH. Qed.

(** a sanitized namespace is a single path component: it is not empty, has
    only letters, digits, [_], [-] and [.], and so no slash; names that are
    already of this form are kept, and sanitizing twice is sanitizing once. *)
Theorem SanitizeNs_safe (ns : string) :
  let out := SanitizeNs ns in
  out <> EmptyString /\ chars_safe out = true /\ SanitizeNs out = out /\
  (SanitizeNs ns = ns <-> ns <> EmptyString /\ chars_safe ns = true).
Proof.
  assert (forall s, s <> EmptyString -> chars_safe s = true -> SanitizeNs s = s) as Hid.
  { intros s Hne Hs. unfold SanitizeNs. rewrite sanitize_chars_id by done. by destruct s. }
  assert (SanitizeNs ns <> EmptyString /\ chars_safe (SanitizeNs ns) = true) as [H1 H2].
  { unfold SanitizeNs. destruct ns as [|c ns]; [done|]. split; [done|]. exact (sanitize_chars_safe (String c ns)). }
  cbv zeta. split; [done|]. split; [done|]. split; [by apply Hid|]. split; [|intros []; by apply Hid].
  intros E. by rewrite <- E.
Qed.

(** Different namespaces can share a directory, and [..] is a name. *)
Example SanitizeNs_collides : SanitizeNs "a/b" = SanitizeNs "a_b" /\ SanitizeNs ".." = ".."%string.
Proof. split; reflexivity. Qed.
