(* ===== verification/ServiceTheorems.v ===== *)
(** * Correctness of the batch service

    The handlers are sequences of calls on the manager; what a client can
    conclude from the responses of the service. *)

From S2P Require Import Prelude Backend Namespaces Service.

Lemma ToProtoCode_ok c : ToProtoCode c = OK <-> c = BkOk.
Proof. by destruct c. Qed.

(** No two codes of the backend are confused. *)
Lemma ToProtoCode_inj c c' : ToProtoCode c = ToProtoCode c' -> c = c'.
Proof. by destruct c, c'. Qed.

(** ** Batches are sequences *)

(** The error of an item that is not passed on. *)
Definition item_error (o : ServiceOptions) (item : KVItem) : option BatchWriteResult :=
  if no_bytes (ki_key item) then Some (FillItemError_write (ki_key item) INVALID_ARGUMENT "empty key") else
  if (so_max_value_bytes o >? 0) && (Z.of_nat (length (ki_value item)) >? so_max_value_bytes o)
  then Some (FillItemError_write (ki_key item) VALUE_TOO_LARGE "value exceeds service limit") else None.

(** The calls of a batch, and its results from the results of the calls. *)
Fixpoint write_calls (o : ServiceOptions) (q : BatchWriteRequest) (items : list KVItem) (clocks : nat -> nat -> Z) (i : nat)
    : list (string * kv_op) :=
  match items with
  | [] => []
  | item :: items =>
      match item_error o item with
      | Some _ => write_calls o q items clocks (i + 1)
      | None => (bwq_namespace q, KPut (ki_key item) (ki_value item) (ki_metadata item)
                   (mkWriteOptions (bwq_overwrite q) (bwq_durable q) (ki_ttl_ms item)) (clocks i))
                :: write_calls o q items clocks (i + 1)
      end
  end.

Fixpoint write_answers (o : ServiceOptions) (items : list KVItem) (rs : list kv_result) : list BatchWriteResult :=
  match items with
  | [] => []
  | item :: items =>
      match item_error o item, rs with
      | Some e, _ => e :: write_answers o items rs
      | None, KWrite r :: rs =>
          mkBatchWriteResult (ki_key item) (ToProtoCode (wr_code r)) (wr_message r) :: write_answers o items rs
      | None, _ => []
      end
  end.

Fixpoint read_calls (q : BatchReadRequest) (keys : list (list Z)) (clocks : nat -> nat -> Z) (i : nat)
    : list (string * kv_op) :=
  match keys with
  | [] => []
  | key :: keys =>
      if no_bytes key then read_calls q keys clocks (i + 1) else
      (brq_namespace q, KGet key (mkReadOptions (brq_include_value q) (brq_touch_on_hit q)) (clocks i))
      :: read_calls q keys clocks (i + 1)
  end.

Fixpoint read_answers (q : BatchReadRequest) (keys : list (list Z)) (rs : list kv_result) : list BatchReadResult :=
  match keys with
  | [] => []
  | key :: keys =>
      if no_bytes key then FillItemError_read key INVALID_ARGUMENT "empty key" :: read_answers q keys rs else
      match rs with
      | KRead r :: rs =>
          let hit := bool_decide (rr_code r = BkOk) in
          mkBatchReadResult key (if hit && brq_include_value q then rr_value r else [])
            (if hit then rr_metadata r else []) (ToProtoCode (rr_code r)) (rr_message r) (rr_expiration_ms r)
          :: read_answers q keys rs
      | _ => []
      end
  end.

Fixpoint delete_calls (q : BatchDeleteRequest) (keys : list (list Z)) : list (string * kv_op) :=
  match keys with
  | [] => []
  | key :: keys => if no_bytes key then delete_calls q keys else (bdq_namespace q, KDelete key) :: delete_calls q keys
  end.

Fixpoint delete_answers (keys : list (list Z)) (rs : list kv_result) : list BatchDeleteResult :=
  match keys with
  | [] => []
  | key :: keys =>
      if no_bytes key then FillItemError_delete key INVALID_ARGUMENT "empty key" :: delete_answers keys rs else
      match rs with
      | KWrite r :: rs => mkBatchDeleteResult key (ToProtoCode (wr_code r)) (wr_message r) :: delete_answers keys rs
      | _ => []
      end
  end.

(** How many results are [OK], and how many are not. *)
Definition oks {A} (code : A -> StatusCode) (l : list A) : Z :=
  Z.of_nat (length (filter (fun r => code r = OK) l)).
Definition others {A} (code : A -> StatusCode) (l : list A) : Z :=
  Z.of_nat (length (filter (fun r => code r <> OK) l)).

Lemma oks_cons {A} (code : A -> StatusCode) r l :
  oks code (r :: l) = (if bool_decide (code r = OK) then 1 else 0) + oks code l.
Proof. unfold oks. rewrite filter_cons. case_decide; case_bool_decide; try done; cbn [length]; lia. Qed.

Lemma others_cons {A} (code : A -> StatusCode) r l :
  others code (r :: l) = (if bool_decide (code r = OK) then 0 else 1) + others code l.
Proof. unfold others. rewrite filter_cons. case_decide; case_bool_decide; try done; cbn [length]; lia. Qed.

Lemma oks_others {A} (code : A -> StatusCode) l : oks code l + others code l = Z.of_nat (length l).
Proof.
  induction l as [|r l IH]; [done|]. rewrite oks_cons, others_cons. cbn [length]. case_bool_decide; lia.
Qed.

Lemma u32_u32_add x y : u32 (u32 x + y) = u32 (x + y).
Proof. unfold u32. by rewrite Zplus_mod_idemp_l. Qed.

Lemma count_u32 b x y :
  count b (u32 x) (u32 y) = (u32 (x + if b then 1 else 0), u32 (y + if b then 0 else 1)).
Proof. unfold count. destruct b; by rewrite u32_u32_add, Z.add_0_r. Qed.

Definition rejected (o : ServiceOptions) (n : Z) : bool := (n =? 0) || (u32 n >? max_batch_size o).
Definition rejection (n : Z) : string := if n =? 0 then "empty batch" else "batch too large".

Section sequences.
Context {S : Type} `{!KVCacheStorageBackend S}.
Implicit Types m : NamespaceManager S.

Lemma write_items_run o q items clocks i x y m :
  write_items o q items clocks i (u32 x) (u32 y) m =
    '(rs, m') ← ns_run (write_calls o q items clocks i) m;
    let outs := write_answers o items rs in
    Ret (outs, u32 (x + oks bw_code outs), u32 (y + others bw_code outs), m').
Proof.
  revert i x y m. induction items as [|item items IH]; intros i x y m; cbn [write_items write_calls write_answers].
  { cbn. by rewrite !Z.add_0_r. }
  unfold write_item, item_error.
  assert (forall e : BatchWriteResult, bw_code e <> OK ->
    (let '(success, failure) := count false (u32 x) (u32 y) in
     '(outs, success, failure, m) ← write_items o q items clocks (i + 1) success failure m;
     Ret (e :: outs, success, failure, m)) =
    ('(rs, m') ← ns_run (write_calls o q items clocks (i + 1)) m;
     let outs := e :: write_answers o items rs in
     Ret (outs, u32 (x + oks bw_code outs), u32 (y + others bw_code outs), m'))) as Herr.
  { intros e He. rewrite count_u32, IH. destruct (ns_run _ m) as [[rs m']|]; [|done]. cbn [mbind Outcome_bind]. cbv zeta.
    by rewrite oks_cons, others_cons, bool_decide_eq_false_2, !Z.add_assoc by done. }
  destruct (no_bytes _); [by apply Herr|]. destruct (_ && _); [by apply Herr|].
  cbn [ns_run ns_step fst snd]. destruct (ns_Put _ _ _ _ _ _ m) as [[r m1]|]; cbn [mbind Outcome_bind]; [|done].
  rewrite count_u32, IH. destruct (ns_run _ m1) as [[rs m']|]; [|done]. cbn [mbind Outcome_bind]. cbv zeta.
  rewrite oks_cons, others_cons, !Z.add_assoc. cbn [bw_code].
  by rewrite (bool_decide_ext (ToProtoCode (wr_code r) = OK) (wr_code r = BkOk)) by apply ToProtoCode_ok.
Qed.

Lemma read_items_run q keys clocks i x y m :
  read_items q keys clocks i (u32 x) (u32 y) m =
    '(rs, m') ← ns_run (read_calls q keys clocks i) m;
    let outs := read_answers q keys rs in
    Ret (outs, u32 (x + oks br_code outs), u32 (y + others br_code outs), m').
Proof.
  revert i x y m. induction keys as [|key keys IH]; intros i x y m; cbn [read_items read_calls read_answers].
  { cbn. by rewrite !Z.add_0_r. }
  unfold read_item. destruct (no_bytes key).
  - cbn [mbind Outcome_bind]. rewrite count_u32, IH. destruct (ns_run _ m) as [[rs m']|]; [|done].
    cbn [mbind Outcome_bind]. cbv zeta. by rewrite oks_cons, others_cons, !Z.add_assoc.
  - cbn [ns_run ns_step fst snd]. destruct (ns_Get _ _ _ _ m) as [[r m1]|]; cbn [mbind Outcome_bind]; [|done].
    cbn [ro_include_value]. case_bool_decide as Er; cbn [mbind Outcome_bind]; rewrite count_u32, IH;
      (destruct (ns_run _ m1) as [[rs m']|]; [|done]); cbn [mbind Outcome_bind andb]; cbv zeta;
      rewrite oks_cons, others_cons, !Z.add_assoc; cbn [br_code];
      by rewrite (bool_decide_ext _ _ (ToProtoCode_ok (rr_code r))), ?bool_decide_eq_true_2, ?bool_decide_eq_false_2 by done.
Qed.

Lemma delete_items_run q keys x y m :
  delete_items q keys (u32 x) (u32 y) m =
    '(rs, m') ← ns_run (delete_calls q keys) m;
    let outs := delete_answers keys rs in
    Ret (outs, u32 (x + oks bd_code outs), u32 (y + others bd_code outs), m').
Proof.
  revert x y m. induction keys as [|key keys IH]; intros x y m; cbn [delete_items delete_calls delete_answers].
  { cbn. by rewrite !Z.add_0_r. }
  unfold delete_item. destruct (no_bytes key).
  - cbn [mbind Outcome_bind]. rewrite count_u32, IH. destruct (ns_run _ m) as [[rs m']|]; [|done].
    cbn [mbind Outcome_bind]. cbv zeta. by rewrite oks_cons, others_cons, !Z.add_assoc.
  - cbn [ns_run ns_step fst snd]. destruct (ns_Delete _ _ m) as [[r m1]|]; cbn [mbind Outcome_bind]; [|done].
    rewrite count_u32, IH. destruct (ns_run _ m1) as [[rs m']|]; [|done]. cbn [mbind Outcome_bind]. cbv zeta.
    rewrite oks_cons, others_cons, !Z.add_assoc. cbn [bd_code].
    by rewrite (bool_decide_ext _ _ (ToProtoCode_ok (wr_code r))).
Qed.

Lemma handlers_run (o : ServiceOptions) m :
  (forall q clocks, let n := Z.of_nat (length (bwq_items q)) in
     BatchWrite o q clocks m =
       if rejected o n then Ret (mkBatchWriteResponse INVALID_ARGUMENT (rejection n) [] 0 0, m) else
       '(rs, m') ← ns_run (write_calls o q (bwq_items q) clocks 0) m;
       let outs := write_answers o (bwq_items q) rs in
       Ret (mkBatchWriteResponse OK EmptyString outs (u32 (oks bw_code outs)) (u32 (others bw_code outs)), m')) /\
  (forall q clocks, let n := Z.of_nat (length (brq_keys q)) in
     BatchRead o q clocks m =
       if rejected o n then Ret (mkBatchReadResponse INVALID_ARGUMENT (rejection n) [] 0 0, m) else
       '(rs, m') ← ns_run (read_calls q (brq_keys q) clocks 0) m;
       let outs := read_answers q (brq_keys q) rs in
       Ret (mkBatchReadResponse OK EmptyString outs (u32 (oks br_code outs)) (u32 (others br_code outs)), m')) /\
  (forall q, let n := Z.of_nat (length (bdq_keys q)) in
     BatchDelete o q m =
       if rejected o n then Ret (mkBatchDeleteResponse INVALID_ARGUMENT (rejection n) [] 0 0, m) else
       '(rs, m') ← ns_run (delete_calls q (bdq_keys q)) m;
       let outs := delete_answers (bdq_keys q) rs in
       Ret (mkBatchDeleteResponse OK EmptyString outs (u32 (oks bd_code outs)) (u32 (others bd_code outs)), m')).
Proof.
  split; [|split].
  - intros q clocks n. unfold BatchWrite, rejected, rejection. fold n. destruct (n =? 0); [done|].
    cbn [orb]. destruct (u32 n >? _); [done|].
    change 0 with (u32 0) at 1 2. rewrite write_items_run. by destruct (ns_run _ m) as [[rs m']|].
  - intros q clocks n. unfold BatchRead, rejected, rejection. fold n. destruct (n =? 0); [done|].
    cbn [orb]. destruct (u32 n >? _); [done|].
    change 0 with (u32 0) at 1 2. rewrite read_items_run. by destruct (ns_run _ m) as [[rs m']|].
  - intros q n. unfold BatchDelete, rejected, rejection. fold n. destruct (n =? 0); [done|].
    cbn [orb]. destruct (u32 n >? _); [done|].
    change 0 with (u32 0) at 1 2. rewrite delete_items_run. by destruct (ns_run _ m) as [[rs m']|].
Qed.

(** C22: a batch is the sequence of its calls.  Each handler rejects an empty
    or oversized batch without any call; otherwise it makes, in order, one call
    on the namespace of the request for every item that passes the checks, and
    answers with one result per item, in order, made from the result of the
    call, and with the numbers of results that are [OK] and that are not. *)
Theorem batches_are_sequences (o : ServiceOptions) m :
  (forall q clocks, let n := Z.of_nat (length (bwq_items q)) in
     BatchWrite o q clocks m =
       if rejected o n then Ret (mkBatchWriteResponse INVALID_ARGUMENT (rejection n) [] 0 0, m) else
       '(rs, m') ← ns_run (write_calls o q (bwq_items q) clocks 0) m;
       let outs := write_answers o (bwq_items q) rs in
       Ret (mkBatchWriteResponse OK EmptyString outs (u32 (oks bw_code outs)) (u32 (others bw_code outs)), m')) /\
  (forall q clocks, let n := Z.of_nat (length (brq_keys q)) in
     BatchRead o q clocks m =
       if rejected o n then Ret (mkBatchReadResponse INVALID_ARGUMENT (rejection n) [] 0 0, m) else
       '(rs, m') ← ns_run (read_calls q (brq_keys q) clocks 0) m;
       let outs := read_answers q (brq_keys q) rs in
       Ret (mkBatchReadResponse OK EmptyString outs (u32 (oks br_code outs)) (u32 (others br_code outs)), m')) /\
  (forall q, let n := Z.of_nat (length (bdq_keys q)) in
     BatchDelete o q m =
       if rejected o n then Ret (mkBatchDeleteResponse INVALID_ARGUMENT (rejection n) [] 0 0, m) else
       '(rs, m') ← ns_run (delete_calls q (bdq_keys q)) m;
       let outs := delete_answers (bdq_keys q) rs in
       Ret (mkBatchDeleteResponse OK EmptyString outs (u32 (oks bd_code outs)) (u32 (others bd_code outs)), m')).
Proof. apply handlers_run. Qed.

(** The calls of a request. *)
Definition calls (o : ServiceOptions) (q : request) : list (string * kv_op) :=
  match q with
  | RWrite q clocks => if rejected o (Z.of_nat (length (bwq_items q))) then [] else write_calls o q (bwq_items q) clocks 0
  | RRead q clocks => if rejected o (Z.of_nat (length (brq_keys q))) then [] else read_calls q (brq_keys q) clocks 0
  | RDelete q => if rejected o (Z.of_nat (length (bdq_keys q))) then [] else delete_calls q (bdq_keys q)
  end.

Lemma serve_calls o q m :
  match serve o q m with
  | Ret (_, m') => exists rs, ns_run (calls o q) m = Ret (rs, m')
  | UB => ns_run (calls o q) m = UB
  end.
Proof.
  destruct (handlers_run o m) as (Hw & Hr & Hd). destruct q as [q clocks|q clocks|q]; cbn [serve calls].
  - rewrite Hw. destruct (rejected _ _); [by exists []|]. destruct (ns_run _ m) as [[rs m']|]; [by exists rs|done].
  - rewrite Hr. destruct (rejected _ _); [by exists []|]. destruct (ns_run _ m) as [[rs m']|]; [by exists rs|done].
  - rewrite Hd. destruct (rejected _ _); [by exists []|]. destruct (ns_run _ m) as [[rs m']|]; [by exists rs|done].
Qed.

Lemma ns_run_app os1 os2 m :
  ns_run (os1 ++ os2) m = '(rs1, m1) ← ns_run os1 m; '(rs2, m2) ← ns_run os2 m1; Ret (rs1 ++ rs2, m2).
Proof.
  revert m. induction os1 as [|o os1 IH]; intros m; cbn.
  - by destruct (ns_run os2 m) as [[? ?]|].
  - destruct (ns_step o m) as [[r m1]|]; [|done]. cbn. rewrite IH. destruct (ns_run os1 m1) as [[rs1 m2]|]; [|done]. cbn.
    by destruct (ns_run os2 m2) as [[? ?]|].
Qed.

Lemma serve_all_calls o qs m :
  match serve_all o qs m with
  | Ret (_, m') => exists rs, ns_run (flat_map (calls o) qs) m = Ret (rs, m')
  | UB => ns_run (flat_map (calls o) qs) m = UB
  end.
Proof.
  revert m. induction qs as [|q qs IH]; intros m; cbn [serve_all]; [by exists []|].
  change (flat_map (calls o) (q :: qs)) with (calls o q ++ (flat_map (calls o) qs)). rewrite ns_run_app.
  pose proof (serve_calls o q m) as Hq. destruct (serve o q m) as [[a m1]|]; [|by rewrite Hq].
  destruct Hq as [rs1 ->]. cbn [mbind Outcome_bind]. specialize (IH m1).
  destruct (serve_all o qs m1) as [[acc m2]|]; cbn [mbind Outcome_bind].
  - destruct IH as [rs2 ->]. by eexists.
  - by rewrite IH.
Qed.

End sequences.

(** ** What a client can conclude *)

(** What was last written under the keys of the namespaces. *)
Abbreviation ledger := (gmap (string * list Z) (list Z * list Z)).

(** The ledger a client keeps from its requests and the responses. *)
Fixpoint ledger_writes (ns : string) (items : list KVItem) (outs : list BatchWriteResult) (l : ledger) : ledger :=
  match items, outs with
  | item :: items, out :: outs =>
      ledger_writes ns items outs
        (if bool_decide (bw_code out = OK) then <[(ns, ki_key item) := (ki_value item, ki_metadata item)]> l else l)
  | _, _ => l
  end.
Fixpoint ledger_deletes (ns : string) (keys : list (list Z)) (outs : list BatchDeleteResult) (l : ledger) : ledger :=
  match keys, outs with
  | key :: keys, out :: outs =>
      ledger_deletes ns keys outs (if bool_decide (bd_code out = OK) then delete (ns, key) l else l)
  | _, _ => l
  end.

Definition ledger_step (q : request) (a : response) (l : ledger) : ledger :=
  match q, a with
  | RWrite q _, AWrite a => ledger_writes (bwq_namespace q) (bwq_items q) (bwr_results a) l
  | RDelete q, ADelete a => ledger_deletes (bdq_namespace q) (bdq_keys q) (bdr_results a) l
  | _, _ => l
  end.

(** A result of a read: what the ledger has, or nothing. *)
Definition read_ok (ns : string) (include : bool) (l : ledger) (out : BatchReadResult) : Prop :=
  if decide (br_code out = OK)
  then exists v, l !! (ns, br_key out) = Some (v, br_metadata out) /\ br_value out = if include then v else []
  else br_value out = [] /\ br_metadata out = [].

(** The results are aligned with the items, and hits are what was written. *)
Definition answer_ok (o : ServiceOptions) (l : ledger) (q : request) (a : response) : Prop :=
  match q, a with
  | RWrite q _, AWrite a =>
      bwr_code a = OK /\ bw_key <$> bwr_results a = ki_key <$> bwq_items q \/ bwr_code a = INVALID_ARGUMENT /\ bwr_results a = []
  | RDelete q, ADelete a =>
      bdr_code a = OK /\ bd_key <$> bdr_results a = bdq_keys q \/ bdr_code a = INVALID_ARGUMENT /\ bdr_results a = []
  | RRead q _, ARead a =>
      (brr_code a = OK /\ br_key <$> brr_results a = brq_keys q \/ brr_code a = INVALID_ARGUMENT /\ brr_results a = []) /\
      Forall (read_ok (brq_namespace q) (brq_include_value q) l) (brr_results a)
  | _, _ => False
  end.

Fixpoint answers_ok (o : ServiceOptions) (l : ledger) (qs : list request) (acc : list response) : Prop :=
  match qs, acc with
  | [], [] => True
  | q :: qs, a :: acc => answer_ok o l q a /\ answers_ok o (ledger_step q a l) qs acc
  | _, _ => False
  end.

(** The ledger after the requests. *)
Fixpoint ledger_run (qs : list request) (acc : list response) (l : ledger) : ledger :=
  match qs, acc with
  | q :: qs, a :: acc => ledger_run qs acc (ledger_step q a l)
  | _, _ => l
  end.

(** Requests with bytes in their strings, and values of sizes a machine has. *)
Definition request_ok (q : request) : Prop :=
  match q with
  | RWrite q _ => Forall (fun item => bytes_ok (ki_key item) /\
      Z.of_nat (length (ki_value item)) + Z.of_nat (length (ki_metadata item)) < 2 ^ 64) (bwq_items q)
  | RRead q _ => Forall bytes_ok (brq_keys q)
  | RDelete q => Forall bytes_ok (bdq_keys q)
  end.

Section stale.
Context {S : Type} `{!KVCacheStorageBackend S} `{!BackendLaws S}.
Implicit Types (m : NamespaceManager S) (l : ledger).

(** The backends store nothing that is not in the ledger. *)
Definition covered m l : Prop :=
  forall ns s, backends_ m !! ns = Some s -> bk_inv s /\
    forall key x, bytes_ok key -> bk_view s key = Some x -> l !! (ns, key) = Some x.

(** A sequence of calls that gets to a [Put] on a backend that is not ready. *)
Definition unready (os : list (string * kv_op)) m : Prop :=
  exists os1 ns key v md opts clock os2 rs1 m1 s,
    os = os1 ++ (ns, KPut key v md opts clock) :: os2 /\ ns_run os1 m = Ret (rs1, m1) /\
    backends_ m1 !! ns = Some s /\ bk_inv s /\ ~ bk_ready s.

Lemma covered_set m l l' ns s' :
  covered m l -> bk_inv s' -> (forall ns' key, ns' <> ns -> l' !! (ns', key) = l !! (ns', key)) ->
  (forall key x, bytes_ok key -> bk_view s' key = Some x -> l' !! (ns, key) = Some x) ->
  covered (set_backend ns s' m) l'.
Proof.
  intros Hc Hi Hl Hv ns' s. cbn [set_backend backends_]. destruct (decide (ns = ns')) as [<-|Hne].
  - rewrite lookup_insert_eq. intros [= <-]. done.
  - rewrite lookup_insert_ne by done. intros Hs. destruct (Hc ns' s Hs) as [? Hv']. split; [done|].
    intros key x Hk Hx. rewrite Hl by done. by apply Hv'.
Qed.

Lemma ns_Put_covered ns key v md opts clock m l :
  covered m l -> bytes_ok key -> Z.of_nat (length v) + Z.of_nat (length md) < 2 ^ 64 ->
  match ns_Put ns key v md opts clock m with
  | UB => exists s, backends_ m !! ns = Some s /\ bk_inv s /\ ~ bk_ready s
  | Ret (r, m') => covered m' (if bool_decide (wr_code r = BkOk) then <[(ns, key) := (v, md)]> l else l)
  end.
Proof.
  intros Hc Hk Hlen. unfold ns_Put, GetBackend. destruct (backends_ m !! ns) as [s|] eqn:Es; [|done].
  destruct (Hc ns s Es) as [Hi Hv]. destruct (backend_Put _ _ _ _ _ s) as [[r s']|] eqn:E; cbn [mbind Outcome_bind].
  2: { exists s. split; [done|]. split; [done|]. intros Hr.
       destruct (bk_Put_defined key v md opts clock s Hi Hr Hk Hlen) as (r & s' & E'). congruence. }
  destruct (bk_Put_law _ _ _ _ _ _ _ _ Hi Hk Hlen E) as [Hi' Hp]. unfold put_promise in Hp.
  destruct (decide (wr_code r = BkOk)) as [Er|Er].
  - rewrite bool_decide_eq_true_2 by done. destruct Hp as [Hset Hkeep]. apply (covered_set m l); [done|done| |].
    + intros ns' key' Hne. rewrite lookup_insert_ne by congruence. done.
    + intros key' x Hk' Hx. destruct (decide (key' = key)) as [->|Hne].
      * rewrite lookup_insert_eq. congruence.
      * rewrite lookup_insert_ne by congruence. by apply Hv, Hkeep.
  - rewrite bool_decide_eq_false_2 by done. apply (covered_set m l); [done|done|done|].
    intros key' x Hk' Hx. by apply Hv, Hp.
Qed.

Lemma ns_Get_covered ns key opts clock m l :
  covered m l -> bytes_ok key ->
  exists r m', ns_Get ns key opts clock m = Ret (r, m') /\ covered m' l /\
    if decide (rr_code r = BkOk)
    then exists v, l !! (ns, key) = Some (v, rr_metadata r) /\ rr_value r = if ro_include_value opts then v else []
    else rr_value r = [] /\ rr_metadata r = [].
Proof.
  intros Hc Hk. unfold ns_Get, GetBackend. destruct (backends_ m !! ns) as [s|] eqn:Es.
  2: { do 2 eexists. split; [done|]. done. }
  destruct (Hc ns s Es) as [Hi Hv]. destruct (bk_Get_defined key opts clock s Hi Hk) as (r & s' & E). rewrite E.
  destruct (bk_Get_law _ _ _ _ _ _ Hi Hk E) as [Hi' [Hsh Hg]]. do 2 eexists. split; [done|]. split.
  - apply (covered_set m l); [done|done|done|]. intros key' x Hk' Hx. by apply Hv, Hsh.
  - case_decide; [|done]. destruct Hg as (v & Hg & ?). exists v. split; [by apply Hv|done].
Qed.

Lemma ns_Delete_covered ns key m l :
  covered m l -> bytes_ok key ->
  exists r m', ns_Delete ns key m = Ret (r, m') /\ covered m' (if bool_decide (wr_code r = BkOk) then delete (ns, key) l else l).
Proof.
  intros Hc Hk. unfold ns_Delete, GetBackend. destruct (backends_ m !! ns) as [s|] eqn:Es.
  2: { do 2 eexists. split; [done|]. done. }
  destruct (Hc ns s Es) as [Hi Hv]. destruct (bk_Delete_defined key s Hi Hk) as (r & s' & E). rewrite E.
  destruct (bk_Delete_law _ _ _ _ Hi Hk E) as [Hi' [Hsh Hd]]. do 2 eexists. split; [done|].
  case_bool_decide as Er; apply (covered_set m l); try done.
  - intros ns' key' Hne. rewrite lookup_delete_ne by congruence. done.
  - intros key' x Hk' Hx. destruct (decide (key' = key)) as [->|Hne]; [rewrite Hd in Hx by done; done|].
    rewrite lookup_delete_ne by congruence. by apply Hv, Hsh.
  - intros key' x Hk' Hx. by apply Hv, Hsh.
Qed.

Lemma write_items_covered o q items clocks i x y m l :
  covered m l -> Forall (fun item => bytes_ok (ki_key item) /\
    Z.of_nat (length (ki_value item)) + Z.of_nat (length (ki_metadata item)) < 2 ^ 64) items ->
  match write_items o q items clocks i x y m with
  | UB => True
  | Ret (outs, _, _, m') => bw_key <$> outs = ki_key <$> items /\ covered m' (ledger_writes (bwq_namespace q) items outs l)
  end.
Proof.
  revert i x y m l. induction items as [|item items IH]; intros i x y m l Hc Hi; cbn [write_items]; [done|].
  apply Forall_cons in Hi as [[Hk Hlen] Hi].
  assert (match write_item o q item (clocks i) m with
    | UB => True
    | Ret (out, _, m') => bw_key out = ki_key item /\ covered m'
        (if bool_decide (bw_code out = OK) then <[(bwq_namespace q, ki_key item) := (ki_value item, ki_metadata item)]> l else l)
    end) as Hw.
  { unfold write_item. destruct (no_bytes _); [done|]. destruct (_ && _); [done|].
    match goal with |- context [ns_Put ?a ?b ?c ?d ?e ?f m] => pose proof (ns_Put_covered a b c d e f m l Hc Hk Hlen) as Hp;
      destruct (ns_Put a b c d e f m) as [[r m']|] end; [|done]. cbn [mbind Outcome_bind bw_key bw_code]. split; [done|].
    by rewrite (bool_decide_ext _ _ (ToProtoCode_ok (wr_code r))). }
  destruct (write_item o q item (clocks i) m) as [[[out b] m1]|]; cbn [mbind Outcome_bind]; [|done].
  destruct Hw as [Ek Hc1]. destruct (count b x y) as [x1 y1]. specialize (IH (i + 1)%nat x1 y1 m1 _ Hc1 Hi).
  destruct (write_items o q items clocks (i + 1) x1 y1 m1) as [[[[outs ?] ?] m2]|]; cbn [mbind Outcome_bind]; [|done].
  destruct IH as [Eks Hc2]. split; [cbn; by rewrite Ek, Eks|]. exact Hc2.
Qed.

Lemma read_items_covered q keys clocks i x y m l :
  covered m l -> Forall bytes_ok keys ->
  exists outs x' y' m', read_items q keys clocks i x y m = Ret (outs, x', y', m') /\ br_key <$> outs = keys /\
    covered m' l /\ Forall (read_ok (brq_namespace q) (brq_include_value q) l) outs.
Proof.
  revert i x y m. induction keys as [|key keys IH]; intros i x y m Hc Hk; cbn [read_items].
  { by exists [], x, y, m. }
  apply Forall_cons in Hk as [Hk Hks].
  assert (exists out b m', read_item q key (clocks i) m = Ret (out, b, m') /\ br_key out = key /\ covered m' l /\
    read_ok (brq_namespace q) (brq_include_value q) l out) as (out & b & m1 & -> & Ek & Hc1 & Hr).
  { unfold read_item. destruct (no_bytes key); [by do 3 eexists|].
    match goal with |- context [ns_Get ?a ?b ?c ?d m] => destruct (ns_Get_covered a b c d m l Hc Hk) as (r & m' & -> & Hc' & Hr) end.
    cbn [mbind Outcome_bind ro_include_value] in *. unfold read_ok. case_bool_decide as Er.
    - rewrite decide_True in Hr by done. do 3 eexists. split; [done|]. split; [done|]. split; [done|]. cbn.
      rewrite decide_True by (by apply ToProtoCode_ok). destruct Hr as (v & Hl & Ev). exists v. split; [done|].
      rewrite Ev. by destruct (brq_include_value q).
    - do 3 eexists. split; [done|]. split; [done|]. split; [done|]. cbn.
      rewrite decide_False by (by rewrite ToProtoCode_ok). done. }
  cbn [mbind Outcome_bind]. destruct (count b x y) as [x1 y1].
  destruct (IH (i + 1)%nat x1 y1 m1 Hc1 Hks) as (outs & x' & y' & m' & -> & Eks & Hc' & Hrs). cbn [mbind Outcome_bind].
  do 4 eexists. split; [done|]. split; [cbn; by rewrite Ek, Eks|]. split; [done|by constructor].
Qed.

Lemma delete_items_covered q keys x y m l :
  covered m l -> Forall bytes_ok keys ->
  exists outs x' y' m', delete_items q keys x y m = Ret (outs, x', y', m') /\ bd_key <$> outs = keys /\
    covered m' (ledger_deletes (bdq_namespace q) keys outs l).
Proof.
  revert x y m l. induction keys as [|key keys IH]; intros x y m l Hc Hk; cbn [delete_items].
  { by exists [], x, y, m. }
  apply Forall_cons in Hk as [Hk Hks].
  assert (exists out b m', delete_item q key m = Ret (out, b, m') /\ bd_key out = key /\
    covered m' (if bool_decide (bd_code out = OK) then delete (bdq_namespace q, key) l else l)) as (out & b & m1 & -> & Ek & Hc1).
  { unfold delete_item. destruct (no_bytes key); [by do 3 eexists|].
    destruct (ns_Delete_covered (bdq_namespace q) key m l Hc Hk) as (r & m' & -> & Hc'). cbn [mbind Outcome_bind].
    do 3 eexists. split; [done|]. split; [done|]. cbn. by rewrite (bool_decide_ext _ _ (ToProtoCode_ok (wr_code r))). }
  cbn [mbind Outcome_bind]. destruct (count b x y) as [x1 y1].
  destruct (IH x1 y1 m1 _ Hc1 Hks) as (outs & x' & y' & m' & -> & Eks & Hc'). cbn [mbind Outcome_bind].
  do 4 eexists. split; [done|]. split; [cbn; by rewrite Ek, Eks|done].
Qed.

Lemma serve_covered o q m l :
  covered m l -> request_ok q ->
  match serve o q m with
  | UB => True
  | Ret (a, m') => answer_ok o l q a /\ covered m' (ledger_step q a l)
  end.
Proof.
  intros Hc Hq. destruct q as [q clocks|q clocks|q]; cbn [serve request_ok] in *.
  - unfold BatchWrite. assert (covered m (ledger_writes (bwq_namespace q) (bwq_items q) [] l)) as Hc0
      by (by destruct (bwq_items q)).
    destruct (_ =? 0); [split; [by right|exact Hc0]|]. destruct (_ >? _); [split; [by right|exact Hc0]|].
    pose proof (write_items_covered o q (bwq_items q) clocks 0 0 0 m l Hc Hq) as Hw.
    destruct (write_items _ _ _ _ _ _ _ m) as [[[[outs ?] ?] m']|]; cbn [mbind Outcome_bind]; [|done].
    destruct Hw as [Ek Hc']. split; [by left|exact Hc'].
  - unfold BatchRead. destruct (_ =? 0); [split; [split; [by right|by constructor]|done]|].
    destruct (_ >? _); [split; [split; [by right|by constructor]|done]|].
    destruct (read_items_covered q (brq_keys q) clocks 0 0 0 m l Hc Hq) as (outs & x' & y' & m' & -> & Ek & Hc' & Hr).
    cbn [mbind Outcome_bind]. split; [split; [by left|exact Hr]|exact Hc'].
  - unfold BatchDelete. assert (covered m (ledger_deletes (bdq_namespace q) (bdq_keys q) [] l)) as Hc0
      by (by destruct (bdq_keys q)).
    destruct (_ =? 0); [split; [by right|exact Hc0]|]. destruct (_ >? _); [split; [by right|exact Hc0]|].
    destruct (delete_items_covered q (bdq_keys q) 0 0 m l Hc Hq) as (outs & x' & y' & m' & -> & Ek & Hc').
    cbn [mbind Outcome_bind]. split; [by left|exact Hc'].
Qed.

Lemma serve_all_covered (o : ServiceOptions) (qs : list request) m l :
  covered m l -> Forall request_ok qs ->
  match serve_all o qs m with
  | UB => True
  | Ret (acc, m') => answers_ok o l qs acc /\ covered m' (ledger_run qs acc l)
  end.
Proof.
  revert m l. induction qs as [|q qs IH]; intros m l Hc Hq; cbn [serve_all]; [done|].
  apply Forall_cons in Hq as [Hq Hqs]. pose proof (serve_covered o q m l Hc Hq) as Hs.
  destruct (serve o q m) as [[a m1]|]; cbn [mbind Outcome_bind]; [|done]. destruct Hs as [Ha Hc1].
  specialize (IH m1 _ Hc1 Hqs). destruct (serve_all o qs m1) as [[acc m2]|]; cbn [mbind Outcome_bind]; [|done].
  destruct IH. done.
Qed.

(** A call with bytes in its key, and sizes a machine has. *)
Definition call_ok (o : string * kv_op) : Prop :=
  match o.2 with
  | KPut key v md _ _ => bytes_ok key /\ Z.of_nat (length v) + Z.of_nat (length md) < 2 ^ 64
  | KGet key _ _ | KDelete key => bytes_ok key
  end.

Lemma calls_ok o q : request_ok q -> Forall call_ok (calls o q).
Proof.
  destruct q as [q clocks|q clocks|q]; cbn [request_ok calls]; (destruct (rejected _ _); [by constructor|]).
  - generalize 0%nat. induction (bwq_items q) as [|item items IH]; intros i Hq; cbn [write_calls]; [by constructor|].
    apply Forall_cons in Hq as [Hi Hq]. destruct (item_error o item); [by apply IH|]. constructor; [done|by apply IH].
  - generalize 0%nat. induction (brq_keys q) as [|key keys IH]; intros i Hq; cbn [read_calls]; [by constructor|].
    apply Forall_cons in Hq as [Hi Hq]. destruct (no_bytes key); [by apply IH|]. constructor; [done|by apply IH].
  - induction (bdq_keys q) as [|key keys IH]; intros Hq; cbn [delete_calls]; [by constructor|].
    apply Forall_cons in Hq as [Hi Hq]. destruct (no_bytes key); [by apply IH|]. constructor; [done|by apply IH].
Qed.

Lemma ns_run_undefined os m l :
  covered m l -> Forall call_ok os -> ns_run os m = UB -> unready os m.
Proof.
  revert m l. induction os as [|[ns o] os IH]; intros m l Hc Hos E; [done|]. apply Forall_cons in Hos as [Ho Hos].
  cbn [ns_run] in E.
  assert (forall r m1 l1, ns_step (ns, o) m = Ret (r, m1) -> covered m1 l1 -> unready ((ns, o) :: os) m) as Hnext.
  { intros r m1 l1 E1 Hc1. rewrite E1 in E. cbn [mbind Outcome_bind] in E.
    destruct (ns_run os m1) as [[rs m2]|] eqn:E2; [done|].
    destruct (IH m1 l1 Hc1 Hos E2) as (os1 & ns' & key & v & md & opts & clock & os2 & rs1 & m2 & s & -> & Er & Hs).
    exists ((ns, o) :: os1), ns', key, v, md, opts, clock, os2, (r :: rs1), m2, s. split; [done|]. split; [|done].
    cbn [ns_run]. rewrite E1. cbn [mbind Outcome_bind]. by rewrite Er. }
  destruct o as [key v md opts clock|key opts clock|key]; cbn [call_ok snd] in Ho.
  - pose proof (ns_Put_covered ns key v md opts clock m l Hc (proj1 Ho) (proj2 Ho)) as Hp.
    destruct (ns_Put ns key v md opts clock m) as [[r m1]|] eqn:E1.
    + eapply Hnext; [|exact Hp]. cbn [ns_step fst snd]. by rewrite E1.
    + destruct Hp as (s & Hs). by exists [], ns, key, v, md, opts, clock, os, [], m, s.
  - destruct (ns_Get_covered ns key opts clock m l Hc Ho) as (r & m1 & E1 & Hc1 & _).
    eapply Hnext; [|exact Hc1]. cbn [ns_step fst snd]. by rewrite E1.
  - destruct (ns_Delete_covered ns key m l Hc Ho) as (r & m1 & E1 & Hc1).
    eapply Hnext; [|exact Hc1]. cbn [ns_step fst snd]. by rewrite E1.
Qed.

Lemma all_calls_ok o qs : Forall request_ok qs -> Forall call_ok (flat_map (calls o) qs).
Proof.
  induction 1 as [|q qs Hq _ IH]; [by constructor|].
  change (flat_map (calls o) (q :: qs)) with (calls o q ++ (flat_map (calls o) qs)).
  apply Forall_app. split; [by apply calls_ok|done].
Qed.

Lemma serve_all_undefined o qs m l :
  covered m l -> Forall request_ok qs -> serve_all o qs m = UB -> unready (flat_map (calls o) qs) m.
Proof.
  intros Hc Hq E. pose proof (serve_all_calls o qs m) as Hs. rewrite E in Hs. apply (ns_run_undefined _ m l Hc); [|done].
  by apply all_calls_ok.
Qed.

(** reads are never stale.  Take any backends that keep the promise of the
    interface, and a ledger of what they store.  Whatever batches are served,
    every response has one result per item, in the order of the items (or
    rejects the whole batch), and every hit of a read returns the value and
    metadata of the last write that was answered [OK] and not deleted since, in
    that namespace.  The only way not to get a response is a [Put], among the
    calls of the batches, that finds its backend not ready for it. *)
Theorem service_never_stale (o : ServiceOptions) (qs : list request) m l :
  covered m l -> Forall request_ok qs ->
  match serve_all o qs m with
  | UB => unready (flat_map (calls o) qs) m
  | Ret (acc, m') => answers_ok o l qs acc
  end.
Proof.
  intros Hc Hq. pose proof (serve_all_covered o qs m l Hc Hq) as Hs. destruct (serve_all o qs m) as [[acc m']|] eqn:E;
    [apply Hs|by apply (serve_all_undefined o qs m l)].
Qed.

End stale.
