(* ===== verification/Background.v ===== *)
(** * Calls and background work

    The handlers of the service run on several threads, and the statistics
    thread of each backend compacts in between.  Here the calls of all batches,
    in any order, alternate with rounds of background work: what can be
    concluded from the results of the calls, and from the responses of whole
    batches with rounds between them ([serve_work]). *)

From S2P Require Import Prelude Backend Namespaces Service ServiceTheorems.

(** The background work of a backend. *)
Class Background (S : Type) := background : S -> Outcome S.

(** It is not seen by the callers. *)
Class BackgroundLaws (S : Type) `{!KVCacheStorageBackend S} `{!BackendLaws S} `{!Background S} := {
  bg_ready : S -> Prop;
  bg_law s : bk_inv s ->
    match background s with
    | Ret s' => bk_inv s' /\ forall key, bk_view s' key = bk_view s key
    | UB => ~ bg_ready s
    end;
}.

Section either.
Context {S1 S2 : Type} `{!KVCacheStorageBackend S1, !KVCacheStorageBackend S2}.
Context `{!BackendLaws S1, !BackendLaws S2} `{!Background S1, !Background S2}.

#[export] Instance either_background : Background (S1 + S2) := fun s =>
  match s with
  | inl s => s ← background s; Ret (inl s)
  | inr s => s ← background s; Ret (inr s)
  end.

#[export] Instance either_background_laws `{!BackgroundLaws S1, !BackgroundLaws S2} : BackgroundLaws (S1 + S2).
Proof.
  refine {| bg_ready s := match s with inl s => bg_ready s | inr s => bg_ready s end |}.
  intros [s|s] Hi; cbn; pose proof (bg_law s Hi) as Hs; unfold background in *; by destruct (_ s).
Defined.

End either.

Inductive event := Call (o : string * kv_op) | Round (ns : string).

Section events.
Context {S : Type} `{!KVCacheStorageBackend S} `{!Background S}.
Implicit Types (m : NamespaceManager S) (l : ledger).

Definition event_step (ev : event) m : Outcome (list kv_result * NamespaceManager S) :=
  match ev with
  | Call o => '(r, m) ← ns_step o m; Ret ([r], m)
  | Round ns =>
      match backends_ m !! ns with
      | None => Ret ([], m)
      | Some s => s ← background s; Ret ([], set_backend ns s m)
      end
  end.

(** The results of the calls, in their order. *)
Fixpoint event_run (evs : list event) m : Outcome (list kv_result * NamespaceManager S) :=
  match evs with
  | [] => Ret ([], m)
  | ev :: evs => '(rs, m) ← event_step ev m; '(rs', m) ← event_run evs m; Ret (rs ++ rs', m)
  end.

(** The ledger after a call, and what it says about the result of a read. *)
Definition ledger_call (o : string * kv_op) (r : kv_result) l : ledger :=
  match o.2 with
  | KPut key v md _ _ => if bool_decide (kv_code r = BkOk) then <[(o.1, key) := (v, md)]> l else l
  | KDelete key => if bool_decide (kv_code r = BkOk) then delete (o.1, key) l else l
  | KGet _ _ _ => l
  end.

Definition call_explained (o : string * kv_op) (r : kv_result) l : Prop :=
  match o.2, r with
  | KGet key opts _, KRead r =>
      if decide (rr_code r = BkOk)
      then exists v, l !! (o.1, key) = Some (v, rr_metadata r) /\ rr_value r = if ro_include_value opts then v else []
      else rr_value r = [] /\ rr_metadata r = []
  | KPut _ _ _ _ _, KWrite _ | KDelete _, KWrite _ => True
  | _, _ => False
  end.

Fixpoint explained l (evs : list event) (rs : list kv_result) : Prop :=
  match evs, rs with
  | [], [] => True
  | Round _ :: evs, rs => explained l evs rs
  | Call o :: evs, r :: rs => call_explained o r l /\ explained (ledger_call o r l) evs rs
  | _, _ => False
  end.

(** The ledger after a run. *)
Fixpoint ledger_events l (evs : list event) (rs : list kv_result) : ledger :=
  match evs, rs with
  | Round _ :: evs, rs => ledger_events l evs rs
  | Call o :: evs, r :: rs => ledger_events (ledger_call o r l) evs rs
  | _, _ => l
  end.

Definition event_ok (ev : event) : Prop := match ev with Call o => call_ok o | Round _ => True end.

(** Calls alone. *)
Lemma event_run_calls os m : event_run (Call <$> os) m = ns_run os m.
Proof.
  revert m. induction os as [|o os IH]; intros m; [done|]. cbn [fmap list_fmap event_run ns_run event_step].
  destruct (ns_step o m) as [[r m1]|]; cbn [mbind Outcome_bind]; [|done]. fold (Call <$> os). by rewrite IH.
Qed.

Section laws.
Context `{!BackendLaws S} `{!BackgroundLaws S}.

(** The next event has no result. *)
Definition event_stuck (ev : event) m : Prop :=
  exists ns s, backends_ m !! ns = Some s /\ bk_inv s /\
    match ev with
    | Call (ns', KPut _ _ _ _ _) => ns' = ns /\ ~ bk_ready s
    | Round ns' => ns' = ns /\ ~ bg_ready s
    | _ => False
    end.

(** A run that gets to such an event. *)
Definition events_stuck (evs : list event) m : Prop :=
  exists evs1 ev evs2 rs1 m1, evs = evs1 ++ ev :: evs2 /\ event_run evs1 m = Ret (rs1, m1) /\ event_stuck ev m1.

Lemma ns_step_explained o m l :
  covered m l -> call_ok o ->
  match ns_step o m with
  | Ret (r, m') => call_explained o r l /\ covered m' (ledger_call o r l)
  | UB => event_stuck (Call o) m
  end.
Proof.
  intros Hc Ho. destruct o as [ns [key v md opts clock|key opts clock|key]]; cbn [ns_step fst snd]; unfold call_ok in Ho; cbn in Ho.
  - pose proof (ns_Put_covered ns key v md opts clock m l Hc (proj1 Ho) (proj2 Ho)) as Hp.
    destruct (ns_Put ns key v md opts clock m) as [[r m']|]; cbn [mbind Outcome_bind]; [done|].
    destruct Hp as (s & Hs & Hi & Hr). by exists ns, s.
  - destruct (ns_Get_covered ns key opts clock m l Hc Ho) as (r & m' & -> & Hc' & Hr). cbn [mbind Outcome_bind]. done.
  - destruct (ns_Delete_covered ns key m l Hc Ho) as (r & m' & -> & Hc'). cbn [mbind Outcome_bind]. done.
Qed.

Lemma round_covered ns m l :
  covered m l ->
  match event_step (Round ns) m with
  | Ret (rs, m') => rs = [] /\ covered m' l
  | UB => event_stuck (Round ns) m
  end.
Proof.
  intros Hc. cbn [event_step]. destruct (backends_ m !! ns) as [s|] eqn:Es; [|done]. destruct (Hc ns s Es) as [Hi Hv].
  pose proof (bg_law s Hi) as Hb. destruct (background s) as [s'|]; cbn [mbind Outcome_bind]; [|by exists ns, s].
  destruct Hb as [Hi' Hv']. split; [done|]. apply (covered_set m l); [done|done|done|]. intros key x Hk Hx. apply Hv; [done|].
  by rewrite <- Hv'.
Qed.

Lemma event_run_explained (evs : list event) m l :
  covered m l -> Forall event_ok evs ->
  match event_run evs m with
  | Ret (rs, m') => explained l evs rs /\ covered m' (ledger_events l evs rs)
  | UB => events_stuck evs m
  end.
Proof.
  revert m l. induction evs as [|ev evs IH]; intros m l Hc Hev; cbn [event_run]; [done|]. apply Forall_cons in Hev as [Ho Hev].
  assert (forall rs1 m1 l1, event_step ev m = Ret (rs1, m1) -> covered m1 l1 ->
    (forall rs, explained l1 evs rs -> explained l (ev :: evs) (rs1 ++ rs)) ->
    (forall rs, ledger_events l (ev :: evs) (rs1 ++ rs) = ledger_events l1 evs rs) ->
    match '(rs', m) ← event_run evs m1; Ret (rs1 ++ rs', m) with
    | Ret (rs, m') => explained l (ev :: evs) rs /\ covered m' (ledger_events l (ev :: evs) rs)
    | UB => events_stuck (ev :: evs) m
    end) as Hnext.
  { intros rs1 m1 l1 E1 Hc1 Hex Hl. specialize (IH m1 l1 Hc1 Hev).
    destruct (event_run evs m1) as [[rs2 m2]|]; cbn [mbind Outcome_bind].
    { rewrite Hl. destruct IH as [Hx Hcov]. split; [by apply Hex|done]. }
    destruct IH as (evs1 & ev' & evs2 & rs3 & m3 & -> & E3 & Hst).
    exists (ev :: evs1), ev', evs2, (rs1 ++ rs3), m3. split; [done|]. split; [|done]. cbn [event_run]. rewrite E1.
    cbn [mbind Outcome_bind]. by rewrite E3. }
  assert (event_step ev m = UB -> event_stuck ev m -> events_stuck (ev :: evs) m) as Hst by (intros _ ?; by exists [], ev, evs, [], m).
  destruct ev as [o|ns].
  - pose proof (ns_step_explained o m l Hc Ho) as Hs. cbn [event_step] in *. destruct (ns_step o m) as [[r m1]|].
    + destruct Hs as [Hx Hc1]. cbn [mbind Outcome_bind]. by apply (Hnext [r] m1 _ eq_refl Hc1).
    + by apply Hst.
  - pose proof (round_covered ns m l Hc) as Hs. destruct (event_step (Round ns) m) as [[rs1 m1]|].
    + destruct Hs as [-> Hc1]. cbn [mbind Outcome_bind]. by apply (Hnext [] m1 l eq_refl Hc1).
    + by apply Hst.
Qed.

End laws.

(** ** Batches and rounds *)

(** The work of a server in the order in which it is done. *)
Inductive work := Batch (q : request) | Stats (ns : string).

Fixpoint serve_work (o : ServiceOptions) (ws : list work) m : Outcome (list response * NamespaceManager S) :=
  match ws with
  | [] => Ret ([], m)
  | Batch q :: ws => '(a, m) ← serve o q m; '(acc, m) ← serve_work o ws m; Ret (a :: acc, m)
  | Stats ns :: ws => '(_, m) ← event_step (Round ns) m; serve_work o ws m
  end.

Definition batches (ws : list work) : list request := omap (fun w => match w with Batch q => Some q | Stats _ => None end) ws.

(** The calls and rounds that make it up. *)
Definition work_events (o : ServiceOptions) (w : work) : list event :=
  match w with Batch q => Call <$> calls o q | Stats ns => [Round ns] end.

Lemma event_run_app evs1 evs2 m :
  event_run (evs1 ++ evs2) m = '(rs1, m1) ← event_run evs1 m; '(rs2, m2) ← event_run evs2 m1; Ret (rs1 ++ rs2, m2).
Proof.
  revert m. induction evs1 as [|ev evs1 IH]; intros m; cbn.
  - by destruct (event_run evs2 m) as [[? ?]|].
  - destruct (event_step ev m) as [[r m1]|]; [|done]. cbn. rewrite IH. destruct (event_run evs1 m1) as [[rs1 m2]|]; [|done]. cbn.
    destruct (event_run evs2 m2) as [[? ?]|]; [|done]. cbn. by rewrite app_assoc.
Qed.

Lemma serve_work_events o ws m :
  match serve_work o ws m with
  | Ret (_, m') => exists rs, event_run (flat_map (work_events o) ws) m = Ret (rs, m')
  | UB => event_run (flat_map (work_events o) ws) m = UB
  end.
Proof.
  revert m. induction ws as [|w ws IH]; intros m; cbn [serve_work]; [by exists []|].
  change (flat_map (work_events o) (w :: ws)) with (work_events o w ++ flat_map (work_events o) ws). rewrite event_run_app.
  destruct w as [q|ns]; cbn [work_events].
  - rewrite event_run_calls. pose proof (serve_calls o q m) as Hq. destruct (serve o q m) as [[a m1]|]; [|by rewrite Hq].
    destruct Hq as [rs1 ->]. cbn [mbind Outcome_bind]. specialize (IH m1).
    destruct (serve_work o ws m1) as [[acc m2]|]; cbn [mbind Outcome_bind]; [|by rewrite IH]. destruct IH as [rs2 ->]. by eexists.
  - cbn [event_run]. destruct (event_step (Round ns) m) as [[rs1 m1]|]; [|done]. cbn [mbind Outcome_bind]. specialize (IH m1).
    destruct (serve_work o ws m1) as [[acc m2]|]; [|by rewrite IH]. destruct IH as [rs2 ->]. by eexists.
Qed.

(** Without rounds. *)
Lemma work_calls o ws : (forall ns, Stats ns ∉ ws) -> flat_map (work_events o) ws = Call <$> flat_map (calls o) (batches ws).
Proof.
  induction ws as [|[q|ns] ws IH]; intros Hns; [done| |destruct (Hns ns); by left].
  cbn. rewrite fmap_app. f_equal. apply IH. intros ns Hin. apply (Hns ns). by right.
Qed.

Lemma work_events_ok o ws : Forall request_ok (batches ws) -> Forall event_ok (flat_map (work_events o) ws).
Proof.
  induction ws as [|[q|ns] ws IH]; [by constructor| |].
  - intros [Hq Hqs]%Forall_cons. cbn. apply Forall_app. split; [|by apply IH]. apply Forall_fmap.
    eapply Forall_impl; [by apply (calls_ok o)|]. done.
  - intros Hqs. cbn. constructor; [done|by apply IH].
Qed.

Lemma serve_work_covered `{!BackendLaws S} `{!BackgroundLaws S} o ws m l :
  covered m l -> Forall request_ok (batches ws) ->
  match serve_work o ws m with
  | Ret (acc, m') => answers_ok o l (batches ws) acc /\ covered m' (ledger_run (batches ws) acc l)
  | UB => events_stuck (flat_map (work_events o) ws) m
  end.
Proof.
  intros Hc Hq. destruct (serve_work o ws m) as [[acc m']|] eqn:E.
  2: { pose proof (serve_work_events o ws m) as He. rewrite E in He.
       pose proof (event_run_explained _ m l Hc (work_events_ok o ws Hq)) as Hr. by rewrite He in Hr. }
  revert m l acc Hc Hq E. induction ws as [|[q|ns] ws IH]; intros m l acc Hc Hq E; cbn [serve_work] in E.
  - by injection E as <- <-.
  - apply Forall_cons in Hq as [Hq Hqs]. pose proof (serve_covered o q m l Hc Hq) as Hs.
    destruct (serve o q m) as [[a m1]|]; [|done]. cbn [mbind Outcome_bind] in E. destruct Hs as [Ha Hc1].
    destruct (serve_work o ws m1) as [[acc1 m2]|] eqn:E1; [|done]. injection E as <- <-.
    destruct (IH m1 _ acc1 Hc1 Hqs E1). done.
  - pose proof (round_covered ns m l Hc) as Hs. destruct (event_step (Round ns) m) as [[rs1 m1]|]; [|done].
    cbn [mbind Outcome_bind] in E. destruct Hs as [_ Hc1]. by apply (IH m1).
Qed.

End events.
