(* ===== verification/StatsThread.v ===== *)
(** * The statistics thread

    [StartStatsThread], [StopStatsThread] and the loop of [StatsLoop] in
    [core/kvcache_storage/index_kvcache_storage_backend.cc]: the thread that runs
    compaction, and its owner, which starts it in [CreateContext] and stops it in
    [Close] and the destructor.  The sections under [stats_mu_] are single steps;
    the two threads take turns in any order. *)

From S2P Require Import Prelude.

(** Where the thread is: not there, in [wait_for], in a round after the wait,
    or past the end of the loop. *)
Inductive loop_pc := NotRunning | Waiting | InRound | Exited.
(** Where its owner is: elsewhere, or in [stats_thread_.join()]. *)
Inductive owner_pc := Elsewhere | Joining.

#[export] Instance loop_pc_eq_dec : EqDecision loop_pc.
Proof. solve_decision. Defined.
#[export] Instance owner_pc_eq_dec : EqDecision owner_pc.
Proof. solve_decision. Defined.

Record StatsThread := mkStatsThread {
  stats_interval_sec : Z;
  joinable : bool;
  stats_stop_ : bool;
  loop_at : loop_pc;
  owner_at : owner_pc;
}.

Definition StatsThread_new (interval : Z) : StatsThread := mkStatsThread interval false false NotRunning Elsewhere.

Definition StartStatsThread (s : StatsThread) : StatsThread :=
  if stats_interval_sec s =? 0 then s else
  if joinable s then s else mkStatsThread (stats_interval_sec s) true false Waiting (owner_at s).

(** The section of [StopStatsThread] under the lock; then its owner waits. *)
Definition StopStatsThread (s : StatsThread) : StatsThread :=
  if negb (joinable s) then s else mkStatsThread (stats_interval_sec s) true true (loop_at s) Joining.

(** [join] returns when the thread has ended. *)
Definition join_returns (s : StatsThread) : option StatsThread :=
  if bool_decide (loop_at s = Exited) then Some (mkStatsThread (stats_interval_sec s) false (stats_stop_ s) Exited Elsewhere) else None.

(** [wait_for] returns after the interval, or when [stats_stop_] is set; then it
    is tested again. *)
Definition loop_wakes (s : StatsThread) : option StatsThread :=
  if bool_decide (loop_at s = Waiting)
  then Some (mkStatsThread (stats_interval_sec s) (joinable s) (stats_stop_ s) (if stats_stop_ s then Exited else InRound) (owner_at s))
  else None.

(** The rest of the round, with the compaction. *)
Definition loop_round (s : StatsThread) : option StatsThread :=
  if bool_decide (loop_at s = InRound)
  then Some (mkStatsThread (stats_interval_sec s) (joinable s) (stats_stop_ s) Waiting (owner_at s))
  else None.

(** ** Interleavings *)

Inductive stats_move := OwnerStart | OwnerStop | OwnerJoined | LoopWake | LoopRound.

#[export] Instance stats_move_eq_dec : EqDecision stats_move.
Proof. solve_decision. Defined.

(** The owner makes no call while it waits. *)
Definition stats_step (a : stats_move) (s : StatsThread) : option StatsThread :=
  match a with
  | OwnerStart => if bool_decide (owner_at s = Elsewhere) then Some (StartStatsThread s) else None
  | OwnerStop => if bool_decide (owner_at s = Elsewhere) then Some (StopStatsThread s) else None
  | OwnerJoined => if bool_decide (owner_at s = Joining) then join_returns s else None
  | LoopWake => loop_wakes s
  | LoopRound => loop_round s
  end.

Fixpoint stats_run (ms : list stats_move) (s : StatsThread) : option StatsThread :=
  match ms with
  | [] => Some s
  | a :: ms => s ← stats_step a s; stats_run ms s
  end.

(** The thread is there exactly while it is joinable, and ends only when it was
    told to. *)
Definition stats_inv (s : StatsThread) : bool :=
  match joinable s, owner_at s, loop_at s with
  | false, Elsewhere, (NotRunning | Exited) => true
  | true, Elsewhere, (Waiting | InRound) => true
  | true, Elsewhere, Exited => stats_stop_ s
  | true, Joining, (Waiting | InRound | Exited) => stats_stop_ s
  | _, _, _ => false
  end.

Lemma stats_step_inv a s s' : stats_inv s = true -> stats_step a s = Some s' -> stats_inv s' = true.
Proof.
  destruct s as [n j st lp ow]. intros Hi E.
  destruct a, lp, ow, j, st; cbn in Hi; try discriminate Hi; cbn in E; try discriminate E; injection E as <-; try done;
    unfold StartStatsThread; cbn; by destruct (n =? 0).
Qed.

Lemma stats_run_inv ms s s' : stats_inv s = true -> stats_run ms s = Some s' -> stats_inv s' = true.
Proof.
  revert s. induction ms as [|a ms IH]; intros s Hi E; [by injection E as <-|]. cbn in E.
  destruct (stats_step a s) as [s1|] eqn:E1; [|done]. apply (IH s1); [|done]. by eapply stats_step_inv.
Qed.

(** No round runs after [StopStatsThread] has returned. *)
Lemma round_joinable s s' : stats_inv s = true -> stats_step LoopRound s = Some s' -> joinable s = true.
Proof. destruct s as [n [] st [] []]; done. Qed.

(** How many moves it takes until [StopStatsThread] returns. *)
Definition moves_left (s : StatsThread) : nat :=
  match loop_at s with InRound => 3 | Waiting => 2 | _ => 1 end.

Lemma stopping_step s :
  stats_inv s = true -> owner_at s = Joining ->
  exists a s', stats_step a s = Some s' /\ (forall a', a' <> a -> stats_step a' s = None) /\
    (a = LoopRound -> loop_at s = InRound) /\
    if decide (moves_left s = 1%nat) then owner_at s' = Elsewhere /\ joinable s' = false
    else owner_at s' = Joining /\ S (moves_left s') = moves_left s /\ loop_at s' <> InRound.
Proof.
  destruct s as [n j st lp ow]. cbn. intros Hi ->. destruct j; [|done]. destruct lp; cbn in Hi; [done|subst st..].
  - exists LoopWake. eexists. split; [done|]. split; [by intros []|]. done.
  - exists LoopRound. eexists. split; [done|]. split; [by intros []|]. done.
  - exists OwnerJoined. eexists. split; [done|]. split; [by intros []|]. done.
Qed.

(** C23: Stopping the thread ends.  However the two threads took turns before: when
    [StopStatsThread] waits for the thread, there is always exactly one move
    that can be made next, so nothing is blocked; after at most three of them
    it returns, the thread has ended, and at most one more round of compaction
    has run. *)
Theorem StopStatsThread_returns (interval : Z) (ms : list stats_move) s :
  stats_run ms (StatsThread_new interval) = Some s -> owner_at s = Joining ->
  exists ms' s', stats_run ms' s = Some s' /\ (length ms' <= 3)%nat /\
    (length (filter (fun a => a = LoopRound) ms') <= 1)%nat /\
    owner_at s' = Elsewhere /\ joinable s' = false /\
    forall ms2 s2, stats_run ms2 s = Some s2 -> ms2 `prefix_of` ms' \/ ms' `prefix_of` ms2.
Proof.
  intros E Hj. assert (stats_inv s = true) as Hi by (by eapply stats_run_inv; [|exact E]).
  clear E ms.
  assert (forall n s, stats_inv s = true -> owner_at s = Joining -> moves_left s = n ->
    exists ms' s', stats_run ms' s = Some s' /\ length ms' = n /\
    (length (filter (fun a => a = LoopRound) ms') <= if decide (loop_at s = InRound) then 1 else 0)%nat /\
    owner_at s' = Elsewhere /\ joinable s' = false /\
    forall ms2 s2, stats_run ms2 s = Some s2 -> ms2 `prefix_of` ms' \/ ms' `prefix_of` ms2) as Hmain.
  { clear. induction n as [|n IH]; intros s Hi Hj Hn; [unfold moves_left in Hn; by destruct (loop_at s)|].
    destruct (stopping_step s Hi Hj) as (a & s1 & E1 & Honly & Ha & Hs1).
    assert (forall ms', (forall ms2 s2, stats_run ms2 s1 = Some s2 -> ms2 `prefix_of` ms' \/ ms' `prefix_of` ms2) ->
      forall ms2 s2, stats_run ms2 s = Some s2 -> ms2 `prefix_of` (a :: ms') \/ (a :: ms') `prefix_of` ms2) as Hext.
    { intros ms' Hms' [|b ms2] s2 E2; [left; apply prefix_nil|]. cbn in E2. destruct (decide (b = a)) as [->|Hne].
      - rewrite E1 in E2. destruct (Hms' ms2 s2 E2); [left|right]; by apply prefix_cons.
      - by rewrite (Honly b Hne) in E2. }
    destruct (decide (moves_left s = 1%nat)) as [Hone|Hmore].
    - destruct Hs1 as [Ho1 Hj1]. exists [a], s1. split; [cbn; by rewrite E1|]. split; [cbn; lia|]. split.
      { rewrite filter_cons. case_decide; [|cbn; lia]. rewrite decide_True by auto. done. }
      split; [done|]. split; [done|]. apply Hext. intros ms2 s2 _. right. apply prefix_nil.
    - destruct Hs1 as (Hj1 & Hm1 & Hnr). destruct (IH s1) as (ms' & s' & E' & Hl & Hc & Ho' & Hj' & Hp);
        [by eapply stats_step_inv|done|lia|].
      exists (a :: ms'), s'. split; [cbn; by rewrite E1|]. split; [cbn; lia|]. rewrite decide_False in Hc by done. split.
      { rewrite filter_cons. case_decide; [rewrite decide_True by auto; cbn; lia|]. destruct (decide _); lia. }
      split; [done|]. split; [done|]. by apply Hext. }
  destruct (Hmain (moves_left s) s Hi Hj eq_refl) as (ms' & s' & E' & Hl & Hc & Ho' & Hj' & Hp).
  exists ms', s'. split; [done|]. split; [rewrite Hl; unfold moves_left; destruct (loop_at s); lia|].
  split; [destruct (decide _); lia|]. done.
Qed.

(** The thread is told to stop while it compacts. *)
Definition stop_in_round : list stats_move := [OwnerStart; LoopWake; OwnerStop].
Definition stopping : StatsThread := mkStatsThread 10 true true InRound Joining.

Lemma StopStatsThread_returns_witness :
  exists ms' s', stats_run ms' stopping = Some s' /\ (length ms' <= 3)%nat /\
    (length (filter (fun a => a = LoopRound) ms') <= 1)%nat /\
    owner_at s' = Elsewhere /\ joinable s' = false /\
    forall ms2 s2, stats_run ms2 stopping = Some s2 -> ms2 `prefix_of` ms' \/ ms' `prefix_of` ms2.
Proof. apply (StopStatsThread_returns 10 stop_in_round stopping); reflexivity. Defined.
