(* ===== verification/EtcdClient.v ===== *)
(** * The etcd client

    [common/etcd_client.h] and [common/etcd_client.cc]: keys under the prefix of
    a namespace, watches and registered instances.  The etcd library and the
    server are parameters: the class [Etcd] has the calls the client makes and
    [EtcdLaws] what it relies on. *)

From S2P Require Import Prelude.
From Stdlib Require Import Ascii.

(** ** The library

    [E] is the state of the server and of the objects of the library.  A call
    that fails returns [false] or [None].  Watchers and keep-alives are numbered
    as they are made. *)
Class Etcd (E : Type) := {
  etcd_put (key value : string) (lease : option Z) : E -> bool * E;
  etcd_get (key : string) : E -> option string * E;
  etcd_ls (prefix : string) : E -> option (list (string * string)) * E;
  KeepAlive_new (ttl : Z) : E -> Z * E;
  KeepAlive_Cancel (id : Z) : E -> E;
  Watcher_new (key : string) (prefix_len : Z) (recursive : bool) : E -> Z * E;
  Watcher_Cancel (id : Z) : E -> E;
}.

(** What is stored, and which objects are running.  A [put] that is answered
    with an error may have been stored or not. *)
Class EtcdLaws (E : Type) `{!Etcd E} := {
  stored : E -> gmap string string;
  leases : E -> gset Z;
  watches : E -> gset Z;
  etcd_put_law key value lease e :
    let '(ok, e') := etcd_put key value lease e in
    leases e' = leases e /\ watches e' = watches e /\
    (stored e' = <[key := value]> (stored e) \/ ok = false /\ stored e' = stored e);
  etcd_get_law key e :
    let '(r, e') := etcd_get key e in
    stored e' = stored e /\ leases e' = leases e /\ watches e' = watches e /\
    forall v, r = Some v -> stored e !! key = Some v;
  etcd_ls_law prefix e :
    let '(r, e') := etcd_ls prefix e in
    stored e' = stored e /\ leases e' = leases e /\ watches e' = watches e /\
    forall kvs, r = Some kvs -> NoDup kvs.*1 /\
      forall k v, (k, v) ∈ kvs <-> stored e !! k = Some v /\ String.prefix prefix k = true;
  KeepAlive_new_law ttl e :
    let '(id, e') := KeepAlive_new ttl e in
    stored e' = stored e /\ (id ∉ leases e) /\ leases e' = ({[id]} ∪ leases e) /\ watches e' = watches e;
  KeepAlive_Cancel_law id e :
    let e' := KeepAlive_Cancel id e in
    stored e' = stored e /\ leases e' = (leases e ∖ {[id]}) /\ watches e' = watches e;
  Watcher_new_law key n recursive e :
    let '(id, e') := Watcher_new key n recursive e in
    stored e' = stored e /\ leases e' = leases e /\ (id ∉ watches e) /\ watches e' = {[id]} ∪ watches e;
  Watcher_Cancel_law id e :
    let e' := Watcher_Cancel id e in
    stored e' = stored e /\ leases e' = leases e /\ watches e' = watches e ∖ {[id]};
}.

(** ** The namespace *)

(** The first loop of [normalize_etcd_namespace], and the second one. *)
Fixpoint drop_slashes (s : string) : string :=
  match s with
  | EmptyString => EmptyString
  | String c s' => if Ascii.eqb c "/" then drop_slashes s' else s
  end.
Fixpoint drop_trailing_slashes (s : string) : string :=
  match s with
  | EmptyString => EmptyString
  | String c s => let s := drop_trailing_slashes s in
                  if Ascii.eqb c "/" && is_empty s then EmptyString else String c s
  end.

Definition normalize_etcd_namespace (etcd_namespace : string) : string :=
  if is_empty etcd_namespace then EmptyString else
  let s := drop_trailing_slashes (drop_slashes etcd_namespace) in
  if is_empty s then EmptyString else "/" +:+ s +:+ "/".

(** ** Objects that are owned *)

(** Of the running objects [S], those in [B] are others', and the rest is in the
    map, each under one key. *)
Record owned (B S : gset Z) (m : gmap string Z) : Prop := {
  ow_live : forall x, x ∈ S <-> x ∈ B \/ exists k, m !! k = Some x;
  ow_new : forall k x, m !! k = Some x -> x ∉ B;
  ow_inj : forall k k' x, m !! k = Some x -> m !! k' = Some x -> k = k';
}.

Lemma swap_object (X : gset Z) x old : old <> x -> ({[x]} ∪ X) ∖ {[old]} = {[x]} ∪ (X ∖ {[old]}).
Proof. set_solver. Qed.

Lemma drop_object (X : gset Z) x : x ∉ X -> ({[x]} ∪ X) ∖ {[x]} = X.
Proof. set_solver. Qed.

Lemma owned_empty B : owned B B ∅.
Proof. split; [intros x; split; [by left|intros [?|[k Hk]]; [done|by rewrite lookup_empty in Hk]]|done|done]. Qed.

(** A new object takes the place of the one the key had. *)
Lemma owned_insert B S m k x S' :
  owned B S m -> x ∉ S ->
  S' = {[x]} ∪ match m !! k with Some old => S ∖ {[old]} | None => S end ->
  owned B S' (<[k := x]> m).
Proof.
  intros [Hl Hn Hi] Hx ->.
  assert (forall k' y, m !! k' = Some y -> y <> x) as Hne by (intros k' y Hy ->; apply Hx, Hl; eauto).
  split.
  - intros y. rewrite elem_of_union, elem_of_singleton. split.
    + intros [->|Hy]; [right; exists k; by rewrite lookup_insert_eq|].
      destruct (m !! k) as [old|] eqn:Ek.
      * apply elem_of_difference in Hy as [Hy Hno]. apply Hl in Hy as [?|[k' Hk']]; [by left|]. right. exists k'.
        rewrite lookup_insert_ne; [done|]. intros <-. rewrite Ek in Hk'. set_solver.
      * apply Hl in Hy as [?|[k' Hk']]; [by left|]. right. exists k'. rewrite lookup_insert_ne; [done|]. congruence.
    + intros [Hy|[k' Hk']].
      * right. destruct (m !! k) as [old|] eqn:Ek; [|apply Hl; by left].
        apply elem_of_difference. split; [apply Hl; by left|]. intros ->%elem_of_singleton. by apply (Hn k old).
      * apply lookup_insert_Some in Hk' as [[_ ->]|[Hk Hk']]; [by left|]. right.
        destruct (m !! k) as [old|] eqn:Ek; [|apply Hl; eauto].
        apply elem_of_difference. split; [apply Hl; eauto|]. intros ->%elem_of_singleton. apply Hk. by apply (Hi k k' old).
  - intros k' y [[_ <-]|[_ Hy]]%lookup_insert_Some; [|by apply (Hn k')]. intros HB. apply Hx, Hl. by left.
  - intros k1 k2 y [[<- <-]|[Hn1 H1]]%lookup_insert_Some [[<- E]|[Hn2 H2]]%lookup_insert_Some; try done.
    + by apply Hne in H2.
    + subst y. by apply Hne in H1.
    + by apply (Hi k1 k2 y).
Qed.

Lemma owned_delete B S m k x :
  owned B S m -> m !! k = Some x -> owned B (S ∖ {[x]}) (delete k m).
Proof.
  intros [Hl Hn Hi] Hk. split.
  - intros y. rewrite elem_of_difference, elem_of_singleton, Hl. split.
    + intros [[?|[k' Hk']] Hne]; [by left|]. right. exists k'. rewrite lookup_delete_ne; congruence.
    + intros [Hy|[k' Hk']]; [split; [by left|]; intros ->; by apply (Hn k x)|].
      apply lookup_delete_Some in Hk' as [Hkk Hk']. split; [by right; exists k'|]. intros ->. apply Hkk. by apply (Hi k k' x).
  - intros k' y [_ Hy]%lookup_delete_Some. by apply (Hn k').
  - intros k1 k2 y [_ H1]%lookup_delete_Some [_ H2]%lookup_delete_Some. by apply (Hi k1 k2 y).
Qed.

(** An object whose number is used again. *)
Lemma owned_again B S m k x : owned B S m -> m !! k = Some x -> owned B ({[x]} ∪ S ∖ {[x]}) m.
Proof.
  intros Ho Hk. replace ({[x]} ∪ S ∖ {[x]}) with S; [done|]. assert (x ∈ S) as Hx by (apply (ow_live _ _ _ Ho); eauto).
  clear -Hx. apply set_eq. intros y. destruct (decide (y = x)); set_solver.
Qed.

(** What is left when the objects of the map are gone. *)
Lemma owned_cleared B S m (xs : list Z) :
  owned B S m -> (forall x, x ∈ xs <-> exists k, m !! k = Some x) -> forall x, x ∈ S /\ x ∉ xs <-> x ∈ B.
Proof.
  intros [Hl Hn Hi] Hxs x. rewrite Hxs, Hl. split; [tauto|]. intros HB. split; [by left|]. intros [k Hk]. by apply (Hn k x).
Qed.

(** ** The client *)

(** A watch has its watcher and the callback, which gets a response and the
    length of the prefix. *)
Record EtcdClient (C : Type) := mkEtcdClient {
  etcd_namespace_prefix_ : string;
  watchers_ : gmap string (Z * C);
  keep_alives_ : gmap string Z;
}.
Arguments mkEtcdClient {C} _ _ _.
Arguments etcd_namespace_prefix_ {C} _.
Arguments watchers_ {C} _.
Arguments keep_alives_ {C} _.

Section client.
Context {C E : Type} `{!Etcd E}.
Implicit Types (c : EtcdClient C) (e : E).

Definition namespaced_key (logical_key : string) c : string :=
  if is_empty (etcd_namespace_prefix_ c) then logical_key else etcd_namespace_prefix_ c +:+ logical_key.

(** Both constructors; [None] when the server cannot be reached, which ends the
    process. *)
Definition EtcdClient_new (etcd_namespace : string) e : option (EtcdClient C) * E :=
  let c := mkEtcdClient (normalize_etcd_namespace etcd_namespace) ∅ ∅ in
  let '(ok, e) := etcd_put (namespaced_key "XLLM_PING" c) "PING" None e in
  if negb ok then (None, e) else (Some c, e).

Definition add_watch (key_prefix : string) (callback : C) (recursive : bool) c e : EtcdClient C * E :=
  let e := match watchers_ c !! key_prefix with Some (w, _) => Watcher_Cancel w e | None => e end in
  let prefix_len := Z.of_nat (String.length (etcd_namespace_prefix_ c)) in
  let '(watcher, e) := Watcher_new (namespaced_key key_prefix c) prefix_len recursive e in
  (mkEtcdClient (etcd_namespace_prefix_ c) (<[key_prefix := (watcher, callback)]> (watchers_ c)) (keep_alives_ c), e).

Definition remove_watch (key_prefix : string) c e : EtcdClient C * E :=
  match watchers_ c !! key_prefix with
  | Some (w, _) =>
      (mkEtcdClient (etcd_namespace_prefix_ c) (delete key_prefix (watchers_ c)) (keep_alives_ c), Watcher_Cancel w e)
  | None => (c, e)
  end.

Definition stop_watch c e : EtcdClient C * E :=
  let e := foldr (fun p e => Watcher_Cancel p.2.1 e) e (map_to_list (watchers_ c)) in
  (mkEtcdClient (etcd_namespace_prefix_ c) ∅ (keep_alives_ c), e).

(** [get_master_service] has the same body without the test of the pointer. *)
Definition client_get (key : string) c e : option string * E := etcd_get (namespaced_key key c) e.

(** The values in the order of the keys of the response. *)
Definition get_all_xservices (key_prefix : string) c e : option (list string) * E :=
  let '(r, e) := etcd_ls (namespaced_key key_prefix c) e in
  (match r with None => None | Some kvs => Some kvs.*2 end, e).

Definition register_instance (key value : string) (ttl : Z) c e : bool * EtcdClient C * E :=
  let '(keep_alive, e) := KeepAlive_new ttl e in
  let '(ok, e) := etcd_put (namespaced_key key c) value (Some keep_alive) e in
  if negb ok then (false, c, KeepAlive_Cancel keep_alive e) else
  let old_keep_alive := keep_alives_ c !! key in
  let c := mkEtcdClient (etcd_namespace_prefix_ c) (watchers_ c) (<[key := keep_alive]> (keep_alives_ c)) in
  let e := match old_keep_alive with Some old => KeepAlive_Cancel old e | None => e end in
  (true, c, e).

(** The destructor. *)
Definition EtcdClient_destroy c e : E :=
  let '(c, e) := stop_watch c e in
  foldr (fun p e => KeepAlive_Cancel p.2 e) e (map_to_list (keep_alives_ c)).

(** ** Runs *)

Inductive etcd_op :=
  | EAdd (key_prefix : string) (callback : C) (recursive : bool)
  | ERemove (key_prefix : string)
  | EStop
  | EGet (key : string)
  | EList (key_prefix : string)
  | ERegister (key value : string) (ttl : Z).

Inductive etcd_result := EDone | EValue (v : option string) | EValues (vs : option (list string)) | EBool (ok : bool).

Definition etcd_step (o : etcd_op) c e : etcd_result * EtcdClient C * E :=
  match o with
  | EAdd kp cb rec => let '(c, e) := add_watch kp cb rec c e in (EDone, c, e)
  | ERemove kp => let '(c, e) := remove_watch kp c e in (EDone, c, e)
  | EStop => let '(c, e) := stop_watch c e in (EDone, c, e)
  | EGet k => let '(v, e) := client_get k c e in (EValue v, c, e)
  | EList kp => let '(vs, e) := get_all_xservices kp c e in (EValues vs, c, e)
  | ERegister k v ttl => let '(ok, c, e) := register_instance k v ttl c e in (EBool ok, c, e)
  end.

Fixpoint etcd_run (os : list etcd_op) c e : list etcd_result * EtcdClient C * E :=
  match os with
  | [] => ([], c, e)
  | o :: os =>
      let '(r, c, e) := etcd_step o c e in
      let '(rs, c, e) := etcd_run os c e in (r :: rs, c, e)
  end.

(** ** What the client does to the server *)

(** The keys and values of a namespace. *)
Definition kv_map : Type := string -> option string.

(** The answers of a map. *)
Definition etcd_spec (o : etcd_op) (r : etcd_result) (m m' : kv_map) : Prop :=
  match o, r with
  | EGet k, EValue x => (forall k', m' k' = m k') /\ forall v, x = Some v -> m k = Some v
  | EList kp, EValues x => (forall k', m' k' = m k') /\ forall vs, x = Some vs ->
      exists kvs, vs = kvs.*2 /\ NoDup kvs.*1 /\ forall k v, (k, v) ∈ kvs <-> m k = Some v /\ String.prefix kp k = true
  | ERegister k v _, EBool ok =>
      (forall k', m' k' = if decide (k' = k) then Some v else m k') \/ ok = false /\ forall k', m' k' = m k'
  | EAdd _ _ _, EDone | ERemove _, EDone | EStop, EDone => forall k', m' k' = m k'
  | _, _ => False
  end.

Fixpoint etcd_spec_run (os : list etcd_op) (rs : list etcd_result) (m m' : kv_map) : Prop :=
  match os, rs with
  | [], [] => forall k, m' k = m k
  | o :: os, r :: rs => exists m1, etcd_spec o r m m1 /\ etcd_spec_run os rs m1 m'
  | _, _ => False
  end.

Lemma namespaced_key_app k c : namespaced_key k c = etcd_namespace_prefix_ c +:+ k.
Proof. unfold namespaced_key. by destruct (etcd_namespace_prefix_ c). Qed.

Section laws.
Context `{!EtcdLaws E}.

(** The values under the keys of the client, and the other keys. *)
Definition in_namespace (p : string) e : kv_map := fun k => stored e !! (p +:+ k).
Definition same_outside (p : string) e e' : Prop :=
  forall k, String.prefix p k = false -> stored e' !! k = stored e !! k.

(** The running objects are those that ran before and those of the client. *)
Definition owns (W L : gset Z) c e : Prop :=
  owned W (watches e) (fst <$> watchers_ c) /\ owned L (leases e) (keep_alives_ c).

Lemma cancel_watches (ws : list (string * (Z * C))) e :
  let e' := foldr (fun p e => Watcher_Cancel p.2.1 e) e ws in
  stored e' = stored e /\ leases e' = leases e /\ forall x, x ∈ watches e' <-> x ∈ watches e /\ x ∉ ws.*2.*1.
Proof.
  induction ws as [|[k [w cb]] ws (IH1 & IH2 & IH3)]; cbn; [split; [done|]; split; [done|]; intros x; rewrite elem_of_nil; tauto|].
  pose proof (Watcher_Cancel_law w (foldr (fun p e => Watcher_Cancel p.2.1 e) e ws)) as (-> & -> & Hw).
  split; [done|]. split; [done|]. intros x. rewrite Hw, elem_of_difference, IH3, elem_of_singleton, elem_of_cons. tauto.
Qed.

Lemma cancel_leases (ls : list (string * Z)) e :
  let e' := foldr (fun p e => KeepAlive_Cancel p.2 e) e ls in
  stored e' = stored e /\ watches e' = watches e /\ forall x, x ∈ leases e' <-> x ∈ leases e /\ x ∉ ls.*2.
Proof.
  induction ls as [|[k l] ls (IH1 & IH2 & IH3)]; cbn; [split; [done|]; split; [done|]; intros x; rewrite elem_of_nil; tauto|].
  pose proof (KeepAlive_Cancel_law l (foldr (fun p e => KeepAlive_Cancel p.2 e) e ls)) as (-> & Hl & ->).
  split; [done|]. split; [done|]. intros x. rewrite Hl, elem_of_difference, IH3, elem_of_singleton, elem_of_cons. tauto.
Qed.

Lemma stop_watch_spec W L c e :
  owns W L c e ->
  let '(c', e') := stop_watch c e in
  owns W L c' e' /\ watches e' = W /\ stored e' = stored e /\
  etcd_namespace_prefix_ c' = etcd_namespace_prefix_ c /\ keep_alives_ c' = keep_alives_ c.
Proof.
  intros [Hw Hl]. unfold stop_watch. destruct (cancel_watches (map_to_list (watchers_ c)) e) as (Es & El & Ew).
  cbv zeta in *. set (e' := foldr _ _ _) in *.
  assert (watches e' = W) as HW.
  { apply set_eq. intros x. rewrite Ew. apply (owned_cleared W (watches e) (fst <$> watchers_ c)); [done|]. intros y.
    rewrite list_elem_of_fmap. split.
    - intros ([w cb] & -> & Hin). apply list_elem_of_fmap in Hin as ([k p] & Ep & Hin). cbn in Ep. subst p.
      apply elem_of_map_to_list in Hin.
      exists k. by rewrite lookup_fmap, Hin.
    - intros [k Hk]. rewrite lookup_fmap in Hk. destruct (watchers_ c !! k) as [[w cb]|] eqn:Ec; [|done]. injection Hk as <-.
      exists (w, cb). split; [done|]. apply list_elem_of_fmap. exists (k, (w, cb)). split; [done|]. by apply elem_of_map_to_list. }
  split; [split; cbn; [rewrite HW, fmap_empty; apply owned_empty|by rewrite El]|]. done.
Qed.

Lemma add_watch_spec W L kp cb rec c e :
  owns W L c e ->
  let '(c', e') := add_watch kp cb rec c e in
  owns W L c' e' /\ stored e' = stored e /\ etcd_namespace_prefix_ c' = etcd_namespace_prefix_ c.
Proof.
  intros [Hw Hl]. unfold add_watch. set (e1 := match _ with Some _ => _ | None => e end).
  assert (stored e1 = stored e /\ leases e1 = leases e /\
    watches e1 = match (fst <$> watchers_ c) !! kp with Some old => watches e ∖ {[old]} | None => watches e end) as (Es & El & Ew).
  { unfold e1. rewrite lookup_fmap. destruct (watchers_ c !! kp) as [[w ?]|]; [|done].
    destruct (Watcher_Cancel_law w e) as (? & ? & ?). done. }
  clearbody e1. pose proof (Watcher_new_law (namespaced_key kp c) (Z.of_nat (String.length (etcd_namespace_prefix_ c))) rec e1) as Hn.
  destruct (Watcher_new _ _ _ e1) as [w e2]. destruct Hn as (Es2 & El2 & Hfr & Ew2). cbn.
  split; [|split; [congruence|done]]. split; cbn; [|congruence]. rewrite fmap_insert. cbn.
  destruct (decide (w ∈ watches e)) as [Hin|Hni].
  - (* the number of the cancelled watcher is used again *)
    rewrite Ew in Hfr, Ew2. destruct ((fst <$> watchers_ c) !! kp) as [old|] eqn:Eo; [|done].
    assert (w = old) as -> by (destruct (decide (w = old)); [done|]; destruct Hfr; by apply elem_of_difference; rewrite elem_of_singleton).
    rewrite insert_id, Ew2 by done. by apply (owned_again _ _ _ kp).
  - apply (owned_insert _ (watches e)); [done|done|]. by rewrite Ew2, Ew.
Qed.

Lemma remove_watch_spec W L kp c e :
  owns W L c e ->
  let '(c', e') := remove_watch kp c e in
  owns W L c' e' /\ stored e' = stored e /\ etcd_namespace_prefix_ c' = etcd_namespace_prefix_ c.
Proof.
  intros [Hw Hl]. unfold remove_watch. destruct (watchers_ c !! kp) as [[w cb]|] eqn:Ec; [|done].
  destruct (Watcher_Cancel_law w e) as (Es & El & Ew). split; [|done]. split; cbn; [|by rewrite El].
  rewrite fmap_delete, Ew. apply owned_delete; [done|]. by rewrite lookup_fmap, Ec.
Qed.

Lemma register_instance_spec W L k v ttl c e :
  owns W L c e ->
  let '(ok, c', e') := register_instance k v ttl c e in
  owns W L c' e' /\ etcd_namespace_prefix_ c' = etcd_namespace_prefix_ c /\
  (stored e' = <[etcd_namespace_prefix_ c +:+ k := v]> (stored e) \/ ok = false /\ stored e' = stored e).
Proof.
  intros [Hw Hl]. unfold register_instance. rewrite namespaced_key_app.
  pose proof (KeepAlive_new_law ttl e) as Hn. destruct (KeepAlive_new ttl e) as [l e1]. destruct Hn as (Es1 & Hfr & El1 & Ew1).
  pose proof (etcd_put_law (etcd_namespace_prefix_ c +:+ k) v (Some l) e1) as Hp.
  destruct (etcd_put _ _ _ e1) as [ok e2]. destruct Hp as (El2 & Ew2 & Es2). destruct ok; cbn [negb].
  - destruct Es2 as [Es2|[? _]]; [|done].
    set (e3 := match keep_alives_ c !! k with Some _ => _ | None => e2 end).
    assert (stored e3 = stored e2 /\ watches e3 = watches e2 /\
      leases e3 = {[l]} ∪ match keep_alives_ c !! k with Some old => leases e ∖ {[old]} | None => leases e end) as (Es3 & Ew3 & El3).
    { unfold e3. destruct (keep_alives_ c !! k) as [old|] eqn:Ek; [|rewrite El2; done].
      destruct (KeepAlive_Cancel_law old e2) as (? & -> & ?). split; [done|]. split; [done|].
      assert (old <> l) as Hne by (intros ->; apply Hfr, (ow_live _ _ _ Hl); eauto). rewrite El2, El1. by apply swap_object. }
    split; [split; cbn|split; [done|left; congruence]].
    + by rewrite Ew3, Ew2, Ew1.
    + by apply (owned_insert _ (leases e)).
  - destruct (KeepAlive_Cancel_law l e2) as (Es3 & El3 & Ew3). rewrite Es3. split; [split|split; [done|]].
    + by rewrite Ew3, Ew2, Ew1.
    + replace (leases (KeepAlive_Cancel l e2)) with (leases e); [done|]. rewrite El3, El2, El1. by rewrite drop_object.
    + destruct Es2 as [->|[_ ->]]; rewrite Es1; [by left|by right].
Qed.

Lemma prefix_cons a p b k : String.prefix (String a p) (String b k) = if ascii_dec a b then String.prefix p k else false.
Proof. done. Qed.

Lemma prefix_app p k : String.prefix p (p +:+ k) = true.
Proof. induction p as [|a p IH]; [by destruct k|]. rewrite str_app_cons, prefix_cons. by destruct (ascii_dec a a). Qed.

Lemma prefix_app_l p q k : String.prefix (p +:+ q) (p +:+ k) = String.prefix q k.
Proof. induction p as [|a p IH]; [done|]. rewrite !str_app_cons, prefix_cons. by destruct (ascii_dec a a). Qed.

Lemma prefix_split p k : String.prefix p k = true -> exists k', k = p +:+ k'.
Proof.
  revert k. induction p as [|a p IH]; intros k Hk; [by exists k|]. destruct k as [|b k]; [done|]. rewrite prefix_cons in Hk.
  destruct (ascii_dec a b) as [<-|]; [|done]. destruct (IH k Hk) as [k' ->]. by exists k'.
Qed.

Lemma prefix_weaken p q k : String.prefix p k = false -> String.prefix (p +:+ q) k = false.
Proof.
  intros Hp. destruct (String.prefix (p +:+ q) k) eqn:Hq; [|done]. apply prefix_split in Hq as [k' ->].
  by rewrite str_app_assoc, prefix_app in Hp.
Qed.

(** The keys of a listing, without the prefix. *)
Lemma list_spec p kp (m : gmap string string) kvs :
  NoDup kvs.*1 -> (forall k v, (k, v) ∈ kvs <-> m !! k = Some v /\ String.prefix (p +:+ kp) k = true) ->
  exists kvs', kvs.*2 = kvs'.*2 /\ NoDup kvs'.*1 /\
    forall k v, (k, v) ∈ kvs' <-> m !! (p +:+ k) = Some v /\ String.prefix kp k = true.
Proof.
  intros Hnd Hm.
  assert (exists kvs', kvs = (fun kv : string * string => (p +:+ kv.1, kv.2)) <$> kvs') as [kvs' ->].
  { assert (forall k v, (k, v) ∈ kvs -> exists k', k = p +:+ k') as Hp.
    { intros k v [_ Hk]%Hm. apply prefix_split in Hk as [k' ->]. exists (kp +:+ k'). by rewrite str_app_assoc. }
    clear Hm Hnd. induction kvs as [|[k v] kvs IH]; [by exists []|]. destruct IH as [kvs' ->].
    - intros k' v' Hin. apply (Hp k' v'). by apply elem_of_cons; right.
    - destruct (Hp k v) as [k' ->]; [by apply elem_of_cons; left|]. by exists ((k', v) :: kvs'). }
  exists kvs'. split; [rewrite <- list_fmap_compose; by apply list_fmap_ext|]. split.
  - apply (NoDup_fmap_1 (fun k => p +:+ k)). by rewrite <- !list_fmap_compose in *.
  - intros k v. rewrite <- (prefix_app_l p kp k), <- Hm, list_elem_of_fmap. split.
    + intros Hin. by exists (k, v).
    + intros ([k' v'] & Ek & Hin). cbn in Ek. injection Ek as Ek ->. by apply str_app_inj_l in Ek as ->.
Qed.

Lemma etcd_step_spec W L o c e :
  owns W L c e ->
  let '(r, c', e') := etcd_step o c e in
  let p := etcd_namespace_prefix_ c in
  owns W L c' e' /\ etcd_namespace_prefix_ c' = p /\ same_outside p e e' /\
  etcd_spec o r (in_namespace p e) (in_namespace p e').
Proof.
  intros Ho. destruct o as [kp cb rec|kp| |k|kp|k v ttl]; cbn [etcd_step].
  - pose proof (add_watch_spec W L kp cb rec c e Ho) as Hs. destruct (add_watch kp cb rec c e) as [c' e'].
    destruct Hs as (Ho' & Es & Ep). unfold same_outside, in_namespace. by rewrite Es.
  - pose proof (remove_watch_spec W L kp c e Ho) as Hs. destruct (remove_watch kp c e) as [c' e'].
    destruct Hs as (Ho' & Es & Ep). unfold same_outside, in_namespace. by rewrite Es.
  - pose proof (stop_watch_spec W L c e Ho) as Hs. destruct (stop_watch c e) as [c' e'].
    destruct Hs as (Ho' & _ & Es & Ep & _). unfold same_outside, in_namespace. by rewrite Es.
  - unfold client_get. rewrite namespaced_key_app. pose proof (etcd_get_law (etcd_namespace_prefix_ c +:+ k) e) as Hg.
    destruct (etcd_get _ e) as [r e']. destruct Hg as (Es & El & Ew & Hv). unfold same_outside, in_namespace, owns.
    by rewrite Es, El, Ew.
  - unfold get_all_xservices. rewrite namespaced_key_app. pose proof (etcd_ls_law (etcd_namespace_prefix_ c +:+ kp) e) as Hg.
    destruct (etcd_ls _ e) as [r e']. destruct Hg as (Es & El & Ew & Hv). unfold same_outside, in_namespace, owns.
    rewrite Es, El, Ew. split; [done|]. split; [done|]. split; [done|]. split; [done|]. intros vs Hvs.
    destruct r as [kvs|]; [|done]. injection Hvs as <-. destruct (Hv kvs eq_refl) as [Hnd Hkvs]. by apply (list_spec _ kp (stored e)).
  - pose proof (register_instance_spec W L k v ttl c e Ho) as Hs. destruct (register_instance k v ttl c e) as [[ok c'] e'].
    destruct Hs as (Ho' & Ep & Es). cbv zeta. split; [done|]. split; [done|]. unfold same_outside, in_namespace.
    destruct Es as [->|[-> ->]]; [|split; [done|by right]]. split.
    + intros k' Hk'. rewrite lookup_insert_ne; [done|]. intros <-. by rewrite prefix_app in Hk'.
    + left. intros k'. case_decide as Hk; [subst; apply lookup_insert_eq|]. rewrite lookup_insert_ne; [done|].
      intros E'. by apply str_app_inj_l in E'.
Qed.

Lemma same_outside_trans p e1 e2 e3 : same_outside p e1 e2 -> same_outside p e2 e3 -> same_outside p e1 e3.
Proof. intros H1 H2 k Hk. by rewrite H2, H1. Qed.

Lemma etcd_run_spec W L os c e :
  owns W L c e ->
  let '(rs, c', e') := etcd_run os c e in
  let p := etcd_namespace_prefix_ c in
  owns W L c' e' /\ same_outside p e e' /\ etcd_spec_run os rs (in_namespace p e) (in_namespace p e').
Proof.
  revert c e. induction os as [|o os IH]; intros c e Ho; cbn [etcd_run]; [done|].
  pose proof (etcd_step_spec W L o c e Ho) as Hs. destruct (etcd_step o c e) as [[r c1] e1].
  destruct Hs as (Ho1 & Ep & Hout & Hspec). specialize (IH c1 e1 Ho1). destruct (etcd_run os c1 e1) as [[rs c2] e2].
  rewrite Ep in IH. destruct IH as (Ho2 & Hout2 & Hspec2). cbv zeta in *. split; [done|].
  split; [by eapply same_outside_trans|]. by exists (in_namespace (etcd_namespace_prefix_ c) e1).
Qed.

Lemma EtcdClient_destroy_spec W L c e :
  owns W L c e -> let e' := EtcdClient_destroy c e in watches e' = W /\ leases e' = L /\ stored e' = stored e.
Proof.
  intros Ho. unfold EtcdClient_destroy. pose proof (stop_watch_spec W L c e Ho) as Hs. destruct (stop_watch c e) as [c1 e1].
  destruct Hs as ([_ Hl] & Ew & Es & _ & _). destruct (cancel_leases (map_to_list (keep_alives_ c1)) e1) as (Es2 & Ew2 & El2).
  cbv zeta in *. set (e2 := foldr _ _ _) in *. split; [congruence|]. split; [|congruence]. apply set_eq. intros x. rewrite El2.
  apply (owned_cleared L (leases e1) (keep_alives_ c1)); [done|]. intros y. rewrite list_elem_of_fmap. split.
  - intros ([k l] & -> & Hin). exists k. by apply elem_of_map_to_list.
  - intros [k Hk]. exists (k, y). split; [done|]. by apply elem_of_map_to_list.
Qed.

(** C38: A client and the etcd server.  In every run of calls, whatever the server
    refuses, [get], [get_all_xservices] and [register_instance] act on the keys
    of the client's namespace as on a map, and the keys outside it are as they
    were; every watcher and keep-alive that is running belongs to one key of the
    client, or was running before; and the destructor stops exactly the
    client's. *)
Theorem EtcdClient_run (etcd_namespace : string) (os : list etcd_op) e e1 c1 :
  EtcdClient_new etcd_namespace e = (Some c1, e1) ->
  let p := normalize_etcd_namespace etcd_namespace in
  let '(rs, c2, e2) := etcd_run os c1 e1 in
  etcd_spec_run os rs (in_namespace p e1) (in_namespace p e2) /\ same_outside p e e2 /\
  owns (watches e) (leases e) c2 e2 /\
  let e3 := EtcdClient_destroy c2 e2 in watches e3 = watches e /\ leases e3 = leases e /\ stored e3 = stored e2.
Proof.
  unfold EtcdClient_new. rewrite namespaced_key_app. cbn [etcd_namespace_prefix_]. set (p := normalize_etcd_namespace _).
  pose proof (etcd_put_law (p +:+ "XLLM_PING") "PING" None e) as Hp. destruct (etcd_put _ _ _ e) as [ok e0].
  destruct Hp as (El & Ew & Es). destruct ok; [|done]. intros [= <- <-]. destruct Es as [Es|[? _]]; [|done].
  assert (owns (watches e) (leases e) (mkEtcdClient p ∅ ∅) e0) as Ho.
  { unfold owns. rewrite El, Ew. cbn. rewrite fmap_empty. split; apply owned_empty. }
  pose proof (etcd_run_spec _ _ os _ _ Ho) as Hr. destruct (etcd_run os _ e0) as [[rs c2] e2].
  destruct Hr as (Ho2 & Hout & Hspec). cbv zeta in *. cbn [etcd_namespace_prefix_] in *. split; [done|]. split; [|split; [done|]].
  - apply (same_outside_trans p e e0); [|done]. intros k Hk. rewrite Es. apply lookup_insert_ne. intros <-. by rewrite prefix_app in Hk.
  - by apply EtcdClient_destroy_spec.
Qed.

End laws.
End client.

(** ** The prefix *)

(** The first and the last character. *)
Definition slash_first (s : string) : bool := match s with String c _ => Ascii.eqb c "/" | EmptyString => false end.
Fixpoint slash_last (s : string) : bool :=
  match s with
  | EmptyString => false
  | String c s => if is_empty s then Ascii.eqb c "/" else slash_last s
  end.

Lemma drop_slashes_first s : slash_first (drop_slashes s) = false.
Proof. induction s as [|c s IH]; [done|]. cbn. destruct (Ascii.eqb c "/") eqn:E; [done|]. exact E. Qed.

Lemma drop_trailing_slashes_last s : slash_last (drop_trailing_slashes s) = false.
Proof.
  induction s as [|c s IH]; [done|]. cbn. destruct (drop_trailing_slashes s) as [|d s']; cbn in *; [|by rewrite andb_false_r].
  destruct (Ascii.eqb c "/") eqn:E; [done|]. exact E.
Qed.

Lemma drop_trailing_slashes_first s : slash_first s = false -> slash_first (drop_trailing_slashes s) = false.
Proof. destruct s as [|c s]; [done|]. cbn. intros E. rewrite E. exact E. Qed.

Lemma drop_slashes_id s : slash_first s = false -> drop_slashes s = s.
Proof. destruct s as [|c s]; [done|]. cbn. by intros ->. Qed.

Lemma drop_trailing_slashes_id s : slash_last s = false -> drop_trailing_slashes s = s.
Proof.
  induction s as [|c s IH]; [done|]. cbn. destruct s as [|d s']; cbn [is_empty].
  - intros E. change (Ascii.eqb c "/" = false) in E.
    change ((if Ascii.eqb c "/" && true then EmptyString else String c EmptyString) = String c EmptyString). by rewrite E.
  - intros E. rewrite (IH E). cbn. by rewrite andb_false_r.
Qed.

Lemma drop_trailing_slash_app s : drop_trailing_slashes (s +:+ "/") = drop_trailing_slashes s.
Proof. induction s as [|c s IH]; [done|]. rewrite str_app_cons. cbn. by rewrite IH. Qed.

(** The prefix of a namespace is empty, or a name with exactly one slash before
    and one behind it; it is its own prefix.  A callback that drops the number
    of characters it is given has the key without the prefix. *)
Lemma normalize_etcd_namespace_spec ns :
  let p := normalize_etcd_namespace ns in
  (p = EmptyString \/ exists s, p = "/" +:+ s +:+ "/" /\ s <> EmptyString /\ slash_first s = false /\ slash_last s = false) /\
  normalize_etcd_namespace p = p.
Proof.
  set (t := drop_trailing_slashes (drop_slashes ns)). assert (slash_first t = false /\ slash_last t = false) as [Hf Hl].
  { split; [apply drop_trailing_slashes_first, drop_slashes_first|apply drop_trailing_slashes_last]. }
  cbv zeta. assert (normalize_etcd_namespace ns = EmptyString \/
    normalize_etcd_namespace ns = String "/" (t +:+ "/") /\ is_empty t = false) as [->|[-> Et]].
  { unfold normalize_etcd_namespace. fold t. destruct (is_empty ns); [by left|]. destruct (is_empty t); [by left|by right]. }
  - split; [by left|done].
  - assert (t <> EmptyString) as Hne by (by intros Ht; rewrite Ht in Et). split; [right; by exists t|].
    unfold normalize_etcd_namespace. change (is_empty (String "/" (t +:+ "/"))) with false. cbv iota zeta.
    change (drop_slashes (String "/" (t +:+ "/"))) with (drop_slashes (t +:+ "/")).
    rewrite drop_slashes_id, drop_trailing_slash_app, drop_trailing_slashes_id, Et by (try done; by destruct t). done.
Qed.

(** ** A server *)

Record etcd_demo := mkDemo { d_kv : gmap string string; d_leases : gset Z; d_watches : gset Z; d_up : bool }.

#[export] Instance demo_etcd : Etcd etcd_demo := {|
  etcd_put key value _ e := if d_up e then (true, mkDemo (<[key := value]> (d_kv e)) (d_leases e) (d_watches e) (d_up e)) else (false, e);
  etcd_get key e := (if d_up e then d_kv e !! key else None, e);
  etcd_ls prefix e :=
    (if d_up e then Some (filter (fun kv => String.prefix prefix kv.1 = true) (map_to_list (d_kv e))) else None, e);
  KeepAlive_new _ e := let id := fresh (d_leases e) in (id, mkDemo (d_kv e) ({[id]} ∪ d_leases e) (d_watches e) (d_up e));
  KeepAlive_Cancel id e := mkDemo (d_kv e) (d_leases e ∖ {[id]}) (d_watches e) (d_up e);
  Watcher_new _ _ _ e := let id := fresh (d_watches e) in (id, mkDemo (d_kv e) (d_leases e) ({[id]} ∪ d_watches e) (d_up e));
  Watcher_Cancel id e := mkDemo (d_kv e) (d_leases e) (d_watches e ∖ {[id]}) (d_up e);
|}.

#[export] Instance demo_etcd_laws : EtcdLaws etcd_demo.
Proof.
  refine {| stored := d_kv; leases := d_leases; watches := d_watches |}.
  - intros key value lease e. cbn. destruct (d_up e); cbn; [|by split; [|split; [|right]]]. split; [done|]. split; [done|]. by left.
  - intros key e. cbn. split; [done|]. split; [done|]. split; [done|]. by destruct (d_up e).
  - intros prefix e. cbn. split; [done|]. split; [done|]. split; [done|]. destruct (d_up e); [|done]. intros kvs [= <-]. split.
    + apply (sublist_NoDup _ (map_to_list (d_kv e)).*1); [apply NoDup_fst_map_to_list|]. apply fmap_sublist, sublist_filter.
    + intros k v. rewrite list_elem_of_filter, elem_of_map_to_list. cbn. tauto.
  - intros ttl e. cbn. split; [done|]. split; [apply is_fresh|done].
  - done.
  - intros key n rec e. cbn. split; [done|]. split; [done|]. split; [apply is_fresh|done].
  - done.
Defined.

Definition demo_server : etcd_demo := mkDemo {["XLLM_PING" := "other"]} {[7]} {[8; 9]} true.
Definition demo_etcd_ops : list (etcd_op (C := unit)) :=
  [ERegister "a" "1" 10; EAdd "svc" tt true; ERegister "b" "2" 10; EAdd "svc" tt false; ERegister "a" "3" 10;
   EGet "a"; EGet "c"; EList "b"].

(** The client, and the server after the constructor. *)
Definition demo_client : EtcdClient unit := mkEtcdClient "/x/" ∅ ∅.
Definition demo_connected : etcd_demo := snd (etcd_put "/x/XLLM_PING" "PING" None demo_server).

(** The results, and the objects that run before and after the destructor. *)
Definition demo_outcome : list etcd_result * (nat * nat) * (gset Z * gset Z) :=
  let '(rs, c, e) := etcd_run demo_etcd_ops demo_client demo_connected in
  let e' := EtcdClient_destroy c e in (rs, (size (watches e), size (leases e)), (watches e', leases e')).

Lemma EtcdClient_run_witness :
  demo_outcome = ([EBool true; EDone; EBool true; EDone; EBool true; EValue (Some "3"); EValue None; EValues (Some ["2"])],
    (3%nat, 3%nat), ({[8; 9]}, {[7]})) /\
  let p := normalize_etcd_namespace "/x//" in
  let '(rs, c2, e2) := etcd_run demo_etcd_ops demo_client demo_connected in
  etcd_spec_run demo_etcd_ops rs (in_namespace p demo_connected) (in_namespace p e2) /\ same_outside p demo_server e2 /\
  owns (watches demo_server) (leases demo_server) c2 e2 /\
  let e3 := EtcdClient_destroy c2 e2 in
  watches e3 = watches demo_server /\ leases e3 = leases demo_server /\ stored e3 = stored e2.
Proof.
  split; [vm_compute; reflexivity|].
  assert (EtcdClient_new "/x//" demo_server = (Some demo_client, demo_connected)) as E by (vm_compute; reflexivity).
  pose proof (EtcdClient_run "/x//" demo_etcd_ops demo_server demo_connected demo_client E) as H. exact H.
Defined.
