(* ===== verification/Config.v ===== *)
(** * Configuration and start-up

    [core/kvcache_storage/backend_registry.cc] (typed access to options, the
    registry and its two factories) and [parakv.cc] (parsing of the flags and
    [main]).  [strtoll] and [strtoull] are those of the C library
    in base 10, [BrpcServer] stands for the server of brpc.  A factory gives the new backend its own files, [disk] of its
    directory. *)

From stdpp Require Import pretty sorting.
From S2P Require Import Prelude Common Sys Key SegmentBase SegmentManager Index Lfuda Backend IndexBackend MemoryBackend.
From S2P Require Import Namespaces Service.
From Stdlib Require Import SpecFloat Ascii.

(** ** Numbers in strings *)

(** [isspace] in the C locale. *)
Definition is_space (c : ascii) : bool :=
  let n := N_of_ascii c in (n =? 32)%N || ((9 <=? n)%N && (n <=? 13)%N).

Definition digit_of (c : ascii) : option Z :=
  let n := Z.of_N (N_of_ascii c) in if (48 <=? n) && (n <=? 57) then Some (n - 48) else None.

(** The characters up to the first zero byte, which ends a C string. *)
Fixpoint c_str (s : string) : string :=
  match s with
  | EmptyString => EmptyString
  | String c s => if (N_of_ascii c =? 0)%N then EmptyString else String c (c_str s)
  end.

Fixpoint skip_space (s : string) : string :=
  match s with
  | EmptyString => EmptyString
  | String c s' => if is_space c then skip_space s' else s
  end.

(** The value of the digits, how many there are, and what follows. *)
Fixpoint digits (acc : Z) (n : nat) (s : string) : Z * nat * string :=
  match s with
  | EmptyString => (acc, n, EmptyString)
  | String c s' => match digit_of c with Some d => digits (10 * acc + d) (S n) s' | None => (acc, n, s) end
  end.

Definition sign (s : string) : bool * string :=
  match s with
  | String "-" s => (true, s)
  | String "+" s => (false, s)
  | _ => (false, s)
  end.

(** Sign, magnitude and the end pointer ([None]: no conversion). *)
Definition scan_int (s : string) : bool * Z * option string :=
  let '(neg, s) := sign (skip_space s) in
  let '(v, n, rest) := digits 0 0 s in
  (neg, v, if decide (n = 0%nat) then None else Some rest).

(** The value, the end pointer, and whether [errno] is set. *)
Definition strtoll (s : string) : Z * option string * bool :=
  let '(neg, v, e) := scan_int s in
  let v := if (neg : bool) then - v else v in
  if v <? - 2 ^ 63 then (- 2 ^ 63, e, true) else
  if v >? 2 ^ 63 - 1 then (2 ^ 63 - 1, e, true) else (v, e, false).

(** A minus sign negates modulo 2^64. *)
Definition strtoull (s : string) : Z * option string * bool :=
  let '(neg, v, e) := scan_int s in
  if v >? UINT64_MAX then (UINT64_MAX, e, true) else (if (neg : bool) then u64 (- v) else v, e, false).

(** ** [BackendConfig] *)

Record BackendConfig := mkBackendConfig { entries_ : gmap string string }.

Definition cfg_Set (key value : string) (c : BackendConfig) : BackendConfig :=
  mkBackendConfig (<[key := value]> (entries_ c)).
Definition cfg_Has (key : string) (c : BackendConfig) : bool := bool_decide (is_Some (entries_ c !! key)).
Definition cfg_Get (key default_value : string) (c : BackendConfig) : string := default default_value (entries_ c !! key).

Definition GetInt (key : string) (default_value : Z) (c : BackendConfig) : Z :=
  match entries_ c !! key with
  | None => default_value
  | Some s =>
      if is_empty s then default_value else
      let '(v, e, errno) := strtoll (c_str s) in
      if errno || negb (bool_decide (e = Some EmptyString)) then default_value else v
  end.

Definition GetUint (key : string) (default_value : Z) (c : BackendConfig) : Z :=
  match entries_ c !! key with
  | None => default_value
  | Some s =>
      if is_empty s then default_value else
      let '(v, e, errno) := strtoull (c_str s) in
      if errno || negb (bool_decide (e = Some EmptyString)) then default_value else v
  end.

(** [tolower] in the C locale. *)
Definition tolower (c : ascii) : ascii :=
  let n := N_of_ascii c in if (65 <=? n)%N && (n <=? 90)%N then ascii_of_N (n + 32) else c.
Fixpoint lower (s : string) : string :=
  match s with EmptyString => EmptyString | String c s => String (tolower c) (lower s) end.

Definition GetBool (key : string) (default_value : bool) (c : BackendConfig) : bool :=
  match entries_ c !! key with
  | None => default_value
  | Some s =>
      let v := lower s in
      if bool_decide (v ∈ ["1"; "true"; "yes"; "on"]%string) then true else
      if bool_decide (v ∈ ["0"; "false"; "no"; "off"]%string) || is_empty v then false else default_value
  end.

(** ** Flags *)

(** The tokens [std::getline] extracts: nothing after a final separator. *)
Definition getlines (sep : ascii) (s : string) : list string :=
  let ts := split_on sep EmptyString s in
  if bool_decide (last ts = Some EmptyString) then removelast ts else ts.

Definition is_blank (c : ascii) : bool := Ascii.eqb c " " || Ascii.eqb c "009".

(** From [find_first_not_of] on, and up to [find_last_not_of]. *)
Fixpoint ltrim (s : string) : string :=
  match s with
  | EmptyString => EmptyString
  | String c s' => if is_blank c then ltrim s' else s
  end.
Fixpoint rtrim (s : string) : string :=
  match s with
  | EmptyString => EmptyString
  | String c s => let s := rtrim s in if is_blank c && is_empty s then EmptyString else String c s
  end.
Definition trim (s : string) : string := rtrim (ltrim s).

(** Before and after the first [=]. *)
Fixpoint split_eq (s : string) : option (string * string) :=
  match s with
  | EmptyString => None
  | String c s =>
      if Ascii.eqb c "=" then Some (EmptyString, s) else
      match split_eq s with Some (k, v) => Some (String c k, v) | None => None end
  end.

Definition add_opt (c : BackendConfig) (segment : string) : BackendConfig :=
  if is_empty (ltrim segment) then c else
  match split_eq (trim segment) with
  | None => c
  | Some (k, v) => if is_empty k then c else cfg_Set k v c
  end.

Definition ParseBackendOpts (s : string) : BackendConfig := foldl add_opt (mkBackendConfig ∅) (getlines "," s).

Definition ParseNamespaces (s : string) : list string :=
  omap (fun token => if is_empty (ltrim token) then None else Some (trim token)) (getlines "," s).

Definition JoinRegisteredNames (names : list string) : string :=
  foldl (fun joined n => (if is_empty joined then joined else joined +:+ ", ") +:+ n) EmptyString names.

(** ** The registry *)

Section registry.
Context {S : Type}.

(** A factory returns a backend, or a null pointer. *)
Definition BackendFactory : Type := BackendConfig -> Outcome (option S).

Record BackendRegistry := mkBackendRegistry { factories_ : gmap string BackendFactory }.

(** [None]: an empty function object. *)
Definition registry_Register (name : string) (factory : option BackendFactory) (r : BackendRegistry) : bool * BackendRegistry :=
  if is_empty name then (false, r) else
  match factory with
  | None => (false, r)
  | Some f =>
      if bool_decide (is_Some (factories_ r !! name)) then (false, r)
      else (true, mkBackendRegistry (<[name := f]> (factories_ r)))
  end.

Definition registry_Create (name : string) (config : BackendConfig) (r : BackendRegistry) : Outcome (option S) :=
  match factories_ r !! name with
  | None => Ret None
  | Some factory => factory config
  end.

Definition IsRegistered (name : string) (r : BackendRegistry) : bool := bool_decide (is_Some (factories_ r !! name)).

Definition RegisteredNames (r : BackendRegistry) : list string :=
  merge_sort String.le (map_to_list (factories_ r)).*1.

(** ** [main] up to the service *)

(** The loop over the namespaces: [None] is the exit with -1. *)
Fixpoint register_namespaces (backend_name : string) (base_cfg : BackendConfig) (r : BackendRegistry) (ns_list : list string)
    (m : NamespaceManager S) : Outcome (option (NamespaceManager S)) :=
  match ns_list with
  | [] => Ret (Some m)
  | ns :: ns_list =>
      let cfg := cfg_Set "namespace" ns base_cfg in
      backend ← registry_Create backend_name cfg r;
      match backend with
      | None => Ret None
      | Some s =>
          let '(ok, m) := Register ns (Some s) m in
          if negb ok then Ret None else register_namespaces backend_name base_cfg r ns_list m
      end
  end.

Definition main_setup (backend backend_opts namespaces : string) (max_batch_size : Z) (max_value_bytes : Z)
    (r : BackendRegistry) : Outcome (option (NamespaceManager S * ServiceOptions)) :=
  if negb (IsRegistered backend r) then Ret None else
  let base_cfg := ParseBackendOpts backend_opts in
  let ns_list := ParseNamespaces namespaces in
  if bool_decide (ns_list = []) then Ret None else
  m ← register_namespaces backend base_cfg r ns_list NamespaceManager_new;
  match m with
  | None => Ret None
  | Some m => Ret (Some (m, mkServiceOptions (u32 max_batch_size) max_value_bytes))
  end.

(** ** The rest of [main] *)

(** The flags of [parakv.cc]. *)
Record MainFlags := mkMainFlags {
  FLAGS_port : Z;
  FLAGS_idle_timeout_s : Z;
  FLAGS_max_batch_size : Z;
  FLAGS_max_value_bytes : Z;
  FLAGS_backend : string;
  FLAGS_backend_opts : string;
  FLAGS_namespaces : string;
}.

Definition default_main_flags : MainFlags := mkMainFlags 9200 60 1024 0 "kvcache_memory" EmptyString "default".

(** [brpc::Server]: what [AddService] and [Start] return, and the requests it
    passes to the service before it is asked to quit. *)
Record BrpcServer := mkBrpcServer {
  server_AddService : Z;
  server_Start : Z -> Z -> Z;
  server_requests : list request;
}.

Context `{!KVCacheStorageBackend S}.

(** The value of [main]; when the server ran, also the responses and the
    backends [Close] leaves. *)
Definition main (fl : MainFlags) (r : BackendRegistry) (server : BrpcServer)
    : Outcome (Z * option (list response * gmap string S)) :=
  o ← main_setup (FLAGS_backend fl) (FLAGS_backend_opts fl) (FLAGS_namespaces fl) (FLAGS_max_batch_size fl)
        (FLAGS_max_value_bytes fl) r;
  match o with
  | None => Ret (-1, None)
  | Some (manager, svc_opts) =>
      if negb (server_AddService server =? 0) then Ret (-1, None) else
      if negb (server_Start server (FLAGS_port fl) (FLAGS_idle_timeout_s fl) =? 0) then Ret (-1, None) else
      '(responses, manager) ← serve_all svc_opts (server_requests server) manager;
      let '(closed, _) := ns_Close manager in
      Ret (0, Some (responses, closed))
  end.

End registry.

Arguments BackendFactory : clear implicits.
Arguments BackendRegistry : clear implicits.

(** ** The backends of the program *)

(** [common/global_gflags.cc]: the flags the factories read. *)
Record Flags := mkFlags {
  segement_workspace_path : string;
  FLAGS_segment_size : Z;
  FLAGS_segment_value_size : Z;
  FLAGS_segment_count : Z;
  index_wal_checkpoint_bytes : Z;
  FLAGS_lfu_capacity_ratio : spec_float;
  FLAGS_lfu_age_tick_sec : Z;
}.

Definition memory_factory (cfg : BackendConfig) : Outcome (option MemoryBackend) :=
  Ret (Some (MemoryBackend_new (mkMOptions (GetUint "max_value_bytes" 0 cfg) (GetUint "default_ttl_ms" 0 cfg)))).

Section program.
Context `{!Phmap Key128} `{!Btree}.
Context (iter : nat -> gset Z -> list Z).
Context (key_order : @gmap Key128 key_eq_dec key_countable Z -> list Key128).
Context (disk : string -> gset string * FS * FS).

Definition index_options (flags : Flags) (cfg : BackendConfig) : BOptions :=
  let ns := cfg_Get "namespace" "default" cfg in
  let sanitized := SanitizeNs ns in
  mkBOptions (segement_workspace_path flags +:+ "/" +:+ sanitized) ns (FLAGS_segment_size flags)
    (FLAGS_segment_value_size flags) (FLAGS_segment_count flags) (index_wal_checkpoint_bytes flags)
    10 (FLAGS_lfu_capacity_ratio flags) (FLAGS_lfu_age_tick_sec flags).

(** The constructor: a context, or none if it cannot be made. *)
Definition IndexBackend_new (opts : BOptions) (clock : nat -> Z) : Outcome IndexBackend :=
  let '(dirs, fs, w) := disk (root_dir opts) in
  '(_, b) ← CreateContext iter key_order clock (mkIndexBackend opts None dirs fs w);
  Ret b.

Definition index_factory (flags : Flags) (clock : nat -> Z) (cfg : BackendConfig) : Outcome (option IndexBackend) :=
  b ← IndexBackend_new (index_options flags cfg) clock; Ret (Some b).

(** The pointer as a pointer to the base class. *)
Definition upcast {A B} (f : A -> B) (x : Outcome (option A)) : Outcome (option B) :=
  match x with Ret b => Ret (option_map f b) | UB => UB end.

(** The registrations at static initialization. *)
Definition program_registry (flags : Flags) (clock : nat -> Z) : BackendRegistry (MemoryBackend + IndexBackend) :=
  let r := mkBackendRegistry ∅ in
  let '(_, r) := registry_Register "kvcache_memory" (Some (fun cfg => upcast inl (memory_factory cfg))) r in
  let '(_, r) := registry_Register "kvcache_index128" (Some (fun cfg => upcast inr (index_factory flags clock cfg))) r in
  r.

End program.
