(* ===== verification/ConfigTheorems.v ===== *)
(** * Correctness of configuration and start-up *)

From stdpp Require Import pretty sorting.
From S2P Require Import Prelude Common Sys Key SegmentBase SegmentManager Index Lfuda Backend IndexBackend MemoryBackend.
From S2P Require Import Namespaces Service ServiceTheorems Config.
From Stdlib Require Import SpecFloat Ascii.

(** ** Numbers *)

Fixpoint all_chars (f : ascii -> bool) (s : string) : bool :=
  match s with EmptyString => true | String c s => f c && all_chars f s end.

Definition is_digit (c : ascii) : bool := bool_decide (is_Some (digit_of c)).

Lemma pretty_char_digit (x : N) : (x < 10)%N -> digit_of (pretty_N_char x) = Some (Z.of_N x).
Proof.
  intros Hx. assert (x = 0 \/ x = 1 \/ x = 2 \/ x = 3 \/ x = 4 \/ x = 5 \/ x = 6 \/ x = 7 \/ x = 8 \/ x = 9)%N as Hc by lia.
  by repeat destruct Hc as [->|Hc]; [..|subst].
Qed.

(** The digits of a number are read as the number. *)
Lemma digits_go (x : N) k s :
  exists j, digits 0 k (pretty_N_go x s) = digits (Z.of_N x) j s /\ (x <> 0%N -> (k < j)%nat).
Proof.
  revert s. induction (N.lt_wf_0 x) as [x _ IH]. intros s. destruct (decide (x = 0%N)) as [->|Hx].
  { exists k. by rewrite pretty_N_go_0. }
  rewrite pretty_N_go_step by lia.
  assert (x mod 10 < 10)%N as Hm by (apply N.mod_lt; lia).
  destruct (IH (x / 10)%N ltac:(apply N.div_lt; lia) (String (pretty_N_char (x mod 10)) s)) as (j & E & Hj).
  exists (S j). split.
  - rewrite E. cbn [digits]. rewrite pretty_char_digit by done. f_equal.
    pose proof (N.div_mod x 10 ltac:(lia)). lia.
  - intros _. destruct (decide (x / 10 = 0)%N) as [E0|?]; [|specialize (Hj ltac:(done)); lia].
    rewrite E0, pretty_N_go_0 in E. change (Z.of_N 0) with 0 in E.
    assert (forall t a b a' b', digits a b t = digits a' b' t -> b = b') as Hb; [|apply Hb in E; lia].
    clear. intros t. induction t as [|c t IH]; intros a b a' b'; cbn [digits]; [congruence|].
    destruct (digit_of c); [|congruence]. intros E%IH. lia.
Qed.

Lemma pretty_go_digits (x : N) s : all_chars is_digit s = true -> all_chars is_digit (pretty_N_go x s) = true.
Proof.
  revert s. induction (N.lt_wf_0 x) as [x _ IH]. intros s Hs. destruct (decide (x = 0%N)) as [->|Hx].
  { by rewrite pretty_N_go_0. }
  rewrite pretty_N_go_step by lia. apply IH; [apply N.div_lt; lia|]. cbn [all_chars].
  unfold is_digit at 1. rewrite pretty_char_digit by (apply N.mod_lt; lia). by rewrite bool_decide_eq_true_2.
Qed.

Lemma pretty_N_digits (x : N) : all_chars is_digit (pretty x) = true.
Proof. unfold pretty, pretty_N. case_decide; [done|]. by apply pretty_go_digits. Qed.

(** A string of digits: nothing in it ends it, and it starts with no space. *)
Lemma digit_char c : is_digit c = true -> (N_of_ascii c =? 0)%N = false /\ is_space c = false /\ c <> "-"%char /\ c <> "+"%char.
Proof.
  unfold is_digit, digit_of. intros E%bool_decide_eq_true. destruct ((48 <=? _) && _) eqn:Ed; [|by destruct E].
  apply andb_prop in Ed as [E1%Z.leb_le E2%Z.leb_le]. split; [apply N.eqb_neq; lia|].
  split; [|by split; intros ->; vm_compute in E1, E2].
  unfold is_space. rewrite !orb_false_iff, andb_false_iff, N.eqb_neq, !N.leb_gt. lia.
Qed.

Lemma c_str_digits s : all_chars is_digit s = true -> c_str s = s.
Proof.
  induction s as [|c s IH]; cbn; [done|]. intros [Hc Hs]%andb_prop. apply digit_char in Hc as [-> _]. by rewrite IH.
Qed.

Lemma pretty_N_nonempty (x : N) : pretty x <> EmptyString.
Proof.
  unfold pretty, pretty_N. case_decide; [done|]. intros E.
  destruct (digits_go x 0 EmptyString) as (j & Ed & Hj). rewrite E in Ed. cbn in Ed.
  injection Ed as _ Ej. specialize (Hj ltac:(done)). lia.
Qed.

Lemma scan_digits (x : N) s (neg : bool) :
  skip_space s = s -> sign s = (neg, pretty x) -> scan_int s = (neg, Z.of_N x, Some EmptyString).
Proof.
  intros Es Eg. unfold scan_int. rewrite Es, Eg. unfold pretty, pretty_N. case_decide as Hx; [by subst|].
  destruct (digits_go x 0 EmptyString) as (j & -> & Hj). specialize (Hj Hx). cbn. by rewrite decide_False by lia.
Qed.

Lemma scan_pretty (z : Z) :
  c_str (pretty z) = pretty z /\ pretty z <> EmptyString /\ scan_int (pretty z) = (z <? 0, Z.abs z, Some EmptyString).
Proof.
  assert (forall x : N, skip_space (pretty x) = pretty x /\ sign (pretty x) = (false, pretty x)) as HN.
  { intros x. pose proof (pretty_N_digits x) as Hd. pose proof (pretty_N_nonempty x) as Hne.
    destruct (pretty x) as [|c s]; [done|]. cbn in Hd. apply andb_prop in Hd as [Hc _].
    apply digit_char in Hc as (_ & E & H1 & H2). cbn [skip_space]. rewrite E. split; [done|].
    destruct c as [[] [] [] [] [] [] [] []]; done. }
  destruct z as [|p|p].
  - done.
  - change (pretty (Z.pos p)) with (pretty (N.pos p)). split; [apply c_str_digits, pretty_N_digits|].
    split; [apply pretty_N_nonempty|]. destruct (HN (N.pos p)). by apply (scan_digits (N.pos p)).
  - change (pretty (Z.neg p)) with (String "-" (pretty (N.pos p))).
    split; [cbn; by rewrite c_str_digits by apply pretty_N_digits|]. split; [done|]. by apply (scan_digits (N.pos p)).
Qed.

(** decimal numbers in the configuration.  [GetInt] reads the decimal form
    of every number of 64 bits with sign as that number and any other as the
    default; [GetUint] reads every number of 64 bits as that number, a negative
    one modulo 2^64, and any other as the default. *)
Theorem config_numbers (key : string) (z d : Z) (c : BackendConfig) :
  GetInt key d (cfg_Set key (pretty z) c) = (if decide (- 2 ^ 63 <= z < 2 ^ 63) then z else d) /\
  GetUint key d (cfg_Set key (pretty z) c) = (if decide (- 2 ^ 64 < z < 2 ^ 64) then u64 z else d).
Proof.
  destruct (scan_pretty z) as (Ec & Hne & Es). unfold GetInt, GetUint, cfg_Set. cbn [entries_]. rewrite lookup_insert_eq.
  unfold is_empty. rewrite bool_decide_eq_false_2, Ec by done. unfold strtoll, strtoull. rewrite Es.
  unfold UINT64_MAX. split.
  - replace (if z <? 0 then - Z.abs z else Z.abs z) with z by (destruct (Z.ltb_spec z 0); lia).
    destruct (Z.ltb_spec z (- 2 ^ 63)), (Z.gtb_spec z (2 ^ 63 - 1)), (decide (- 2 ^ 63 <= z < 2 ^ 63)); try lia; done.
  - destruct (Z.gtb_spec (Z.abs z) (2 ^ 64 - 1)), (decide (- 2 ^ 64 < z < 2 ^ 64)); try lia; [done|].
    cbn [orb negb]. rewrite bool_decide_eq_true_2 by done. cbn [negb]. destruct (Z.ltb_spec z 0).
    + f_equal. lia.
    + unfold u64. rewrite Z.mod_small by lia. lia.
Qed.

(** ** Flags *)

(** The character does not occur. *)
Definition free_of (sep : ascii) (s : string) : bool := all_chars (fun c => negb (Ascii.eqb c sep)) s.

Lemma free_of_app sep s t : free_of sep (s +:+ t) = free_of sep s && free_of sep t.
Proof. unfold free_of. induction s as [|c s IH]; [done|]. rewrite str_app_cons. cbn [all_chars]. by rewrite IH, andb_assoc. Qed.

Lemma split_on_free sep cur s : free_of sep s = true -> split_on sep cur s = [cur +:+ s].
Proof.
  revert cur. induction s as [|c s IH]; intros cur Hs; cbn [split_on]; [by rewrite str_app_nil_r|].
  apply andb_prop in Hs as [Hc%negb_true_iff Hs]. rewrite Hc, IH by done. by rewrite str_app_assoc.
Qed.

Lemma split_on_app sep cur s t :
  free_of sep s = true -> split_on sep cur (s +:+ String sep t) = (cur +:+ s) :: split_on sep EmptyString t.
Proof.
  revert cur. induction s as [|c s IH]; intros cur Hs.
  - change (EmptyString +:+ String sep t) with (String sep t). cbn [split_on]. by rewrite Ascii.eqb_refl, str_app_nil_r.
  - apply andb_prop in Hs as [Hc%negb_true_iff Hs]. rewrite str_app_cons. cbn [split_on]. rewrite Hc, IH by done.
    by rewrite str_app_assoc.
Qed.

(** Tokens with commas between them. *)
Fixpoint join (ts : list string) : string :=
  match ts with
  | [] => EmptyString
  | [t] => t
  | t :: ts => t +:+ String "," (join ts)
  end.

Lemma getlines_join ts :
  Forall (fun t => free_of "," t = true /\ t <> EmptyString) ts -> getlines "," (join ts) = ts.
Proof.
  intros Hts. assert (ts <> [] -> split_on "," EmptyString (join ts) = ts) as Hs.
  { induction ts as [|t [|t' ts] IH]; intros Hne; [done| |].
    - apply Forall_cons in Hts as [[Hf _] _]. by apply (split_on_free "," EmptyString).
    - apply Forall_cons in Hts as [[Hf _] Hts]. change (join (t :: t' :: ts)) with (t +:+ String "," (join (t' :: ts))).
      rewrite split_on_app by done. by rewrite IH. }
  unfold getlines. destruct ts as [|t ts]; [done|]. rewrite Hs by done. rewrite bool_decide_eq_false_2; [done|].
  intros E. apply last_Some in E as [l' E]. rewrite E, Forall_app, Forall_singleton in Hts. tauto.
Qed.

Definition trimmed (s : string) : Prop := ltrim s = s /\ rtrim s = s.

#[export] Instance trimmed_dec s : Decision (trimmed s).
Proof. unfold trimmed. apply _. Defined.

Lemma trim_trimmed s : trimmed s -> trim s = s.
Proof. intros [E1 E2]. unfold trim. by rewrite E1. Qed.

Lemma split_eq_app k v : free_of "=" k = true -> split_eq (k +:+ String "=" v) = Some (k, v).
Proof.
  induction k as [|c k IH]; intros Hk; [done|]. apply andb_prop in Hk as [Hc%negb_true_iff Hk].
  rewrite str_app_cons. cbn [split_eq]. by rewrite Hc, IH.
Qed.

Definition opt_text (kv : string * string) : string := kv.1 +:+ String "=" kv.2.

(** An option that can be written in the flag. *)
Definition opt_ok (kv : string * string) : Prop :=
  kv.1 <> EmptyString /\ free_of "=" kv.1 = true /\ free_of "," (opt_text kv) = true /\ trimmed (opt_text kv).

Definition name_ok (ns : string) : Prop := ns <> EmptyString /\ free_of "," ns = true /\ trimmed ns.

(** the flags are read back.  A list of options written [key=value] with
    commas between them gives the configuration in which every key has the
    last value written for it, and a list of names with commas between them
    gives the names in order. *)
Theorem flags_roundtrip (opts : list (string * string)) (names : list string) :
  Forall opt_ok opts -> Forall name_ok names ->
  entries_ (ParseBackendOpts (join (opt_text <$> opts))) = foldl (fun c kv => <[kv.1 := kv.2]> c) ∅ opts /\
  ParseNamespaces (join names) = names.
Proof.
  intros Ho Hn. split.
  - unfold ParseBackendOpts. rewrite getlines_join.
    + generalize (∅ : gmap string string) as c. induction Ho as [|[k v] opts (Hne & Hk & _ & Ht) Ho IH]; intros c; [done|].
      cbn [fmap list_fmap foldl fst snd]. rewrite <- IH. f_equal. unfold add_opt, is_empty.
      rewrite (trim_trimmed _ Ht), (proj1 Ht). unfold opt_text in *. cbn [fst snd] in *. rewrite split_eq_app by done.
      rewrite !bool_decide_eq_false_2; [done|done|by destruct k].
    + apply Forall_fmap. apply (Forall_impl _ _ _ Ho). intros [k v] (Hne & _ & Hf & _). split; [done|].
      unfold opt_text. cbn. by destruct k.
  - unfold ParseNamespaces. rewrite getlines_join.
    + induction Hn as [|ns names (Hne & _ & Ht) Hn IH]; [done|]. cbn [omap list_omap]. unfold is_empty at 1.
      rewrite (proj1 Ht), bool_decide_eq_false_2 by done. rewrite trim_trimmed by done. by f_equal.
    + apply (Forall_impl _ _ _ Hn). intros ns (? & ? & _). done.
Qed.

Lemma flags_roundtrip_witness :
  entries_ (ParseBackendOpts "default_ttl_ms=5,max_value_bytes=7,default_ttl_ms=9") =
    <["default_ttl_ms" := "9"]> (<["max_value_bytes" := "7"]> (<["default_ttl_ms" := "5"]> ∅)) /\
  ParseNamespaces "a,b c" = ["a"; "b c"]%string.
Proof.
  apply (flags_roundtrip [("default_ttl_ms", "5"); ("max_value_bytes", "7"); ("default_ttl_ms", "9")]%string
           ["a"; "b c"]%string).
  - repeat constructor; discriminate || (vm_compute; reflexivity).
  - repeat constructor; discriminate || (vm_compute; reflexivity).
Defined.

(** Blanks around the options are dropped, malformed ones ignored. *)
Example ParseBackendOpts_malformed :
  entries_ (ParseBackendOpts " a = 1 ,,b,=2, c=3=4,") = <["a " := " 1"]> (<["c" := "3=4"]> ∅).
Proof. vm_compute. reflexivity. Qed.

(** ** The registry *)

Section setup.
Context {S : Type} `{!KVCacheStorageBackend S}.
Implicit Types (r : BackendRegistry S) (m : NamespaceManager S).

(** The names are sorted, and they are those of the factories. *)
Lemma RegisteredNames_spec r :
  StronglySorted String.le (RegisteredNames r) /\ forall name, name ∈ RegisteredNames r <-> IsRegistered name r = true.
Proof.
  unfold RegisteredNames, IsRegistered. split; [apply (StronglySorted_merge_sort String.le)|]. intros name.
  rewrite merge_sort_Permutation, bool_decide_eq_true, list_elem_of_fmap. split.
  - intros ([n f] & -> & Hf%elem_of_map_to_list). by exists f.
  - intros [f Hf]. exists (name, f). split; [done|]. by apply elem_of_map_to_list.
Qed.

Lemma ParseNamespaces_nonempty s ns : ns ∈ ParseNamespaces s -> ns <> EmptyString.
Proof.
  unfold ParseNamespaces. intros (t & _ & Ht)%list_elem_of_omap. unfold is_empty in Ht. case_bool_decide as E; [done|].
  injection Ht as <-. unfold trim. clear -E. induction t as [|c t IH]; [done|]. cbn [ltrim] in *.
  destruct (is_blank c) eqn:Eb; [by apply IH|]. cbn [rtrim]. by rewrite Eb.
Qed.

(** The backend of a namespace is the one made from its configuration. *)
Definition made_by (backend : string) (base_cfg : BackendConfig) r (ns : string) (s : S) : Prop :=
  registry_Create backend (cfg_Set "namespace" ns base_cfg) r = Ret (Some s).

Lemma register_namespaces_spec backend base_cfg r names m :
  (forall ns, ns ∈ names -> exists s, made_by backend base_cfg r ns s) -> Forall (fun ns => ns <> EmptyString) names ->
  exists o, register_namespaces backend base_cfg r names m = Ret o /\
    match o with
    | None => ~ (NoDup names /\ forall ns, ns ∈ names -> backends_ m !! ns = None)
    | Some m' => NoDup names /\ (forall ns, ns ∈ names -> backends_ m !! ns = None) /\
        forall ns, if decide (ns ∈ names) then exists s, made_by backend base_cfg r ns s /\ backends_ m' !! ns = Some s
                   else backends_ m' !! ns = backends_ m !! ns
    end.
Proof.
  revert m. induction names as [|ns names IH]; intros m Hf Hne; cbn [register_namespaces].
  { eexists. split; [done|]. split; [constructor|]. split; [by intros ns ?%elem_of_nil|]. intros ns.
    by rewrite decide_False by (apply not_elem_of_nil). }
  apply Forall_cons in Hne as [Hn Hne]. destruct (Hf ns) as [s Es]; [by left|]. pose proof Es as Es'. unfold made_by in Es'. rewrite Es'.
  cbn [mbind Outcome_bind]. pose proof (Register_spec ns (Some s) m) as Hr.
  destruct (Register ns (Some s) m) as [ok m1]. destruct Hr as [Hok Hm]. destruct ok; cbn [negb].
  2: { eexists. split; [done|]. intros [_ Hfree]. assert (backends_ m !! ns = None) as E by (apply Hfree; by left).
       enough (false = true) by done. by apply Hok. }
  destruct (proj1 Hok eq_refl) as (_ & _ & Hnone). destruct Hm as [Hset Hkeep].
  destruct (IH m1) as (o & -> & Ho); [intros; apply Hf; by right|done|]. eexists. split; [done|]. destruct o as [m2|].
  - destruct Ho as (Hnd & Hfree & Hm2). assert (ns ∉ names) as Hnin.
    { intros Hin. by rewrite (Hfree ns Hin) in Hset. }
    split; [by constructor|]. split.
    + intros ns' [->|Hin]%elem_of_cons; [done|]. rewrite <- Hkeep by (intros ->; done). by apply Hfree.
    + intros ns'. specialize (Hm2 ns'). destruct (decide (ns' = ns)) as [->|Hne'].
      * rewrite decide_False in Hm2 by done. rewrite decide_True by (by left). exists s. by rewrite Hm2.
      * rewrite Hkeep in Hm2 by done. destruct (decide (ns' ∈ names)).
        -- rewrite decide_True by (by right). exact Hm2.
        -- rewrite decide_False; [exact Hm2|]. rewrite elem_of_cons. tauto.
  - intros [Hnd Hfree]. apply NoDup_cons in Hnd as [Hnin Hnd]. apply Ho. split; [done|]. intros ns' Hin.
    rewrite Hkeep by (by intros ->). apply Hfree. by right.
Qed.

(** With a registered backend whose factory does not fail for the namespaces of
    the list, the program starts exactly if the list is not empty and has no
    duplicates; then the manager has exactly the namespaces of the list, each
    with a backend of its own made from its configuration. *)
Lemma main_setup_spec (backend opts nss : string) (mbs mvb : Z) r :
  IsRegistered backend r = true ->
  (forall ns, ns ∈ ParseNamespaces nss -> exists s, made_by backend (ParseBackendOpts opts) r ns s) ->
  exists o, main_setup backend opts nss mbs mvb r = Ret o /\
    match o with
    | None => ParseNamespaces nss = [] \/ ~ NoDup (ParseNamespaces nss)
    | Some (m, so) => ParseNamespaces nss <> [] /\ NoDup (ParseNamespaces nss) /\
        so = mkServiceOptions (u32 mbs) mvb /\
        forall ns, if decide (ns ∈ ParseNamespaces nss)
                   then exists s, made_by backend (ParseBackendOpts opts) r ns s /\ backends_ m !! ns = Some s
                   else backends_ m !! ns = None
    end.
Proof.
  intros Hreg Hf. unfold main_setup. rewrite Hreg. cbn [negb]. case_bool_decide as Hn.
  { eexists. split; [done|]. by left. }
  destruct (register_namespaces_spec backend (ParseBackendOpts opts) r (ParseNamespaces nss) NamespaceManager_new Hf)
    as (o & -> & Ho).
  { apply Forall_forall. intros ns. apply ParseNamespaces_nonempty. }
  cbn [mbind Outcome_bind]. destruct o as [m|]; eexists; (split; [done|]).
  - destruct Ho as (Hnd & _ & Hm). done.
  - right. intros Hnd. apply Ho. split; [done|]. intros ns _. apply lookup_empty.
Qed.

End setup.
