(* ===== verification/Server.v ===== *)
(** * The server

    The program as a whole: [main] sets up the namespaces, and the service
    answers batches.  What a client can conclude, for both kinds of backends. *)

From S2P Require Import Prelude Common Sys Key Wal SegmentBase SegmentOps SegmentFile SegmentManager Index IndexData IndexRecovery Lfuda.
From S2P Require Import LfudaTheorems Backend IndexBackend IndexBackendTheorems BackendDisk BackendRestart MemoryBackend.
From S2P Require Import Namespaces Service ServiceTheorems Background Config ConfigTheorems.

(** The laws of a backend in a program that has another kind as well, but does
    not use it. *)
Section left.
Context {S1 S2 : Type} `{!KVCacheStorageBackend S1, !KVCacheStorageBackend S2, !BackendLaws S1}.

Definition left_laws : BackendLaws (S1 + S2).
Proof.
  refine {| bk_inv s := match s with inl s => bk_inv s | inr _ => False end;
            bk_view s := match s with inl s => bk_view s | inr _ => fun _ => None end;
            bk_ready s := match s with inl s => bk_ready s | inr _ => False end |}.
  - intros key v md opts clock [s|s] Hi Hr Hk Hl; [|done].
    destruct (bk_Put_defined key v md opts clock s Hi Hr Hk Hl) as (r & s' & E); cbn; rewrite E; by do 2 eexists.
  - intros key opts clock [s|s] Hi Hk; [|done].
    destruct (bk_Get_defined key opts clock s Hi Hk) as (r & s' & E); cbn; rewrite E; by do 2 eexists.
  - intros key [s|s] Hi Hk; [|done].
    destruct (bk_Delete_defined key s Hi Hk) as (r & s' & E); cbn; rewrite E; by do 2 eexists.
  - intros key v md opts clock [s|s] r s' Hi Hk Hl; [|done]. cbn.
    destruct (backend_Put key v md opts clock s) as [[r0 s0]|] eqn:E; [|done]. intros [= <- <-].
    by apply (bk_Put_law _ _ _ _ _ _ _ _ Hi Hk Hl E).
  - intros key opts clock [s|s] r s' Hi Hk; [|done]. cbn.
    destruct (backend_Get key opts clock s) as [[r0 s0]|] eqn:E; [|done]. intros [= <- <-].
    by apply (bk_Get_law _ _ _ _ _ _ Hi Hk E).
  - intros key [s|s] r s' Hi Hk; [|done]. cbn.
    destruct (backend_Delete key s) as [[r0 s0]|] eqn:E; [|done]. intros [= <- <-].
    by apply (bk_Delete_law _ _ _ _ Hi Hk E).
Defined.

End left.

Section server.
Context `{!Phmap Key128} `{!PhmapLaws Key128} `{!Btree, !BtreeLaws}.
Context (iter : nat -> gset Z -> list Z).
Hypothesis iter_ok : forall n X, iter n X ≡ₚ elements X.
Context (key_order : @gmap Key128 key_eq_dec key_countable Z -> list Key128).
Hypothesis key_order_ok : forall m, key_order m ≡ₚ (map_to_list m).*1.
Implicit Types disk : string -> gset string * FS * FS.

#[local] Instance index_backend : KVCacheStorageBackend IndexBackend := IndexBackend_instance iter.
#[local] Instance index_laws : BackendLaws IndexBackend := IndexBackend_laws iter iter_ok.

Definition registry disk (flags : Flags) (clock : nat -> Z) := program_registry iter key_order disk flags clock.

Lemma registry_memory disk flags clock cfg :
  registry_Create "kvcache_memory" cfg (registry disk flags clock) = upcast inl (memory_factory cfg).
Proof. done. Qed.

Lemma registry_index disk flags clock cfg :
  registry_Create "kvcache_index128" cfg (registry disk flags clock) = upcast inr (index_factory iter key_order disk flags clock cfg).
Proof. done. Qed.

Lemma memory_setup disk flags clock opts nss mbs mvb :
  exists o, main_setup "kvcache_memory" opts nss mbs mvb (registry disk flags clock) = Ret o /\
    match o with
    | None => ParseNamespaces nss = [] \/ ~ NoDup (ParseNamespaces nss)
    | Some (m, so) => ParseNamespaces nss <> [] /\ NoDup (ParseNamespaces nss) /\ so = mkServiceOptions (u32 mbs) mvb /\
        covered (BackendLaws0 := left_laws) m ∅ /\ dom (backends_ m) = list_to_set (ParseNamespaces nss)
    end.
Proof.
  destruct (main_setup_spec "kvcache_memory" opts nss mbs mvb (registry disk flags clock)) as (o & E & Ho).
  - done.
  - intros ns _. eexists. unfold made_by. rewrite registry_memory. done.
  - exists o. split; [done|]. destruct o as [[m so]|]; [|done]. destruct Ho as (Hne & Hnd & Hso & Hm).
    split; [done|]. split; [done|]. split; [done|]. split.
    + intros ns s Hs. specialize (Hm ns). case_decide; [|congruence]. destruct Hm as (s' & Hmade & Hs').
      rewrite Hs in Hs'. injection Hs' as <-. unfold made_by in Hmade. rewrite registry_memory in Hmade. cbn in Hmade.
      injection Hmade as <-. split; [done|]. cbn. unfold memory_view. intros key x _. cbn. by rewrite lookup_empty.
    + apply set_eq. intros ns. rewrite elem_of_dom, elem_of_list_to_set. specialize (Hm ns). case_decide as Hd.
      * destruct Hm as (s & _ & ->). by split.
      * rewrite Hm. split; [by intros [? ?]|done].
Qed.

(** Calls register no namespace and remove none. *)
Lemma ns_run_dom {S : Type} `{!KVCacheStorageBackend S} ops (m : NamespaceManager S) rs m' :
  ns_run ops m = Ret (rs, m') -> dom (backends_ m') = dom (backends_ m).
Proof using Type.
  revert m rs. induction ops as [|[ns op] ops IH]; intros m rs; cbn [ns_run]; [by intros [= _ <-]|].
  destruct (ns_step (ns, op) m) as [[r m1]|] eqn:E1; [|done]. cbn [mbind Outcome_bind].
  destruct (ns_run ops m1) as [[rs1 m2]|] eqn:E2; [|done]. intros [= _ <-]. rewrite (IH _ _ E2). clear -E1.
  destruct op as [k v md opts clock|k opts clock|k]; cbn in E1; unfold ns_Put, ns_Get, ns_Delete, GetBackend in E1;
    (destruct (backends_ m !! ns) as [s|] eqn:Es; [|by injection E1 as _ <-]);
    [destruct (backend_Put k v md opts clock s) as [[? ?]|]|destruct (backend_Get k opts clock s) as [[? ?]|]
    |destruct (backend_Delete k s) as [[? ?]|]]; try done; injection E1 as _ <-; cbn; apply dom_insert_lookup_L; by eexists.
Qed.

Lemma memory_serves so qs (m : NamespaceManager (MemoryBackend + IndexBackend)) :
  covered (BackendLaws0 := left_laws) m ∅ -> Forall request_ok qs ->
  exists acc m', serve_all so qs m = Ret (acc, m') /\ answers_ok so ∅ qs acc /\ dom (backends_ m') = dom (backends_ m).
Proof using Type.
  intros Hc Hq. pose proof (serve_all_covered (BackendLaws0 := left_laws) so qs m ∅ Hc Hq) as Hs.
  pose proof (serve_all_calls so qs m) as Hcalls. destruct (serve_all so qs m) as [[acc m']|] eqn:Es.
  { destruct Hcalls as [rs E]. exists acc, m'. split; [done|]. split; [apply Hs|]. by apply ns_run_dom in E. }
  destruct (serve_all_undefined (BackendLaws0 := left_laws) so qs m ∅ Hc Hq Es)
    as (? & ? & ? & ? & ? & ? & ? & ? & ? & ? & [s|s] & _ & _ & _ & Hi & Hr); [by destruct Hr|done].
Qed.

(** C18: [main] with the in-memory backend.  Whatever the flags and the server of
    brpc do, it returns: 0 exactly if there are namespaces, none twice, and the
    server accepts the service and starts, and -1 otherwise, without serving.
    When it serves, every batch gets a response, with one result per item in
    order, and every hit of a read is the last write to that key of that
    namespace that was answered [OK] and not deleted since; at the end it closes
    the backends of exactly the namespaces of the flag. *)
Theorem memory_server_never_stale disk (flags : Flags) (clock : nat -> Z) (fl : MainFlags) (server : BrpcServer) :
  FLAGS_backend fl = "kvcache_memory" ->
  Forall request_ok (server_requests server) ->
  let names := ParseNamespaces (FLAGS_namespaces fl) in
  exists code out, main fl (registry disk flags clock) server = Ret (code, out) /\
    (code = 0 <-> names <> [] /\ NoDup names /\ server_AddService server = 0 /\
                 server_Start server (FLAGS_port fl) (FLAGS_idle_timeout_s fl) = 0) /\
    match out with
    | None => code = -1
    | Some (acc, closed) => code = 0 /\ dom closed = list_to_set names /\
        answers_ok (mkServiceOptions (u32 (FLAGS_max_batch_size fl)) (FLAGS_max_value_bytes fl)) ∅ (server_requests server) acc
    end.
Proof using Type.
  intros Hb Hq names. unfold main. rewrite Hb.
  destruct (memory_setup disk flags clock (FLAGS_backend_opts fl) (FLAGS_namespaces fl) (FLAGS_max_batch_size fl)
    (FLAGS_max_value_bytes fl)) as (o & -> & Ho). cbn [mbind Outcome_bind]. fold names in Ho. destruct o as [[m so]|].
  2: { do 2 eexists. split; [reflexivity|]. split; [|done]. split; [done|]. intros (? & ? & _). by destruct Ho. }
  destruct Ho as (Hne & Hnd & -> & Hc & Hdom). destruct (Z.eqb_spec (server_AddService server) 0) as [Ea|Ea]; cbn [negb].
  2: { do 2 eexists. split; [reflexivity|]. split; [|done]. split; [done|]. by intros (_ & _ & ? & _). }
  destruct (Z.eqb_spec (server_Start server (FLAGS_port fl) (FLAGS_idle_timeout_s fl)) 0) as [Es|Es]; cbn [negb].
  2: { do 2 eexists. split; [reflexivity|]. split; [|done]. split; [done|]. by intros (_ & _ & _ & ?). }
  destruct (memory_serves (mkServiceOptions (u32 (FLAGS_max_batch_size fl)) (FLAGS_max_value_bytes fl)) (server_requests server) m Hc Hq) as (acc & m' & -> & Ha & Hd). cbn.
  do 2 eexists. split; [reflexivity|]. split; [done|]. split; [done|]. split; [|done].
  by rewrite dom_fmap_L, Hd.
Qed.

(** The options of the backend of a namespace. *)
Definition ns_options (flags : Flags) (opts ns : string) : BOptions :=
  index_options flags (cfg_Set "namespace" ns (ParseBackendOpts opts)).

(** The disk of a namespace is that of a closed backend, or of one whose
    process was killed; the ledger has what it stores, and the log has at most
    [L] bytes. *)
Definition disk_ok disk (flags : Flags) (opts ns : string) (l : ledger) (L : Z) : Prop :=
  let o := ns_options flags opts ns in
  bopts_ok o /\ exists v,
    closed (mkIndexBackend o None (disk (root_dir o)).1.1 (disk (root_dir o)).1.2 (disk (root_dir o)).2) v L /\
    forall key k x, bytes_ok key -> Key128_FromString key = Some k -> v !! k = Some x -> l !! (ns, key) = Some x.

(** A backend that is up; one that is up, whose files give back what it stores
    and whose log has room for [n] calls. *)
Definition up (o : BOptions) (b : IndexBackend) : Prop := options_ b = o /\ exists ctx, live b ctx.
Definition up_logged (o : BOptions) (n : nat) (b : IndexBackend) : Prop :=
  options_ b = o /\ exists ctx, live b ctx /\ durable (c_ix ctx) (b_fs b) /\ synced (c_mgr ctx) (b_w b) /\
    log_size (c_ix ctx) + (2 * Z.of_nat n + 1) * enc < 2 ^ 63.

(** After the start on a log of [L] bytes. *)
Definition started (o : BOptions) (L : Z) (b : IndexBackend) : Prop :=
  up o b /\ forall n, L + (2 * Z.of_nat n + 1) * enc < 2 ^ 63 -> up_logged o n b.

Lemma index_made disk flags clock opts ns l L :
  disk_ok disk flags opts ns l L -> L < 2 ^ 63 ->
  exists b, made_by "kvcache_index128" (ParseBackendOpts opts) (registry disk flags clock) ns (inr b) /\
    started (ns_options flags opts ns) L b /\
    forall key x, bytes_ok key -> index_view b key = Some x -> l !! (ns, key) = Some x.
Proof using iter_ok key_order_ok PhmapLaws0 H0.
  intros (Ho & v & Hcl & Hl) HL. unfold made_by. rewrite registry_index.
  unfold index_factory, IndexBackend_new. fold (ns_options flags opts ns). set (o := ns_options flags opts ns) in *.
  destruct (disk (root_dir o)) as [[dirs fs] w]. cbn [fst snd] in Hcl.
  destruct (CreateContext_opens iter iter_ok key_order key_order_ok clock (mkIndexBackend o None dirs fs w) v L Ho Hcl HL)
    as (b & ctx & -> & Hlv & Eo & Ev & Hd & Hls & Hsy & _).
  exists b. split; [done|]. split.
  - split; [split; [exact Eo|by exists ctx]|]. intros n Hn. split; [exact Eo|]. exists ctx. do 3 (split; [done|]). lia.
  - intros key x Hk Hx. unfold index_view in Hx. destruct (Key128_FromString key) as [k|] eqn:Ek; [|done]. cbn in Hx.
    rewrite Ev in Hx. by eapply Hl.
Qed.

(** The program comes up. *)
Lemma index_starts disk flags clock opts nss mbs mvb l L :
  ParseNamespaces nss <> [] -> NoDup (ParseNamespaces nss) -> L < 2 ^ 63 ->
  (forall ns, ns ∈ ParseNamespaces nss -> disk_ok disk flags opts ns l L) ->
  exists m so, main_setup "kvcache_index128" opts nss mbs mvb (registry disk flags clock) = Ret (Some (m, so)) /\
    so = mkServiceOptions (u32 mbs) mvb /\ covered m l /\
    forall ns, ns ∈ ParseNamespaces nss -> exists b, backends_ m !! ns = Some (inr b) /\ started (ns_options flags opts ns) L b.
Proof using iter_ok key_order_ok PhmapLaws0 H0.
  intros Hne Hnd HL Hdisk.
  destruct (main_setup_spec "kvcache_index128" opts nss mbs mvb (registry disk flags clock)) as (o & E & Ho).
  - done.
  - intros ns Hns. destruct (index_made disk flags clock opts ns l L (Hdisk ns Hns) HL) as (b & Hb & _). by eexists.
  - destruct o as [[m so]|]; [|by destruct Ho]. exists m, so. split; [done|]. destruct Ho as (_ & _ & Eso & Hm). split; [done|].
    assert (forall ns s, ns ∈ ParseNamespaces nss -> made_by "kvcache_index128" (ParseBackendOpts opts) (registry disk flags clock) ns s ->
      exists b, s = inr b /\ started (ns_options flags opts ns) L b /\
        forall key x, bytes_ok key -> index_view b key = Some x -> l !! (ns, key) = Some x) as Hb.
    { intros ns s Hns Hmade. destruct (index_made disk flags clock opts ns l L (Hdisk ns Hns) HL) as (b & Hb & Hup & Hv).
      exists b. split; [|done]. unfold made_by in *. rewrite Hmade in Hb. by injection Hb. }
    split.
    + intros ns s Hs. specialize (Hm ns). case_decide as Hns; [|congruence]. destruct Hm as (s' & Hmade & Hs').
      rewrite Hs in Hs'. injection Hs' as <-. destruct (Hb ns s Hns Hmade) as (b & -> & ((_ & ctx & Hlv) & _) & Hv).
      split; [right; exists ctx; apply Hlv|exact Hv].
    + intros ns Hns. specialize (Hm ns). rewrite decide_True in Hm by done. destruct Hm as (s & Hmade & Hs).
      destruct (Hb ns s Hns Hmade) as (b & -> & Hup & _). by exists b.
Qed.

(** ** With background work *)

#[local] Instance memory_background : Background MemoryBackend := fun s => Ret s.
#[local] Instance index_background : Background IndexBackend := StatsTick iter.

#[local] Instance memory_background_laws : BackgroundLaws MemoryBackend.
Proof. by refine {| bg_ready _ := True |}. Defined.

#[local] Instance index_background_laws : BackgroundLaws IndexBackend.
Proof.
  refine {| bg_ready b := index_ready b /\ 0 < lay_total_slots (CalculateLayout (seg_cfg (options_ b))) |}.
  intros b Hi. change (background b) with (StatsTick iter b). destruct Hi as [Hn|[ctx Hx]].
  - replace (StatsTick iter b) with (Ret b) by (unfold StatsTick; by rewrite Hn). split; [by left|done].
  - pose proof (StatsTick_spec iter iter_ok b ctx Hx) as Hs. destruct (StatsTick iter b) as [b'|].
    + destruct Hs as (Hok & _ & Ev). split; [by right|]. intros key. change (index_view b' key = index_view b key).
      unfold index_view. by rewrite Ev.
    + unfold index_ready. by rewrite (xo_ctx _ _ Hx).
Defined.

(** The calls of the service as calls of the backend. *)
Definition to_bk (o : kv_op) : bk_op :=
  match o with
  | KPut key v md opts clock => BPut key v md opts clock
  | KGet key opts clock => BGet key opts clock
  | KDelete key => BDelete key
  end.

Lemma index_step (o : kv_op) (b : IndexBackend) r (s : MemoryBackend + IndexBackend) :
  backend_step o (inr b) = Ret (r, s) -> exists r' b', s = inr b' /\ bk_step iter (to_bk o) b = Ret (r', b').
Proof.
  destruct o as [key v md opts clock|key opts clock|key]; cbn.
  - destruct (IndexBackend_Put iter key v md opts clock b) as [[? ?]|]; [|done]. intros [= <- <-]. by do 2 eexists.
  - destruct (IndexBackend_Get key opts clock b) as [[? ?]|]; [|done]. intros [= <- <-]. by do 2 eexists.
  - destruct (IndexBackend_Delete key b) as [[? ?]|]; [|done]. intros [= <- <-]. by do 2 eexists.
Qed.

(** The call an event makes on its backend. *)
Definition event_op (ev : event) : bk_op := match ev with Call o => to_bk o.2 | Round _ => BStats end.

(** What the calls on a backend keep is kept by the events of the program;
    [n] counts the events to come. *)
Section keeps.
Context (A : bk_op -> Prop) (Q : nat -> IndexBackend -> Prop).
Hypothesis Q_step : forall n op b r b', A op -> Q (S n) b -> bk_step iter op b = Ret (r, b') -> Q n b'.
Hypothesis Q_less : forall n b, Q (S n) b -> Q n b.

Lemma event_step_keeps n ev (m : NamespaceManager (MemoryBackend + IndexBackend)) rs m' ns b :
  A (event_op ev) -> event_step ev m = Ret (rs, m') -> backends_ m !! ns = Some (inr b) -> Q (S n) b ->
  exists b', backends_ m' !! ns = Some (inr b') /\ Q n b'.
Proof using Q_step Q_less.
  intros Hev E Hb HQ. destruct ev as [[ns0 op]|ns0]; cbn [event_step event_op snd] in *.
  - rewrite ns_step_spec in E. destruct (backends_ m !! ns0) as [s0|] eqn:E0; [|injection E as <- <-; exists b; auto].
    destruct (backend_step op s0) as [[r s1]|] eqn:E1; [|done]. injection E as <- <-.
    destruct (decide (ns0 = ns)) as [->|Hne]; [|exists b; cbn; rewrite lookup_insert_ne by done; auto].
    rewrite Hb in E0. injection E0 as <-. apply index_step in E1 as (r' & b' & -> & E1).
    exists b'. cbn. rewrite lookup_insert_eq. split; [done|]. by eapply Q_step.
  - destruct (backends_ m !! ns0) as [s0|] eqn:E0; [|injection E as <- <-; exists b; auto].
    destruct (background s0) as [s1|] eqn:E1; [|done]. injection E as <- <-.
    destruct (decide (ns0 = ns)) as [->|Hne]; [|exists b; cbn; rewrite lookup_insert_ne by done; auto].
    rewrite Hb in E0. injection E0 as <-. cbn in E1. change (background b) with (StatsTick iter b) in E1.
    destruct (StatsTick iter b) as [b'|] eqn:Et; [|done]. injection E1 as <-.
    exists b'. cbn. rewrite lookup_insert_eq. split; [done|]. apply (Q_step n BStats b BDone b'); [done|done|].
    cbn. by rewrite Et.
Qed.

Lemma event_run_keeps evs (m : NamespaceManager (MemoryBackend + IndexBackend)) rs m' ns b :
  Forall (fun ev => A (event_op ev)) evs -> event_run evs m = Ret (rs, m') -> backends_ m !! ns = Some (inr b) ->
  Q (length evs) b -> exists b', backends_ m' !! ns = Some (inr b') /\ Q 0 b'.
Proof using Q_step Q_less.
  intros Hev. revert m rs b. induction Hev as [|ev evs Ho Hevs IH]; intros m rs b E Hb HQ; cbn [event_run] in E.
  { injection E as <- <-. by exists b. }
  destruct (event_step ev m) as [[rs1 m1]|] eqn:E1; [|done]. cbn [mbind Outcome_bind] in E.
  destruct (event_run evs m1) as [[rs2 m2]|] eqn:E2; [|done]. injection E as <- <-.
  destruct (event_step_keeps (length evs) ev m rs1 m1 ns b Ho E1 Hb HQ) as (b1 & Hb1 & HQ1). by eapply IH.
Qed.

End keeps.

Lemma event_op_ok ev : event_ok ev -> bk_op_ok (event_op ev).
Proof. by destruct ev as [[ns []]|ns]. Qed.

(** A backend that is up stays up. *)
Lemma event_run_up o evs (m : NamespaceManager (MemoryBackend + IndexBackend)) rs m' ns b :
  Forall event_ok evs -> event_run evs m = Ret (rs, m') -> backends_ m !! ns = Some (inr b) -> up o b ->
  exists b', backends_ m' !! ns = Some (inr b') /\ up o b'.
Proof using iter_ok PhmapLaws0 H0.
  intros Hev. apply (event_run_keeps bk_op_ok (fun _ => up o)); [|done|].
  - intros _ op b0 r b1 Hop (Eo & ctx & Hlv) E. destruct (bk_step_live iter iter_ok op b0 ctx r b1 Hlv Hop E) as (ctx' & Hlv' & _).
    split; [|by exists ctx']. rewrite <- Eo. apply (bk_step_refines iter iter_ok op b0 r b1); [by exists ctx; apply Hlv|done|done].
  - eapply Forall_impl; [exact Hev|]. apply event_op_ok.
Qed.

(** Calls keep the files up to date. *)
Lemma calls_logged o os (m : NamespaceManager (MemoryBackend + IndexBackend)) rs m' ns b :
  Forall call_ok os -> ns_run os m = Ret (rs, m') -> backends_ m !! ns = Some (inr b) -> up_logged o (length os) b ->
  exists b', backends_ m' !! ns = Some (inr b') /\ up_logged o 0 b'.
Proof using iter_ok PhmapLaws0 H0.
  intros Hos E Hb Hup. rewrite <- event_run_calls in E. pose proof enc_pos as Hpos.
  apply (event_run_keeps (fun op => bk_op_ok op /\ op <> BStats) (up_logged o)) with (ns := ns) (b := b) in E; try done.
  - intros n op b0 r b1 [Hop Hne] (Eo & ctx & Hlv & Hd & Hsy & Hsz) E0.
    destruct (bk_step_live iter iter_ok op b0 ctx r b1 Hlv Hop E0) as (ctx' & Hlv' & Hk). destruct (Hk Hne) as [Hsy' Hd'].
    split; [rewrite <- Eo; apply (bk_step_refines iter iter_ok op b0 r b1); [by exists ctx; apply Hlv|done|done]|].
    destruct (Hd' Hd) as [Hd1 Hsz1]; [cbn; nia|]. cbn [e_ix e_fs env_of] in Hsz1.
    exists ctx'. split; [done|]. split; [done|]. split; [by apply Hsy'|nia].
  - intros n b0 (Eo & ctx & ? & ? & ? & ?). split; [done|]. exists ctx. do 3 (split; [done|]). nia.
  - apply Forall_fmap. eapply Forall_impl; [exact Hos|]. intros [ns' []]; done.
  - by rewrite length_fmap.
Qed.

(** What [Close] of the manager leaves on the disks. *)
Definition left_on disk (m : NamespaceManager (MemoryBackend + IndexBackend)) : Prop :=
  forall ns b, (ns_Close m).1 !! ns = Some (inr b) -> disk (root_dir (options_ b)) = (b_dirs b, b_fs b, b_w b).

Lemma shut_down disk' flags opts ns m' l' b :
  bopts_ok (ns_options flags opts ns) ->
  backends_ m' !! ns = Some (inr b) -> up (ns_options flags opts ns) b ->
  covered m' l' -> left_on disk' m' -> disk_ok disk' flags opts ns l' enc.
Proof using iter_ok key_order_ok PhmapLaws0 H0.
  intros Ho Hb (Eo & ctx & Hlv) Hc Hdisk. pose proof (Close_closed iter iter_ok b ctx Hlv) as Hcl.
  assert (options_ (IndexBackend_Close iter b) = ns_options flags opts ns) as Eo3.
  { unfold IndexBackend_Close. rewrite (xo_ctx _ _ (lv_ctx _ _ Hlv)). repeat case_match. cbn. congruence. }
  specialize (Hdisk ns (IndexBackend_Close iter b)). rewrite Eo3 in Hdisk.
  destruct (Hc ns _ Hb) as [_ Hv]. split; [done|]. rewrite Hdisk; [cbn [fst snd]|cbn [ns_Close fst]; rewrite lookup_fmap, Hb; done].
  exists (view b). split.
  - destruct Hcl as [mp Hcl]. pose proof (cl_ctx _ _ _ _ Hcl) as Hn. exists mp. rewrite <- Eo3, <- Hn.
    by destruct (IndexBackend_Close iter b).
  - intros key k x Hk Ek Hx. apply Hv; [done|]. change (index_view b key = Some x). unfold index_view. by rewrite Ek.
Qed.

(** What is on the disks when the process is killed. *)
Definition killed_on disk (m : NamespaceManager (MemoryBackend + IndexBackend)) : Prop :=
  forall ns b, backends_ m !! ns = Some (inr b) -> disk (root_dir (options_ b)) = (b_dirs b, b_fs b, b_w b).

Lemma killed disk' flags opts ns m' l' b :
  bopts_ok (ns_options flags opts ns) ->
  backends_ m' !! ns = Some (inr b) -> up_logged (ns_options flags opts ns) 0 b ->
  covered m' l' -> killed_on disk' m' -> disk_ok disk' flags opts ns l' (2 ^ 63 - 1).
Proof using iter_ok key_order_ok PhmapLaws0 H0.
  intros Ho Hb (Eo & ctx & Hlv & Hd & Hsy & Hsz) Hc Hdisk. destruct (Hc ns _ Hb) as [_ Hv]. split; [done|].
  specialize (Hdisk ns b Hb). rewrite Eo in Hdisk. rewrite Hdisk. cbn [fst snd]. exists (view b). split.
  - rewrite <- Eo. apply (closed_mono _ _ (log_size (c_ix ctx) + enc)); [lia|]. by apply (crash_closed b ctx).
  - intros key k x Hk Ek Hx. apply Hv; [done|]. change (index_view b key = Some x). unfold index_view. by rewrite Ek.
Qed.

(** C1: the server with the index backend, over two sessions.  Started with
    namespaces that have different directories (different after [SanitizeNs]),
    on disks left by backends that were closed (or on empty ones), the program
    comes up; it serves batches, and between them the statistics threads of the
    namespaces run rounds of compaction, any number of them in any order.  Every
    hit of a read is the last write to that key of that namespace that was
    answered [OK] and not deleted since, or what was stored on disk.  After
    [Close] the program comes up again on what is left on the disks, and the
    same holds with what the client of the first session knows.  It also comes
    up, and the same holds, when the process is killed instead, provided no
    round of compaction ran in the first session and its log has room for two
    records for every call.  System calls do not fail here; they may be
    interrupted, or transfer less than asked.  The only work without a result is
    a [Put], among the calls of the batches, or a round, when a segment that
    could be appended to has no free slot left (or segments have no slots). *)
Theorem index_server_never_stale disk disk' (flags : Flags) (clock clock' : nat -> Z) (opts nss : string) (mbs mvb : Z)
    (l : ledger) (L : Z) (ws ws' : list work) :
  let so := mkServiceOptions (u32 mbs) mvb in
  ParseNamespaces nss <> [] -> NoDup (SanitizeNs <$> ParseNamespaces nss) ->
  (forall ns, ns ∈ ParseNamespaces nss -> disk_ok disk flags opts ns l L) -> L < 2 ^ 63 ->
  Forall request_ok (batches ws) -> Forall request_ok (batches ws') ->
  exists m, main_setup "kvcache_index128" opts nss mbs mvb (registry disk flags clock) = Ret (Some (m, so)) /\
    match serve_work so ws m with
    | UB => events_stuck (flat_map (work_events so) ws) m
    | Ret (acc, m1) => answers_ok so l (batches ws) acc /\
        (left_on disk' m1 \/
           killed_on disk' m1 /\ (forall ns, Stats ns ∉ ws) /\
           L + (2 * Z.of_nat (length (flat_map (calls so) (batches ws))) + 1) * enc < 2 ^ 63 ->
         exists m2, main_setup "kvcache_index128" opts nss mbs mvb (registry disk' flags clock') = Ret (Some (m2, so)) /\
           match serve_work so ws' m2 with
           | UB => events_stuck (flat_map (work_events so) ws') m2
           | Ret (acc', _) => answers_ok so (ledger_run (batches ws) acc l) (batches ws') acc'
           end)
    end.
Proof using iter_ok key_order_ok PhmapLaws0 H0.
  intros so Hne Hnd%NoDup_fmap_1 Hdisk HL Hq Hq'.
  destruct (index_starts disk flags clock opts nss mbs mvb l L Hne Hnd HL Hdisk) as (m & so1 & E & -> & Hc & Hup).
  exists m. split; [exact E|]. fold so. pose proof (serve_work_covered so ws m l Hc Hq) as Hs.
  pose proof (serve_work_events so ws m) as Hev.
  destruct (serve_work so ws m) as [[acc m1]|] eqn:Es; [|exact Hs].
  destruct Hs as [Ha Hc1]. split; [done|]. intros Hleft. destruct Hev as [rs Er].
  assert (exists L', L' < 2 ^ 63 /\ forall ns, ns ∈ ParseNamespaces nss -> disk_ok disk' flags opts ns (ledger_run (batches ws) acc l) L')
    as (L' & HL' & Hdisk').
  { destruct Hleft as [Hleft|(Hleft & Hno & Hroom)].
    - exists enc. split; [vm_compute; reflexivity|]. intros ns Hns. destruct (Hup ns Hns) as (b & Hb & Hb1 & _).
      destruct (event_run_up (ns_options flags opts ns) _ m rs m1 ns b (work_events_ok so ws Hq) Er Hb Hb1) as (b1 & Hb1' & Hup1).
      apply (shut_down disk' flags opts ns m1 _ b1); try done. apply (Hdisk ns Hns).
    - exists (2 ^ 63 - 1). split; [lia|]. intros ns Hns. destruct (Hup ns Hns) as (b & Hb & _ & Hb1).
      rewrite work_calls, event_run_calls in Er by done.
      destruct (calls_logged _ _ m rs m1 ns b (all_calls_ok so _ Hq) Er Hb (Hb1 _ Hroom)) as (b1 & Hb1' & Hup1).
      apply (killed disk' flags opts ns m1 _ b1); try done. apply (Hdisk ns Hns). }
  destruct (index_starts disk' flags clock' opts nss mbs mvb (ledger_run (batches ws) acc l) L' Hne Hnd HL' Hdisk') as (m2 & so2 & E2 & -> & Hc2 & _).
  exists m2. split; [exact E2|]. fold so. pose proof (serve_work_covered so ws' m2 _ Hc2 Hq') as Hs2.
  by destruct (serve_work so ws' m2) as [[acc2 m3]|]; [apply Hs2|].
Qed.

(** C2: the program under concurrent load, over two sessions.  Started on disks
    as above, with the calls of any number of batches in any order and rounds of
    compaction of any namespace between them: every read that hits returns what
    was last written under the key in the namespace, or was stored on disk.
    After [Close] the program comes up again on what is left on the disks, and
    the same holds with what was written in the first session.  The only events
    without a result are a [Put] or a round when a segment that could be
    appended to has no free slot left (or segments have no slots). *)
Theorem index_server_concurrent disk disk' (flags : Flags) (clock clock' : nat -> Z) (opts nss : string) (mbs mvb : Z)
    (l : ledger) (L : Z) (evs evs' : list event) :
  ParseNamespaces nss <> [] -> NoDup (SanitizeNs <$> ParseNamespaces nss) ->
  (forall ns, ns ∈ ParseNamespaces nss -> disk_ok disk flags opts ns l L) -> L < 2 ^ 63 -> Forall event_ok evs -> Forall event_ok evs' ->
  exists m so, main_setup "kvcache_index128" opts nss mbs mvb (registry disk flags clock) = Ret (Some (m, so)) /\
    match event_run evs m with
    | UB => events_stuck evs m
    | Ret (rs, m1) => explained l evs rs /\
        (left_on disk' m1 ->
         exists m2, main_setup "kvcache_index128" opts nss mbs mvb (registry disk' flags clock') = Ret (Some (m2, so)) /\
           match event_run evs' m2 with
           | UB => events_stuck evs' m2
           | Ret (rs', _) => explained (ledger_events l evs rs) evs' rs'
           end)
    end.
Proof using iter_ok key_order_ok PhmapLaws0 H0.
  intros Hne Hnd%NoDup_fmap_1 Hdisk HL Hev Hev'.
  destruct (index_starts disk flags clock opts nss mbs mvb l L Hne Hnd HL Hdisk) as (m & so & E & -> & Hc & Hup).
  eexists m, _. split; [exact E|]. pose proof (event_run_explained evs m l Hc Hev) as Hr.
  destruct (event_run evs m) as [[rs m1]|] eqn:Er; [|exact Hr]. destruct Hr as [Hx Hc1]. split; [done|]. intros Hleft.
  assert (forall ns, ns ∈ ParseNamespaces nss -> disk_ok disk' flags opts ns (ledger_events l evs rs) enc) as Hdisk'.
  { intros ns Hns. destruct (Hup ns Hns) as (b & Hb & Hb1 & _).
    destruct (event_run_up _ evs m rs m1 ns b Hev Er Hb Hb1) as (b1 & Hb1' & Hup1).
    apply (shut_down disk' flags opts ns m1 _ b1); try done. apply (Hdisk ns Hns). }
  assert (enc < 2 ^ 63) as Henc by (vm_compute; reflexivity).
  destruct (index_starts disk' flags clock' opts nss mbs mvb (ledger_events l evs rs) enc Hne Hnd Henc Hdisk') as (m2 & so2 & E2 & -> & Hc2 & _).
  exists m2. split; [exact E2|]. pose proof (event_run_explained evs' m2 _ Hc2 Hev') as Hr2.
  by destruct (event_run evs' m2) as [[rs' m3]|]; [apply Hr2|].
Qed.

End server.
