(* ===== verification/ServerExamples.v ===== *)
(** * Concrete servers

    The backends, the namespaces and the whole program on concrete inputs, with
    every parameter instantiated. *)

From Stdlib Require Import SpecFloat.
From S2P Require Import Prelude Common Sys Key Wal SegmentBase SegmentManager ManagerState ManagerTheorems.
From S2P Require Import Index IndexData IndexRecovery IndexExamples Lfuda LfudaTheorems.
From S2P Require Import Backend IndexBackend IndexBackendTheorems BackendDisk BackendRestart MemoryBackend.
From S2P Require Import Namespaces Service ServiceTheorems Background Config ConfigTheorems Server.

Definition plain_order (m : @gmap Key128 key_eq_dec key_countable Z) : list Key128 := (map_to_list m).*1.
Definition no_clock : nat -> Z := fun _ => 0.
Definition demo_key : list Z := [1; 2; 3; 4; 5; 6; 7; 8; 9; 10; 11; 12; 13; 14; 15; 16].
Definition demo_key2 : list Z := [2; 2; 3; 4; 5; 6; 7; 8; 9; 10; 11; 12; 13; 14; 15; 16].

Ltac by_computation := apply (bool_decide_unpack _); vm_compute; exact I.

(** ** The index backend *)

Lemma demo_bopts_ok : bopts_ok demo_bopts.
Proof.
  split; [discriminate|vm_compute; auto|vm_compute; split; [reflexivity|discriminate]|by_computation|..];
    [vm_compute; discriminate|vm_compute; discriminate|]. intros _. vm_compute. by eexists.
Qed.

Definition fresh_backend : IndexBackend := mkIndexBackend demo_bopts None ∅ (mkFS ∅ []) (mkFS ∅ []).

(** A write, a write of the same key that must not overwrite it, a read, a read
    of another key. *)
Definition demo_ops : list bk_op :=
  [BPut demo_key [1; 2; 3] [9] (mkWriteOptions true false 0) no_clock;
   BPut demo_key [4] [] (mkWriteOptions false false 0) no_clock;
   BGet demo_key (mkReadOptions true false) no_clock;
   BGet demo_key2 (mkReadOptions true false) no_clock].

Lemma demo_ops_ok : Forall bk_op_ok demo_ops.
Proof. repeat constructor; vm_compute; repeat split; discriminate. Qed.

(** The backend of the fresh directory. *)
Definition demo_backend : IndexBackend :=
  match CreateContext plain_iter plain_order no_clock fresh_backend with Ret (_, b) => b | UB => fresh_backend end.

Lemma demo_backend_ok : bk_ok demo_backend.
Proof.
  destruct (CreateContext_opens plain_iter plain_iter_ok plain_order (fun m => reflexivity _) no_clock fresh_backend ∅ 0
    demo_bopts_ok (closed_fresh _ _ demo_bopts_ok) eq_refl) as (b & ctx & E & Hlv & _).
  unfold demo_backend. rewrite E. exists ctx. apply Hlv.
Qed.

Definition codes_of (r : Outcome (list bk_result * IndexBackend)) : option (list BackendCode) :=
  match r with
  | Ret (rs, _) => Some ((fun r => match r with BWrite r => wr_code r | BRead r => rr_code r | BDone => BkOk end) <$> rs)
  | UB => None
  end.

Lemma IndexBackend_refines_cache_witness :
  codes_of (bk_run plain_iter demo_ops demo_backend) = Some [BkOk; BkAlreadyExists; BkOk; BkNotFound] /\
  match bk_run plain_iter demo_ops demo_backend with
  | Ret (rs, b') => bk_ok b' /\ cache_run (options_ demo_backend) demo_ops rs (view demo_backend) (view b')
  | UB => stuck plain_iter demo_ops demo_backend
  end.
Proof.
  split; [vm_compute; reflexivity|].
  pose proof (IndexBackend_refines_cache plain_iter plain_iter_ok demo_ops demo_backend demo_backend_ok demo_ops_ok) as H.
  exact H.
Defined.

Lemma IndexBackend_restart_witness :
  exists b1, CreateContext plain_iter plain_order no_clock fresh_backend = Ret (BkOk, b1) /\ view b1 = ∅ /\
    match bk_run plain_iter demo_ops b1 with
    | Ret (rs, b2) => closed (IndexBackend_Close plain_iter b2) (view b2) enc /\
        exists b3, CreateContext plain_iter plain_order no_clock (IndexBackend_Close plain_iter b2) = Ret (BkOk, b3) /\
          view b3 = view b2
    | UB => stuck plain_iter demo_ops b1
    end.
Proof.
  pose proof (IndexBackend_restart plain_iter plain_iter_ok plain_order (fun m => reflexivity _) demo_ops fresh_backend ∅ 0
    no_clock no_clock demo_bopts_ok (closed_fresh _ _ demo_bopts_ok) eq_refl demo_ops_ok) as H.
  exact H.
Defined.

Lemma IndexBackend_crash_restart_witness :
  exists b1, CreateContext plain_iter plain_order no_clock fresh_backend = Ret (BkOk, b1) /\ view b1 = ∅ /\
    match bk_run plain_iter demo_ops b1 with
    | Ret (rs, b2) => closed (crash b2) (view b2) (0 + (2 * Z.of_nat (length demo_ops) + 1) * enc) /\
        exists b3, CreateContext plain_iter plain_order no_clock (crash b2) = Ret (BkOk, b3) /\ view b3 = view b2
    | UB => stuck plain_iter demo_ops b1
    end.
Proof.
  assert (BStats ∉ demo_ops) as Hnc by (unfold demo_ops; rewrite !not_elem_of_cons; repeat split; try discriminate; apply not_elem_of_nil).
  pose proof (IndexBackend_crash_restart plain_iter plain_iter_ok plain_order (fun m => reflexivity _) demo_ops fresh_backend ∅ 0
    no_clock no_clock demo_bopts_ok (closed_fresh _ _ demo_bopts_ok) demo_ops_ok Hnc eq_refl) as H.
  exact H.
Defined.

(** The value is read again by the backend that comes up after [Close]. *)
Example restart_reads_back :
  match bk_run plain_iter demo_ops demo_backend with
  | Ret (_, b2) =>
      match CreateContext plain_iter plain_order no_clock (IndexBackend_Close plain_iter b2) with
      | Ret (BkOk, b3) =>
          match IndexBackend_Get demo_key (mkReadOptions true false) no_clock b3 with
          | Ret (r, _) => (rr_code r, rr_value r, rr_metadata r) = (BkOk, [1; 2; 3], [9])
          | UB => False
          end
      | _ => False
      end
  | UB => False
  end.
Proof. vm_compute. reflexivity. Qed.

(** ** Namespaces and batches *)

Definition two_namespaces : NamespaceManager MemoryBackend :=
  mkNamespaceManager (<["a" := MemoryBackend_new (mkMOptions 0 0)]> (<["b" := MemoryBackend_new (mkMOptions 2 0)]> ∅)).

Definition demo_item (key value metadata : list Z) : KVItem := mkKVItem key value 0 metadata.

(** A batch of writes, a read of both keys, a delete, the read again. *)
Definition demo_requests (ns : string) : list request :=
  [RWrite (mkBatchWriteRequest "r" ns [demo_item demo_key [1; 2; 3] [9]; demo_item demo_key2 [4] []; demo_item [] [5] []] true false)
     (fun _ _ => 0);
   RRead (mkBatchReadRequest "r" ns [demo_key; demo_key2] true false) (fun _ _ => 0);
   RDelete (mkBatchDeleteRequest "r" ns [demo_key]);
   RRead (mkBatchReadRequest "r" ns [demo_key; demo_key2] true false) (fun _ _ => 0)].

Lemma demo_requests_ok ns : Forall request_ok (demo_requests ns).
Proof. repeat constructor; vm_compute; repeat split; discriminate. Qed.

(** What a client sees of the responses. *)
Definition seen (a : response) : list (StatusCode * list Z * list Z) :=
  match a with
  | AWrite a => (fun r => (bw_code r, [], [])) <$> bwr_results a
  | ARead a => (fun r => (br_code r, br_value r, br_metadata r)) <$> brr_results a
  | ADelete a => (fun r => (bd_code r, [], [])) <$> bdr_results a
  end.
Definition all_seen {M} (r : Outcome (list response * M)) : option (list (list (StatusCode * list Z * list Z))) :=
  match r with Ret (acc, _) => Some (seen <$> acc) | UB => None end.

Definition demo_seen : list (list (StatusCode * list Z * list Z)) :=
  [[(OK, [], []); (OK, [], []); (INVALID_ARGUMENT, [], [])]; [(OK, [1; 2; 3], [9]); (OK, [4], [])]; [(OK, [], [])];
   [(NOT_FOUND, [], []); (OK, [4], [])]].

Lemma service_never_stale_witness :
  all_seen (serve_all (mkServiceOptions 100 0) (demo_requests "a") two_namespaces) = Some demo_seen /\
  match serve_all (mkServiceOptions 100 0) (demo_requests "a") two_namespaces with
  | UB => unready (flat_map (calls (mkServiceOptions 100 0)) (demo_requests "a")) two_namespaces
  | Ret (acc, m') => answers_ok (mkServiceOptions 100 0) ∅ (demo_requests "a") acc
  end.
Proof.
  split; [vm_compute; reflexivity|].
  assert (covered two_namespaces ∅) as Hc.
  { intros ns s Hs. unfold two_namespaces in Hs. cbn [backends_] in Hs.
    apply lookup_insert_Some in Hs as [[<- <-]|[_ Hs]]; [by split|].
    apply lookup_insert_Some in Hs as [[<- <-]|[_ Hs]]; [by split|].
    by rewrite lookup_empty in Hs. }
  pose proof (service_never_stale (mkServiceOptions 100 0) (demo_requests "a") two_namespaces ∅ Hc (demo_requests_ok "a")) as H.
  exact H.
Defined.

(** ** The program *)

#[local] Hint Extern 0 (KVCacheStorageBackend IndexBackend) => exact (index_backend plain_iter) : typeclass_instances.
#[local] Hint Extern 0 (BackendLaws IndexBackend) => exact (index_laws plain_iter plain_iter_ok) : typeclass_instances.
#[local] Hint Extern 0 (Background MemoryBackend) => exact memory_background : typeclass_instances.
#[local] Hint Extern 0 (Background IndexBackend) => exact (index_background plain_iter) : typeclass_instances.
#[local] Hint Extern 0 (BackgroundLaws MemoryBackend) => exact memory_background_laws : typeclass_instances.
#[local] Hint Extern 0 (BackgroundLaws IndexBackend) => exact (index_background_laws plain_iter plain_iter_ok) : typeclass_instances.

(** Nothing on any disk. *)
Definition empty_disk (dir : string) : gset string * FS * FS := (∅, mkFS ∅ [], mkFS ∅ []).

(** The defaults of the flags: 0.9 is [8106479329266893 / 2^53]. *)
Definition default_flags : Flags :=
  mkFlags "./segment_workspace" (64 * 1024 * 1024) 512 3 (2 ^ 29) (S754_finite false 8106479329266893 (-53)) 60.

(** Smaller segments. *)
Definition small_flags : Flags :=
  mkFlags "ws" 65536 24 2 0 (S754_finite false 8106479329266893 (-53)) 60.

Definition demo_registry (flags : Flags) := registry plain_iter plain_order empty_disk flags no_clock.

(** The program from its flags to the responses. *)
Definition program (backend opts nss : string) (flags : Flags) (ns : string) :=
  match main_setup backend opts nss 1024 0 (demo_registry flags) with
  | Ret (Some (m, so)) => all_seen (serve_all so (demo_requests ns) m)
  | _ => None
  end.

Example memory_program : program "kvcache_memory" EmptyString "default,b" default_flags "b" = Some demo_seen.
Proof. vm_compute. reflexivity. Qed.

Example index_program : program "kvcache_index128" EmptyString "default,b" small_flags "b" = Some demo_seen.
Proof. vm_compute. reflexivity. Qed.

(** A server that starts and gets the requests [qs]. *)
Definition demo_server (qs : list request) : BrpcServer := mkBrpcServer 0 (fun _ _ => 0) qs.

Lemma memory_server_never_stale_witness :
  exists code out, main default_main_flags (demo_registry default_flags) (demo_server (demo_requests "default")) = Ret (code, out) /\
    code = 0 /\
    match out with
    | None => False
    | Some (acc, closed) => dom closed = {["default"]} /\
        answers_ok (mkServiceOptions 1024 0) ∅ (demo_requests "default") acc
    end.
Proof.
  destruct (memory_server_never_stale plain_iter plain_order empty_disk default_flags no_clock default_main_flags
    (demo_server (demo_requests "default")) eq_refl (demo_requests_ok "default")) as (code & out & E & Hc & Ho).
  exists code, out. split; [exact E|]. clear E. assert (code = 0) as ->.
  { apply Hc. split; [discriminate|]. split; [apply NoDup_singleton|split; reflexivity]. }
  split; [reflexivity|]. destruct out as [[acc closed]|]; [|discriminate Ho]. destruct Ho as (_ & Hd & Ha). split; [|exact Ha].
  rewrite Hd. vm_compute. reflexivity.
Defined.

(** The values of [main] when something is wrong. *)
Definition exit_code (fl : MainFlags) (server : BrpcServer) : option Z :=
  match main fl (demo_registry small_flags) server with Ret (code, _) => Some code | UB => None end.

Example main_exits :
  exit_code (mkMainFlags 9200 60 1024 0 "kvcache_index128" EmptyString "a,b") (demo_server (demo_requests "a")) = Some 0 /\
  exit_code (mkMainFlags 9200 60 1024 0 "kvcache_index" EmptyString "a,b") (demo_server []) = Some (-1) /\
  exit_code (mkMainFlags 9200 60 1024 0 "kvcache_index128" EmptyString "a,b,a") (demo_server []) = Some (-1) /\
  exit_code (mkMainFlags 9200 60 1024 0 "kvcache_index128" EmptyString " , ") (demo_server []) = Some (-1) /\
  exit_code default_main_flags (mkBrpcServer (-1) (fun _ _ => 0) []) = Some (-1) /\
  exit_code default_main_flags (mkBrpcServer 0 (fun port _ => if port =? 9200 then -1 else 0) []) = Some (-1).
Proof. vm_compute. repeat split; reflexivity. Qed.

Lemma small_disk_ok opts ns l : disk_ok empty_disk small_flags opts ns l 0.
Proof.
  assert (bopts_ok (ns_options small_flags opts ns)) as Ho.
  { split; [done|vm_compute; auto|vm_compute; split; [reflexivity|discriminate]|by_computation|..];
      [vm_compute; discriminate|vm_compute; discriminate|]. intros _. vm_compute. by eexists. }
  split; [done|]. exists ∅. split; [by apply closed_fresh|].
  intros key k x _ _ Hx. by rewrite lookup_empty in Hx.
Qed.

(** The disks when the manager was closed, and when the process was killed. *)
Definition backend_root (x : string * (MemoryBackend + IndexBackend)) : option string :=
  match x.2 with inr b => Some (root_dir (options_ b)) | inl _ => None end.
Definition disk_of (dir : string) (x : string * (MemoryBackend + IndexBackend)) (d : gset string * FS * FS) :=
  match x.2 with
  | inr b => if decide (root_dir (options_ b) = dir) then (b_dirs b, b_fs b, b_w b) else d
  | inl _ => d
  end.
Definition disk_after (m : NamespaceManager (MemoryBackend + IndexBackend)) (dir : string) : gset string * FS * FS :=
  foldr (disk_of dir) (empty_disk dir) (map_to_list (ns_Close m).1).
Definition disk_killed (m : NamespaceManager (MemoryBackend + IndexBackend)) (dir : string) : gset string * FS * FS :=
  foldr (disk_of dir) (empty_disk dir) (map_to_list (backends_ m)).

Lemma disk_of_spec ns b xs d :
  (ns, inr b) ∈ xs -> NoDup (omap backend_root xs) -> foldr (disk_of (root_dir (options_ b))) d xs = (b_dirs b, b_fs b, b_w b).
Proof.
  induction xs as [|[ns' s] xs IH]; intros Hin Hnd; [by apply not_elem_of_nil in Hin|]. cbn [foldr].
  apply elem_of_cons in Hin as [[= <- <-]|Hin].
  - unfold disk_of at 1. cbn [snd]. by rewrite decide_True.
  - destruct s as [s|b']; [by apply IH|]. cbn in Hnd. apply NoDup_cons in Hnd as [Hni Hnd].
    unfold disk_of at 1. cbn [snd]. rewrite decide_False; [by apply IH|]. intros E. apply Hni, list_elem_of_omap.
    exists (ns, inr b). split; [done|]. cbn. by rewrite E.
Qed.

Lemma disk_after_left_on m :
  NoDup (omap backend_root (map_to_list (ns_Close m).1)) -> left_on plain_iter (disk_after m) m.
Proof. intros Hnd ns b Hb. apply (disk_of_spec ns); [by apply elem_of_map_to_list|done]. Qed.

Lemma disk_killed_on m : NoDup (omap backend_root (map_to_list (backends_ m))) -> killed_on (disk_killed m) m.
Proof. intros Hnd ns b Hb. apply (disk_of_spec ns); [by apply elem_of_map_to_list|done]. Qed.

(** Two sessions of the program: what the second one reads was written by the
    first one, in each of two namespaces.  In the first session the statistics
    threads run between the batches, or they do not. *)
Definition reads (ns : string) : list work :=
  [Batch (RRead (mkBatchReadRequest "r" ns [demo_key; demo_key2] true false) (fun _ _ => 0)); Stats ns].

Definition quiet_work : list work := Batch <$> demo_requests "b".
Definition busy_work : list work :=
  flat_map (fun q => [Stats "default"; Batch q; Stats "b"; Stats "b"]) (demo_requests "b").

Definition first_session (ws : list work) : NamespaceManager (MemoryBackend + IndexBackend) :=
  match main_setup "kvcache_index128" EmptyString "default,b" 1024 0 (demo_registry small_flags) with
  | Ret (Some (m, so)) => match serve_work so ws m with Ret (_, m1) => m1 | UB => NamespaceManager_new end
  | _ => NamespaceManager_new
  end.

Definition second_session (disk : string -> gset string * FS * FS) :=
  match main_setup "kvcache_index128" EmptyString "default,b" 1024 0
          (registry plain_iter plain_order disk small_flags no_clock) with
  | Ret (Some (m2, so)) => all_seen (serve_work so (reads "b" ++ reads "default") m2)
  | _ => None
  end.

Example two_sessions :
  let seen := Some [[(NOT_FOUND, [], []); (OK, [4], [])]; [(NOT_FOUND, [], []); (NOT_FOUND, [], [])]] in
  second_session (disk_after (first_session busy_work)) = seen /\
  second_session (disk_after (first_session quiet_work)) = seen /\
  second_session (disk_killed (first_session quiet_work)) = seen.
Proof. split; [|split]; vm_compute; reflexivity. Qed.

(** The quiet session may also be killed. *)
Example quiet_session_killed :
  killed_on (disk_killed (first_session quiet_work)) (first_session quiet_work) /\ forall ns, Stats ns ∉ quiet_work.
Proof.
  split; [apply disk_killed_on; by_computation|]. intros ns Hin. unfold quiet_work in Hin.
  apply list_elem_of_fmap in Hin as (q & E & _). discriminate E.
Qed.

Lemma index_server_never_stale_witness :
  left_on plain_iter (disk_after (first_session busy_work)) (first_session busy_work) /\
  let so := mkServiceOptions (u32 1024) 0 in
  exists m, main_setup "kvcache_index128" EmptyString "default,b" 1024 0
      (registry plain_iter plain_order empty_disk small_flags no_clock) = Ret (Some (m, so)) /\
    match serve_work so busy_work m with
    | UB => events_stuck (flat_map (work_events so) busy_work) m
    | Ret (acc, m1) => answers_ok so ∅ (batches busy_work) acc /\
        (left_on plain_iter (disk_after (first_session busy_work)) m1 \/
           killed_on (disk_after (first_session busy_work)) m1 /\ (forall ns, Stats ns ∉ busy_work) /\
           0 + (2 * Z.of_nat (length (flat_map (calls so) (batches busy_work))) + 1) * enc < 2 ^ 63 ->
         exists m2, main_setup "kvcache_index128" EmptyString "default,b" 1024 0
             (registry plain_iter plain_order (disk_after (first_session busy_work)) small_flags no_clock) = Ret (Some (m2, so)) /\
           match serve_work so (reads "b") m2 with
           | UB => events_stuck (flat_map (work_events so) (reads "b")) m2
           | Ret (acc', _) => answers_ok so (ledger_run (batches busy_work) acc ∅) (batches (reads "b")) acc'
           end)
    end.
Proof.
  split; [apply disk_after_left_on; by_computation|].
  assert (ParseNamespaces "default,b" <> []) as Hne by (vm_compute; discriminate).
  assert (NoDup (SanitizeNs <$> ParseNamespaces "default,b")) as Hnd by by_computation.
  assert (Forall request_ok (batches (reads "b"))) as Hr by (repeat constructor; vm_compute; repeat split; discriminate).
  pose proof (index_server_never_stale plain_iter plain_iter_ok plain_order (fun m => reflexivity _) empty_disk
    (disk_after (first_session busy_work)) small_flags no_clock no_clock EmptyString "default,b" 1024 0 ∅ 0 busy_work (reads "b") Hne Hnd
    (fun ns _ => small_disk_ok EmptyString ns ∅) eq_refl (demo_requests_ok "b") Hr) as H.
  exact H.
Defined.

(** ** Concurrent batches and compaction *)

Definition put_call (ns : string) (key value : list Z) : event :=
  Call (ns, KPut key value [] (mkWriteOptions true false 0) no_clock).
Definition get_call (ns : string) (key : list Z) : event := Call (ns, KGet key (mkReadOptions true false) no_clock).

Definition demo_events : list event :=
  [put_call "default" demo_key [1]; put_call "b" demo_key [2]; Round "b"; get_call "default" demo_key; Round "default";
   put_call "default" demo_key [3]; get_call "b" demo_key; Round "default"; get_call "default" demo_key].

Example demo_events_run :
  match main_setup "kvcache_index128" EmptyString "default,b" 1024 0 (demo_registry small_flags) with
  | Ret (Some (m, _)) =>
      match event_run demo_events m with
      | Ret (rs, _) => omap (fun r => match r with KRead r => Some (rr_code r, rr_value r) | KWrite _ => None end) rs =
          [(BkOk, [1]); (BkOk, [2]); (BkOk, [3])]
      | UB => False
      end
  | _ => False
  end.
Proof. vm_compute. reflexivity. Qed.

(** The program stops after these events and starts again. *)
Definition busy_session : NamespaceManager (MemoryBackend + IndexBackend) :=
  match main_setup "kvcache_index128" EmptyString "default,b" 1024 0 (demo_registry small_flags) with
  | Ret (Some (m, _)) => match event_run demo_events m with Ret (_, m1) => m1 | UB => NamespaceManager_new end
  | _ => NamespaceManager_new
  end.
Definition next_events : list event := [get_call "b" demo_key; Round "b"; get_call "default" demo_key].

Example next_events_run :
  match main_setup "kvcache_index128" EmptyString "default,b" 1024 0
          (registry plain_iter plain_order (disk_after busy_session) small_flags no_clock) with
  | Ret (Some (m, _)) =>
      match event_run next_events m with
      | Ret (rs, _) => omap (fun r => match r with KRead r => Some (rr_code r, rr_value r) | KWrite _ => None end) rs =
          [(BkOk, [2]); (BkOk, [3])]
      | UB => False
      end
  | _ => False
  end.
Proof. vm_compute. reflexivity. Qed.

Lemma index_server_concurrent_witness :
  left_on plain_iter (disk_after busy_session) busy_session /\
  exists m so, main_setup "kvcache_index128" EmptyString "default,b" 1024 0
      (registry plain_iter plain_order empty_disk small_flags no_clock) = Ret (Some (m, so)) /\
    match event_run demo_events m with
    | UB => events_stuck demo_events m
    | Ret (rs, m1) => explained ∅ demo_events rs /\
        (left_on plain_iter (disk_after busy_session) m1 ->
         exists m2, main_setup "kvcache_index128" EmptyString "default,b" 1024 0
             (registry plain_iter plain_order (disk_after busy_session) small_flags no_clock) = Ret (Some (m2, so)) /\
           match event_run next_events m2 with
           | UB => events_stuck next_events m2
           | Ret (rs', _) => explained (ledger_events ∅ demo_events rs) next_events rs'
           end)
    end.
Proof.
  split; [apply disk_after_left_on; by_computation|].
  assert (ParseNamespaces "default,b" <> []) as Hne by (vm_compute; discriminate).
  assert (NoDup (SanitizeNs <$> ParseNamespaces "default,b")) as Hnd by by_computation.
  assert (Forall event_ok demo_events) as Hev by (repeat constructor; vm_compute; repeat split; discriminate).
  assert (Forall event_ok next_events) as Hev' by (repeat constructor; vm_compute; repeat split; discriminate).
  pose proof (index_server_concurrent plain_iter plain_iter_ok plain_order (fun m => reflexivity _) empty_disk
    (disk_after busy_session) small_flags no_clock no_clock
    EmptyString "default,b" 1024 0 ∅ 0 demo_events next_events Hne Hnd (fun ns _ => small_disk_ok EmptyString ns ∅) eq_refl Hev Hev') as H.
  exact H.
Defined.
