(* ===== verification/SharedDisk.v ===== *)
(** * Namespaces on one disk

    The backends of all namespaces of the program keep their files in one
    workspace.  Here the manager of [Namespaces] works on one disk: a call on a
    namespace finds the files as the calls on all other namespaces have left
    them.  Backends are opened, used (with the calls of the manager and rounds of
    compaction) and closed in any order. *)

From stdpp Require Import pretty.
From S2P Require Import Prelude Common Sys Key Wal SegmentBase SegmentOps SegmentFile SegmentManager Index IndexData IndexRecovery Lfuda.
From S2P Require Import LfudaTheorems ManagerState ManagerTheorems IndexExamples Backend IndexBackend IndexBackendTheorems BackendFiles BackendDisk BackendRestart BackendFrame.
From S2P Require Import Namespaces Service ServiceTheorems Background Config ConfigTheorems Server ServerExamples.

(** The directories, the files of the indexes and those of the segments. *)
Record Disk := mkDisk { d_dirs : gset string; d_fs : FS; d_w : FS }.

Definition mount (d : Disk) (b : IndexBackend) : IndexBackend := on_files (d_dirs d) (d_fs d) (d_w d) b.
Definition disk_of_backend (b : IndexBackend) : Disk := mkDisk (b_dirs b) (b_fs b) (b_w b).

(** The backends of the manager see the files of the disk. *)
Definition mounted (d : Disk) (m : NamespaceManager IndexBackend) : NamespaceManager IndexBackend :=
  mkNamespaceManager (mount d <$> backends_ m).

Inductive disk_event :=
  | Opens (ns : string) (clock : nat -> Z)
  | Uses (ev : event)
  | Closes (ns : string).

Definition event_ns (ev : event) : string := match ev with Call o => o.1 | Round ns => ns end.
Definition disk_event_ns (ev : disk_event) : string :=
  match ev with Opens ns _ => ns | Uses ev => event_ns ev | Closes ns => ns end.

Section disk.
Context `{!Phmap Key128} `{!Btree}.
Context (iter : nat -> gset Z -> list Z).
Context (key_order : @gmap Key128 key_eq_dec key_countable Z -> list Key128).

#[local] Instance disk_backend : KVCacheStorageBackend IndexBackend := IndexBackend_instance iter.
#[local] Instance disk_background : Background IndexBackend := StatsTick iter.

(** [Opens] is the constructor of a backend, [Closes] its [Close], [Uses] a call
    through the manager or a round of the statistics thread. *)
Definition disk_step (ev : disk_event) (m : NamespaceManager IndexBackend) (d : Disk)
    : Outcome (list kv_result * NamespaceManager IndexBackend * Disk) :=
  let m := mounted d m in
  '(rs, m) ← match ev with
             | Opens ns clock =>
                 match backends_ m !! ns with
                 | None => Ret ([], m)
                 | Some b => '(_, b) ← CreateContext iter key_order clock b; Ret ([], set_backend ns b m)
                 end
             | Uses ev => event_step ev m
             | Closes ns =>
                 match backends_ m !! ns with
                 | None => Ret ([], m)
                 | Some b => Ret ([], set_backend ns (IndexBackend_Close iter b) m)
                 end
             end;
  Ret (rs, m, match backends_ m !! disk_event_ns ev with Some b => disk_of_backend b | None => d end).

Fixpoint disk_run (evs : list disk_event) (m : NamespaceManager IndexBackend) (d : Disk)
    : Outcome (list (list kv_result) * NamespaceManager IndexBackend * Disk) :=
  match evs with
  | [] => Ret ([], m, d)
  | ev :: evs => '(rs, m, d) ← disk_step ev m d; '(rss, m, d) ← disk_run evs m d; Ret (rs :: rss, m, d)
  end.

End disk.

(** ** Independent caches *)

(** A namespace by itself: whether it is open, and what it stores. *)
Abbreviation caches := (gmap string (bool * @gmap Key128 key_eq_dec key_countable (list Z * list Z))).

Definition of_kv (r : kv_result) : bk_result := match r with KWrite r => BWrite r | KRead r => BRead r end.

(** An event is one of its own namespace, and the others do not see it. *)
Definition caches_step (opts : string -> BOptions) (ev : disk_event) (rs : list kv_result) (c c' : caches) : Prop :=
  match c !! disk_event_ns ev with
  | None => c' = c /\ Forall (fun r => kv_code r = BkInvalidArgument) rs
  | Some (up, v) => exists up' v', c' = <[disk_event_ns ev := (up', v')]> c /\
      match ev with
      | Opens _ _ => rs = [] /\ up' = true /\ v' = v
      | Closes _ => rs = [] /\ up' = false /\ v' = v
      | Uses (Round _) => rs = [] /\ up' = up /\ v' = v
      | Uses (Call (ns, k)) => up' = up /\ exists r, rs = [r] /\
          if up then cache_step (opts ns) (to_bk k) (of_kv r) v v'
          else v' = v /\ (kv_code r = BkUnavailable \/ kv_code r = BkInvalidArgument)
      end
  end.

Fixpoint caches_run (opts : string -> BOptions) (evs : list disk_event) (rss : list (list kv_result)) (c c' : caches) : Prop :=
  match evs, rss with
  | [], [] => c' = c
  | ev :: evs, rs :: rss => exists c1, caches_step opts ev rs c c1 /\ caches_run opts evs rss c1 c'
  | _, _ => False
  end.

(** ** The disk as independent caches *)

Section shared.
Context `{!Phmap Key128} `{!PhmapLaws Key128} `{!Btree, !BtreeLaws}.
Context (iter : nat -> gset Z -> list Z).
Hypothesis iter_ok : forall n X, iter n X ≡ₚ elements X.
Context (key_order : @gmap Key128 key_eq_dec key_countable Z -> list Key128).
Hypothesis key_order_ok : forall m, key_order m ≡ₚ (map_to_list m).*1.
Implicit Types (m : NamespaceManager IndexBackend) (d : Disk) (b : IndexBackend) (c : caches).

#[local] Instance shared_backend : KVCacheStorageBackend IndexBackend := disk_backend iter.
#[local] Instance shared_background : Background IndexBackend := disk_background iter.

Context (opts : string -> BOptions).

(** A backend that is open, or whose files are those of a closed one. *)
Definition stores (x : bool * @gmap Key128 key_eq_dec key_countable (list Z * list Z)) b : Prop :=
  if x.1 then (exists ctx, live b ctx) /\ view b = x.2 else closed b x.2 (2 ^ 63 - 1).

(** Each namespace has its options, and stores on the disk what its cache has. *)
Definition disk_stores m d c : Prop :=
  no_eio (fs_script (d_fs d)) /\ no_eio (fs_script (d_w d)) /\
  forall ns, match backends_ m !! ns, c !! ns with
             | None, None => True
             | Some b, Some x => options_ b = opts ns /\ bopts_ok (opts ns) /\ stores x (mount d b)
             | _, _ => False
             end.

Lemma stores_quiet x b : stores x b -> no_eio (fs_script (b_fs b)) /\ no_eio (fs_script (b_w b)).
Proof.
  unfold stores. destruct x.1.
  - intros [[ctx [_ He _ _ _]] _]. by destruct He.
  - intros [mp Hc]. by destruct Hc.
Qed.

Lemma stores_local x b d :
  stores x b -> same_on (options_ b) (b_fs b) (d_fs d) -> same_on (options_ b) (b_w b) (d_w d) ->
  no_eio (fs_script (d_fs d)) -> no_eio (fs_script (d_w d)) -> stores x (mount d b).
Proof.
  unfold stores. destruct x.1.
  - intros [[ctx Hl] Ev] ????. destruct (live_local b ctx (d_dirs d) (d_fs d) (d_w d)) as [Hl' Ev']; [done..|].
    split; [by exists ctx|]. unfold mount. congruence.
  - intros Hc ????. by apply closed_local.
Qed.

(** ** One namespace *)

Lemma backend_bk_step (k : kv_op) b :
  backend_step k b = match bk_step iter (to_bk k) b with
                     | Ret (BWrite r, b') => Ret (KWrite r, b')
                     | Ret (BRead r, b') => Ret (KRead r, b')
                     | _ => UB
                     end.
Proof.
  destruct k as [key v md wo clock|key ro clock|key]; cbn.
  - by destruct (IndexBackend_Put _ _ _ _ _ _ b) as [[? ?]|].
  - by destruct (IndexBackend_Get _ _ _ b) as [[? ?]|].
  - by destruct (IndexBackend_Delete _ b) as [[? ?]|].
Qed.

(** The result of a call is one of the kind of the call. *)
Lemma bk_step_kv (k : kv_op) b r b' :
  bk_step iter (to_bk k) b = Ret (r, b') -> exists r', r = of_kv r' /\ backend_step k b = Ret (r', b').
Proof.
  rewrite backend_bk_step. destruct k as [key v md wo clock|key ro clock|key]; cbn.
  - destruct (IndexBackend_Put _ _ _ _ _ _ b) as [[r0 ?]|]; [|done]. intros [= <- <-]. by exists (KWrite r0).
  - destruct (IndexBackend_Get _ _ _ b) as [[r0 ?]|]; [|done]. intros [= <- <-]. by exists (KRead r0).
  - destruct (IndexBackend_Delete _ b) as [[r0 ?]|]; [|done]. intros [= <- <-]. by exists (KWrite r0).
Qed.

(** A closed backend refuses the calls. *)
Lemma backend_step_closed (k : kv_op) b :
  context_ b = None ->
  exists r, backend_step k b = Ret (r, b) /\ (kv_code r = BkUnavailable \/ kv_code r = BkInvalidArgument).
Proof.
  intros Hc. destruct k as [key v md wo clock|key ro clock|key]; cbn;
    unfold IndexBackend_Put, IndexBackend_Get, IndexBackend_Delete; rewrite Hc; destruct (Key128_FromString key);
    eexists; (split; [done|]); auto.
Qed.

Lemma framed_refl b : framed b b.
Proof. done. Qed.

Lemma open_framed b clock x :
  bopts_ok (options_ b) -> stores x b ->
  exists code b', CreateContext iter key_order clock b = Ret (code, b') /\ options_ b' = options_ b /\ framed b b' /\ stores (true, x.2) b'.
Proof using iter_ok key_order_ok H0 PhmapLaws0.
  intros Ho. unfold stores. destruct x as [[] v]; cbn [fst snd].
  - intros [[ctx Hl] Ev]. unfold CreateContext. rewrite (xo_ctx _ _ (lv_ctx _ _ Hl)). exists BkOk, b.
    split; [done|]. split; [done|]. split; [done|]. split; [by exists ctx|done].
  - intros Hc. destruct (CreateContext_opens iter iter_ok key_order key_order_ok clock b v (2 ^ 63 - 1) Ho Hc)
      as (b' & ctx & E & Hl & Eo & Ev & _ & _ & _ & Of & Ow); [lia|].
    exists BkOk, b'. split; [done|]. split; [done|]. split; [done|]. split; [by exists ctx|done].
Qed.

Lemma close_framed b x :
  stores x b ->
  let b' := IndexBackend_Close iter b in options_ b' = options_ b /\ framed b b' /\ stores (false, x.2) b'.
Proof using iter_ok H0 PhmapLaws0.
  unfold stores. destruct x as [[] v]; cbn [fst snd].
  - intros [[ctx Hl] <-]. destruct (live_at_home b ctx Hl) as [Hc Hh]. split; [|split; [by eapply Close_framed|]].
    + unfold IndexBackend_Close. rewrite Hc. by repeat case_match.
    + apply (closed_mono _ _ enc); [vm_compute; discriminate|]. by apply (Close_closed iter iter_ok b ctx).
  - intros Hc. assert (IndexBackend_Close iter b = b) as ->; [|done].
    destruct Hc as [mp Hc]. unfold IndexBackend_Close. by rewrite (cl_ctx _ _ _ _ Hc).
Qed.

Lemma use_framed op b x :
  stores x b -> bk_op_ok op -> x.1 = true ->
  match bk_step iter op b with
  | UB => ~ step_ready op b
  | Ret (r, b') => options_ b' = options_ b /\ framed b b' /\ exists v', cache_step (options_ b) op r x.2 v' /\ stores (true, v') b'
  end.
Proof using iter_ok H0 PhmapLaws0.
  unfold stores. destruct x as [up v]; cbn [fst snd]. intros Hs Hop ->. destruct Hs as [[ctx Hl] <-].
  assert (bk_ok b) as Hb by (exists ctx; apply Hl). destruct (bk_step iter op b) as [[r b']|] eqn:E.
  - destruct (bk_step_refines iter iter_ok op b r b' Hb Hop E) as (_ & Eo & Hc). destruct (live_at_home b ctx Hl) as [Hctx Hh].
    split; [done|]. split; [by eapply bk_step_framed|]. exists (view b'). split; [done|]. split; [|done].
    destruct (bk_step_live iter iter_ok op b ctx r b' Hl Hop E) as (ctx' & Hl' & _). by exists ctx'.
  - intros Hr. destruct (bk_step_defined iter iter_ok op b Hb Hop Hr) as (? & ? & ?). congruence.
Qed.

(** ** All namespaces *)

(** No file belongs to two of the namespaces. *)
Definition apart (X : gset string) : Prop :=
  forall ns ns' q, ns ∈ X -> ns' ∈ X -> ns <> ns' -> own (opts ns) q -> ~ own (opts ns') q.

Lemma disk_stores_mounted m d c : disk_stores m d c -> disk_stores (mounted d m) d c.
Proof.
  intros (Hf & Hw & Hs). split; [done|]. split; [done|]. intros ns. specialize (Hs ns). cbn [backends_ mounted].
  rewrite lookup_fmap. by destruct (backends_ m !! ns).
Qed.

(** One backend changes its files: the others are on the disk what they were. *)
Lemma disk_stores_set m d c ns b b' x x' :
  disk_stores m d c -> apart (dom c) -> backends_ m !! ns = Some b -> c !! ns = Some x ->
  options_ b' = opts ns -> bopts_ok (opts ns) -> framed (mount d b) b' -> stores x' b' ->
  disk_stores (set_backend ns b' (mounted d m)) (disk_of_backend b') (<[ns := x']> c).
Proof.
  intros (Hf & Hw & Hs) Hap Hb Hx Eo Hbo [Of Ow] Hst. pose proof (stores_quiet x' b' Hst) as [Hf' Hw'].
  split; [done|]. split; [done|]. intros ns'. cbn [backends_ mounted set_backend]. destruct (decide (ns = ns')) as [<-|Hne].
  - rewrite !lookup_insert_eq. split; [done|]. split; [done|]. by destruct b'.
  - rewrite !lookup_insert_ne, lookup_fmap by done. pose proof (Hs ns) as Hns. rewrite Hb, Hx in Hns. destruct Hns as (Eob & _ & _).
    specialize (Hs ns'). destruct (backends_ m !! ns') as [b0|]; [|done]. cbn [fmap option_fmap option_map].
    destruct (c !! ns') as [x0|] eqn:Hx0; [|done]. destruct Hs as (Eo0 & Hb0 & Hst0). split; [done|]. split; [done|].
    assert (forall q, own (opts ns') q -> ~ own (opts ns) q) as Hq.
    { intros q Hq. apply (Hap ns' ns); [by apply elem_of_dom_2 in Hx0|by apply elem_of_dom_2 in Hx|done|done]. }
    apply (stores_local x0 (mount d b0) (disk_of_backend b')); [done| | |done|done]; cbn [options_ mount on_files]; rewrite Eo0;
      intros q Hown; [apply Of|apply Ow]; cbn [options_ mount on_files]; rewrite Eob; by apply Hq.
Qed.

Definition disk_event_ok (ev : disk_event) : Prop := match ev with Uses ev => event_ok ev | _ => True end.

(** The next event has no result: a [Put] or a round of a backend that is not
    ready for it. *)
Definition disk_event_stuck (ev : disk_event) m : Prop :=
  match ev with
  | Uses ev => exists b, backends_ m !! event_ns ev = Some b /\ ~ step_ready (event_op ev) b
  | _ => False
  end.

Lemma disk_use ev m d c b x :
  disk_stores m d c -> apart (dom c) -> event_ok ev -> backends_ m !! event_ns ev = Some b -> c !! event_ns ev = Some x ->
  match event_step ev (mounted d m) with
  | UB => disk_event_stuck (Uses ev) (mounted d m)
  | Ret (rs, m') => exists b' c', m' = set_backend (event_ns ev) b' (mounted d m) /\
      caches_step opts (Uses ev) rs c c' /\ disk_stores m' (disk_of_backend b') c' /\ dom c' = dom c
  end.
Proof using iter_ok H0 PhmapLaws0.
  intros Hd Hap Hev Hb Hx. pose proof Hd as (_ & _ & Hs). specialize (Hs (event_ns ev)). rewrite Hb, Hx in Hs.
  destruct Hs as (Eo & Hbo & Hst). destruct x as [up v].
  assert (backends_ (mounted d m) !! event_ns ev = Some (mount d b)) as Hb' by (cbn; by rewrite lookup_fmap, Hb).
  assert (forall b' x', options_ b' = options_ (mount d b) -> framed (mount d b) b' -> stores x' b' ->
    disk_stores (set_backend (event_ns ev) b' (mounted d m)) (disk_of_backend b') (<[event_ns ev := x']> c) /\
    dom (<[event_ns ev := x']> c) = dom c) as Hset.
  { intros b' x' Eo' Hfr Hst'. split; [by eapply disk_stores_set; [| | | |rewrite Eo'|..]|]. apply dom_insert_lookup_L. by eexists. }
  destruct up.
  - assert (bk_op_ok (event_op ev)) as Hop by (by apply event_op_ok).
    pose proof (use_framed (event_op ev) (mount d b) (true, v) Hst Hop eq_refl) as Hu.
    destruct ev as [[ns k]|ns]; cbn [event_step event_ns event_op fst snd] in *.
    + rewrite ns_step_spec, Hb'. destruct (bk_step iter (to_bk k) (mount d b)) as [[r b']|] eqn:E.
      * apply bk_step_kv in E as (r' & -> & E). rewrite E. cbn [mbind Outcome_bind].
        destruct Hu as (Eo' & Hfr & v' & Hc & Hst'). exists b', (<[ns := (true, v')]> c). split; [done|]. split; [|by apply Hset].
        unfold caches_step. cbn [disk_event_ns event_ns fst]. rewrite Hx. exists true, v'. split; [done|]. split; [done|].
        exists r'. split; [done|]. cbn in Hc. by rewrite Eo in Hc.
      * rewrite backend_bk_step, E. cbn [mbind Outcome_bind]. by exists (mount d b).
    + rewrite Hb'. change (background (mount d b)) with (StatsTick iter (mount d b)). cbn [bk_step] in Hu.
      destruct (StatsTick iter (mount d b)) as [b'|]; cbn [mbind Outcome_bind] in *; [|by exists (mount d b)].
      destruct Hu as (Eo' & Hfr & v' & Hc & Hst'). cbn in Hc. subst v'. exists b', (<[ns := (true, v)]> c).
      split; [done|]. split; [|by apply Hset]. unfold caches_step. cbn [disk_event_ns event_ns]. rewrite Hx. by exists true, v.
  - assert (context_ (mount d b) = None) as Hc by (destruct Hst as [mp Hst]; exact (cl_ctx _ _ _ _ Hst)).
    destruct (Hset (mount d b) (false, v) eq_refl (framed_refl _) Hst) as [Hd' Hdom].
    destruct ev as [[ns k]|ns]; cbn [event_step event_ns fst snd] in *.
    + rewrite ns_step_spec, Hb'. destruct (backend_step_closed k (mount d b) Hc) as (r & -> & Hr). cbn [mbind Outcome_bind].
      exists (mount d b), (<[ns := (false, v)]> c). split; [done|]. split; [|done]. unfold caches_step.
      cbn [disk_event_ns event_ns fst]. rewrite Hx. exists false, v. split; [done|]. split; [done|]. by exists r.
    + rewrite Hb'. change (background (mount d b)) with (StatsTick iter (mount d b)). unfold StatsTick. rewrite Hc.
      cbn [mbind Outcome_bind]. exists (mount d b), (<[ns := (false, v)]> c). split; [done|]. split; [|done].
      unfold caches_step. cbn [disk_event_ns event_ns]. rewrite Hx. by exists false, v.
Qed.

Lemma disk_step_caches ev m d c :
  disk_stores m d c -> apart (dom c) -> disk_event_ok ev ->
  match disk_step iter key_order ev m d with
  | UB => disk_event_stuck ev (mounted d m)
  | Ret (rs, m', d') => exists c', caches_step opts ev rs c c' /\ disk_stores m' d' c' /\ dom c' = dom c
  end.
Proof using iter_ok key_order_ok H0 PhmapLaws0.
  intros Hd Hap Hev. pose proof Hd as (_ & _ & Hs). specialize (Hs (disk_event_ns ev)). unfold disk_step.
  destruct (backends_ m !! disk_event_ns ev) as [b|] eqn:Hb.
  2: { destruct (c !! disk_event_ns ev) eqn:Hx; [done|].
       assert (backends_ (mounted d m) !! disk_event_ns ev = None) as Hb' by (cbn; by rewrite lookup_fmap, Hb).
       destruct ev as [ns clock|[[ns k]|ns]|ns]; cbn [disk_event_ns event_ns event_step fst] in *; rewrite ?ns_step_spec, Hb';
         cbn [mbind Outcome_bind]; rewrite Hb'; exists c; (split; [|split; [by apply disk_stores_mounted|done]]);
         unfold caches_step; cbn [disk_event_ns event_ns fst]; rewrite Hx; (split; [done|]); [done| |done|done].
       constructor; [by destruct k|done]. }
  destruct (c !! disk_event_ns ev) as [[up v]|] eqn:Hx; [|done]. destruct Hs as (Eo & Hbo & Hst).
  assert (backends_ (mounted d m) !! disk_event_ns ev = Some (mount d b)) as Hb' by (cbn; by rewrite lookup_fmap, Hb).
  assert (forall b' x', options_ b' = options_ (mount d b) -> framed (mount d b) b' -> stores x' b' ->
    disk_stores (set_backend (disk_event_ns ev) b' (mounted d m)) (disk_of_backend b') (<[disk_event_ns ev := x']> c) /\
    dom (<[disk_event_ns ev := x']> c) = dom c) as Hset.
  { intros b' x' Eo' Hfr Hst'. split; [by eapply disk_stores_set; [| | | |rewrite Eo'|..]|]. apply dom_insert_lookup_L. by eexists. }
  destruct ev as [ns clock|ev|ns]; cbn [disk_event_ns] in *.
  - rewrite Hb'. destruct (open_framed (mount d b) clock (up, v)) as (code & b' & -> & Eo' & Hfr & Hst'); [cbn; by rewrite Eo|done|].
    cbn [mbind Outcome_bind backends_ set_backend]. rewrite lookup_insert_eq. exists (<[ns := (true, v)]> c).
    split; [|by apply Hset]. unfold caches_step. cbn [disk_event_ns]. rewrite Hx. by exists true, v.
  - pose proof (disk_use ev m d c b (up, v) Hd Hap Hev Hb Hx) as Hu. destruct (event_step ev (mounted d m)) as [[rs m']|]; [|done].
    destruct Hu as (b' & c' & -> & Hc & Hd' & Hdom). cbn [mbind Outcome_bind backends_ set_backend]. rewrite lookup_insert_eq. by exists c'.
  - rewrite Hb'. destruct (close_framed (mount d b) (up, v) Hst) as (Eo' & Hfr & Hst').
    cbn [mbind Outcome_bind backends_ set_backend]. rewrite lookup_insert_eq. exists (<[ns := (false, v)]> c).
    split; [|by apply Hset]. unfold caches_step. cbn [disk_event_ns]. rewrite Hx. by exists false, v.
Qed.

Definition disk_stuck (evs : list disk_event) m d : Prop :=
  exists evs1 ev evs2 rss1 m1 d1, evs = evs1 ++ ev :: evs2 /\ disk_run iter key_order evs1 m d = Ret (rss1, m1, d1) /\
    disk_event_stuck ev (mounted d1 m1).

Lemma disk_run_caches evs m d c :
  disk_stores m d c -> apart (dom c) -> Forall disk_event_ok evs ->
  match disk_run iter key_order evs m d with
  | UB => disk_stuck evs m d
  | Ret (rss, m', d') => exists c', caches_run opts evs rss c c' /\ disk_stores m' d' c'
  end.
Proof using iter_ok key_order_ok H0 PhmapLaws0.
  revert m d c. induction evs as [|ev evs IH]; intros m d c Hd Hap Hevs; cbn [disk_run]; [by exists c|].
  apply Forall_cons in Hevs as [Hev Hevs]. pose proof (disk_step_caches ev m d c Hd Hap Hev) as Hs.
  destruct (disk_step iter key_order ev m d) as [[[rs m1] d1]|] eqn:E1; cbn [mbind Outcome_bind].
  2: by exists [], ev, evs, [], m, d.
  destruct Hs as (c1 & Hc1 & Hd1 & Hdom). specialize (IH m1 d1 c1 Hd1). rewrite Hdom in IH. specialize (IH Hap Hevs).
  destruct (disk_run iter key_order evs m1 d1) as [[[rss m2] d2]|]; cbn [mbind Outcome_bind].
  - destruct IH as (c2 & Hc2 & Hd2). exists c2. split; [|done]. by exists c1.
  - destruct IH as (evs1 & ev' & evs2 & rss1 & m2 & d2 & -> & E2 & Hst). exists (ev :: evs1), ev', evs2, (rs :: rss1), m2, d2.
    split; [done|]. split; [|done]. cbn [disk_run]. rewrite E1. cbn [mbind Outcome_bind]. by rewrite E2.
Qed.

End shared.

(** ** Directories *)

(** Names without slashes are found back in a path. *)
Lemma safe_component s1 s2 x y :
  chars_safe s1 = true -> chars_safe s2 = true -> s1 +:+ "/" +:+ x = s2 +:+ "/" +:+ y -> s1 = s2.
Proof.
  revert s2. induction s1 as [|a s1 IH]; intros [|a2 s2] H1 H2 E; cbn in E.
  - done.
  - injection E as <- _. done.
  - injection E as -> _. done.
  - injection E as <- E. cbn in H1, H2. apply andb_prop in H1 as [_ H1]. apply andb_prop in H2 as [_ H2]. f_equal. by apply IH.
Qed.

Lemma ends_in_slash_cons a s : s <> EmptyString -> ends_in_slash (String a s) = ends_in_slash s.
Proof. intros Hne. destruct s as [|a' s]; [done|]. unfold ends_in_slash. cbn. by rewrite Nat.sub_0_r. Qed.

Lemma ends_in_slash_safe pre s : s <> EmptyString -> chars_safe s = true -> ends_in_slash (pre +:+ s) = false.
Proof.
  intros Hne Hs. induction pre as [|a pre IH].
  - change (ends_in_slash s = false). induction s as [|a s IHs]; [done|]. destruct s as [|a' s].
    + unfold ends_in_slash. cbn. apply bool_decide_eq_false_2. intros [= ->]. done.
    + rewrite ends_in_slash_cons by done. apply IHs; [done|]. cbn in Hs. by apply andb_prop in Hs as [_ ?].
  - change (ends_in_slash (String a (pre +:+ s)) = false). rewrite ends_in_slash_cons; [done|]. by destruct pre.
Qed.

Lemma ns_root flags bopts ns : root_dir (ns_options flags bopts ns) = segement_workspace_path flags +:+ "/" +:+ SanitizeNs ns.
Proof. unfold ns_options, index_options. cbn [root_dir]. unfold cfg_Get, cfg_Set. cbn [entries_]. by rewrite lookup_insert_eq. Qed.

(** The files of a backend are in its directory. *)
Lemma own_path flags bopts ns q :
  own (ns_options flags bopts ns) q -> exists x, q = segement_workspace_path flags +:+ "/" +:+ SanitizeNs ns +:+ "/" +:+ x.
Proof.
  set (o := ns_options flags bopts ns). pose proof (ns_root flags bopts ns) as Er. fold o in Er.
  destruct (SanitizeNs_safe ns) as (Hne & Hsafe & _).
  assert (SnapshotPath (root_dir o) = root_dir o +:+ "/index.snapshot") as Es.
  { unfold SnapshotPath. rewrite Er, <- str_app_assoc. rewrite ends_in_slash_safe by done.
    rewrite bool_decide_eq_false_2; [done|]. by destruct (segement_workspace_path flags). }
  intros [[->|[->| ->]]|[->|[->|[a ->]]]]; unfold idx_opts, SnapshotTmpPath, state_path, segment_path; cbn [wal_path snapshot_dir];
    rewrite ?Es, Er, ?str_app_assoc; by eexists.
Qed.

Lemma own_apart flags bopts (X : gset string) :
  (forall ns ns', ns ∈ X -> ns' ∈ X -> SanitizeNs ns = SanitizeNs ns' -> ns = ns') -> apart (ns_options flags bopts) X.
Proof.
  intros Hinj ns ns' q Hns Hns' Hne [x ->]%own_path [y E]%own_path. do 2 apply (inj (String.append _)) in E.
  assert (forall n, chars_safe (SanitizeNs n) = true) as Hs by (intros n; by destruct (SanitizeNs_safe n) as (_ & ? & _)).
  apply safe_component in E; [|done|done]. apply Hne. by apply Hinj.
Qed.

(** ** Namespaces are isolated *)

Section isolated.
Context `{!Phmap Key128} `{!PhmapLaws Key128} `{!Btree, !BtreeLaws}.
Context (iter : nat -> gset Z -> list Z).
Hypothesis iter_ok : forall n X, iter n X ≡ₚ elements X.
Context (key_order : @gmap Key128 key_eq_dec key_countable Z -> list Key128).
Hypothesis key_order_ok : forall m, key_order m ≡ₚ (map_to_list m).*1.

(** C19: namespaces on one disk are isolated, if their directories have different
    names (after [SanitizeNs]).  Take backends of the program that are registered
    and not open yet, on one disk which has for each of them the files of a
    closed backend that stores [v ns] (or none).  They are opened, used, closed
    and opened again in any order, with calls on all of them and rounds of
    compaction in between.  Every event is, for its namespace, a step of a cache
    of its own, and changes nothing in the others: what a namespace answers and
    stores depends on its own calls alone.  At the end each namespace has on the
    disk what its cache has.  A call on a namespace that is not registered
    answers [kInvalidArgument], one on a backend that is not open is refused.
    System calls do not fail here (they may be interrupted, or transfer less than
    asked).  The only events without a result are a [Put] or a round when a
    segment that could be appended to has no free slot left (or segments have no
    slots). *)
Theorem namespaces_isolated (flags : Flags) (bopts : string) (m : NamespaceManager IndexBackend) (d : Disk) (evs : list disk_event)
    (v : string -> @gmap Key128 key_eq_dec key_countable (list Z * list Z)) :
  let opts := ns_options flags bopts in
  let c := map_imap (fun ns _ => Some (false, v ns)) (backends_ m) in
  (forall ns ns', ns ∈ dom (backends_ m) -> ns' ∈ dom (backends_ m) -> SanitizeNs ns = SanitizeNs ns' -> ns = ns') ->
  no_eio (fs_script (d_fs d)) -> no_eio (fs_script (d_w d)) ->
  (forall ns b, backends_ m !! ns = Some b ->
     options_ b = opts ns /\ bopts_ok (opts ns) /\ closed (mount d b) (v ns) (2 ^ 63 - 1)) ->
  Forall disk_event_ok evs ->
  match disk_run iter key_order evs m d with
  | UB => disk_stuck iter key_order evs m d
  | Ret (rss, m', d') => exists c', caches_run opts evs rss c c' /\ disk_stores opts m' d' c'
  end.
Proof using iter_ok key_order_ok PhmapLaws0 H0.
  intros opts c Hinj Hf Hw Hm Hevs.
  assert (dom c = dom (backends_ m)) as Hdom.
  { apply set_eq. intros ns. rewrite !elem_of_dom. unfold c. rewrite map_lookup_imap.
    destruct (backends_ m !! ns); cbn; [split; by eexists|done]. }
  apply (disk_run_caches iter iter_ok key_order key_order_ok opts); [|rewrite Hdom; by apply own_apart|done].
  split; [done|]. split; [done|]. intros ns. unfold c. rewrite map_lookup_imap. specialize (Hm ns).
  destruct (backends_ m !! ns) as [b|]; cbn; [|done]. by apply Hm.
Qed.

End isolated.

(** ** Concrete disks *)

Definition blank_disk : Disk := mkDisk ∅ (mkFS ∅ []) (mkFS ∅ []).
Definition new_backend (ns : string) : IndexBackend :=
  mkIndexBackend (ns_options small_flags EmptyString ns) None ∅ (mkFS ∅ []) (mkFS ∅ []).
Definition two_backends (ns1 ns2 : string) : NamespaceManager IndexBackend :=
  mkNamespaceManager (<[ns1 := new_backend ns1]> (<[ns2 := new_backend ns2]> ∅)).

(** Both are opened and written to, the first is compacted, closed and opened
    again, and there is a call on a third. *)
Definition shared_events (ns1 ns2 : string) : list disk_event :=
  [Opens ns1 no_clock; Opens ns2 no_clock; Uses (put_call ns1 demo_key [1]); Uses (put_call ns2 demo_key [2]);
   Uses (get_call ns1 demo_key); Uses (Round ns1); Closes ns1; Uses (get_call ns1 demo_key); Uses (get_call ns2 demo_key);
   Opens ns1 no_clock; Uses (get_call ns1 demo_key); Uses (get_call "other" demo_key)].

(** The results of the reads. *)
Definition reads_of (r : Outcome (list (list kv_result) * NamespaceManager IndexBackend * Disk)) : list (BackendCode * list Z) :=
  match r with
  | Ret (rss, _, _) => omap (fun r => match r with KRead r => Some (rr_code r, rr_value r) | KWrite _ => None end) (mjoin rss)
  | UB => []
  end.

Definition shared_run (ns1 ns2 : string) :=
  disk_run plain_iter plain_order (shared_events ns1 ns2) (two_backends ns1 ns2) blank_disk.

Lemma namespaces_isolated_witness :
  reads_of (shared_run "a" "b") = [(BkOk, [1]); (BkUnavailable, []); (BkOk, [2]); (BkOk, [1]); (BkInvalidArgument, [])] /\
  let opts := ns_options small_flags EmptyString in
  match shared_run "a" "b" with
  | UB => disk_stuck plain_iter plain_order (shared_events "a" "b") (two_backends "a" "b") blank_disk
  | Ret (rss, m', d') => exists c',
      caches_run opts (shared_events "a" "b") rss (map_imap (fun ns _ => Some (false, ∅)) (backends_ (two_backends "a" "b"))) c' /\
      disk_stores opts m' d' c'
  end.
Proof.
  split; [vm_compute; reflexivity|]. intros opts.
  assert (Forall disk_event_ok (shared_events "a" "b")) as Hev by (repeat constructor; vm_compute; repeat split; discriminate).
  pose proof (namespaces_isolated plain_iter plain_iter_ok plain_order (fun m => reflexivity _) small_flags EmptyString
    (two_backends "a" "b") blank_disk (shared_events "a" "b") (fun _ => ∅)) as Hn. apply Hn; clear Hn.
  - intros ns ns'. unfold two_backends. cbn [backends_]. rewrite !dom_insert_L, dom_empty_L. set_unfold.
    intros [->|[->|[]]] [->|[->|[]]] E; done.
  - constructor.
  - constructor.
  - intros ns b Hb. destruct (small_disk_ok EmptyString ns ∅) as [Ho _].
    assert (b = new_backend ns) as ->.
    { unfold two_backends in Hb. cbn [backends_] in Hb. apply lookup_insert_Some in Hb as [[<- <-]|[_ Hb]]; [reflexivity|].
      apply lookup_insert_Some in Hb as [[<- <-]|[_ Hb]]; [reflexivity|]. by rewrite lookup_empty in Hb. }
    split; [reflexivity|]. split; [exact Ho|]. apply (closed_mono _ _ 0); [vm_compute; discriminate|]. by apply closed_fresh.
  - exact Hev.
Defined.

(** Two namespaces whose names are sanitized to the same directory: the first
    one reads, as the value of its key, what the second one has written. *)
Example colliding_namespaces :
  SanitizeNs "a/b" = SanitizeNs "a_b" /\
  head (reads_of (shared_run "a/b" "a_b")) = Some (BkOk, [2]).
Proof. split; vm_compute; reflexivity. Qed.
