(* ===== verification/Prebuild.v ===== *)
(** * The checks before a build

    [utils.py]: the functions [setup.py] calls before it starts cmake.  A Python
    string is the list of its code points.  [Machine] is what the script can
    see: its environment, its working directory, the contents of the regular
    files and the paths that exist.  [subprocess.run] is a parameter: it gives
    the exit code and the two outputs, or the message of an [OSError], and the
    machine the command leaves.  Lines the script prints are not modelled. *)

From stdpp Require Import pretty.
From S2P Require Import Prelude.
From Stdlib Require Import Ascii.
#[local] Open Scope list_scope.

(** ** Strings *)

Definition str : Type := list Z.

(** A string literal. *)
Fixpoint lit (s : string) : str :=
  match s with EmptyString => [] | String c s => Z.of_N (N_of_ascii c) :: lit s end.

(** [str.isspace] of one character. *)
Definition py_space (c : Z) : bool :=
  ((9 <=? c) && (c <=? 13)) || ((28 <=? c) && (c <=? 32)) || (c =? 133) || (c =? 160) || (c =? 5760) ||
  ((8192 <=? c) && (c <=? 8202)) || (c =? 8232) || (c =? 8233) || (c =? 8239) || (c =? 8287) || (c =? 12288).

(** The characters at which [str.splitlines] ends a line. *)
Definition is_break (c : Z) : bool :=
  ((10 <=? c) && (c <=? 13)) || ((28 <=? c) && (c <=? 30)) || (c =? 133) || (c =? 8232) || (c =? 8233).

Fixpoint lstrip (s : str) : str :=
  match s with c :: s' => if py_space c then lstrip s' else s | [] => [] end.

Definition strip (s : str) : str := rev (lstrip (rev (lstrip s))).

(** The pieces of [s] between separators, [cur] being the last one read so far
    in reverse. *)
Fixpoint splitlines_from (cur s : str) : list str :=
  match s with
  | [] => if bool_decide (cur = []) then [] else [rev cur]
  | c :: s =>
      if is_break c then
        rev cur :: match s with
                   | d :: s' => if (c =? 13) && (d =? 10) then splitlines_from [] s' else splitlines_from [] s
                   | [] => splitlines_from [] s
                   end
      else splitlines_from (c :: cur) s
  end.

Definition splitlines : str -> list str := splitlines_from [].

(** [s.split()]: the words between white space. *)
Fixpoint split_words_from (cur s : str) : list str :=
  match s with
  | [] => if bool_decide (cur = []) then [] else [rev cur]
  | c :: s =>
      if py_space c then (if bool_decide (cur = []) then [] else [rev cur]) ++ split_words_from [] s
      else split_words_from (c :: cur) s
  end.

Definition split_words : str -> list str := split_words_from [].

(** [s.split(sep)] for one character. *)
Fixpoint split_on (sep : Z) (s : str) : list str :=
  match s with
  | [] => [[]]
  | c :: s =>
      if c =? sep then [] :: split_on sep s
      else match split_on sep s with p :: ps => (c :: p) :: ps | [] => [[c]] end
  end.

(** [sep.join(l)] *)
Fixpoint join_with (sep : str) (l : list str) : str :=
  match l with [] => [] | [s] => s | s :: l => s ++ sep ++ join_with sep l end.

Definition startswith (p s : str) : bool := bool_decide (take (length p) s = p).

(** [p in s] *)
Fixpoint contains (p s : str) : bool :=
  startswith p s || match s with [] => false | _ :: s => contains p s end.

(** ** Paths *)

Definition path_join (a b : str) : str :=
  if startswith (lit "/") b then b
  else if bool_decide (a = []) || bool_decide (last a = Some 47) then a ++ b
  else a ++ lit "/" ++ b.

(** The loop of [posixpath.normpath]; [done] is [new_comps] in reverse. *)
Fixpoint norm_comps (absolute : bool) (done comps : list str) : list str :=
  match comps with
  | [] => rev done
  | c :: comps =>
      if bool_decide (c = []) || bool_decide (c = lit ".") then norm_comps absolute done comps
      else if negb (bool_decide (c = lit "..")) || (negb absolute && bool_decide (done = []))
              || bool_decide (head done = Some (lit "..")) then norm_comps absolute (c :: done) comps
      else norm_comps absolute (tail done) comps
  end.

Definition normpath (p : str) : str :=
  if bool_decide (p = []) then lit "." else
  let slashes := if startswith (lit "//") p && negb (startswith (lit "///") p) then lit "//"
                 else if startswith (lit "/") p then lit "/" else [] in
  let q := slashes ++ join_with (lit "/") (norm_comps (negb (bool_decide (slashes = []))) [] (split_on 47 p)) in
  if bool_decide (q = []) then lit "." else q.

Definition abspath (cwd p : str) : str :=
  normpath (if startswith (lit "/") p then p else path_join cwd p).

(** ** The script *)

(** Files and other paths under the names the script gives them. *)
Record Machine := mkMachine {
  environ : gmap str str;
  getcwd : str;
  files : gmap str str;
  others : gset str;
}.

Definition isfile (p : str) (w : Machine) : bool := bool_decide (is_Some (files w !! p)).
Definition isdir (p : str) (w : Machine) : bool := bool_decide (p ∈ others w).

(** [os.path.exists] *)
Definition exists_ (p : str) (w : Machine) : bool := isfile p w || isdir p w.

(** How a function ends. *)
Inductive exn := SystemExit (code : Z) | ValueError | RuntimeError | FileNotFoundError.
Inductive ended (A : Type) := Done (a : A) | Raise (e : exn).
Arguments Done {A} _.
Arguments Raise {A} _.

(** What [subprocess.run] gives. *)
Inductive process := Exited (returncode : Z) (stdout stderr : str) | OSError (message : str).

Section script.
Context (run : list str -> option str -> Machine -> process * Machine).
(** The home directories of [pwd]: of the process, and of a user. *)
Context (home : option str) (home_of : str -> option str).
(** The directory of the script. *)
Context (base_dir : str).

(** [rstrip("/")] *)
Fixpoint skip_slashes (s : str) : str :=
  match s with c :: s' => if c =? 47 then skip_slashes s' else s | [] => [] end.
Definition rstrip_slash (s : str) : str := rev (skip_slashes (rev s)).

Definition expanduser (p : str) (w : Machine) : str :=
  if negb (startswith (lit "~") p) then p else
  let user := default [] (head (split_on 47 (tail p))) in
  let rest := drop (S (length user)) p in
  let dir := if bool_decide (user = [])
             then match environ w !! lit "HOME" with Some d => Some d | None => home end
             else home_of user in
  match dir with
  | None => p
  | Some d => let q := rstrip_slash d ++ rest in if bool_decide (q = []) then lit "/" else q
  end.

Definition normalized (p : str) (w : Machine) : str := abspath (getcwd w) (expanduser p w).

Definition get_cpu_arch (machine : str) : ended str :=
  if contains (lit "x86") machine || contains (lit "amd64") machine then Done (lit "x86")
  else if contains (lit "arm") machine || contains (lit "aarch64") machine then Done (lit "arm")
  else Raise ValueError.

(** [get_base_dir] is [base_dir]. *)
Definition py_join_path (p : str) : str := path_join base_dir p.

Definition get_version (w : Machine) : ended str :=
  let version := default [] (environ w !! lit "PARAKV_VERSION") in
  let version := if negb (bool_decide (version = [])) then Done version
                 else match files w !! py_join_path (lit "version.txt") with
                      | None => Raise FileNotFoundError
                      | Some text => Done (strip text)
                      end in
  match version with
  | Raise e => Raise e
  | Done version =>
      let version := if startswith (lit "v") version then drop 1 version else version in
      if bool_decide (version = []) then Raise RuntimeError else
      let suffix := default [] (environ w !! lit "PARAKV_VERSION_SUFFIX") in
      Done (version ++ suffix)
  end.

Definition read_readme (w : Machine) : str :=
  default [] (files w !! py_join_path (lit "README.md")).

Definition run_command (args : list str) (cwd : option str) (check passthrough : bool) (w : Machine)
    : (bool * str * str) * Machine :=
  match run args cwd w with
  | (OSError e, w) => ((false, [], e), w)
  | (Exited code out err, w) =>
      if passthrough then
        if check && negb (code =? 0) then ((false, [], lit ("exit code " +:+ pretty code)), w) else ((code =? 0, [], []), w)
      else if check && negb (code =? 0) then ((false, strip out, strip (if bool_decide (err = []) then out else err)), w)
      else ((code =? 0, strip out, strip err), w)
  end.

(** [args] is the command after [shlex.split]. *)
Definition run_shell_command (args : list str) (cwd : option str) (passthrough : bool) (w : Machine) : bool * Machine :=
  let '((ok, _, _), w) := run_command args cwd true passthrough w in (ok, w).

Definition run_git_command (repo_root : str) (args : list str) (w : Machine) : (bool * str) * Machine :=
  let '((ok, output, _), w) := run_command (lit "git" :: args) (Some repo_root) true false w in
  if negb ok then ((false, []), w) else ((true, output), w).

Definition check_and_install_pre_commit (w : Machine) : ended unit * Machine :=
  if negb (isdir (lit ".git") w) then (Done tt, w) else
  if exists_ (lit ".git/hooks/pre-commit") w then (Done tt, w) else
  let '((ok, _, _), w) := run_command [lit "pre-commit"; lit "install"] None true false w in
  if negb ok then (Raise (SystemExit 1), w) else (Done tt, w).

(** The body of the loop over the lines of [git submodule status]. *)
Definition add_issue (issues : gmap str str) (line : str) : gmap str str :=
  match line with
  | [] => issues
  | state :: line =>
      match split_words (strip line) with
      | commit :: path :: _ =>
          if state =? 45 then <[path := lit "uninitialized (expected commit starts with " ++ commit ++ lit ")"]> issues
          else if state =? 43 then <[path := lit "commit mismatch (checked-out commit starts with " ++ commit ++ lit ")"]> issues
          else if state =? 85 then <[path := lit "merge conflict"]> issues
          else issues
      | _ => issues
      end
  end.

Definition collect_submodule_init_issues (repo_root : str) (w : Machine) : ended (gmap str str) * Machine :=
  let '((ok, output), w) := run_git_command repo_root [lit "submodule"; lit "status"] w in
  if negb ok then (Raise (SystemExit 1), w)
  else (Done (foldl add_issue ∅ (splitlines output)), w).

Definition is_dependency_installed (required_files : list str) (w : Machine) : bool :=
  forallb (fun p => isfile (normalized p w) w) required_files.

(** A dict with one entry. *)
Definition get_required_dependency_files : list (str * list str) :=
  [(lit "yalantinglibs", [lit "/usr/local/yalantinglibs/lib/cmake/yalantinglibs/config.cmake"])].

Definition collect_missing_dependencies (dependency_files : list (str * list str)) (w : Machine) : list (str * list str) :=
  omap (fun '(name, required_files) =>
          let normalized_files := (fun p => normalized p w) <$> required_files in
          if is_dependency_installed normalized_files w then None else Some (name, normalized_files)) dependency_files.

(** The body of both loops of [_export_cmake_prefix_paths]. *)
Definition merge_path (w : Machine) (merged : list str) (path : str) : list str :=
  if bool_decide (path = []) then merged else
  let p := normalized path w in
  if negb (bool_decide (p = [])) && negb (bool_decide (p ∈ merged)) then merged ++ [p] else merged.

Definition export_cmake_prefix_paths (prefix_paths : list str) (w : Machine) : Machine :=
  let existing := default [] (environ w !! lit "CMAKE_PREFIX_PATH") in
  let merged_paths := foldl (merge_path w) [] (split_on 58 existing) in
  let merged_paths := foldl (merge_path w) merged_paths prefix_paths in
  if bool_decide (merged_paths = []) then w
  else mkMachine (<[lit "CMAKE_PREFIX_PATH" := join_with (lit ":") merged_paths]> (environ w)) (getcwd w) (files w) (others w).

Definition run_dependencies_script_or_exit (script_path : str) (w : Machine) : ended unit * Machine :=
  let '(ok, w) := run_shell_command [lit "sh"; lit "third_party/dependencies.sh"] (Some script_path) true w in
  if negb ok then (Raise (SystemExit 1), w) else (Done tt, w).

Definition validate_submodules_or_exit (repo_root : str) (w : Machine) : ended unit * Machine :=
  let '(r, w) := collect_submodule_init_issues repo_root w in
  match r with
  | Raise e => (Raise e, w)
  | Done issues => if bool_decide (issues = ∅) then (Done tt, w) else (Raise (SystemExit 1), w)
  end.

Definition prefix : str := lit "/usr/local/yalantinglibs".

Definition ensure_prebuild_dependencies_installed (script_path : str) (w : Machine) : ended unit * Machine :=
  let dependency_files := get_required_dependency_files in
  let '(r, w) :=
    if bool_decide (collect_missing_dependencies dependency_files w = []) then (Done tt, w) else
    let '(r, w) := run_dependencies_script_or_exit script_path w in
    match r with
    | Raise e => (Raise e, w)
    | Done _ => if bool_decide (collect_missing_dependencies dependency_files w = []) then (Done tt, w)
                else (Raise (SystemExit 1), w)
    end in
  match r with Raise e => (Raise e, w) | Done _ => (Done tt, export_cmake_prefix_paths [prefix] w) end.

Definition pre_build (w : Machine) : ended unit * Machine :=
  let '(r, w) := validate_submodules_or_exit base_dir w in
  match r with Raise e => (Raise e, w) | Done _ => ensure_prebuild_dependencies_installed base_dir w end.

End script.

(** ** What git prints *)

(** A line of [git submodule status]: the state, the commit, the path and what
    [git describe] says. *)
Record submodule := mkSubmodule { sm_state : Z; sm_commit : str; sm_path : str; sm_describe : option str }.

Definition status_rest (s : submodule) : str :=
  sm_commit s ++ 32 :: sm_path s ++ match sm_describe s with None => [] | Some d => lit " (" ++ d ++ lit ")" end.

Definition status_line (s : submodule) : str := sm_state s :: status_rest s.

Definition status_output (l : list submodule) : str := concat ((fun s => status_line s ++ [10]) <$> l).

Definition no_space (s : str) : Prop := Forall (fun c => py_space c = false) s.

Definition is_hex (c : Z) : bool := ((48 <=? c) && (c <=? 57)) || ((97 <=? c) && (c <=? 102)).

Record submodule_ok (s : submodule) : Prop := {
  sm_state_ok : sm_state s ∈ [32; 45; 43; 85];
  sm_commit_ok : Forall (fun c => is_hex c = true) (sm_commit s) /\ (2 <= length (sm_commit s))%nat;
  sm_path_ok : no_space (sm_path s) /\ sm_path s <> [];
  sm_describe_ok : forall d, sm_describe s = Some d -> no_space d;
}.

(** What is wrong with a submodule. *)
Definition issue (s : submodule) : option (str * str) :=
  if sm_state s =? 45 then Some (sm_path s, lit "uninitialized (expected commit starts with " ++ sm_commit s ++ lit ")")
  else if sm_state s =? 43 then Some (sm_path s, lit "commit mismatch (checked-out commit starts with " ++ sm_commit s ++ lit ")")
  else if sm_state s =? 85 then Some (sm_path s, lit "merge conflict")
  else None.

(** ** Lemmas on strings *)

Lemma break_is_space c : is_break c = true -> py_space c = true.
Proof. unfold is_break, py_space. lia. Qed.

Lemma hex_no_space c : is_hex c = true -> py_space c = false.
Proof. unfold is_hex, py_space. lia. Qed.

Lemma rev_nonempty (s : str) : s <> [] -> bool_decide (rev s = []) = false.
Proof. intros Hs. apply bool_decide_false. intros E. apply Hs. rewrite <- (rev_involutive s), E. done. Qed.

Lemma lstrip_id c s : py_space c = false -> lstrip (c :: s) = c :: s.
Proof. intros E. cbn [lstrip]. by rewrite E. Qed.

Lemma strip_snoc s c : py_space c = false -> strip (s ++ [c; 10]) = lstrip (s ++ [c]).
Proof.
  intros Hc. unfold strip. assert (forall t, lstrip (t ++ [c; 10]) = lstrip (t ++ [c]) ++ [10]) as Hl.
  { induction t as [|d t IH]; cbn [lstrip app]; [by rewrite Hc|]. destruct (py_space d); [done|]. cbn. by rewrite <- app_assoc. }
  assert (exists t, lstrip (s ++ [c]) = t ++ [c]) as [t Et].
  { clear Hl. induction s as [|d s IH]; cbn [lstrip app]; [rewrite Hc; by exists []|].
    destruct (py_space d); [done|]. by exists (d :: s). }
  rewrite Hl, Et, rev_app_distr, rev_app_distr. cbn [rev app lstrip]. change (py_space 10) with true. cbn [lstrip app]. rewrite Hc. cbn [rev]. by rewrite rev_involutive.
Qed.

Lemma strip_id s c d :
  head s = Some c -> last s = Some d -> py_space c = false -> py_space d = false -> strip s = s.
Proof.
  intros Hh Hl Hc Hd. destruct s as [|c' s]; [done|]. injection Hh as ->. unfold strip. rewrite lstrip_id by done.
  apply last_Some in Hl as [t ->]. rewrite rev_app_distr. cbn [rev app lstrip]. rewrite Hd. cbn [rev]. by rewrite rev_involutive.
Qed.

Lemma split_words_app s cur t : no_space s -> split_words_from cur (s ++ t) = split_words_from (rev s ++ cur) t.
Proof.
  intros Hs. revert cur. induction Hs as [|c s Hc Hs IH]; intros cur; [done|]. cbn [split_words_from app]. rewrite Hc, IH. cbn.
  by rewrite <- app_assoc.
Qed.

Lemma split_words_two a b t :
  no_space a -> a <> [] -> no_space b -> b <> [] -> (t = [] \/ exists t', t = 32 :: t') ->
  exists ws, split_words (a ++ 32 :: b ++ t) = a :: b :: ws.
Proof.
  intros Ha Hna Hb Hnb Ht. unfold split_words. rewrite split_words_app by done. cbn [split_words_from].
  change (py_space 32) with true. rewrite app_nil_r, rev_nonempty, rev_involutive by done. rewrite split_words_app by done. rewrite app_nil_r.
  destruct Ht as [->|[t' ->]]; cbn [split_words_from]; [|change (py_space 32) with true];
    rewrite rev_nonempty, rev_involutive by done; by eexists.
Qed.

Definition no_break (s : str) : Prop := Forall (fun c => is_break c = false) s.

Lemma splitlines_app s cur t : no_break s -> splitlines_from cur (s ++ t) = splitlines_from (rev s ++ cur) t.
Proof.
  intros Hs. revert cur. induction Hs as [|c s Hc Hs IH]; intros cur; [done|]. cbn [splitlines_from app]. rewrite Hc, IH.
  cbn. by rewrite <- app_assoc.
Qed.

Lemma splitlines_join l : Forall (fun s => no_break s /\ s <> []) l -> splitlines (join_with [10] l) = l.
Proof.
  intros Hl. unfold splitlines. induction Hl as [|s l [Hs Hn] Hl IH]; [done|]. cbn [join_with]. destruct l as [|s' l].
  - rewrite <- (app_nil_r s) at 1. rewrite splitlines_app by done. cbn. by rewrite app_nil_r, rev_nonempty, rev_involutive.
  - rewrite splitlines_app by done. cbn [app]. cbn [splitlines_from]. change (is_break 10) with true. cbn [Z.eqb].
    rewrite app_nil_r, rev_involutive. f_equal. destruct (join_with [10] (s' :: l)) eqn:E; exact IH.
Qed.

(** ** The lines of a status *)

Definition described (o : option str) : str := match o with None => [] | Some d => lit " (" ++ d ++ lit ")" end.

Lemma last_rest (a b : str) o : no_space b -> b <> [] -> exists d, last (a ++ 32 :: b ++ described o) = Some d /\ py_space d = false.
Proof.
  intros Hb Hn. destruct o as [d|]; cbn [described].
  - exists 41. split; [|done]. apply last_Some. exists (a ++ 32 :: b ++ lit " (" ++ d). change (lit ")") with [41].
    rewrite <- (app_assoc a). cbn. rewrite <- app_assoc. done.
  - rewrite app_nil_r, last_app, last_cons. destruct (last b) as [d|] eqn:E; [|by apply last_None in E].
    exists d. split; [done|]. apply last_Some in E as [t ->]. apply Forall_app in Hb as [_ Hb].
    by inversion Hb.
Qed.

Lemma add_issue_line m st (a b : str) o :
  no_space a -> a <> [] -> no_space b -> b <> [] ->
  add_issue m (st :: a ++ 32 :: b ++ described o) =
    match issue (mkSubmodule st a b o) with Some (p, msg) => <[p := msg]> m | None => m end.
Proof.
  intros Ha Hna Hb Hnb. destruct (last_rest a b o Hb Hnb) as (d & Hd & Hsd). cbn [add_issue].
  assert (exists c, head (a ++ 32 :: b ++ described o) = Some c /\ py_space c = false) as (c & Hc & Hsc).
  { destruct a as [|c a]; [done|]. exists c. split; [done|]. by apply Forall_cons in Ha as [? _]. }
  rewrite (strip_id _ c d) by done.
  destruct (split_words_two a b (described o)) as [ws ->]; try done.
  { destruct o; [right; by eexists|by left]. }
  unfold issue. cbn [sm_state sm_commit sm_path]. repeat case_match; done.
Qed.

Section lines.
Implicit Types s : submodule.

Lemma status_rest_eq s : status_rest s = sm_commit s ++ 32 :: sm_path s ++ described (sm_describe s).
Proof. done. Qed.

Lemma commit_no_space s : submodule_ok s -> no_space (sm_commit s).
Proof. intros Hs. eapply Forall_impl; [apply (sm_commit_ok s Hs)|]. apply hex_no_space. Qed.

Lemma add_status_line m s : submodule_ok s ->
  add_issue m (status_line s) = match issue s with Some (p, msg) => <[p := msg]> m | None => m end.
Proof.
  intros Hs. unfold status_line. rewrite status_rest_eq. pose proof (sm_commit_ok s Hs) as [_ Hl].
  pose proof (sm_path_ok s Hs) as [? ?]. rewrite add_issue_line; [by destruct s|by apply commit_no_space| |done|done].
  intros E. rewrite E in Hl. cbn in Hl. lia.
Qed.

(** The output is stripped before it is cut into lines; a clean first line then
    lacks the blank that is its state. *)
Lemma add_stripped_line m s : submodule_ok s -> add_issue m (lstrip (status_line s)) = add_issue m (status_line s).
Proof.
  intros Hs. pose proof (sm_commit_ok s Hs) as [Hh Hl]. pose proof (sm_path_ok s Hs) as [? ?]. rewrite add_status_line by done.
  assert (Hst := sm_state_ok s Hs). destruct (decide (sm_state s = 32)) as [E|E].
  - unfold status_line. rewrite E. cbn [lstrip]. change (py_space 32) with true. cbn [lstrip]. rewrite status_rest_eq.
    unfold issue. rewrite E. cbn [Z.eqb Pos.eqb]. pose proof (commit_no_space s Hs) as Hn.
    destruct (sm_commit s) as [|c [|c' a]]; [cbn in Hl; lia|cbn in Hl; lia|]. apply Forall_cons in Hn as [Hc Hn].
    apply Forall_cons in Hh as [Hhc _]. cbn [app lstrip]. rewrite Hc.
    change (c' :: a ++ ?t) with ((c' :: a) ++ t). rewrite add_issue_line by done. unfold issue. cbn [sm_state].
    unfold is_hex in Hhc. repeat case_match; try done; lia.
  - unfold status_line. rewrite lstrip_id; [by apply add_status_line|].
    rewrite !elem_of_cons, elem_of_nil in Hst. destruct Hst as [?|[->|[->|[->|[]]]]]; done.
Qed.

Lemma status_line_ends s : submodule_ok s -> exists t d, status_line s = t ++ [d] /\ py_space d = false.
Proof.
  intros Hs. pose proof (sm_path_ok s Hs) as [Hp Hn].
  destruct (last_rest (sm_commit s) _ (sm_describe s) Hp Hn) as (d & Hd & Hsd). apply last_Some in Hd as [t Et].
  exists (sm_state s :: t), d. split; [|done]. unfold status_line. by rewrite status_rest_eq, Et.
Qed.

Lemma no_space_no_break (t : str) : no_space t -> no_break t.
Proof.
  intros Ht. eapply Forall_impl; [exact Ht|]. intros c Hc. destruct (is_break c) eqn:E; [|done].
  apply break_is_space in E. cbn in Hc. congruence.
Qed.

Lemma status_line_no_break s : submodule_ok s -> no_break (status_line s).
Proof.
  intros Hs. assert (Hst := sm_state_ok s Hs). pose proof (sm_path_ok s Hs) as [Hp _]. unfold status_line. rewrite status_rest_eq.
  constructor; [rewrite !elem_of_cons, elem_of_nil in Hst; by destruct Hst as [->|[->|[->|[->|[]]]]]|].
  apply Forall_app. split; [by apply no_space_no_break, commit_no_space|]. constructor; [done|].
  apply Forall_app. split; [by apply no_space_no_break|]. destruct (sm_describe s) as [d|] eqn:Ed; [|constructor].
  repeat (constructor; [done|]). apply Forall_app. split; [apply no_space_no_break, (sm_describe_ok s Hs d Ed)|].
  by repeat constructor.
Qed.

Lemma lstrip_app (t u : str) : lstrip t <> [] -> lstrip (t ++ u) = lstrip t ++ u.
Proof. induction t as [|c t IH]; [done|]. cbn [lstrip app]. by destruct (py_space c). Qed.

Lemma lstrip_status_line s : submodule_ok s -> lstrip (status_line s) <> [] /\ no_break (lstrip (status_line s)).
Proof.
  intros Hs. destruct (status_line_ends s Hs) as (t & d & E & Hd). pose proof (status_line_no_break s Hs) as Hb.
  rewrite E in *. clear E. induction t as [|c t IH]; cbn [lstrip app]; [by rewrite Hd|].
  apply Forall_cons in Hb as Hb'. destruct (py_space c); [apply IH, Hb'|]. split; [done|exact Hb].
Qed.

Lemma status_output_join s l : status_output (s :: l) = join_with [10] (status_line <$> s :: l) ++ [10].
Proof.
  revert s. induction l as [|s' l IH]; intros s; [unfold status_output; cbn; by rewrite !app_nil_r|].
  change (status_output (s :: s' :: l)) with ((status_line s ++ [10]) ++ status_output (s' :: l)). rewrite IH.
  cbn [join_with fmap list_fmap]. by rewrite <- !app_assoc.
Qed.

Lemma join_ends l : Forall submodule_ok l -> l <> [] ->
  exists t d, join_with [10] (status_line <$> l) = t ++ [d] /\ py_space d = false.
Proof.
  intros Hl Hn. induction Hl as [|s l Hs Hl IH]; [done|]. destruct l as [|s' l]; [by apply status_line_ends|].
  destruct IH as (t & d & E & Hd); [done|]. exists (status_line s ++ [10] ++ t), d. split; [|done].
  change (join_with [10] (status_line <$> s :: s' :: l)) with (status_line s ++ [10] ++ join_with [10] (status_line <$> s' :: l)).
  rewrite E. by rewrite <- !app_assoc.
Qed.

(** The lines the script sees. *)
Lemma stripped_lines s l : Forall submodule_ok (s :: l) ->
  splitlines (strip (status_output (s :: l))) = lstrip (status_line s) :: (status_line <$> l).
Proof.
  intros Hl. destruct (join_ends (s :: l) Hl) as (t & d & E & Hd); [done|]. apply Forall_cons in Hl as [Hs Hl].
  destruct (lstrip_status_line s Hs) as [Hne Hb].
  rewrite status_output_join, E, <- app_assoc. cbn [app]. rewrite strip_snoc, <- E by done.
  rewrite <- (splitlines_join (lstrip (status_line s) :: (status_line <$> l))).
  - f_equal. cbn [fmap list_fmap join_with]. destruct l as [|s' l]; cbn [fmap list_fmap]; [done|]. by apply lstrip_app.
  - constructor; [done|]. apply Forall_fmap. eapply Forall_impl; [exact Hl|]. intros s' Hs'. cbn.
    split; [by apply status_line_no_break|done].
Qed.

Lemma issue_path s p msg : issue s = Some (p, msg) -> p = sm_path s.
Proof. unfold issue. destruct (sm_state s =? 45), (sm_state s =? 43), (sm_state s =? 85); congruence. Qed.

Lemma issues_fold l m : Forall submodule_ok l -> NoDup (sm_path <$> l) -> (forall s, s ∈ l -> m !! sm_path s = None) ->
  foldl add_issue m (status_line <$> l) = list_to_map (omap issue l) ∪ m.
Proof.
  intros Hl. revert m. induction Hl as [|s l Hs Hl IH]; intros m Hnd Hm; [symmetry; apply map_empty_union|].
  cbn [fmap list_fmap] in Hnd. apply NoDup_cons in Hnd as [Hin Hnd]. cbn [fmap list_fmap foldl omap list_omap].
  rewrite add_status_line by done. destruct (issue s) as [[p msg]|] eqn:Ei.
  2: { apply IH; [done|]. intros s' Hs'. apply Hm. by right. }
  apply issue_path in Ei as Ep. subst p.
  rewrite IH; [|done|].
  - cbn [list_to_map foldr]. rewrite <- insert_union_l, insert_union_r; [done|].
    apply not_elem_of_list_to_map_1. intros ([p msg'] & Ep & He)%list_elem_of_fmap. cbn in Ep. subst p.
    apply list_elem_of_omap in He as (s' & Hs' & Ei'). apply Hin. apply list_elem_of_fmap. exists s'. split; [|done].
    by apply issue_path in Ei'.
  - intros s' Hs'. rewrite lookup_insert_ne; [apply Hm; by right|]. intros E. apply Hin. rewrite E. by apply list_elem_of_fmap_2.
Qed.

(** The issues found are those git reports. *)
Lemma issues_exact l : Forall submodule_ok l -> NoDup (sm_path <$> l) ->
  foldl add_issue ∅ (splitlines (strip (status_output l))) = list_to_map (omap issue l).
Proof.
  intros Hl Hnd. destruct l as [|s l]; [done|]. rewrite stripped_lines by done. cbn [foldl].
  rewrite add_stripped_line by (by apply Forall_cons in Hl as [? _]).
  change (foldl add_issue ∅ (status_line <$> s :: l) = list_to_map (omap issue (s :: l))).
  rewrite issues_fold; [apply map_union_empty|done|done|]. intros s' _. apply lookup_empty.
Qed.

Lemma no_issue l : Forall submodule_ok l ->
  (list_to_map (omap issue l) : gmap str str) = ∅ <-> Forall (fun s => sm_state s = 32) l.
Proof.
  intros Hl. assert (forall xs : list (str * str), (list_to_map xs : gmap str str) = ∅ <-> xs = []) as ->.
  { intros [|[p m] xs]; [done|]. split; [|done]. cbn. by intros ?%insert_non_empty. }
  induction Hl as [|s l Hs Hl IH]; [done|]. rewrite Forall_cons, <- IH.
  cbn [omap list_omap]. assert (Hst := sm_state_ok s Hs). rewrite !elem_of_cons, elem_of_nil in Hst. unfold issue.
  destruct Hst as [->|[->|[->|[->|[]]]]]; cbn; (split; [done|by intros [? ?]]).
Qed.

End lines.

(** ** [pre_build] *)

Section checks.
Context (run : list str -> option str -> Machine -> process * Machine).
Context (home : option str) (home_of : str -> option str) (base_dir : str).
Implicit Types w : Machine.

Definition config_file : str := lit "/usr/local/yalantinglibs/lib/cmake/yalantinglibs/config.cmake".
Definition cmake_prefix_path : str := lit "CMAKE_PREFIX_PATH".
Definition git_status : list str := [lit "git"; lit "submodule"; lit "status"].
Definition dependencies_script : list str := [lit "sh"; lit "third_party/dependencies.sh"].

Lemma normpath_nonempty p : normpath p <> [].
Proof. unfold normpath. case_bool_decide; [done|]. cbv zeta. by case_bool_decide. Qed.

Lemma missing_spec w : collect_missing_dependencies home home_of get_required_dependency_files w = [] <-> isfile config_file w = true.
Proof.
  assert (normalized home home_of config_file w = config_file) as E by reflexivity.
  unfold collect_missing_dependencies, get_required_dependency_files, is_dependency_installed.
  cbn [omap list_omap fmap list_fmap forallb]. fold config_file. rewrite !E. by destruct (isfile config_file w).
Qed.

Lemma merge_spec w l merged : NoDup merged ->
  NoDup (foldl (merge_path home home_of w) merged l) /\
  forall p, p ∈ foldl (merge_path home home_of w) merged l <->
    p ∈ merged \/ exists q, q ∈ l /\ q <> [] /\ p = normalized home home_of q w.
Proof.
  revert merged. induction l as [|q l IH]; intros merged Hnd; cbn [foldl].
  { split; [done|]. intros p. split; [by left|]. intros [?|(q & ?%elem_of_nil & _)]; done. }
  assert (NoDup (merge_path home home_of w merged q) /\ forall p, p ∈ merge_path home home_of w merged q <->
    p ∈ merged \/ q <> [] /\ p = normalized home home_of q w) as [Hnd' Hq].
  { unfold merge_path. case_bool_decide as Hn; [split; [done|]; intros p; tauto|]. cbv zeta.
    rewrite bool_decide_false by (apply normpath_nonempty). cbn [negb andb]. case_bool_decide as Hin; cbn [negb].
    - split; [done|]. intros p. split; [by left|]. intros [?|[_ ->]]; done.
    - split; [|intros p; rewrite elem_of_app, list_elem_of_singleton; tauto].
      apply NoDup_app. split; [done|]. split; [|apply NoDup_singleton]. by intros p Hp ->%list_elem_of_singleton. }
  destruct (IH _ Hnd') as [Hd He]. split; [done|]. intros p. rewrite He, Hq. split.
  - intros [[?|[? ->]]|(q' & ? & ? & ->)]; [by left|right; exists q; repeat split; [by left|done]|].
    right. exists q'. repeat split; [by right|done].
  - intros [?|(q' & [->|?]%elem_of_cons & ? & ->)]; [by left; left|by left; right|]. right. by exists q'.
Qed.

(** The path list after the export, from that before. *)
Definition exported (w w' : Machine) : Prop :=
  exists paths, w' = mkMachine (<[cmake_prefix_path := join_with (lit ":") paths]> (environ w)) (getcwd w) (files w) (others w) /\
    NoDup paths /\ forall p, p ∈ paths <-> p = prefix \/ exists q,
      q ∈ split_on 58 (default [] (environ w !! cmake_prefix_path)) /\ q <> [] /\ p = normalized home home_of q w.

Lemma export_spec w : exported w (export_cmake_prefix_paths home home_of [prefix] w).
Proof.
  unfold export_cmake_prefix_paths. fold cmake_prefix_path.
  set (old := split_on 58 (default [] (environ w !! cmake_prefix_path))).
  destruct (merge_spec w old []) as [Hd1 H1]; [constructor|]. destruct (merge_spec w [prefix] _ Hd1) as [Hd2 H2].
  set (paths := foldl _ (foldl _ [] old) [prefix]) in *.
  assert (normalized home home_of prefix w = prefix) as Ep by reflexivity.
  assert (forall p, p ∈ paths <-> p = prefix \/ exists q, q ∈ old /\ q <> [] /\ p = normalized home home_of q w) as Hp.
  { intros p. rewrite H2, H1. split.
    - intros [[?%elem_of_nil|?]|(q & ->%list_elem_of_singleton & _ & ->)]; [done|by right|by left].
    - intros [->|?]; [right; exists prefix; split; [by left|by split]|by left; right]. }
  rewrite bool_decide_false; [exists paths; done|]. intros E. assert (prefix ∈ paths) as Hin by (apply Hp; by left).
  rewrite E in Hin. by apply elem_of_nil in Hin.
Qed.

Lemma ensure_spec w :
  let '(r, w') := ensure_prebuild_dependencies_installed run home home_of base_dir w in
  (r = Raise (SystemExit 1) /\ isfile config_file w = false /\
    forall out err w2, run dependencies_script (Some base_dir) w = (Exited 0 out err, w2) -> isfile config_file w2 = false) \/
  (r = Done tt /\ exists w2, isfile config_file w2 = true /\ exported w2 w' /\
    (w2 = w \/ exists out err, run dependencies_script (Some base_dir) w = (Exited 0 out err, w2))).
Proof.
  unfold ensure_prebuild_dependencies_installed. pose proof (missing_spec w) as Hm. case_bool_decide as Hc.
  { right. split; [done|]. exists w. split; [by apply Hm|]. split; [apply export_spec|by left]. }
  assert (isfile config_file w = false) as Hf by (destruct (isfile config_file w); [by destruct Hc; apply Hm|done]).
  unfold run_dependencies_script_or_exit, run_shell_command, run_command. fold dependencies_script.
  destruct (run dependencies_script (Some base_dir) w) as [[code out err|msg] w1] eqn:Er; cbn [andb].
  2: { left. split; [done|]. by split. }
  destruct (Z.eqb_spec code 0) as [->|Hcode]; cbn [negb].
  2: { left. split; [done|]. split; [done|]. intros ? ? ? [= ? ? ? ?]. done. }
  pose proof (missing_spec w1) as Hm1. case_bool_decide as Hc1.
  - right. split; [done|]. exists w1. split; [by apply Hm1|]. split; [apply export_spec|]. right. by do 2 eexists.
  - left. split; [done|]. split; [done|]. intros ? ? ? [= <- <- <-]. destruct (isfile config_file w1); [by destruct Hc1; apply Hm1|done].
Qed.

(** C40: The checks before a build.  Let git report the submodules [l].  Then
    [pre_build] returns or exits with 1.  It returns exactly if every submodule
    is at its commit and the file of the library is there, at once or after its
    script ran without an error; and then [CMAKE_PREFIX_PATH] has the prefix of
    the library and the paths it had, made absolute, each once. *)
Theorem pre_build_checks (l : list submodule) w w1 (err : str) :
  Forall submodule_ok l -> NoDup (sm_path <$> l) ->
  run git_status (Some base_dir) w = (Exited 0 (status_output l) err, w1) ->
  let '(r, w') := pre_build run home home_of base_dir w in
  (r = Done tt \/ r = Raise (SystemExit 1)) /\
  (r = Done tt <-> Forall (fun s => sm_state s = 32) l /\
     (isfile config_file w1 = true \/ exists out err w2,
        run dependencies_script (Some base_dir) w1 = (Exited 0 out err, w2) /\ isfile config_file w2 = true)) /\
  (r = Done tt -> exists w2, isfile config_file w2 = true /\ exported w2 w' /\
     (w2 = w1 \/ exists out err, run dependencies_script (Some base_dir) w1 = (Exited 0 out err, w2))).
Proof.
  intros Hl Hnd Hg. unfold pre_build, validate_submodules_or_exit, collect_submodule_init_issues, run_git_command, run_command.
  fold git_status. rewrite Hg. cbn [andb negb Z.eqb]. rewrite issues_exact by done. pose proof (no_issue l Hl) as Hn.
  case_bool_decide as Hi.
  2: { split; [by right|]. split; [|done]. split; [done|]. intros [? _]. destruct Hi. by apply Hn. }
  pose proof (ensure_spec w1) as He. destruct (ensure_prebuild_dependencies_installed _ _ _ _ w1) as [r w'].
  destruct He as [(-> & Hf & Hs)|(-> & w2 & Hf & Hx & Hw)].
  - split; [by right|]. split; [|done]. split; [done|]. intros [_ [?|(? & ? & w2 & E & ?)]]; [congruence|].
    rewrite (Hs _ _ _ E) in *. done.
  - split; [by left|]. split; [|intros _; by exists w2]. split; [|done]. intros _. split; [by apply Hn|].
    destruct Hw as [->|(out & err' & E)]; [by left|]. right. by exists out, err', w2.
Qed.

End checks.

(** ** The build commands of [setup.py] *)

(** The commands of [ExtBuild.build_cmake_targets] in order.  [base_build_args]
    is the same list object as [build_args], which [+=] extends in place. *)
Definition build_cmake_targets (base_dir ext_name : str) (cmake_args build_args : list str) (BUILD_EXPORT BUILD_TEST_FILE : bool)
    : list (list str) :=
  let cmake_build := [lit "cmake"; lit "--build"; lit "."; lit "--verbose"] in
  let build_args := build_args ++ [lit "--target"; ext_name; lit "parakv"] in
  let base_build_args := build_args in
  [lit "cmake" :: base_dir :: cmake_args; cmake_build ++ build_args] ++
  (if BUILD_EXPORT then [cmake_build ++ base_build_args ++ [lit "--target export_module"]] else []) ++
  (if BUILD_TEST_FILE then [cmake_build ++ base_build_args ++ [lit "--target all_tests"]] else []).

(** The command that builds the tests also has the first target, and its own
    target and the option are one argument. *)
Example tests_command_has_other_targets :
  last (build_cmake_targets (lit "/src") (lit "parakv") [] [lit "-j4"] false true) =
    Some (lit <$> ["cmake"; "--build"; "."; "--verbose"; "-j4"; "--target"; "parakv"; "parakv"; "--target all_tests"]).
Proof. reflexivity. Qed.

(** ** A run *)

Definition demo_submodules : list submodule :=
  [mkSubmodule 32 (lit "0a1b2c") (lit "third_party/brpc") (Some (lit "heads/main"));
   mkSubmodule 32 (lit "9f8e7d") (lit "third_party/xxHash") None].

Definition demo_machine : Machine :=
  mkMachine {[cmake_prefix_path := lit "/opt/x:~/y::/opt/x/../x/."; lit "HOME" := lit "/root/"]} (lit "/src") ∅ ∅.

(** git reports [l]; the script installs the library. *)
Definition demo_run (l : list submodule) (args : list str) (cwd : option str) (w : Machine) : process * Machine :=
  if bool_decide (args = git_status) then (Exited 0 (status_output l) [], w)
  else (Exited 0 [] [], mkMachine (environ w) (getcwd w) (<[config_file := []]> (files w)) (others w)).

Definition path_list (r : ended unit * Machine) : option str :=
  match r with (Done _, w) => environ w !! cmake_prefix_path | (Raise _, _) => None end.

Example demo_builds :
  path_list (pre_build (demo_run demo_submodules) None (fun _ => None) (lit "/src") demo_machine) =
    Some (lit "/opt/x:/root/y:/usr/local/yalantinglibs").
Proof. vm_compute. reflexivity. Qed.

Lemma demo_submodules_ok : Forall submodule_ok demo_submodules.
Proof.
  repeat constructor; cbn; try (vm_compute; repeat constructor; discriminate); try lia; try discriminate.
  intros d [= <-]. vm_compute. repeat constructor.
Qed.

Lemma pre_build_checks_witness :
  exists w', pre_build (demo_run demo_submodules) None (fun _ => None) (lit "/src") demo_machine = (Done tt, w') /\
    isfile config_file w' = true.
Proof.
  pose proof (pre_build_checks (demo_run demo_submodules) None (fun _ => None) (lit "/src") demo_submodules demo_machine
    demo_machine [] demo_submodules_ok) as H.
  destruct (pre_build (demo_run demo_submodules) None (fun _ => None) (lit "/src") demo_machine) as [r w'].
  destruct H as (_ & Hr & Hw); [apply (bool_decide_unpack _); vm_compute; exact I|reflexivity|].
  assert (r = Done tt) as ->.
  { apply Hr. split; [repeat constructor|]. right. exists [], []. eexists. split; [reflexivity|reflexivity]. }
  exists w'. split; [reflexivity|]. destruct (Hw eq_refl) as (w2 & Hf & (paths & -> & _) & _). exact Hf.
Defined.
